(* ===== verification/_CoqProject ===== *)
-Q . S2P
Prelude.v
Riscv.v
Mem.v
Ring.v
Window.v
State.v
Sched.v
Spinlock.v
Bytes.v
Bio.v
Walk.v
Printf.v
Console.v
Swap.v
Kalloc.v
Vm.v
Mm.v
Uvm.v
Log.v
Fs.v
File.v
Proc.v
Syscall.v
Sysfile.v
Trap.v
Machine.v
Paging.v
Unmap.v
Grow.v
Uvmalloc.v
Uvmcopy.v
Ipc.v
Umalloc.v
Ulib.v
Text.v
Sh.v
Virtio.v
VirtioInv.v
VirtioSpec.v
Csr.v
Boot.v
Plic.v
Main.v
Findings.v
Cache.v
Fsread.v
Fswrite.v
Writei.v
Dirlink.v
Uprog.v
Uspec.v
Ush.v
