(* ===== verification/Prelude.v ===== *)
(** * Verification of the xv6 kernel with page replacement

    This library models xv6-riscv, a small Unix-like kernel in C, as extended
    in this repository with a swap area, an LRU list of user pages and a clock
    algorithm that evicts pages when memory runs out (src/xv6-riscv/kernel),
    together with its shell, user library and user programs (src/xv6-riscv/user).

    ** How the code is embedded

    A kernel function is a Rocq function over the record of the kernel's global
    variables ([kstate], State.v), in a monad of outcomes ([M], below):
    [Ok v s] for a return, [Panic msg] for panic(), [Block s] when the calling
    thread goes to sleep or gives up the CPU in state [s], and [NoFuel] when a
    loop with a fuel argument ran out of it.  Memory is a map from physical
    addresses to bytes and pointers are addresses; the free list, page tables
    and user pages live in it.  C integers are in [Z], with the reduction to
    their width written out where arithmetic can leave it.  Every definition is
    executable.

    A sleeping thread ends a run: a [Block] outcome is the state in which other
    threads continue, and the thread that is woken starts again from its loop
    test.  Sched.v has one hart running with the set of locks it holds;
    Spinlock.v has the locks as the C code implements them on several harts,
    and shows that the two agree.

    A user program is an interaction tree of the system calls it makes (the
    ITree library), so that init and the shell, which do not end, are programs
    like the others.

    Fuel: for the loops over linked lists, rings, strings and byte counts the
    fuel is a bound on the steps that the data gives, computed from the
    arguments: the bytes asked for, the length of the buffer, NPROC, NBUF, the
    number of page frames.  The theorems establish [Ok] (or [Block], or the
    panic) as the outcome, so that they also show the fuel was enough; the
    clock is given two turns of the list and is shown to need one turn and one
    step.

    ** The parts

    - Prelude.v: integers, the monad with weakest-precondition rules ([wp]),
      tactics and hint databases.
    - Riscv.v: riscv.h, memlayout.h, param.h; page rounding, Sv39 indices and
      page-table entries.  Mem.v: memory and string.c.  Ring.v, Window.v:
      circular lists and ring buffers, shared by several components.
      Bytes.v: little-endian fields of disk blocks.
    - State.v: the structs and global variables.
    - Sched.v, Spinlock.v: spinlock.c, sleeplock.c, and sleep(), wakeup() and
      sched() of proc.c.
    - Bio.v: bio.c, the buffer cache.  Swap.v: swapread() and swapwrite() of
      fs.c, on top of it.
    - Walk.v: walk() and the copies between user and kernel memory of vm.c.
      Kalloc.v: kalloc.c, the allocator, the LRU list, the clock, swap_out().
      Vm.v: the rest of vm.c, swap-in included.
    - Mm.v: the memory invariant [mm_inv] and the view of an address space that
      hides where a page is; proofs about Kalloc.v.  Uvm.v: proofs about
      swap_in().  Unmap.v, Grow.v, Uvmalloc.v, Uvmcopy.v: proofs about the
      functions of Vm.v that remove, add and copy pages.
    - Virtio.v: virtio_disk.c, its threads, its handler and the device as steps
      that interleave; VirtioInv.v: their invariant; VirtioSpec.v: the contract
      of virtio_disk_rw() that Bio.v takes, implemented by them.
    - Log.v: log.c, against the interface [LogEnv] of what it uses of the
      buffer cache; one instance is the cache of Bio.v, the other an abstract
      disk with the list of writes that reached it.
    - Fs.v: fs.c.  File.v: file.c and pipe.c.  Proc.v: proc.c.  Syscall.v:
      argument fetching of syscall.c, and exec.c.  Sysfile.v: sysfile.c,
      sysproc.c and the dispatch of syscall.c.  Trap.v: trap.c.
    - Cache.v: the contents of a device as the buffer cache shows them.  Fsread.v,
      Fswrite.v, Writei.v, Dirlink.v: proofs about reading, allocating, writing
      and linking in Fs.v, over that view and inside transactions of the log.
    - Csr.v: the register accessors of riscv.h, privilege modes, mret, sret and
      trap entry.  Boot.v: start.c, and the registers around Trap.v.  Plic.v:
      plic.c.  Main.v: main.c on all harts, and the init functions only it calls.
    - Printf.v, Console.v: printf.c of kernel and user library; uart.c and
      console.c.
    - Umalloc.v: umalloc.c, malloc() and free() over the memory of a process.
      Ulib.v: the string routines of ulib.c.  Text.v: the matcher of
      grep.c and the counting of wc.c.  Sh.v: the parser of sh.c, and what the
      commands it runs are.
    - Uprog.v: cat.c, wc.c, grep.c, echo.c, kill.c, ln.c, mkdir.c, rm.c, ls.c,
      zombie.c and init.c, and stat() of ulib.c.  Uspec.v: what the kernel
      promises them ([kernel], [ends]), protocols ([keeps]), and proofs.
      Ush.v: runcmd() and main() of sh.c as such programs.
    - Machine.v: a small concrete machine (one process, a swapped-out page, no
      free memory) that satisfies the memory invariant; the hypotheses of the
      theorems are shown satisfiable on it.  Paging.v and Ipc.v: the main
      theorems on memory and on pipes and sleeping, with their instances.

    ** What the theorems show

    - Page replacement is invisible: swap_out(), kalloc(), swap_in() and the
      page fault of usertrap() preserve [mm_inv] and change the contents and the
      permissions of no page of any address space; the clock terminates and
      gives second chances; slots round-trip; kinit() establishes [mm_inv].
    - Address spaces: uvmalloc() grows one by zeroed pages, or takes back what it
      added when memory runs out; uvmcopy() gives the child the parent's pages;
      uvmdealloc() frees the frames and slots of the pages it removes.  No other
      page of any process changes.
    - The disk driver refines its contract, never confuses the device or panics,
      and never deadlocks.
    - Files: readi(), writei(), dirlookup() and dirlink() read and write the
      bytes and the names of files, whatever is cached, within the room of the
      log; filewrite()'s chunks fit that room.
    - Start-up: no hart uses what hart 0 has not initialised; supervisor mode
      gets its interrupts, the timer goes on, kerneltrap() returns to what it
      interrupted, usertrapret() enters user mode, the interrupt controller gives
      each interrupt to one hart.
    - The log is atomic: after every prefix of the writes of commit(), recovery
      gives the old or the new disk; recovery can be interrupted and repeated;
      log_write() and begin_op() keep the log's bounds.
    - Locks exclude, keep interrupts off and nest; the held-lock list of Sched.v
      is refined by the code of spinlock.c.  No wakeup is lost between sleep()
      and wakeup().
    - Pipes are bounded queues; kill(), the scheduler and reparent() do what
      they say on every process; the inode table has no duplicates; the block
      bitmap scan finds the first free block; paths, directory entries and
      on-disk inodes encode and decode.
    - Formatting and parsing of integers, and the console's line discipline.
    - The user allocator keeps free and used blocks disjoint and loses none;
      the shell's parser terminates, inverts printing and cuts the line into its
      words, and the programs it starts have only their standard descriptors;
      grep's matcher decides the language of its pattern.
    - The user programs: cat, wc and grep end and write what they should however
      reads divide their input; a line of the shell starts the programs of its
      command; the shell's main loop and init keep their protocols whatever the
      kernel answers.

    ** Not modelled

    - The assembly files: entry.S, kernelvec.S, trampoline.S, swtch.S and
      initcode.S.  Csr.v has the instructions of theirs that the C code depends
      on (mret, sret, the entry of a trap).
    - Weak memory and interleavings inside a critical section, outside
      Spinlock.v: a kernel function runs to its end, to a panic or to the
      point where its thread sleeps.
    - pr.lock of printf(), procdump()'s race, timing.
    - The test programs (usertests.c, forktest.c, grind.c, stressfs.c, pa4test.c,
      swaptest.c), which are tests of the system, and usys.pl, which generates
      the stubs of the system calls.  The shell's constructors are taken to get
      their memory from malloc(). *)
From Stdlib Require Export ZArith Lia.
From stdpp Require Export base tactics numbers list list_numbers gmap strings.
From Stdlib Require Export ssreflect.
#[global] Open Scope general_if_scope.
#[global] Open Scope Z_scope.

(** ** Machine integers

    Values of the C integer types are integers in [Z]; arithmetic that can
    leave the width is followed by one of these reductions. *)

Definition u8 (x : Z) : Z := x mod 2 ^ 8.
Definition u16 (x : Z) : Z := x mod 2 ^ 16.
Definition u32 (x : Z) : Z := x mod 2 ^ 32.
Definition u64 (x : Z) : Z := x mod 2 ^ 64.
(** Two's complement reading of the low 32 bits: the value of an [int]. *)
Definition s32 (x : Z) : Z := (x + 2 ^ 31) mod 2 ^ 32 - 2 ^ 31.
(** A [short]. *)
Definition s16 (x : Z) : Z := (x + 2 ^ 15) mod 2 ^ 16 - 2 ^ 15.

(** [v & m] used as a C condition. *)
Definition tst (v m : Z) : bool := negb (Z.land v m =? 0).

(** The bytes of a C string literal, without its NUL. *)
Definition str (s : string) : list Z :=
  (λ c, Z.of_N (Ascii.N_of_ascii c)) <$> String.list_ascii_of_string s.

(** ** Outcomes and the kernel monad

    A C function that works on the state [S] is a function from the state to
    an outcome.  [Panic] is a call of panic(), [Block] a thread that gives up the
    CPU (it sleeps, exits or waits for a lock) with the state it leaves behind,
    [NoFuel] a loop that did not finish within the bound given to it. *)

Inductive outcome (S A : Type) : Type :=
| Ok (a : A) (s : S)
| Panic (msg : string)
| Block (s : S)
| NoFuel.
Arguments Ok {S A} a s.
Arguments Panic {S A} msg.
Arguments Block {S A} s.
Arguments NoFuel {S A}.

Definition M (S A : Type) : Type := S → outcome S A.

Definition ret {S A} (a : A) : M S A := λ s, Ok a s.
Definition bind {S A B} (m : M S A) (k : A → M S B) : M S B := λ s,
  match m s with
  | Ok a s' => k a s'
  | Panic msg => Panic msg
  | Block s' => Block s'
  | NoFuel => NoFuel
  end.

Declare Scope kernel_scope.
Notation "x ← m ; k" := (bind m (λ x, k))
  (at level 20, m at level 100, k at level 200, only parsing) : kernel_scope.
Notation "m ;; k" := (bind m (λ _, k)) (at level 100, k at level 200, right associativity) : kernel_scope.
#[global] Open Scope kernel_scope.

Section monad_ops.
Context {S : Type}.

Definition get : M S S := λ s, Ok s s.
Definition gets {A} (f : S → A) : M S A := λ s, Ok (f s) s.
Definition modify (f : S → S) : M S unit := λ s, Ok tt (f s).
Definition panic {A} (msg : string) : M S A := λ _, Panic msg.
Definition block {A} : M S A := λ s, Block s.
Definition when (b : bool) (m : M S unit) : M S unit := if b then m else ret tt.

(** Following a pointer; a null one faults in the kernel, which kerneltrap()
    turns into a panic. *)
Definition deref {A} (o : option A) : M S A :=
  match o with Some a => ret a | None => panic "kerneltrap" end.

(** Iterate over a list of loop indices, left to right. *)
Fixpoint forM {A} (l : list A) (f : A → M S unit) : M S unit :=
  match l with
  | [] => ret tt
  | a :: l' => f a ;; forM l' f
  end.

(** [wp m Q s]: from [s], [m] returns (no panic, no blocking, no missing
    fuel) and its result and final state satisfy [Q]. *)
Definition wp {A} (m : M S A) (Q : A → S → Prop) (s : S) : Prop :=
  ∃ a s', m s = Ok a s' ∧ Q a s'.

Lemma wp_ret {A} (a : A) Q s : Q a s → wp (ret a) Q s.
Proof. by exists a, s. Qed.

Lemma wp_bind {A B} (m : M S A) (k : A → M S B) Q s :
  wp m (λ a s', wp (k a) Q s') s → wp (bind m k) Q s.
Proof.
  intros (a & s' & Hm & b & s'' & Hk & HQ). exists b, s''.
  split; [|done]. by rewrite /bind Hm.
Qed.

Lemma wp_mono {A} (m : M S A) (Q R : A → S → Prop) s :
  wp m Q s → (∀ a s', Q a s' → R a s') → wp m R s.
Proof. intros (a & s' & ? & ?) HQR. exists a, s'. auto. Qed.

Lemma wp_get Q (s : S) : Q s s → wp get Q s.
Proof. by exists s, s. Qed.

Lemma wp_gets {A} (f : S → A) Q s : Q (f s) s → wp (gets f) Q s.
Proof. by exists (f s), s. Qed.

Lemma wp_modify f Q (s : S) : Q tt (f s) → wp (modify f) Q s.
Proof. by exists tt, (f s). Qed.

Lemma wp_deref {A} (a : A) Q s : Q a s → wp (deref (Some a)) Q s.
Proof. apply wp_ret. Qed.

Lemma wp_when b m Q (s : S) :
  (b = true → wp m Q s) → (b = false → Q tt s) → wp (when b m) Q s.
Proof. destruct b; [auto|]. intros _ H. apply wp_ret. auto. Qed.

Lemma wp_eq {A} (m : M S A) Q s a s' : m s = Ok a s' → Q a s' → wp m Q s.
Proof. intros. by exists a, s'. Qed.

Lemma wp_forM {A} (l : list A) (f : A → M S unit) (I : list A → S → Prop) s :
  I [] s →
  (∀ l1 a l2 s', l = l1 ++ a :: l2 → I l1 s' →
     wp (f a) (λ _ s'', I (l1 ++ [a]) s'') s') →
  wp (forM l f) (λ _ s', I l s') s.
Proof.
  intros H0 Hstep.
  enough (∀ l2 l1 s', l = l1 ++ l2 → I l1 s' →
            wp (forM l2 f) (λ _ s'', I l s'') s') as Hgen.
  { by apply (Hgen l []). }
  induction l2 as [|a l2 IH]; intros l1 s' Hl HI.
  - apply wp_ret. by rewrite Hl app_nil_r.
  - apply wp_bind. eapply wp_mono; [by apply (Hstep l1 a l2)|]. intros [] s'' HI'.
    apply (IH (l1 ++ [a])); [|done]. by rewrite -app_assoc.
Qed.
End monad_ops.

#[global] Arguments wp : simpl never.

(** One step of symbolic execution of a monadic program. *)
Ltac wp_step :=
  match goal with
  | |- wp (bind _ _) _ _ => apply wp_bind
  | |- wp (ret _) _ _ => apply wp_ret
  | |- wp get _ _ => apply wp_get
  | |- wp (gets _) _ _ => apply wp_gets
  | |- wp (deref (Some _)) _ _ => apply wp_deref
  | |- wp (modify _) _ _ => apply wp_modify
  | |- wp (when true _) _ _ => rewrite /when
  | |- wp (when false _) _ _ => rewrite /when
  | |- wp (if ?b then _ else _) _ _ => let E := fresh "E" in destruct b eqn:E
  end.
Ltac wp_steps := repeat (wp_step; cbn beta).
Tactic Notation "wp_use" uconstr(H) := eapply wp_mono; [eapply H|cbn beta].

(** [lia] after the quotients and remainders are turned into equations. *)
Ltac dlia := Z.to_euclidean_division_equations; lia.

(** ** Shared lemmas on lists *)

Lemma filter_not_in {A} `{EqDecision A} (l : list A) x : x ∉ l → filter (λ y, y ≠ x) l = l.
Proof.
  induction l as [|y l IH]; [done|]. intros [??]%not_elem_of_cons.
  rewrite filter_cons_True; [congruence|]. by rewrite IH.
Qed.

(** ** Shared lemmas on integers *)

Create HintDb xv6.

Lemma u8_range x : 0 ≤ u8 x < 256.
Proof. apply (Z.mod_pos_bound x 256). lia. Qed.
Lemma u32_range x : 0 ≤ u32 x < 2 ^ 32.
Proof. apply Z.mod_pos_bound. lia. Qed.
Lemma u64_range x : 0 ≤ u64 x < 2 ^ 64.
Proof. apply Z.mod_pos_bound. lia. Qed.
Lemma u8_id x : 0 ≤ x < 256 → u8 x = x.
Proof. apply Z.mod_small. Qed.
Lemma u32_id x : 0 ≤ x < 2 ^ 32 → u32 x = x.
Proof. apply Z.mod_small. Qed.
Lemma u64_id x : 0 ≤ x < 2 ^ 64 → u64 x = x.
Proof. apply Z.mod_small. Qed.
Lemma s32_id x : - 2 ^ 31 ≤ x < 2 ^ 31 → s32 x = x.
Proof. intros. rewrite /s32 Z.mod_small; lia. Qed.
Lemma s32_range x : - 2 ^ 31 ≤ s32 x < 2 ^ 31.
Proof. rewrite /s32. pose proof (Z.mod_pos_bound (x + 2 ^ 31) (2 ^ 32)). lia. Qed.

#[export] Hint Resolve u8_range u32_range u64_range s32_range : xv6.
#[export] Hint Rewrite u8_id u32_id u64_id s32_id using lia : xv6.

(** Bits of a number below [2^n]. *)
Lemma testbit_high x n i : 0 ≤ x < 2 ^ n → n ≤ i → Z.testbit x i = false.
Proof.
  intros Hx Hi. destruct (Z.eq_dec x 0) as [->|]; [by rewrite Z.testbit_0_l|].
  apply Z.bits_above_log2; [lia|].
  assert (Z.log2 x < n) by (apply Z.log2_lt_pow2; lia). lia.
Qed.

Lemma lor_range a b n : 0 ≤ n → 0 ≤ a < 2 ^ n → 0 ≤ b < 2 ^ n → 0 ≤ Z.lor a b < 2 ^ n.
Proof.
  intros Hn Ha Hb. assert (0 ≤ Z.lor a b) as H0 by (apply Z.lor_nonneg; lia).
  split; [done|]. destruct (Z.eq_dec (Z.lor a b) 0) as [->|]; [lia|].
  destruct (Z.eq_dec a 0) as [->|]; [rewrite Z.lor_0_l; lia|].
  destruct (Z.eq_dec b 0) as [->|]; [rewrite Z.lor_0_r; lia|].
  apply Z.log2_lt_pow2; [lia|]. rewrite Z.log2_lor; [lia..|].
  apply Z.max_lub_lt; apply Z.log2_lt_pow2; lia.
Qed.

Lemma land_range_l a b : 0 ≤ a → 0 ≤ Z.land a b ≤ a.
Proof.
  intros Ha. split; [apply Z.land_nonneg; lia|].
  assert (Z.land a b + Z.ldiff a b = a) as H.
  { rewrite Z.add_nocarry_lxor; apply Z.bits_inj'; intros n Hn;
      rewrite ?Z.lxor_spec ?Z.land_spec ?Z.ldiff_spec ?Z.bits_0;
      by destruct (Z.testbit a n), (Z.testbit b n). }
  assert (0 ≤ Z.ldiff a b) by (apply Z.ldiff_nonneg; lia). lia.
Qed.

Lemma tst_bit v n : 0 ≤ n → tst v (2 ^ n) = Z.testbit v n.
Proof.
  intros Hn. rewrite /tst.
  destruct (Z.eqb_spec (Z.land v (2 ^ n)) 0) as [H|H]; simpl.
  - assert (Z.testbit (Z.land v (2 ^ n)) n = false) as Hb by (rewrite H; apply Z.bits_0).
    rewrite Z.land_spec Z.pow2_bits_true in Hb; [lia|]. by rewrite andb_true_r in Hb.
  - destruct (Z.testbit v n) eqn:E; [done|]. exfalso. apply H. apply Z.bits_inj'.
    intros i Hi. rewrite Z.land_spec Z.bits_0.
    destruct (Z.eq_dec i n) as [->|]; [by rewrite E|].
    rewrite Z.pow2_bits_false; [lia|]. by rewrite andb_false_r.
Qed.
