(* ===== verification/Riscv.v ===== *)
(** Constants and address arithmetic of kernel/riscv.h, kernel/memlayout.h,
    kernel/param.h and kernel/fs.h: page rounding, the Sv39 page-table indices
    and the packing of page-table entries, with the lemmas that say the
    packing loses nothing. *)
From S2P Require Import Prelude.

(** ** kernel/param.h *)
Definition NPROC : nat := 64.
Definition NCPU : Z := 8.
Definition NOFILE : nat := 16.
Definition NFILE : nat := 100.
Definition NINODE : nat := 50.
Definition NDEV : Z := 10.
Definition ROOTDEV : Z := 1.
Definition MAXARG : Z := 32.
Definition MAXOPBLOCKS : Z := 10.
Definition LOGSIZE : Z := MAXOPBLOCKS * 3.
Definition NBUF : nat := 30.
Definition FSSIZE : Z := 30000.
Definition MAXPATH : Z := 128.
Definition USERSTACK : Z := 1.
Definition SWAPBASE : Z := 2000.
Definition SWAPMAX : Z := 30000 - SWAPBASE.

(** ** kernel/riscv.h: paging *)
Definition PGSIZE : Z := 4096.
Definition PGSHIFT : Z := 12.
Definition PGROUNDUP (sz : Z) : Z := Z.land (u64 (sz + PGSIZE - 1)) (Z.lnot (PGSIZE - 1)).
Definition PGROUNDDOWN (a : Z) : Z := Z.land a (Z.lnot (PGSIZE - 1)).

Definition PTE_V : Z := Z.shiftl 1 0.
Definition PTE_R : Z := Z.shiftl 1 1.
Definition PTE_W : Z := Z.shiftl 1 2.
Definition PTE_X : Z := Z.shiftl 1 3.
Definition PTE_U : Z := Z.shiftl 1 4.
Definition PTE_A : Z := Z.shiftl 1 6.
Definition PTE_S : Z := Z.shiftl 1 9.

Definition PA2PTE (pa : Z) : Z := u64 (Z.shiftl (Z.shiftr pa 12) 10).
Definition PTE2PA (pte : Z) : Z := u64 (Z.shiftl (Z.shiftr pte 10) 12).
Definition PTE_FLAGS (pte : Z) : Z := Z.land pte 1023.

Definition PXMASK : Z := 511.
Definition PXSHIFT (level : Z) : Z := PGSHIFT + 9 * level.
Definition PX (level va : Z) : Z := Z.land (Z.shiftr va (PXSHIFT level)) PXMASK.
Definition MAXVA : Z := Z.shiftl 1 (9 + 9 + 9 + 12 - 1).

Definition SATP_SV39 : Z := Z.shiftl 8 60.
Definition MAKE_SATP (pagetable : Z) : Z := Z.lor SATP_SV39 (Z.shiftr pagetable 12).

(** Fields of mstatus, sstatus, sie and mie. *)
Definition MSTATUS_MPP_MASK : Z := Z.shiftl 3 11.
Definition MSTATUS_MPP_S : Z := Z.shiftl 1 11.
Definition SSTATUS_SPP : Z := Z.shiftl 1 8.
Definition SSTATUS_SPIE : Z := Z.shiftl 1 5.
Definition SSTATUS_SIE : Z := Z.shiftl 1 1.
Definition SIE_SEIE : Z := Z.shiftl 1 9.
Definition SIE_STIE : Z := Z.shiftl 1 5.
Definition SIE_SSIE : Z := Z.shiftl 1 1.
Definition MIE_STIE : Z := Z.shiftl 1 5.

(** ** kernel/memlayout.h *)
Definition UART0 : Z := 268435456.
Definition UART0_IRQ : Z := 10.
Definition VIRTIO0 : Z := 268439552.
Definition VIRTIO0_IRQ : Z := 1.
Definition PLIC : Z := 201326592.
Definition KERNBASE : Z := 2147483648.
Definition PHYSTOP : Z := KERNBASE + 128 * 1024 * 1024.
Definition TRAMPOLINE : Z := MAXVA - PGSIZE.
Definition KSTACK (p : Z) : Z := TRAMPOLINE - (p + 1) * 2 * PGSIZE.
Definition TRAPFRAME : Z := TRAMPOLINE - PGSIZE.

(** ** kernel/fs.h *)
Definition BSIZE : Z := 1024.

(** ** Page rounding *)

Lemma land_lnot_low a : Z.land a (Z.lnot (PGSIZE - 1)) = a / 4096 * 4096.
Proof.
  rewrite -Z.ldiff_land. change (PGSIZE - 1) with (Z.ones 12).
  rewrite Z.ldiff_ones_r; [lia|]. by rewrite Z.shiftl_mul_pow2 // Z.shiftr_div_pow2.
Qed.

Lemma PGROUNDDOWN_eq a : PGROUNDDOWN a = a / 4096 * 4096.
Proof. apply land_lnot_low. Qed.

Lemma PGROUNDUP_eq sz :
  0 ≤ sz ≤ 2 ^ 64 - 4096 → PGROUNDUP sz = (sz + 4095) / 4096 * 4096.
Proof.
  intros H. rewrite /PGROUNDUP land_lnot_low u64_id; rewrite /PGSIZE; [lia|].
  by replace (sz + 4096 - 1) with (sz + 4095) by lia.
Qed.

Lemma PGROUNDUP_spec sz :
  0 ≤ sz ≤ 2 ^ 64 - 4096 →
  PGROUNDUP sz mod PGSIZE = 0 ∧ sz ≤ PGROUNDUP sz < sz + PGSIZE.
Proof. intros H. rewrite PGROUNDUP_eq; [lia|]. rewrite /PGSIZE. dlia. Qed.

Lemma PGROUNDDOWN_spec a :
  PGROUNDDOWN a mod PGSIZE = 0 ∧ PGROUNDDOWN a ≤ a < PGROUNDDOWN a + PGSIZE.
Proof. rewrite PGROUNDDOWN_eq /PGSIZE. dlia. Qed.

(** ** Page-table indices *)

Lemma PX_eq level va : 0 ≤ level → PX level va = va / 2 ^ (12 + 9 * level) mod 512.
Proof.
  intros Hl. rewrite /PX /PXSHIFT /PGSHIFT /PXMASK. change 511 with (Z.ones 9).
  rewrite Z.land_ones; [lia|]. by rewrite Z.shiftr_div_pow2; [lia|].
Qed.

Lemma PX_range level va : 0 ≤ level → 0 ≤ PX level va < 512.
Proof. intros. rewrite PX_eq //. apply Z.mod_pos_bound. lia. Qed.

(** A page-aligned address below MAXVA is given by its three indices. *)
Lemma PX_split va :
  0 ≤ va < MAXVA → va mod PGSIZE = 0 →
  va = PX 2 va * 2 ^ 30 + PX 1 va * 2 ^ 21 + PX 0 va * 2 ^ 12.
Proof.
  rewrite !PX_eq // /PGSIZE. change MAXVA with 274877906944.
  change (2 ^ (12 + 9 * 0)) with 4096. change (2 ^ (12 + 9 * 1)) with 2097152.
  change (2 ^ (12 + 9 * 2)) with 1073741824. dlia.
Qed.

(** ** Page-table entries *)

Lemma PTE_FLAGS_eq pte : PTE_FLAGS pte = pte mod 1024.
Proof. rewrite /PTE_FLAGS. change 1023 with (Z.ones 10). by rewrite Z.land_ones. Qed.

Lemma PTE_FLAGS_range pte : 0 ≤ PTE_FLAGS pte < 1024.
Proof. rewrite PTE_FLAGS_eq. dlia. Qed.

Lemma PTE2PA_eq pte : 0 ≤ pte < 2 ^ 62 → PTE2PA pte = pte / 1024 * 4096.
Proof.
  intros. rewrite /PTE2PA Z.shiftl_mul_pow2 // Z.shiftr_div_pow2 // u64_id; dlia.
Qed.

Lemma PTE2PA_aligned pte : PTE2PA pte mod PGSIZE = 0.
Proof.
  rewrite /PTE2PA /u64 Z.shiftl_mul_pow2 // /PGSIZE. dlia.
Qed.

Lemma PTE2PA_range pte : 0 ≤ PTE2PA pte < 2 ^ 64.
Proof. apply u64_range. Qed.

Lemma PA2PTE_eq pa : 0 ≤ pa < 2 ^ 64 → PA2PTE pa = pa / 4096 * 1024.
Proof.
  intros. rewrite /PA2PTE Z.shiftl_mul_pow2 // Z.shiftr_div_pow2 // u64_id; dlia.
Qed.

(** [hi] packed above ten low bits [lo]. *)
Lemma pack_add hi lo : 0 ≤ lo < 1024 → Z.lor (hi * 1024) lo = hi * 1024 + lo.
Proof.
  intros H. rewrite (Z.add_nocarry_lxor (hi * 1024) lo).
  - apply Z.bits_inj'. intros n Hn. rewrite Z.land_spec Z.bits_0.
    change 1024 with (2 ^ 10). rewrite Z.mul_pow2_bits; [lia|].
    destruct (Z.ltb_spec n 10); [rewrite Z.testbit_neg_r //; lia|].
    rewrite (testbit_high lo 10); [lia..|]. by rewrite andb_false_r.
  - apply Z.bits_inj'. intros n Hn. rewrite Z.lor_spec Z.lxor_spec.
    change 1024 with (2 ^ 10). rewrite Z.mul_pow2_bits; [lia|].
    destruct (Z.ltb_spec n 10); [rewrite Z.testbit_neg_r //; lia|].
    rewrite (testbit_high lo 10); [lia..|]. by destruct (Z.testbit hi (n - 10)).
Qed.

(** A leaf entry built as [PA2PTE(pa) | flags] gives back both parts. *)
Lemma PTE_pack pa flags pte :
  0 ≤ pa < 2 ^ 56 → pa mod PGSIZE = 0 → 0 ≤ flags < 1024 →
  pte = Z.lor (PA2PTE pa) flags →
  0 ≤ pte < 2 ^ 62 ∧ PTE2PA pte = pa ∧ PTE_FLAGS pte = flags.
Proof.
  rewrite /PGSIZE. intros Hpa Hal Hf ->.
  rewrite PA2PTE_eq; [lia|]. rewrite pack_add; [lia|].
  split; [dlia|]. rewrite PTE2PA_eq; [dlia|]. rewrite PTE_FLAGS_eq. dlia.
Qed.

(** The flag tests only look at the low ten bits. *)
Lemma tst_flags pte n : 0 ≤ n < 10 → tst pte (Z.shiftl 1 n) = Z.testbit (PTE_FLAGS pte) n.
Proof.
  intros Hn. rewrite Z.shiftl_1_l tst_bit; [lia|]. rewrite /PTE_FLAGS Z.land_spec.
  change 1023 with (Z.ones 10). rewrite Z.ones_spec_low; [lia|]. by rewrite andb_true_r.
Qed.

Lemma flags_set_range f n : 0 ≤ n < 10 → 0 ≤ f < 1024 → 0 ≤ Z.lor f (Z.shiftl 1 n) < 1024.
Proof.
  intros Hn Hf. apply (lor_range f (Z.shiftl 1 n) 10); [lia..|].
  rewrite Z.shiftl_1_l. split; [lia|]. apply Z.pow_lt_mono_r; lia.
Qed.

Lemma flags_clear_range f n : 0 ≤ f < 1024 → 0 ≤ Z.land f (Z.lnot (Z.shiftl 1 n)) < 1024.
Proof. intros Hf. pose proof (land_range_l f (Z.lnot (Z.shiftl 1 n))). lia. Qed.

Lemma testbit_set f n m : 0 ≤ n → 0 ≤ m →
  Z.testbit (Z.lor f (Z.shiftl 1 n)) m = (m =? n) || Z.testbit f m.
Proof.
  intros. rewrite Z.lor_spec Z.shiftl_1_l. destruct (Z.eqb_spec m n) as [->|].
  - by rewrite Z.pow2_bits_true // orb_true_r.
  - rewrite Z.pow2_bits_false; [lia|]. by rewrite orb_false_r.
Qed.

Lemma testbit_clear f n m : 0 ≤ n → 0 ≤ m →
  Z.testbit (Z.land f (Z.lnot (Z.shiftl 1 n))) m = negb (m =? n) && Z.testbit f m.
Proof.
  intros. rewrite Z.land_spec Z.lnot_spec // Z.shiftl_1_l. destruct (Z.eqb_spec m n) as [->|].
  - by rewrite Z.pow2_bits_true // andb_false_r.
  - rewrite Z.pow2_bits_false; [lia|]. by rewrite andb_true_r.
Qed.
