(* ===== verification/Mem.v ===== *)
(** Physical memory as bytes, and the memory and string routines of
    kernel/string.c written as the loops they are.  A pointer is an address,
    a cell that was never written reads as zero. *)
From S2P Require Import Prelude.

(** ** Bytes and little-endian words *)

Definition ld8 (m : gmap Z Z) (a : Z) : Z := u8 (default 0 (m !! a)).
Definition st8 (m : gmap Z Z) (a v : Z) : gmap Z Z := <[a := u8 v]> m.

Fixpoint ld_le (n : nat) (m : gmap Z Z) (a : Z) : Z :=
  match n with
  | O => 0
  | S n' => ld8 m a + 256 * ld_le n' m (a + 1)
  end.
Fixpoint st_le (n : nat) (m : gmap Z Z) (a v : Z) : gmap Z Z :=
  match n with
  | O => m
  | S n' => st_le n' (st8 m a v) (a + 1) (v / 256)
  end.

Definition ld64 := ld_le 8.
Definition st64 := st_le 8.
Definition ld32 := ld_le 4.
Definition st32 := st_le 4.

(** The bytes of an object outside [mem] (a local variable, a disk buffer)
    are a list. *)
Fixpoint rd_bytes (m : gmap Z Z) (a : Z) (n : nat) : list Z :=
  match n with
  | O => []
  | S n' => ld8 m a :: rd_bytes m (a + 1) n'
  end.
Fixpoint wr_bytes (m : gmap Z Z) (a : Z) (l : list Z) : gmap Z Z :=
  match l with
  | [] => m
  | b :: l' => wr_bytes (st8 m a b) (a + 1) l'
  end.

(** ** kernel/string.c *)

(** for(i = 0; i < n; i++) cdst[i] = c; *)
Fixpoint memset_loop (k : nat) (m : gmap Z Z) (cdst c i : Z) : gmap Z Z :=
  match k with
  | O => m
  | S k' => memset_loop k' (st8 m (cdst + i) c) cdst c (i + 1)
  end.
Definition memset (m : gmap Z Z) (dst c n : Z) : gmap Z Z :=
  memset_loop (Z.to_nat n) m dst c 0.

(** while(n-- > 0): return the difference of the first bytes that differ *)
Fixpoint memcmp_loop (n : nat) (m : gmap Z Z) (s1 s2 : Z) : Z :=
  match n with
  | O => 0
  | S n' => if ld8 m s1 =? ld8 m s2 then memcmp_loop n' m (s1 + 1) (s2 + 1)
            else ld8 m s1 - ld8 m s2
  end.
Definition memcmp (m : gmap Z Z) (v1 v2 n : Z) : Z := memcmp_loop (Z.to_nat n) m v1 v2.

(** while(n-- > 0) *d++ = *s++; *)
Fixpoint copy_up (n : nat) (m : gmap Z Z) (d s : Z) : gmap Z Z :=
  match n with
  | O => m
  | S n' => copy_up n' (st8 m d (ld8 m s)) (d + 1) (s + 1)
  end.
(** while(n-- > 0) *--d = *--s; *)
Fixpoint copy_down (n : nat) (m : gmap Z Z) (d s : Z) : gmap Z Z :=
  match n with
  | O => m
  | S n' => copy_down n' (st8 m (d - 1) (ld8 m (s - 1))) (d - 1) (s - 1)
  end.
Definition memmove (m : gmap Z Z) (dst src n : Z) : gmap Z Z :=
  if n =? 0 then m
  else if (src <? dst) && (dst <? src + n)
  then copy_down (Z.to_nat n) m (dst + n) (src + n)
  else copy_up (Z.to_nat n) m dst src.
Definition memcpy (m : gmap Z Z) (dst src n : Z) : gmap Z Z := memmove m dst src n.

(** while(n > 0 && *p && *p == *q) n--, p++, q++; *)
Fixpoint strncmp_loop (n : nat) (m : gmap Z Z) (p q : Z) : Z :=
  match n with
  | O => 0
  | S n' =>
      if negb (ld8 m p =? 0) && (ld8 m p =? ld8 m q) then strncmp_loop n' m (p + 1) (q + 1)
      else ld8 m p - ld8 m q
  end.
Definition strncmp (m : gmap Z Z) (p q n : Z) : Z := strncmp_loop (Z.to_nat n) m p q.

(** while(n-- > 0) *s++ = 0; *)
Fixpoint zero_fill (n : nat) (m : gmap Z Z) (s : Z) : gmap Z Z :=
  match n with
  | O => m
  | S n' => zero_fill n' (st8 m s 0) (s + 1)
  end.
(** while(n-- > 0 && ( *s++ = *t++) != 0) ; then the zero fill *)
Fixpoint strncpy_loop (n : nat) (m : gmap Z Z) (s t : Z) : gmap Z Z :=
  match n with
  | O => m
  | S n' =>
      let c := ld8 m t in
      let m' := st8 m s c in
      if c =? 0 then zero_fill n' m' (s + 1) else strncpy_loop n' m' (s + 1) (t + 1)
  end.
Definition strncpy (m : gmap Z Z) (s t n : Z) : gmap Z Z := strncpy_loop (Z.to_nat n) m s t.

(** while(--n > 0 && ( *s++ = *t++) != 0) ; *s = 0;  [k] is n - 1. *)
Fixpoint safestrcpy_loop (k : nat) (m : gmap Z Z) (s t : Z) : gmap Z Z :=
  match k with
  | O => st8 m s 0
  | S k' =>
      let c := ld8 m t in
      let m' := st8 m s c in
      if c =? 0 then st8 m' (s + 1) 0 else safestrcpy_loop k' m' (s + 1) (t + 1)
  end.
Definition safestrcpy (m : gmap Z Z) (s t n : Z) : gmap Z Z :=
  if n <=? 0 then m else safestrcpy_loop (Z.to_nat (n - 1)) m s t.

(** for(n = 0; s[n]; n++) ; *)
Fixpoint strlen_loop (fuel : nat) (m : gmap Z Z) (s n : Z) : option Z :=
  match fuel with
  | O => None
  | S f => if ld8 m (s + n) =? 0 then Some n else strlen_loop f m s (n + 1)
  end.
(** Memory is finite and reads as zero outside its domain, so one step more
    than it has cells is enough: see [strlen_total]. *)
Definition strlen (m : gmap Z Z) (s : Z) : Z := default 0 (strlen_loop (S (size m)) m s 0).

(** ** Bytes *)

Lemma ld8_range m a : 0 ≤ ld8 m a < 256.
Proof. apply u8_range. Qed.

Lemma ld8_st8 m a v x : ld8 (st8 m a v) x = if decide (x = a) then u8 v else ld8 m x.
Proof.
  rewrite /ld8 /st8. destruct (decide (x = a)) as [->|].
  - rewrite lookup_insert_eq /=. apply u8_id, u8_range.
  - rewrite lookup_insert_ne; [lia|done].
Qed.
Lemma ld8_st8_eq m a v : ld8 (st8 m a v) a = u8 v.
Proof. rewrite ld8_st8. by case_decide. Qed.
Lemma ld8_st8_ne m a v x : x ≠ a → ld8 (st8 m a v) x = ld8 m x.
Proof. intros. rewrite ld8_st8. by case_decide. Qed.
Lemma u8_ld8 m a : u8 (ld8 m a) = ld8 m a.
Proof. apply u8_id, ld8_range. Qed.
#[export] Hint Rewrite ld8_st8_eq u8_ld8 : xv6.
#[export] Hint Rewrite ld8_st8_ne using lia : xv6.

(** ** Words *)

Lemma ld_le_range n m a : 0 ≤ ld_le n m a < 256 ^ Z.of_nat n.
Proof.
  revert a; induction n as [|n IH]; intros a; simpl; [lia|].
  specialize (IH (a + 1)). pose proof (ld8_range m a).
  rewrite Nat2Z.inj_succ Z.pow_succ_r; lia.
Qed.
Lemma ld64_range m a : 0 ≤ ld64 m a < 2 ^ 64.
Proof. apply (ld_le_range 8). Qed.

Lemma ld_le_ext n m m' a :
  (∀ x, a ≤ x < a + Z.of_nat n → ld8 m x = ld8 m' x) → ld_le n m a = ld_le n m' a.
Proof.
  revert a; induction n as [|n IH]; intros a H; simpl; [done|].
  rewrite H; [lia|]. f_equal. f_equal. apply IH. intros. apply H. lia.
Qed.
Lemma ld64_ext m m' a : (∀ x, a ≤ x < a + 8 → ld8 m x = ld8 m' x) → ld64 m a = ld64 m' a.
Proof. apply (ld_le_ext 8). Qed.

Lemma ld8_st_le_ne n m a v x :
  ¬ (a ≤ x < a + Z.of_nat n) → ld8 (st_le n m a v) x = ld8 m x.
Proof.
  revert m a v; induction n as [|n IH]; intros m a v H; cbn [st_le]; [done|].
  rewrite IH; [lia|]. apply ld8_st8_ne. lia.
Qed.
Lemma ld_st_le_ne n k m a v b :
  a + Z.of_nat k ≤ b ∨ b + Z.of_nat n ≤ a → ld_le n (st_le k m a v) b = ld_le n m b.
Proof. intros. apply ld_le_ext. intros. apply ld8_st_le_ne. lia. Qed.
Lemma ld8_st64_ne m a v x : ¬ (a ≤ x < a + 8) → ld8 (st64 m a v) x = ld8 m x.
Proof. apply (ld8_st_le_ne 8). Qed.

Lemma ld_st_le_eq n m a v : ld_le n (st_le n m a v) a = v mod 256 ^ Z.of_nat n.
Proof.
  revert m a v; induction n as [|n IH]; intros m a v; cbn [st_le ld_le].
  { by rewrite Z.mod_1_r. }
  rewrite IH ld8_st_le_ne; [lia|]. rewrite ld8_st8_eq /u8.
  rewrite Nat2Z.inj_succ Z.pow_succ_r; [lia|]. by rewrite Z.rem_mul_r; [lia|apply Z.pow_pos_nonneg; lia|].
Qed.
Lemma ld_st64_eq m a v : 0 ≤ v < 2 ^ 64 → ld64 (st64 m a v) a = v.
Proof. intros. rewrite /ld64 /st64 ld_st_le_eq. by apply Z.mod_small. Qed.
Lemma ld_st64_ne m a v b : a + 8 ≤ b ∨ b + 8 ≤ a → ld64 (st64 m a v) b = ld64 m b.
Proof. intros. apply ld64_ext. intros. apply ld8_st64_ne. lia. Qed.
#[export] Hint Rewrite ld_st64_eq ld_st64_ne using lia : xv6.

Lemma st8_st_le_comm n m a b v w :
  a < b → st8 (st_le n m b v) a w = st_le n (st8 m a w) b v.
Proof.
  revert m b v; induction n as [|n IH]; intros m b v Hab; cbn [st_le]; [done|].
  rewrite IH; [lia|]. f_equal. rewrite /st8. apply insert_insert_ne. lia.
Qed.
Lemma st_le_st_le n m a v w : st_le n (st_le n m a v) a w = st_le n m a w.
Proof.
  revert m a v w; induction n as [|n IH]; intros m a v w; cbn [st_le]; [done|].
  rewrite st8_st_le_comm; [lia|]. rewrite IH. f_equal. rewrite /st8. apply insert_insert_eq.
Qed.
Lemma st64_st64 m a v w : st64 (st64 m a v) a w = st64 m a w.
Proof. apply (st_le_st_le 8). Qed.

(** ** Byte strings *)

Lemma length_rd_bytes m a n : length (rd_bytes m a n) = n.
Proof. revert a; induction n; intros; simpl; congruence. Qed.

Lemma rd_bytes_lookup m a n i :
  (i < n)%nat → rd_bytes m a n !! i = Some (ld8 m (a + Z.of_nat i)).
Proof.
  revert a i; induction n as [|n IH]; intros a [|i] H; [lia..| |]; simpl.
  - by rewrite Z.add_0_r.
  - rewrite IH; [lia|]. do 2 f_equal. lia.
Qed.

Lemma rd_bytes_ext m m' a n :
  (∀ x, a ≤ x < a + Z.of_nat n → ld8 m x = ld8 m' x) → rd_bytes m a n = rd_bytes m' a n.
Proof.
  revert a; induction n as [|n IH]; intros a H; simpl; [done|].
  rewrite H; [lia|]. f_equal. apply IH. intros. apply H. lia.
Qed.

Lemma rd_bytes_app m a n k :
  rd_bytes m a (n + k) = rd_bytes m a n ++ rd_bytes m (a + Z.of_nat n) k.
Proof.
  revert a; induction n as [|n IH]; intros a; simpl.
  - by rewrite Z.add_0_r.
  - rewrite IH. do 2 f_equal. f_equal. lia.
Qed.

Lemma ld8_wr_bytes_ne m a l x :
  ¬ (a ≤ x < a + Z.of_nat (length l)) → ld8 (wr_bytes m a l) x = ld8 m x.
Proof.
  revert m a; induction l as [|b l IH]; intros m a H; simpl in *; [done|].
  rewrite IH; [lia|]. apply ld8_st8_ne. lia.
Qed.

Lemma ld8_wr_bytes m a l i b :
  l !! i = Some b → ld8 (wr_bytes m a l) (a + Z.of_nat i) = u8 b.
Proof.
  revert m a i; induction l as [|c l IH]; intros m a [|i] H; simplify_eq/=.
  - rewrite Z.add_0_r ld8_wr_bytes_ne; [lia|]. apply ld8_st8_eq.
  - replace (a + Z.of_nat (S i)) with (a + 1 + Z.of_nat i) by lia. by apply IH.
Qed.

Lemma rd_wr_u8 m a l : rd_bytes (wr_bytes m a l) a (length l) = u8 <$> l.
Proof.
  apply list_eq. intros i. rewrite list_lookup_fmap. destruct (decide (i < length l)%nat) as [Hi|Hi].
  - apply lookup_lt_is_Some_2 in Hi as [b Hb]. rewrite rd_bytes_lookup; [exact (lookup_lt_Some _ _ _ Hb)|].
    by rewrite (ld8_wr_bytes _ _ _ _ b) // Hb.
  - rewrite !lookup_ge_None_2 ?length_rd_bytes; [lia..|done].
Qed.
Lemma rd_wr_bytes m a l :
  Forall (λ b, 0 ≤ b < 256) l → rd_bytes (wr_bytes m a l) a (length l) = l.
Proof.
  intros Hl. rewrite rd_wr_u8. induction Hl as [|b l Hb _ IH]; [done|]. by rewrite fmap_cons IH u8_id.
Qed.

Lemma rd_bytes_bytes m a n : Forall (λ b, 0 ≤ b < 256) (rd_bytes m a n).
Proof. revert a; induction n; intros; simpl; constructor; auto using ld8_range. Qed.

(** ** What the loops of string.c compute *)

Lemma ld8_memset_loop k m d c i x :
  ld8 (memset_loop k m d c i) x =
  if decide (d + i ≤ x < d + i + Z.of_nat k) then u8 c else ld8 m x.
Proof.
  revert m i; induction k as [|k IH]; intros m i; cbn [memset_loop].
  { case_decide; [lia|done]. }
  rewrite IH ld8_st8. repeat case_decide; subst; try done; lia.
Qed.

Lemma ld8_memset m dst c n x :
  0 ≤ n → ld8 (memset m dst c n) x =
  if decide (dst ≤ x < dst + n) then u8 c else ld8 m x.
Proof.
  intros. rewrite /memset ld8_memset_loop. rewrite Z.add_0_r Z2Nat.id //.
Qed.

Lemma ld8_copy_up n m d s x :
  ¬ (s < d < s + Z.of_nat n) →
  ld8 (copy_up n m d s) x =
  if decide (d ≤ x < d + Z.of_nat n) then ld8 m (s + (x - d)) else ld8 m x.
Proof.
  revert m d s; induction n as [|n IH]; intros m d s H; cbn [copy_up].
  { case_decide; [lia|done]. }
  rewrite IH; [lia|]. repeat case_decide; try lia.
  - rewrite ld8_st8_ne; [lia|]. f_equal. lia.
  - assert (x = d) as -> by lia. rewrite ld8_st8_eq u8_ld8. f_equal. lia.
  - apply ld8_st8_ne. lia.
Qed.

Lemma ld8_copy_down n m d s x :
  s < d →
  ld8 (copy_down n m d s) x =
  if decide (d - Z.of_nat n ≤ x < d) then ld8 m (s + (x - d)) else ld8 m x.
Proof.
  revert m d s; induction n as [|n IH]; intros m d s H; cbn [copy_down].
  { case_decide; [lia|done]. }
  rewrite IH; [lia|]. repeat case_decide; try lia.
  - rewrite ld8_st8_ne; [lia|]. f_equal. lia.
  - assert (x = d - 1) as -> by lia. rewrite ld8_st8_eq u8_ld8. f_equal. lia.
  - apply ld8_st8_ne. lia.
Qed.

Lemma ld8_memmove m dst src n x :
  0 ≤ n → ld8 (memmove m dst src n) x =
  if decide (dst ≤ x < dst + n) then ld8 m (src + (x - dst)) else ld8 m x.
Proof.
  intros Hn. rewrite /memmove. destruct (Z.eqb_spec n 0) as [->|].
  { case_decide; [lia|done]. }
  destruct (Z.ltb_spec src dst), (Z.ltb_spec dst (src + n)); simpl.
  - rewrite ld8_copy_down; [lia|]. rewrite Z2Nat.id //. repeat case_decide; try lia; f_equal; lia.
  - rewrite ld8_copy_up; rewrite ?Z2Nat.id //; lia.
  - rewrite ld8_copy_up; rewrite ?Z2Nat.id //; lia.
  - rewrite ld8_copy_up; rewrite ?Z2Nat.id //; lia.
Qed.

(** memmove() through a list of bytes: what the disk transfers use. *)
Lemma rd_bytes_memmove m dst src n :
  0 ≤ n → rd_bytes (memmove m dst src n) dst (Z.to_nat n) = rd_bytes m src (Z.to_nat n).
Proof.
  intros Hn. apply list_eq. intros i. destruct (decide (i < Z.to_nat n)%nat).
  - rewrite !rd_bytes_lookup // ld8_memmove //. case_decide; [|lia]. do 2 f_equal. lia.
  - rewrite !lookup_ge_None_2 ?length_rd_bytes; [lia..|done].
Qed.

(** The memory has finitely many non-zero cells, so strlen() finds a NUL. *)
Lemma strlen_loop_spec fuel m s n r :
  strlen_loop fuel m s n = Some r →
  n ≤ r ∧ ld8 m (s + r) = 0 ∧ ∀ i, n ≤ i < r → ld8 m (s + i) ≠ 0.
Proof.
  revert n; induction fuel as [|f IH]; intros n H; simplify_eq/=.
  destruct (Z.eqb_spec (ld8 m (s + n)) 0); simplify_eq.
  - repeat split; [lia|done|lia].
  - apply IH in H as (? & ? & Hi). repeat split; [lia|done|]. intros i Hi'.
    destruct (decide (i = n)) as [->|]; [done|]. apply Hi. lia.
Qed.

Lemma strlen_loop_total k (m : gmap Z Z) (s n : Z) :
  (size (filter (λ p : Z * Z, (s + n ≤ p.1)%Z) m) < k)%nat → is_Some (strlen_loop k m s n).
Proof.
  revert n; induction k as [|k IH]; intros n Hk; [lia|]; simpl.
  destruct (Z.eqb_spec (ld8 m (s + n)) 0) as [|Hne]; [done|]. apply IH.
  assert (is_Some (m !! (s + n))) as [v Hv].
  { destruct (m !! (s + n)) eqn:E; [done|]. by rewrite /ld8 E in Hne. }
  eapply Nat.lt_le_trans; [|apply Nat.lt_succ_r; exact Hk].
  apply map_subset_size. split.
  - apply map_filter_subseteq_ext. intros i x Hi. simpl. lia.
  - intros Hsub. pose proof (proj1 (map_subseteq_spec _ _) Hsub (s + n) v) as Hs. rewrite !map_lookup_filter_Some /= in Hs.
    destruct Hs; [split; [done|lia]|lia].
Qed.

Lemma strlen_total m s : is_Some (strlen_loop (S (size m)) m s 0).
Proof.
  apply strlen_loop_total. apply Nat.lt_succ_r. apply map_subseteq_size, map_filter_subseteq.
Qed.

#[global] Arguments memset : simpl never.
#[global] Arguments memmove : simpl never.
#[global] Arguments ld64 : simpl never.
#[global] Arguments st64 : simpl never.
#[global] Arguments ld32 : simpl never.
#[global] Arguments st32 : simpl never.
#[global] Strategy 1000 [memset memmove].
