(* ===== verification/Ring.v ===== *)
(** Circular doubly linked lists.  The kernel has two: the list of resident
    user pages (kernel/kalloc.c, [lru_head]) and the buffer cache list
    (kernel/bio.c, [bcache.head]).  Both are read here as two link functions
    on nodes; [ring] says that the links run through a list of nodes and back. *)
From S2P Require Import Prelude.

Section ring.
Context {K : Type} `{EqDecision K}.
Implicit Types (a b c h p t v : K) (l : list K) (nx pv : K → option K).

(** The edges of the walk from [a] through [l] to [b]. *)
Fixpoint path a l b : list (K * K) :=
  match l with
  | [] => [(a, b)]
  | c :: l' => (a, c) :: path c l' b
  end.

Definition linked nx pv (ab : K * K) : Prop :=
  nx ab.1 = Some ab.2 ∧ pv ab.2 = Some ab.1.

Definition ring nx pv l : Prop :=
  NoDup l ∧ match l with [] => True | a :: l' => Forall (linked nx pv) (path a l' a) end.

Lemma path_app a l1 c l2 b : path a (l1 ++ c :: l2) b = path a l1 c ++ path c l2 b.
Proof. revert a; induction l1; intros; simpl; f_equal; auto. Qed.

Lemma path_retarget a l :
  ∃ e t, (∀ b, path a l b = e ++ [(t, b)]) ∧ a :: l = e.*1 ++ [t] ∧ l = e.*2.
Proof.
  revert a; induction l as [|c l IH]; intros a.
  - by exists [], a.
  - destruct (IH c) as (e & t & He & Hs & Ht). exists ((a, c) :: e), t. split; [|split].
    + intros b. simpl. by rewrite He.
    + simpl. by f_equal.
    + simpl. by f_equal.
Qed.

Lemma ring_nil nx pv : ring nx pv [].
Proof. split; [constructor|done]. Qed.

Lemma ring_singleton nx pv a : nx a = Some a → pv a = Some a → ring nx pv [a].
Proof.
  intros. split; [apply NoDup_singleton|]. by repeat constructor.
Qed.

Lemma ring_NoDup nx pv l : ring nx pv l → NoDup l.
Proof. by intros []. Qed.

(** The list may be read from any of its nodes. *)
Lemma ring_rotate nx pv l1 l2 : ring nx pv (l1 ++ l2) → ring nx pv (l2 ++ l1).
Proof.
  intros [Hnd Hl]. split; [by rewrite Permutation_app_comm|].
  destruct l1 as [|a l1], l2 as [|c l2]; simpl in *; rewrite ?app_nil_r // in Hl |- *.
  rewrite path_app in Hl. rewrite path_app. rewrite Forall_app in Hl.
  rewrite Forall_app. tauto.
Qed.

Lemma ring_next nx pv a l :
  ring nx pv (a :: l) → nx a = Some (default a (head l)).
Proof. intros [_ H]. destruct l; by apply Forall_cons in H as [[] _]. Qed.

Lemma ring_next_in nx pv l a b : ring nx pv l → a ∈ l → nx a = Some b → b ∈ l.
Proof.
  intros Hr (l1 & l2 & ->)%list_elem_of_split Ha.
  apply ring_rotate in Hr. rewrite -app_comm_cons in Hr.
  rewrite (ring_next _ _ _ _ Hr) in Ha. simplify_eq.
  apply elem_of_app. destruct l2 as [|c l2]; simpl.
  - destruct l1; simpl; [right; left|left; left].
  - right. right. left.
Qed.

Lemma ring_single nx pv a l : ring nx pv (a :: l) → nx a = Some a → l = [].
Proof.
  intros Hr Ha. pose proof (ring_next _ _ _ _ Hr) as Hn.
  destruct Hr as [Hnd _]. destruct l as [|c l]; [done|].
  rewrite Ha /= in Hn. injection Hn as <-. apply NoDup_cons in Hnd as [[] _]. left.
Qed.

(** Every node has both links, and they point into the list. *)
Lemma ring_links nx pv l a :
  ring nx pv l → a ∈ l → ∃ b c, nx a = Some b ∧ pv a = Some c ∧ b ∈ l ∧ c ∈ l.
Proof.
  intros Hr (l1 & l2 & ->)%list_elem_of_split.
  apply ring_rotate in Hr. rewrite -app_comm_cons in Hr.
  pose proof (ring_next _ _ _ _ Hr) as Hn. destruct Hr as [_ Hl].
  destruct (path_retarget a (l2 ++ l1)) as (e & t & He & Hs & Ht).
  rewrite He in Hl. apply Forall_app in Hl as [_ Hl]. apply Forall_cons in Hl as [[_ Hp] _].
  assert (∀ x, x ∈ a :: (l2 ++ l1) → x ∈ l1 ++ a :: l2) as Hin by set_solver.
  eexists _, t. split; [exact Hn|]. split; [exact Hp|]. split; apply Hin.
  - destruct (l2 ++ l1); simpl; [left|right; left].
  - rewrite Hs. set_solver.
Qed.

(** Edges whose end points keep their links stay linked. *)
Lemma edges_frame nx pv nx' pv' (e : list (K * K)) :
  Forall (linked nx pv) e →
  (∀ x, x ∈ e.*1 → nx' x = nx x) → (∀ x, x ∈ e.*2 → pv' x = pv x) →
  Forall (linked nx' pv') e.
Proof.
  intros He Hn Hp. induction He as [|[x y] e [Hx Hy] He IH]; constructor; simpl in *.
  - split; simpl; [rewrite Hn|rewrite Hp]; try done; left.
  - apply IH; intros z Hz; [apply Hn|apply Hp]; by right.
Qed.

(** Links outside the list do not matter. *)
Lemma ring_ext nx pv nx' pv' l :
  (∀ x, x ∈ l → nx' x = nx x) → (∀ x, x ∈ l → pv' x = pv x) →
  ring nx pv l → ring nx' pv' l.
Proof.
  intros Hn Hp [Hnd Hl]. split; [done|]. destruct l as [|a l]; [done|].
  destruct (path_retarget a l) as (e & t & He & Hs & Ht). rewrite -> He in *.
  apply (edges_frame nx pv); [done|..]; rewrite fmap_app /=; intros x Hx;
    [apply Hn; by rewrite Hs|apply Hp; set_solver].
Qed.

(** Read backwards, the list is a ring with the links exchanged. *)
Lemma path_reverse a l b :
  path b (reverse l) a = (λ ab, (ab.2, ab.1)) <$> reverse (path a l b).
Proof.
  revert a; induction l as [|c l IH]; intros a; [done|].
  cbn [path]. rewrite !reverse_cons path_app fmap_app IH //.
Qed.

Lemma ring_reverse nx pv a l : ring nx pv (a :: l) → ring pv nx (a :: reverse l).
Proof.
  intros [Hnd Hl]. split.
  { apply NoDup_cons in Hnd as [? Hnd]. apply NoDup_cons.
    split; [by rewrite elem_of_reverse|by rewrite reverse_Permutation]. }
  rewrite path_reverse. apply Forall_fmap, Forall_reverse.
  eapply Forall_impl; [exact Hl|]. intros [x y] []. by split.
Qed.

(** Insert [p] between the tail and the head: it becomes the tail. *)
Lemma ring_insert nx pv nx' pv' h l p t :
  ring nx pv (h :: l) → p ∉ h :: l → pv h = Some t →
  nx' p = Some h → nx' t = Some p → (∀ x, x ≠ p → x ≠ t → nx' x = nx x) →
  pv' p = Some t → pv' h = Some p → (∀ x, x ≠ p → x ≠ h → pv' x = pv x) →
  ring nx' pv' (h :: l ++ [p]).
Proof.
  intros [Hnd Hl] Hp Ht N1 N2 N3 P1 P2 P3.
  destruct (path_retarget h l) as (e & t' & He & Hs & Hs2).
  rewrite He in Hl. apply Forall_app in Hl as [Hl Ht'].
  apply Forall_cons in Ht' as [[_ Ht'] _]. simpl in Ht'. rewrite Ht in Ht'.
  injection Ht' as <-. split.
  { rewrite app_comm_cons. apply NoDup_app. split_and!; [done| |apply NoDup_singleton].
    intros x Hx ->%list_elem_of_singleton. done. }
  rewrite path_app He -app_assoc /=. apply Forall_app. split; [|by repeat constructor].
  apply (edges_frame nx pv); [done|..]; intros x Hx.
  - rewrite Hs in Hnd, Hp. apply NoDup_app in Hnd as (_ & Hnd & _).
    apply N3; intros ->; set_solver.
  - rewrite -Hs2 in Hx. apply NoDup_cons in Hnd as [??].
    apply P3; intros ->; set_solver.
Qed.

(** Take the first node out. *)
Lemma ring_unlink nx pv nx' pv' v n l t :
  ring nx pv (v :: n :: l) → pv v = Some t →
  nx' t = Some n → (∀ x, x ≠ t → x ≠ v → nx' x = nx x) →
  pv' n = Some t → (∀ x, x ≠ n → x ≠ v → pv' x = pv x) →
  ring nx' pv' (n :: l).
Proof.
  intros [Hnd Hl] Ht N1 N2 P1 P2.
  apply NoDup_cons in Hnd as [Hv Hnd]. split; [done|].
  change (path v (n :: l) v) with ((v, n) :: path n l v) in Hl.
  apply Forall_cons in Hl as [_ Hl].
  destruct (path_retarget n l) as (e & t' & He & Hs & Hs2).
  rewrite He in Hl. rewrite He. apply Forall_app in Hl as [Hl Ht'].
  apply Forall_cons in Ht' as [[_ Ht'] _]. simpl in Ht'. rewrite Ht in Ht'.
  injection Ht' as <-. apply Forall_app. split; [|by repeat constructor].
  apply (edges_frame nx pv); [done|..]; intros x Hx.
  - rewrite Hs in Hnd, Hv. apply NoDup_app in Hnd as (_ & Hnd & _).
    apply N2; intros ->; set_solver.
  - rewrite -Hs2 in Hx. apply NoDup_cons in Hnd as [??].
    apply P2; intros ->; set_solver.
Qed.
End ring.
