(* ===== verification/Window.v ===== *)
(** Ring buffers: an array of [sz] cells, and the [n] cells in use from index
    [r] on.  The pipe, the console's input buffer and the UART's transmit buffer
    keep free-running counters and index the array modulo its size. *)
From S2P Require Import Prelude.

Definition window (sz : Z) (data : gmap Z Z) (r n : Z) : list Z :=
  (λ i, default 0 (data !! ((r + i) mod sz))) <$> seqZ 0 n.

Lemma window_length sz data r n : 0 ≤ n → Z.of_nat (length (window sz data r n)) = n.
Proof. intros. rewrite length_fmap length_seqZ. lia. Qed.

Lemma window_nil sz data r : window sz data r 0 = [].
Proof. done. Qed.

Lemma window_ext sz d1 d2 r n :
  (∀ i, 0 ≤ i < n → d1 !! ((r + i) mod sz) = d2 !! ((r + i) mod sz)) → window sz d1 r n = window sz d2 r n.
Proof.
  intros Hd. apply list_fmap_ext. intros i x Hx. apply lookup_seqZ in Hx as [-> Hx].
  by rewrite Hd; [lia|].
Qed.

Lemma window_mod sz data r r' n : 0 < sz → r mod sz = r' mod sz → window sz data r n = window sz data r' n.
Proof.
  intros Hs Hr. apply list_fmap_ext. intros i x _. by rewrite -(Zplus_mod_idemp_l r) Hr Zplus_mod_idemp_l.
Qed.

(** Cells at distance less than the size are different. *)
Lemma mod_cells sz r i j : 0 < sz → 0 ≤ i < j → j < i + sz → (r + i) mod sz ≠ (r + j) mod sz.
Proof.
  intros Hs Hi Hj E. assert ((j - i) mod sz = 0) as H.
  { replace (j - i) with ((r + j) - (r + i)) by lia. rewrite Zminus_mod E Z.sub_diag. by apply Zmod_0_l. }
  rewrite Z.mod_small in H; lia.
Qed.

(** Storing at the end of the window appends. *)
Lemma window_push sz data r n b : 0 ≤ n < sz →
  window sz (<[(r + n) mod sz := b]> data) r (n + 1) = window sz data r n ++ [b].
Proof.
  intros Hn. rewrite /window seqZ_app; [lia..|]. rewrite fmap_app. f_equal.
  - apply window_ext. intros i Hi. rewrite lookup_insert_ne //. apply not_eq_sym, mod_cells; lia.
  - rewrite Z.add_0_l (_ : seqZ n 1 = [n]); [by rewrite /seqZ (_ : Z.to_nat 1 = 1%nat) // /= ?Z.add_0_l|]. by rewrite /= lookup_insert_eq.
Qed.

(** Taking the first cell. *)
Lemma window_pop sz data r n : 0 < n →
  window sz data r n = default 0 (data !! (r mod sz)) :: window sz data (r + 1) (n - 1).
Proof.
  intros Hn. rewrite /window. rewrite {1}(_ : n = Z.succ (Z.pred n)); [lia|].
  rewrite seqZ_cons; [lia|]. rewrite fmap_cons Z.add_0_r. f_equal.
  rewrite (_ : Z.succ 0 = 1) // (_ : Z.pred (Z.succ (Z.pred n)) = n - 1); [lia|].
  rewrite /seqZ -!list_fmap_compose. apply list_fmap_ext. intros i x _. cbn. do 3 f_equal. lia.
Qed.

(** The distance of two counters of [w] bits, and what one step does to it. *)
Definition dist (w a b : Z) : Z := (b - a) mod w.

Lemma dist_range w a b : 0 < w → 0 ≤ dist w a b < w.
Proof. apply Z.mod_pos_bound. Qed.
Lemma dist_0 w a b : 0 ≤ a < w → 0 ≤ b < w → dist w a b = 0 → a = b.
Proof.
  rewrite /dist. intros Ha Hb E. apply Z.mod_divide in E as [k Hk]; [|lia].
  assert (k = 0) by nia. lia.
Qed.
Lemma dist_push w a b : 0 < w → dist w a b + 1 < w → dist w a ((b + 1) mod w) = dist w a b + 1.
Proof.
  rewrite /dist. intros Hw Hd. rewrite Zminus_mod_idemp_l. symmetry.
  apply (Z.mod_unique_pos _ _ ((b - a) / w)); [pose proof (Z.mod_pos_bound (b - a) w); lia|].
  pose proof (Z.div_mod (b - a) w). lia.
Qed.
Lemma dist_pop w a b : 0 < w → 0 < dist w a b → dist w ((a + 1) mod w) b = dist w a b - 1.
Proof.
  rewrite /dist. intros Hw Hd. rewrite Zminus_mod_idemp_r. symmetry.
  apply (Z.mod_unique_pos _ _ ((b - a) / w)); [pose proof (Z.mod_pos_bound (b - a) w); lia|].
  pose proof (Z.div_mod (b - a) w). lia.
Qed.
(** "full" is tested by adding the size to the read counter. *)
Lemma dist_full w sz a b : 0 < sz < w → 0 ≤ b < w → dist w a b = sz ↔ b = (a + sz) mod w.
Proof.
  rewrite /dist. intros Hs Hb. split; intros E.
  - rewrite -E Zplus_mod_idemp_r. rewrite (_ : a + (b - a) = b); [lia|]. by rewrite Z.mod_small.
  - rewrite E Zminus_mod_idemp_l (_ : a + sz - a = sz); [lia|]. apply Z.mod_small. lia.
Qed.
(** The array index of the write counter is the one after the window. *)
Lemma dist_index w sz a b : 0 < sz → (sz | w) → 0 < w → b mod sz = (a + dist w a b) mod sz.
Proof.
  intros Hs Hd Hw. rewrite /dist. rewrite -(Zplus_mod_idemp_r _ _ sz) -Znumtheory.Zmod_div_mod //.
  rewrite Zplus_mod_idemp_r. f_equal. lia.
Qed.
Lemma window_wrap w sz data a n : 0 < sz → (sz | w) → 0 < w → window sz data (a mod w) n = window sz data a n.
Proof. intros. apply window_mod; [done|]. symmetry. by apply Znumtheory.Zmod_div_mod. Qed.
