(* ===== verification/State.v ===== *)
(** The kernel's data: the structs of kernel/proc.h, buf.h, file.h, sleeplock.h,
    riscv.h (struct page), log.c, pipe.c and fs.h, and the record of the
    kernel's global variables.  Static storage is zero at boot, so an array is a
    finite map whose missing entries read as the zero struct. *)
From S2P Require Import Prelude Riscv Mem.

(** ** Names of locks and of sleep channels

    In C both are addresses: of a struct spinlock, or of whatever object the
    sleeper and the waker agree on. *)
Inductive lockid :=
| kmem_lock | lru_lock | swap_lock | bcache_lock | wait_lock | pid_lock
| log_lock | itable_lock | ftable_lock | tickslock | cons_lock | uart_tx_lock
| proc_lock (p : nat) | buf_lk (b : nat) | inode_lk (i : nat) | pipe_lock (pi : Z).
#[global] Instance lockid_eq_dec : EqDecision lockid.
Proof. solve_decision. Defined.

Inductive chan :=
| ch_null | ch_buf (b : nat) | ch_inode (i : nat) | ch_log | ch_proc (p : nat) | ch_ticks
| ch_nread (pi : Z) | ch_nwrite (pi : Z) | ch_cons | ch_uart_tx.
#[global] Instance chan_eq_dec : EqDecision chan.
Proof. solve_decision. Defined.

(** ** struct page, kernel/riscv.h *)
Record page := Page {
  pg_next : option Z; pg_prev : option Z; pg_pagetable : Z; pg_vaddr : Z
}.
Definition page0 : page := Page None None 0 0.

(** ** struct sleeplock, kernel/sleeplock.h *)
Record sleeplock := Sleeplock { sl_locked : bool; sl_pid : Z }.
Definition sleeplock0 : sleeplock := Sleeplock false 0.

(** ** struct buf, kernel/buf.h.  Buffers are numbered; [NBUF] is bcache.head. *)
Record buf := Buf {
  b_valid : bool; b_dev : Z; b_blockno : Z; b_lock : sleeplock; b_refcnt : Z;
  b_prev : option nat; b_next : option nat; b_data : list Z
}.
Definition zero_block : list Z := replicate 1024 0.
Definition buf0 : buf := Buf false 0 0 sleeplock0 0 None None zero_block.

(** ** enum procstate and struct proc, kernel/proc.h *)
Inductive procstate := UNUSED | USED | SLEEPING | RUNNABLE | RUNNING | ZOMBIE.
#[global] Instance procstate_eq_dec : EqDecision procstate.
Proof. solve_decision. Defined.

Record proc := Proc {
  p_state : procstate; p_chan : chan; p_killed : Z; p_xstate : Z; p_pid : Z;
  p_parent : option nat; p_kstack : Z; p_sz : Z; p_pagetable : Z; p_trapframe : Z;
  p_ra : Z; p_sp : Z; p_ofile : gmap nat nat; p_cwd : option nat; p_name : list Z
}.
Definition proc0 : proc :=
  Proc UNUSED ch_null 0 0 0 None 0 0 0 0 0 0 ∅ None (replicate 16 0).

(** ** struct superblock, kernel/fs.h *)
Record superblock := Superblock {
  sb_magic : Z; sb_size : Z; sb_nblocks : Z; sb_ninodes : Z; sb_nlog : Z;
  sb_logstart : Z; sb_inodestart : Z; sb_bmapstart : Z
}.
Definition superblock0 : superblock := Superblock 0 0 0 0 0 0 0 0.

(** ** struct log and struct logheader, kernel/log.c *)
Record logstate := Log {
  lg_start : Z; lg_size : Z; lg_outstanding : Z; lg_committing : bool; lg_dev : Z;
  lg_n : Z; lg_block : gmap Z Z
}.
Definition log0 : logstate := Log 0 0 0 false 0 0 ∅.

(** ** struct inode and struct file, kernel/file.h *)
Record inode := Inode {
  i_dev : Z; i_inum : Z; i_ref : Z; i_lock : sleeplock; i_valid : bool;
  i_type : Z; i_major : Z; i_minor : Z; i_nlink : Z; i_size : Z; i_addrs : gmap Z Z
}.
Definition inode0 : inode := Inode 0 0 0 sleeplock0 false 0 0 0 0 0 ∅.

Inductive fdtype := FD_NONE | FD_PIPE | FD_INODE | FD_DEVICE.
#[global] Instance fdtype_eq_dec : EqDecision fdtype.
Proof. solve_decision. Defined.

Record file := File {
  f_type : fdtype; f_ref : Z; f_readable : bool; f_writable : bool;
  f_pipe : Z; f_ip : option nat; f_off : Z; f_major : Z
}.
Definition file0 : file := File FD_NONE 0 false false 0 None 0 0.

(** ** struct pipe, kernel/pipe.c *)
Record pipe := Pipe {
  pi_data : gmap Z Z; pi_nread : Z; pi_nwrite : Z; pi_readopen : bool; pi_writeopen : bool
}.
Definition pipe0 : pipe := Pipe ∅ 0 0 false false.

(** ** The console's input buffer, kernel/console.c *)
Record cons := Cons { c_buf : gmap Z Z; c_r : Z; c_w : Z; c_e : Z }.
Definition cons0 : cons := Cons ∅ 0 0 0.

(** ** The UART: the transmit buffer of kernel/uart.c, and the device: bytes
    waiting to be read, bytes written to THR so far, LSR_TX_IDLE *)
Record uart := Uart {
  ut_buf : gmap Z Z; ut_w : Z; ut_r : Z; ut_in : list Z; ut_out : list Z; ut_idle : bool
}.
Definition uart0 : uart := Uart ∅ 0 0 [] [] true.

(** ** The global variables

    [k_mem] is physical memory; [k_locks] the spinlocks the running hart holds,
    last one first (its length is [mycpu()->noff]); [k_cur] is [myproc()]. *)
Record kstate := KState {
  k_mem : gmap Z Z;
  k_freelist : Z;
  k_pages : gmap Z page;
  k_lru_head : option Z;
  k_bitmap : gmap Z Z;
  k_nr_read : Z;
  k_nr_write : Z;
  k_bufs : gmap nat buf;
  k_disk : gmap Z (list Z);
  k_locks : list lockid;
  k_procs : gmap nat proc;
  k_cur : option nat;
  k_nextpid : Z;
  k_initproc : option nat;
  k_ticks : Z;
  k_log : logstate;
  k_sb : superblock;
  k_inodes : gmap nat inode;
  k_files : gmap nat file;
  k_pipes : gmap Z pipe;
  k_cons : cons;
  k_uart : uart
}.
Definition kstate0 : kstate :=
  KState ∅ 0 ∅ None ∅ 0 0 ∅ ∅ [] ∅ None 1 None 0 log0 superblock0 ∅ ∅ ∅ cons0 uart0.

Definition set_mem (v : gmap Z Z) (s : kstate) : kstate :=
  KState v (k_freelist s) (k_pages s) (k_lru_head s) (k_bitmap s) (k_nr_read s)
    (k_nr_write s) (k_bufs s) (k_disk s) (k_locks s) (k_procs s) (k_cur s) (k_nextpid s)
    (k_initproc s) (k_ticks s) (k_log s) (k_sb s) (k_inodes s) (k_files s) (k_pipes s)
    (k_cons s) (k_uart s).
Definition set_freelist (v : Z) (s : kstate) : kstate :=
  KState (k_mem s) v (k_pages s) (k_lru_head s) (k_bitmap s) (k_nr_read s) (k_nr_write s)
    (k_bufs s) (k_disk s) (k_locks s) (k_procs s) (k_cur s) (k_nextpid s) (k_initproc s)
    (k_ticks s) (k_log s) (k_sb s) (k_inodes s) (k_files s) (k_pipes s) (k_cons s) (k_uart
    s).
Definition set_pages (v : gmap Z page) (s : kstate) : kstate :=
  KState (k_mem s) (k_freelist s) v (k_lru_head s) (k_bitmap s) (k_nr_read s) (k_nr_write
    s) (k_bufs s) (k_disk s) (k_locks s) (k_procs s) (k_cur s) (k_nextpid s) (k_initproc
    s) (k_ticks s) (k_log s) (k_sb s) (k_inodes s) (k_files s) (k_pipes s) (k_cons s)
    (k_uart s).
Definition set_lru_head (v : option Z) (s : kstate) : kstate :=
  KState (k_mem s) (k_freelist s) (k_pages s) v (k_bitmap s) (k_nr_read s) (k_nr_write s)
    (k_bufs s) (k_disk s) (k_locks s) (k_procs s) (k_cur s) (k_nextpid s) (k_initproc s)
    (k_ticks s) (k_log s) (k_sb s) (k_inodes s) (k_files s) (k_pipes s) (k_cons s) (k_uart
    s).
Definition set_bitmap (v : gmap Z Z) (s : kstate) : kstate :=
  KState (k_mem s) (k_freelist s) (k_pages s) (k_lru_head s) v (k_nr_read s) (k_nr_write
    s) (k_bufs s) (k_disk s) (k_locks s) (k_procs s) (k_cur s) (k_nextpid s) (k_initproc
    s) (k_ticks s) (k_log s) (k_sb s) (k_inodes s) (k_files s) (k_pipes s) (k_cons s)
    (k_uart s).
Definition set_nr_read (v : Z) (s : kstate) : kstate :=
  KState (k_mem s) (k_freelist s) (k_pages s) (k_lru_head s) (k_bitmap s) v (k_nr_write s)
    (k_bufs s) (k_disk s) (k_locks s) (k_procs s) (k_cur s) (k_nextpid s) (k_initproc s)
    (k_ticks s) (k_log s) (k_sb s) (k_inodes s) (k_files s) (k_pipes s) (k_cons s) (k_uart
    s).
Definition set_nr_write (v : Z) (s : kstate) : kstate :=
  KState (k_mem s) (k_freelist s) (k_pages s) (k_lru_head s) (k_bitmap s) (k_nr_read s) v
    (k_bufs s) (k_disk s) (k_locks s) (k_procs s) (k_cur s) (k_nextpid s) (k_initproc s)
    (k_ticks s) (k_log s) (k_sb s) (k_inodes s) (k_files s) (k_pipes s) (k_cons s) (k_uart
    s).
Definition set_bufs (v : gmap nat buf) (s : kstate) : kstate :=
  KState (k_mem s) (k_freelist s) (k_pages s) (k_lru_head s) (k_bitmap s) (k_nr_read s)
    (k_nr_write s) v (k_disk s) (k_locks s) (k_procs s) (k_cur s) (k_nextpid s)
    (k_initproc s) (k_ticks s) (k_log s) (k_sb s) (k_inodes s) (k_files s) (k_pipes s)
    (k_cons s) (k_uart s).
Definition set_disk (v : gmap Z (list Z)) (s : kstate) : kstate :=
  KState (k_mem s) (k_freelist s) (k_pages s) (k_lru_head s) (k_bitmap s) (k_nr_read s)
    (k_nr_write s) (k_bufs s) v (k_locks s) (k_procs s) (k_cur s) (k_nextpid s)
    (k_initproc s) (k_ticks s) (k_log s) (k_sb s) (k_inodes s) (k_files s) (k_pipes s)
    (k_cons s) (k_uart s).
Definition set_locks (v : list lockid) (s : kstate) : kstate :=
  KState (k_mem s) (k_freelist s) (k_pages s) (k_lru_head s) (k_bitmap s) (k_nr_read s)
    (k_nr_write s) (k_bufs s) (k_disk s) v (k_procs s) (k_cur s) (k_nextpid s) (k_initproc
    s) (k_ticks s) (k_log s) (k_sb s) (k_inodes s) (k_files s) (k_pipes s) (k_cons s)
    (k_uart s).
Definition set_procs (v : gmap nat proc) (s : kstate) : kstate :=
  KState (k_mem s) (k_freelist s) (k_pages s) (k_lru_head s) (k_bitmap s) (k_nr_read s)
    (k_nr_write s) (k_bufs s) (k_disk s) (k_locks s) v (k_cur s) (k_nextpid s) (k_initproc
    s) (k_ticks s) (k_log s) (k_sb s) (k_inodes s) (k_files s) (k_pipes s) (k_cons s)
    (k_uart s).
Definition set_cur (v : option nat) (s : kstate) : kstate :=
  KState (k_mem s) (k_freelist s) (k_pages s) (k_lru_head s) (k_bitmap s) (k_nr_read s)
    (k_nr_write s) (k_bufs s) (k_disk s) (k_locks s) (k_procs s) v (k_nextpid s)
    (k_initproc s) (k_ticks s) (k_log s) (k_sb s) (k_inodes s) (k_files s) (k_pipes s)
    (k_cons s) (k_uart s).
Definition set_nextpid (v : Z) (s : kstate) : kstate :=
  KState (k_mem s) (k_freelist s) (k_pages s) (k_lru_head s) (k_bitmap s) (k_nr_read s)
    (k_nr_write s) (k_bufs s) (k_disk s) (k_locks s) (k_procs s) (k_cur s) v (k_initproc
    s) (k_ticks s) (k_log s) (k_sb s) (k_inodes s) (k_files s) (k_pipes s) (k_cons s)
    (k_uart s).
Definition set_initproc (v : option nat) (s : kstate) : kstate :=
  KState (k_mem s) (k_freelist s) (k_pages s) (k_lru_head s) (k_bitmap s) (k_nr_read s)
    (k_nr_write s) (k_bufs s) (k_disk s) (k_locks s) (k_procs s) (k_cur s) (k_nextpid s) v
    (k_ticks s) (k_log s) (k_sb s) (k_inodes s) (k_files s) (k_pipes s) (k_cons s) (k_uart
    s).
Definition set_ticks (v : Z) (s : kstate) : kstate :=
  KState (k_mem s) (k_freelist s) (k_pages s) (k_lru_head s) (k_bitmap s) (k_nr_read s)
    (k_nr_write s) (k_bufs s) (k_disk s) (k_locks s) (k_procs s) (k_cur s) (k_nextpid s)
    (k_initproc s) v (k_log s) (k_sb s) (k_inodes s) (k_files s) (k_pipes s) (k_cons s)
    (k_uart s).
Definition set_log (v : logstate) (s : kstate) : kstate :=
  KState (k_mem s) (k_freelist s) (k_pages s) (k_lru_head s) (k_bitmap s) (k_nr_read s)
    (k_nr_write s) (k_bufs s) (k_disk s) (k_locks s) (k_procs s) (k_cur s) (k_nextpid s)
    (k_initproc s) (k_ticks s) v (k_sb s) (k_inodes s) (k_files s) (k_pipes s) (k_cons s)
    (k_uart s).
Definition set_sb (v : superblock) (s : kstate) : kstate :=
  KState (k_mem s) (k_freelist s) (k_pages s) (k_lru_head s) (k_bitmap s) (k_nr_read s)
    (k_nr_write s) (k_bufs s) (k_disk s) (k_locks s) (k_procs s) (k_cur s) (k_nextpid s)
    (k_initproc s) (k_ticks s) (k_log s) v (k_inodes s) (k_files s) (k_pipes s) (k_cons s)
    (k_uart s).
Definition set_inodes (v : gmap nat inode) (s : kstate) : kstate :=
  KState (k_mem s) (k_freelist s) (k_pages s) (k_lru_head s) (k_bitmap s) (k_nr_read s)
    (k_nr_write s) (k_bufs s) (k_disk s) (k_locks s) (k_procs s) (k_cur s) (k_nextpid s)
    (k_initproc s) (k_ticks s) (k_log s) (k_sb s) v (k_files s) (k_pipes s) (k_cons s)
    (k_uart s).
Definition set_files (v : gmap nat file) (s : kstate) : kstate :=
  KState (k_mem s) (k_freelist s) (k_pages s) (k_lru_head s) (k_bitmap s) (k_nr_read s)
    (k_nr_write s) (k_bufs s) (k_disk s) (k_locks s) (k_procs s) (k_cur s) (k_nextpid s)
    (k_initproc s) (k_ticks s) (k_log s) (k_sb s) (k_inodes s) v (k_pipes s) (k_cons s)
    (k_uart s).
Definition set_pipes (v : gmap Z pipe) (s : kstate) : kstate :=
  KState (k_mem s) (k_freelist s) (k_pages s) (k_lru_head s) (k_bitmap s) (k_nr_read s)
    (k_nr_write s) (k_bufs s) (k_disk s) (k_locks s) (k_procs s) (k_cur s) (k_nextpid s)
    (k_initproc s) (k_ticks s) (k_log s) (k_sb s) (k_inodes s) (k_files s) v (k_cons s)
    (k_uart s).
Definition set_cons (v : cons) (s : kstate) : kstate :=
  KState (k_mem s) (k_freelist s) (k_pages s) (k_lru_head s) (k_bitmap s) (k_nr_read s)
    (k_nr_write s) (k_bufs s) (k_disk s) (k_locks s) (k_procs s) (k_cur s) (k_nextpid s)
    (k_initproc s) (k_ticks s) (k_log s) (k_sb s) (k_inodes s) (k_files s) (k_pipes s) v
    (k_uart s).
Definition set_uart (v : uart) (s : kstate) : kstate :=
  KState (k_mem s) (k_freelist s) (k_pages s) (k_lru_head s) (k_bitmap s) (k_nr_read s)
    (k_nr_write s) (k_bufs s) (k_disk s) (k_locks s) (k_procs s) (k_cur s) (k_nextpid s)
    (k_initproc s) (k_ticks s) (k_log s) (k_sb s) (k_inodes s) (k_files s) (k_pipes s)
    (k_cons s) v.

(** ** Field updates *)
Definition set_pg_next (v : option Z) (x : page) : page :=
  Page v (pg_prev x) (pg_pagetable x) (pg_vaddr x).
Definition set_pg_prev (v : option Z) (x : page) : page :=
  Page (pg_next x) v (pg_pagetable x) (pg_vaddr x).
Definition set_pg_pagetable (v : Z) (x : page) : page :=
  Page (pg_next x) (pg_prev x) v (pg_vaddr x).
Definition set_pg_vaddr (v : Z) (x : page) : page :=
  Page (pg_next x) (pg_prev x) (pg_pagetable x) v.
Definition set_b_valid (v : bool) (x : buf) : buf :=
  Buf v (b_dev x) (b_blockno x) (b_lock x) (b_refcnt x) (b_prev x) (b_next x) (b_data x).
Definition set_b_dev (v : Z) (x : buf) : buf :=
  Buf (b_valid x) v (b_blockno x) (b_lock x) (b_refcnt x) (b_prev x) (b_next x) (b_data x).
Definition set_b_blockno (v : Z) (x : buf) : buf :=
  Buf (b_valid x) (b_dev x) v (b_lock x) (b_refcnt x) (b_prev x) (b_next x) (b_data x).
Definition set_b_lock (v : sleeplock) (x : buf) : buf :=
  Buf (b_valid x) (b_dev x) (b_blockno x) v (b_refcnt x) (b_prev x) (b_next x) (b_data x).
Definition set_b_refcnt (v : Z) (x : buf) : buf :=
  Buf (b_valid x) (b_dev x) (b_blockno x) (b_lock x) v (b_prev x) (b_next x) (b_data x).
Definition set_b_prev (v : option nat) (x : buf) : buf :=
  Buf (b_valid x) (b_dev x) (b_blockno x) (b_lock x) (b_refcnt x) v (b_next x) (b_data x).
Definition set_b_next (v : option nat) (x : buf) : buf :=
  Buf (b_valid x) (b_dev x) (b_blockno x) (b_lock x) (b_refcnt x) (b_prev x) v (b_data x).
Definition set_b_data (v : list Z) (x : buf) : buf :=
  Buf (b_valid x) (b_dev x) (b_blockno x) (b_lock x) (b_refcnt x) (b_prev x) (b_next x) v.
Definition set_p_state (v : procstate) (x : proc) : proc :=
  Proc v (p_chan x) (p_killed x) (p_xstate x) (p_pid x) (p_parent x) (p_kstack x) (p_sz x)
    (p_pagetable x) (p_trapframe x) (p_ra x) (p_sp x) (p_ofile x) (p_cwd x) (p_name x).
Definition set_p_chan (v : chan) (x : proc) : proc :=
  Proc (p_state x) v (p_killed x) (p_xstate x) (p_pid x) (p_parent x) (p_kstack x) (p_sz
    x) (p_pagetable x) (p_trapframe x) (p_ra x) (p_sp x) (p_ofile x) (p_cwd x) (p_name x).
Definition set_p_killed (v : Z) (x : proc) : proc :=
  Proc (p_state x) (p_chan x) v (p_xstate x) (p_pid x) (p_parent x) (p_kstack x) (p_sz x)
    (p_pagetable x) (p_trapframe x) (p_ra x) (p_sp x) (p_ofile x) (p_cwd x) (p_name x).
Definition set_p_xstate (v : Z) (x : proc) : proc :=
  Proc (p_state x) (p_chan x) (p_killed x) v (p_pid x) (p_parent x) (p_kstack x) (p_sz x)
    (p_pagetable x) (p_trapframe x) (p_ra x) (p_sp x) (p_ofile x) (p_cwd x) (p_name x).
Definition set_p_pid (v : Z) (x : proc) : proc :=
  Proc (p_state x) (p_chan x) (p_killed x) (p_xstate x) v (p_parent x) (p_kstack x) (p_sz
    x) (p_pagetable x) (p_trapframe x) (p_ra x) (p_sp x) (p_ofile x) (p_cwd x) (p_name x).
Definition set_p_parent (v : option nat) (x : proc) : proc :=
  Proc (p_state x) (p_chan x) (p_killed x) (p_xstate x) (p_pid x) v (p_kstack x) (p_sz x)
    (p_pagetable x) (p_trapframe x) (p_ra x) (p_sp x) (p_ofile x) (p_cwd x) (p_name x).
Definition set_p_kstack (v : Z) (x : proc) : proc :=
  Proc (p_state x) (p_chan x) (p_killed x) (p_xstate x) (p_pid x) (p_parent x) v (p_sz x)
    (p_pagetable x) (p_trapframe x) (p_ra x) (p_sp x) (p_ofile x) (p_cwd x) (p_name x).
Definition set_p_sz (v : Z) (x : proc) : proc :=
  Proc (p_state x) (p_chan x) (p_killed x) (p_xstate x) (p_pid x) (p_parent x) (p_kstack
    x) v (p_pagetable x) (p_trapframe x) (p_ra x) (p_sp x) (p_ofile x) (p_cwd x) (p_name
    x).
Definition set_p_pagetable (v : Z) (x : proc) : proc :=
  Proc (p_state x) (p_chan x) (p_killed x) (p_xstate x) (p_pid x) (p_parent x) (p_kstack
    x) (p_sz x) v (p_trapframe x) (p_ra x) (p_sp x) (p_ofile x) (p_cwd x) (p_name x).
Definition set_p_trapframe (v : Z) (x : proc) : proc :=
  Proc (p_state x) (p_chan x) (p_killed x) (p_xstate x) (p_pid x) (p_parent x) (p_kstack
    x) (p_sz x) (p_pagetable x) v (p_ra x) (p_sp x) (p_ofile x) (p_cwd x) (p_name x).
Definition set_p_ra (v : Z) (x : proc) : proc :=
  Proc (p_state x) (p_chan x) (p_killed x) (p_xstate x) (p_pid x) (p_parent x) (p_kstack
    x) (p_sz x) (p_pagetable x) (p_trapframe x) v (p_sp x) (p_ofile x) (p_cwd x) (p_name
    x).
Definition set_p_sp (v : Z) (x : proc) : proc :=
  Proc (p_state x) (p_chan x) (p_killed x) (p_xstate x) (p_pid x) (p_parent x) (p_kstack
    x) (p_sz x) (p_pagetable x) (p_trapframe x) (p_ra x) v (p_ofile x) (p_cwd x) (p_name
    x).
Definition set_p_ofile (v : gmap nat nat) (x : proc) : proc :=
  Proc (p_state x) (p_chan x) (p_killed x) (p_xstate x) (p_pid x) (p_parent x) (p_kstack
    x) (p_sz x) (p_pagetable x) (p_trapframe x) (p_ra x) (p_sp x) v (p_cwd x) (p_name x).
Definition set_p_cwd (v : option nat) (x : proc) : proc :=
  Proc (p_state x) (p_chan x) (p_killed x) (p_xstate x) (p_pid x) (p_parent x) (p_kstack
    x) (p_sz x) (p_pagetable x) (p_trapframe x) (p_ra x) (p_sp x) (p_ofile x) v (p_name x).
Definition set_p_name (v : list Z) (x : proc) : proc :=
  Proc (p_state x) (p_chan x) (p_killed x) (p_xstate x) (p_pid x) (p_parent x) (p_kstack
    x) (p_sz x) (p_pagetable x) (p_trapframe x) (p_ra x) (p_sp x) (p_ofile x) (p_cwd x) v.
Definition set_lg_start (v : Z) (x : logstate) : logstate :=
  Log v (lg_size x) (lg_outstanding x) (lg_committing x) (lg_dev x) (lg_n x) (lg_block x).
Definition set_lg_size (v : Z) (x : logstate) : logstate :=
  Log (lg_start x) v (lg_outstanding x) (lg_committing x) (lg_dev x) (lg_n x) (lg_block x).
Definition set_lg_outstanding (v : Z) (x : logstate) : logstate :=
  Log (lg_start x) (lg_size x) v (lg_committing x) (lg_dev x) (lg_n x) (lg_block x).
Definition set_lg_committing (v : bool) (x : logstate) : logstate :=
  Log (lg_start x) (lg_size x) (lg_outstanding x) v (lg_dev x) (lg_n x) (lg_block x).
Definition set_lg_dev (v : Z) (x : logstate) : logstate :=
  Log (lg_start x) (lg_size x) (lg_outstanding x) (lg_committing x) v (lg_n x) (lg_block
    x).
Definition set_lg_n (v : Z) (x : logstate) : logstate :=
  Log (lg_start x) (lg_size x) (lg_outstanding x) (lg_committing x) (lg_dev x) v (lg_block
    x).
Definition set_lg_block (v : gmap Z Z) (x : logstate) : logstate :=
  Log (lg_start x) (lg_size x) (lg_outstanding x) (lg_committing x) (lg_dev x) (lg_n x) v.
Definition set_i_dev (v : Z) (x : inode) : inode :=
  Inode v (i_inum x) (i_ref x) (i_lock x) (i_valid x) (i_type x) (i_major x) (i_minor x)
    (i_nlink x) (i_size x) (i_addrs x).
Definition set_i_inum (v : Z) (x : inode) : inode :=
  Inode (i_dev x) v (i_ref x) (i_lock x) (i_valid x) (i_type x) (i_major x) (i_minor x)
    (i_nlink x) (i_size x) (i_addrs x).
Definition set_i_ref (v : Z) (x : inode) : inode :=
  Inode (i_dev x) (i_inum x) v (i_lock x) (i_valid x) (i_type x) (i_major x) (i_minor x)
    (i_nlink x) (i_size x) (i_addrs x).
Definition set_i_lock (v : sleeplock) (x : inode) : inode :=
  Inode (i_dev x) (i_inum x) (i_ref x) v (i_valid x) (i_type x) (i_major x) (i_minor x)
    (i_nlink x) (i_size x) (i_addrs x).
Definition set_i_valid (v : bool) (x : inode) : inode :=
  Inode (i_dev x) (i_inum x) (i_ref x) (i_lock x) v (i_type x) (i_major x) (i_minor x)
    (i_nlink x) (i_size x) (i_addrs x).
Definition set_i_type (v : Z) (x : inode) : inode :=
  Inode (i_dev x) (i_inum x) (i_ref x) (i_lock x) (i_valid x) v (i_major x) (i_minor x)
    (i_nlink x) (i_size x) (i_addrs x).
Definition set_i_major (v : Z) (x : inode) : inode :=
  Inode (i_dev x) (i_inum x) (i_ref x) (i_lock x) (i_valid x) (i_type x) v (i_minor x)
    (i_nlink x) (i_size x) (i_addrs x).
Definition set_i_minor (v : Z) (x : inode) : inode :=
  Inode (i_dev x) (i_inum x) (i_ref x) (i_lock x) (i_valid x) (i_type x) (i_major x) v
    (i_nlink x) (i_size x) (i_addrs x).
Definition set_i_nlink (v : Z) (x : inode) : inode :=
  Inode (i_dev x) (i_inum x) (i_ref x) (i_lock x) (i_valid x) (i_type x) (i_major x)
    (i_minor x) v (i_size x) (i_addrs x).
Definition set_i_size (v : Z) (x : inode) : inode :=
  Inode (i_dev x) (i_inum x) (i_ref x) (i_lock x) (i_valid x) (i_type x) (i_major x)
    (i_minor x) (i_nlink x) v (i_addrs x).
Definition set_i_addrs (v : gmap Z Z) (x : inode) : inode :=
  Inode (i_dev x) (i_inum x) (i_ref x) (i_lock x) (i_valid x) (i_type x) (i_major x)
    (i_minor x) (i_nlink x) (i_size x) v.
Definition set_f_type (v : fdtype) (x : file) : file :=
  File v (f_ref x) (f_readable x) (f_writable x) (f_pipe x) (f_ip x) (f_off x) (f_major x).
Definition set_f_ref (v : Z) (x : file) : file :=
  File (f_type x) v (f_readable x) (f_writable x) (f_pipe x) (f_ip x) (f_off x) (f_major
    x).
Definition set_f_readable (v : bool) (x : file) : file :=
  File (f_type x) (f_ref x) v (f_writable x) (f_pipe x) (f_ip x) (f_off x) (f_major x).
Definition set_f_writable (v : bool) (x : file) : file :=
  File (f_type x) (f_ref x) (f_readable x) v (f_pipe x) (f_ip x) (f_off x) (f_major x).
Definition set_f_pipe (v : Z) (x : file) : file :=
  File (f_type x) (f_ref x) (f_readable x) (f_writable x) v (f_ip x) (f_off x) (f_major x).
Definition set_f_ip (v : option nat) (x : file) : file :=
  File (f_type x) (f_ref x) (f_readable x) (f_writable x) (f_pipe x) v (f_off x) (f_major
    x).
Definition set_f_off (v : Z) (x : file) : file :=
  File (f_type x) (f_ref x) (f_readable x) (f_writable x) (f_pipe x) (f_ip x) v (f_major
    x).
Definition set_f_major (v : Z) (x : file) : file :=
  File (f_type x) (f_ref x) (f_readable x) (f_writable x) (f_pipe x) (f_ip x) (f_off x) v.
Definition set_pi_data (v : gmap Z Z) (x : pipe) : pipe :=
  Pipe v (pi_nread x) (pi_nwrite x) (pi_readopen x) (pi_writeopen x).
Definition set_pi_nread (v : Z) (x : pipe) : pipe :=
  Pipe (pi_data x) v (pi_nwrite x) (pi_readopen x) (pi_writeopen x).
Definition set_pi_nwrite (v : Z) (x : pipe) : pipe :=
  Pipe (pi_data x) (pi_nread x) v (pi_readopen x) (pi_writeopen x).
Definition set_pi_readopen (v : bool) (x : pipe) : pipe :=
  Pipe (pi_data x) (pi_nread x) (pi_nwrite x) v (pi_writeopen x).
Definition set_pi_writeopen (v : bool) (x : pipe) : pipe :=
  Pipe (pi_data x) (pi_nread x) (pi_nwrite x) (pi_readopen x) v.
Definition set_c_buf (v : gmap Z Z) (x : cons) : cons :=
  Cons v (c_r x) (c_w x) (c_e x).
Definition set_c_r (v : Z) (x : cons) : cons :=
  Cons (c_buf x) v (c_w x) (c_e x).
Definition set_c_w (v : Z) (x : cons) : cons :=
  Cons (c_buf x) (c_r x) v (c_e x).
Definition set_c_e (v : Z) (x : cons) : cons :=
  Cons (c_buf x) (c_r x) (c_w x) v.
Definition set_ut_buf (v : gmap Z Z) (x : uart) : uart :=
  Uart v (ut_w x) (ut_r x) (ut_in x) (ut_out x) (ut_idle x).
Definition set_ut_w (v : Z) (x : uart) : uart :=
  Uart (ut_buf x) v (ut_r x) (ut_in x) (ut_out x) (ut_idle x).
Definition set_ut_r (v : Z) (x : uart) : uart :=
  Uart (ut_buf x) (ut_w x) v (ut_in x) (ut_out x) (ut_idle x).
Definition set_ut_in (v : list Z) (x : uart) : uart :=
  Uart (ut_buf x) (ut_w x) (ut_r x) v (ut_out x) (ut_idle x).
Definition set_ut_out (v : list Z) (x : uart) : uart :=
  Uart (ut_buf x) (ut_w x) (ut_r x) (ut_in x) v (ut_idle x).
Definition set_ut_idle (v : bool) (x : uart) : uart :=
  Uart (ut_buf x) (ut_w x) (ut_r x) (ut_in x) (ut_out x) v.

(** ** Reading an entry of an array of structs *)
Definition page_at (s : kstate) (i : Z) : page := default page0 (k_pages s !! i).
Definition buf_at (s : kstate) (b : nat) : buf := default buf0 (k_bufs s !! b).
Definition proc_at (s : kstate) (p : nat) : proc := default proc0 (k_procs s !! p).
Definition bitmap_at (s : kstate) (i : Z) : Z := default 0 (k_bitmap s !! i).
Definition inode_at (s : kstate) (i : nat) : inode := default inode0 (k_inodes s !! i).
Definition file_at (s : kstate) (f : nat) : file := default file0 (k_files s !! f).
Definition pipe_at (s : kstate) (pi : Z) : pipe := default pipe0 (k_pipes s !! pi).
Definition block_at (s : kstate) (b : Z) : list Z := default zero_block (k_disk s !! b).

(** ** Writing through a pointer to an entry *)
Definition upd_page (i : Z) (f : page → page) (s : kstate) : kstate :=
  set_pages (<[i := f (page_at s i)]> (k_pages s)) s.
Definition upd_buf (b : nat) (f : buf → buf) (s : kstate) : kstate :=
  set_bufs (<[b := f (buf_at s b)]> (k_bufs s)) s.
Definition upd_proc (p : nat) (f : proc → proc) (s : kstate) : kstate :=
  set_procs (<[p := f (proc_at s p)]> (k_procs s)) s.
Definition upd_inode (i : nat) (f : inode → inode) (s : kstate) : kstate :=
  set_inodes (<[i := f (inode_at s i)]> (k_inodes s)) s.
Definition upd_file (i : nat) (f : file → file) (s : kstate) : kstate :=
  set_files (<[i := f (file_at s i)]> (k_files s)) s.
Definition upd_pipe (pi : Z) (f : pipe → pipe) (s : kstate) : kstate :=
  set_pipes (<[pi := f (pipe_at s pi)]> (k_pipes s)) s.
Definition upd_cons (f : cons → cons) (s : kstate) : kstate := set_cons (f (k_cons s)) s.
Definition upd_uart (f : uart → uart) (s : kstate) : kstate := set_uart (f (k_uart s)) s.
Definition upd_log (f : logstate → logstate) (s : kstate) : kstate :=
  set_log (f (k_log s)) s.

Notation K := (M kstate) (only parsing).

Lemma page_at_upd i f s j :
  page_at (upd_page i f s) j = if decide (j = i) then f (page_at s i) else page_at s j.
Proof.
  rewrite {1}/page_at /=. case_decide; subst.
  - by rewrite lookup_insert_eq.
  - by rewrite lookup_insert_ne; [congruence|].
Qed.
Lemma buf_at_upd i f s j :
  buf_at (upd_buf i f s) j = if decide (j = i) then f (buf_at s i) else buf_at s j.
Proof.
  rewrite {1}/buf_at /=. case_decide; subst.
  - by rewrite lookup_insert_eq.
  - by rewrite lookup_insert_ne; [congruence|].
Qed.
Lemma proc_at_upd i f s j :
  proc_at (upd_proc i f s) j = if decide (j = i) then f (proc_at s i) else proc_at s j.
Proof.
  rewrite {1}/proc_at /=. case_decide; subst.
  - by rewrite lookup_insert_eq.
  - by rewrite lookup_insert_ne; [congruence|].
Qed.

(** Reduce field selections from updated states; prove two states equal. *)
Ltac ksimpl := cbn [
    k_mem k_freelist k_pages k_lru_head k_bitmap k_nr_read k_nr_write k_bufs k_disk
    k_locks k_procs k_cur k_nextpid k_initproc k_ticks k_log k_sb k_inodes k_files
    k_pipes k_cons k_uart set_mem set_freelist set_pages set_lru_head set_bitmap
    set_nr_read set_nr_write set_bufs set_disk set_locks set_procs set_cur set_nextpid
    set_initproc set_ticks set_log set_sb set_inodes set_files set_pipes set_cons
    set_uart upd_page upd_buf upd_proc upd_inode upd_file upd_pipe upd_cons upd_uart
    upd_log].
Tactic Notation "ksimpl" "in" hyp(H) := cbn [
    k_mem k_freelist k_pages k_lru_head k_bitmap k_nr_read k_nr_write k_bufs k_disk
    k_locks k_procs k_cur k_nextpid k_initproc k_ticks k_log k_sb k_inodes k_files
    k_pipes k_cons k_uart set_mem set_freelist set_pages set_lru_head set_bitmap
    set_nr_read set_nr_write set_bufs set_disk set_locks set_procs set_cur set_nextpid
    set_initproc set_ticks set_log set_sb set_inodes set_files set_pipes set_cons
    set_uart upd_page upd_buf upd_proc upd_inode upd_file upd_pipe upd_cons upd_uart
    upd_log] in H.
Ltac kunfold := cbv beta delta [
    set_mem set_freelist set_pages set_lru_head set_bitmap set_nr_read set_nr_write
    set_bufs set_disk set_locks set_procs set_cur set_nextpid set_initproc set_ticks
    set_log set_sb set_inodes set_files set_pipes set_cons set_uart upd_page upd_buf
    upd_proc upd_inode upd_file upd_pipe upd_cons upd_uart upd_log page_at buf_at
    proc_at bitmap_at inode_at file_at pipe_at block_at]; cbn [
    k_mem k_freelist k_pages k_lru_head k_bitmap k_nr_read k_nr_write k_bufs k_disk
    k_locks k_procs k_cur k_nextpid k_initproc k_ticks k_log k_sb k_inodes k_files
    k_pipes k_cons k_uart].
Ltac kstate_eq :=
  kunfold; repeat match goal with
  | |- Ok _ _ = Ok _ _ => f_equal
  | |- KState _ _ _ _ _ _ _ _ _ _ _ _ _ _ _ _ _ _ _ _ _ _ = KState _ _ _ _ _ _ _ _ _ _ _ _ _ _ _ _ _ _ _ _ _ _ => f_equal
  | |- KState _ _ _ _ _ _ _ _ _ _ _ _ _ _ _ _ _ _ _ _ _ _ = ?s => is_var s; destruct s; cbn [
    k_mem k_freelist k_pages k_lru_head k_bitmap k_nr_read k_nr_write k_bufs k_disk
    k_locks k_procs k_cur k_nextpid k_initproc k_ticks k_log k_sb k_inodes k_files
    k_pipes k_cons k_uart] in *
  end; first [reflexivity | congruence].
(** Field selections of long chains of updates, by rewriting one update at a
    time: conversion would compare the nested states argument first. *)
Ltac kproj_step f g v u :=
  let E := fresh in
  first [ assert (E : ∀ v0 u0, f (g v0 u0) = f u0) by (intros ? ?; reflexivity)
        | assert (E : ∀ v0 u0, f (g v0 u0) = v0) by (intros ? ?; reflexivity) ];
  rewrite (E v u); clear E.
Ltac kproj :=
  repeat match goal with
  | |- context [k_mem (?g ?v ?u)] => kproj_step k_mem g v u
  | |- context [k_freelist (?g ?v ?u)] => kproj_step k_freelist g v u
  | |- context [k_pages (?g ?v ?u)] => kproj_step k_pages g v u
  | |- context [k_lru_head (?g ?v ?u)] => kproj_step k_lru_head g v u
  | |- context [k_bitmap (?g ?v ?u)] => kproj_step k_bitmap g v u
  | |- context [k_nr_read (?g ?v ?u)] => kproj_step k_nr_read g v u
  | |- context [k_nr_write (?g ?v ?u)] => kproj_step k_nr_write g v u
  | |- context [k_bufs (?g ?v ?u)] => kproj_step k_bufs g v u
  | |- context [k_disk (?g ?v ?u)] => kproj_step k_disk g v u
  | |- context [k_locks (?g ?v ?u)] => kproj_step k_locks g v u
  | |- context [k_procs (?g ?v ?u)] => kproj_step k_procs g v u
  | |- context [k_cur (?g ?v ?u)] => kproj_step k_cur g v u
  | |- context [k_nextpid (?g ?v ?u)] => kproj_step k_nextpid g v u
  | |- context [k_initproc (?g ?v ?u)] => kproj_step k_initproc g v u
  | |- context [k_ticks (?g ?v ?u)] => kproj_step k_ticks g v u
  | |- context [k_log (?g ?v ?u)] => kproj_step k_log g v u
  | |- context [k_sb (?g ?v ?u)] => kproj_step k_sb g v u
  | |- context [k_inodes (?g ?v ?u)] => kproj_step k_inodes g v u
  | |- context [k_files (?g ?v ?u)] => kproj_step k_files g v u
  | |- context [k_pipes (?g ?v ?u)] => kproj_step k_pipes g v u
  | |- context [k_cons (?g ?v ?u)] => kproj_step k_cons g v u
  | |- context [k_uart (?g ?v ?u)] => kproj_step k_uart g v u
  end.
Ltac kproj_step_in f g v u H :=
  let E := fresh in
  first [ assert (E : ∀ v0 u0, f (g v0 u0) = f u0) by (intros ? ?; reflexivity)
        | assert (E : ∀ v0 u0, f (g v0 u0) = v0) by (intros ? ?; reflexivity) ];
  rewrite (E v u) in H; clear E.
Tactic Notation "kproj" "in" hyp(H) :=
  repeat match type of H with
  | context [k_mem (?g ?v ?u)] => kproj_step_in k_mem g v u H
  | context [k_freelist (?g ?v ?u)] => kproj_step_in k_freelist g v u H
  | context [k_pages (?g ?v ?u)] => kproj_step_in k_pages g v u H
  | context [k_lru_head (?g ?v ?u)] => kproj_step_in k_lru_head g v u H
  | context [k_bitmap (?g ?v ?u)] => kproj_step_in k_bitmap g v u H
  | context [k_nr_read (?g ?v ?u)] => kproj_step_in k_nr_read g v u H
  | context [k_nr_write (?g ?v ?u)] => kproj_step_in k_nr_write g v u H
  | context [k_bufs (?g ?v ?u)] => kproj_step_in k_bufs g v u H
  | context [k_disk (?g ?v ?u)] => kproj_step_in k_disk g v u H
  | context [k_locks (?g ?v ?u)] => kproj_step_in k_locks g v u H
  | context [k_procs (?g ?v ?u)] => kproj_step_in k_procs g v u H
  | context [k_cur (?g ?v ?u)] => kproj_step_in k_cur g v u H
  | context [k_nextpid (?g ?v ?u)] => kproj_step_in k_nextpid g v u H
  | context [k_initproc (?g ?v ?u)] => kproj_step_in k_initproc g v u H
  | context [k_ticks (?g ?v ?u)] => kproj_step_in k_ticks g v u H
  | context [k_log (?g ?v ?u)] => kproj_step_in k_log g v u H
  | context [k_sb (?g ?v ?u)] => kproj_step_in k_sb g v u H
  | context [k_inodes (?g ?v ?u)] => kproj_step_in k_inodes g v u H
  | context [k_files (?g ?v ?u)] => kproj_step_in k_files g v u H
  | context [k_pipes (?g ?v ?u)] => kproj_step_in k_pipes g v u H
  | context [k_cons (?g ?v ?u)] => kproj_step_in k_cons g v u H
  | context [k_uart (?g ?v ?u)] => kproj_step_in k_uart g v u H
  end.
