(* ===== verification/Sched.v ===== *)
(** Locks and sleeping, as one kernel thread sees them: acquire() and release()
    of kernel/spinlock.c, sleep(), wakeup() and sched() of kernel/proc.c, and
    the sleep locks of kernel/sleeplock.c.

    One hart runs at a time in this model, so acquire() does not spin; what it
    checks is kept: taking a lock the hart already holds panics, and so does
    releasing one it does not hold.  A thread that has to wait ends in
    [Block], with its process entry already marked SLEEPING. *)
From S2P Require Import Prelude Riscv Mem State.

(** ** kernel/spinlock.c *)

Definition holding (lk : lockid) : K bool := gets (λ s, bool_decide (lk ∈ k_locks s)).

Definition acquire (lk : lockid) : K unit :=
  h ← holding lk;
  if h then panic "acquire" else modify (λ s, set_locks (lk :: k_locks s) s).

Definition release (lk : lockid) : K unit :=
  h ← holding lk;
  if h then modify (λ s, set_locks (filter (λ l, l ≠ lk) (k_locks s)) s)
  else panic "release".

(** ** kernel/proc.c: myproc, sched, sleep, wakeup *)

(** Reading a field of myproc() when there is none faults in the kernel,
    which kerneltrap() turns into a panic. *)
Definition myproc : K nat :=
  c ← gets k_cur;
  match c with Some p => ret p | None => panic "kerneltrap" end.

(** The hart gives up the CPU: the thread stops here until it is scheduled. *)
Definition sched : K unit :=
  p ← myproc;
  h ← holding (proc_lock p);
  if negb h then panic "sched p->lock" else
  noff ← gets (λ s, length (k_locks s));
  if negb (noff =? 1)%nat then panic "sched locks" else
  st ← gets (λ s, p_state (proc_at s p));
  if bool_decide (st = RUNNING) then panic "sched running" else
  block.

Definition sleep (ch : chan) (lk : lockid) : K unit :=
  p ← myproc;
  acquire (proc_lock p);;
  release lk;;
  modify (upd_proc p (set_p_chan ch));;
  modify (upd_proc p (set_p_state SLEEPING));;
  sched;;
  modify (upd_proc p (set_p_chan ch_null));;
  release (proc_lock p);;
  acquire lk.

Definition wakeup1 (ch : chan) (p : nat) : K unit :=
  c ← gets k_cur;
  if bool_decide (c = Some p) then ret tt else
  acquire (proc_lock p);;
  pr ← gets (λ s, proc_at s p);
  when (bool_decide (p_state pr = SLEEPING) && bool_decide (p_chan pr = ch))
    (modify (upd_proc p (set_p_state RUNNABLE)));;
  release (proc_lock p).
Definition wakeup (ch : chan) : K unit := forM (seq 0 NPROC) (wakeup1 ch).

Definition setkilled (p : nat) : K unit :=
  acquire (proc_lock p);;
  modify (upd_proc p (set_p_killed 1));;
  release (proc_lock p).
Definition killed (p : nat) : K bool :=
  acquire (proc_lock p);;
  k ← gets (λ s, p_killed (proc_at s p));
  release (proc_lock p);;
  ret (negb (k =? 0)).

(** ** kernel/sleeplock.c

    A [struct sleeplock *] is given by how the lock is read and written, the
    spinlock in it and the channel its waiters sleep on (its own address). *)
Record slref := SlRef {
  sr_get : kstate → sleeplock; sr_set : sleeplock → kstate → kstate;
  sr_lk : lockid; sr_chan : chan
}.

Definition initsleeplock (lk : slref) : K unit := modify (sr_set lk (Sleeplock false 0)).

(** A thread that is woken checks the condition again from the start. *)
Definition acquiresleep (lk : slref) : K unit :=
  acquire (sr_lk lk);;
  l ← gets (sr_get lk);
  if sl_locked l then sleep (sr_chan lk) (sr_lk lk) else
  p ← myproc;
  pid ← gets (λ s, p_pid (proc_at s p));
  modify (sr_set lk (Sleeplock true pid));;
  release (sr_lk lk).

Definition releasesleep (lk : slref) : K unit :=
  acquire (sr_lk lk);;
  modify (sr_set lk (Sleeplock false 0));;
  wakeup (sr_chan lk);;
  release (sr_lk lk).

Definition holdingsleep (lk : slref) : K bool :=
  acquire (sr_lk lk);;
  l ← gets (sr_get lk);
  p ← myproc;
  pid ← gets (λ s, p_pid (proc_at s p));
  release (sr_lk lk);;
  ret (sl_locked l && (sl_pid l =? pid)).

(** ** Lemmas *)

#[global] Arguments wakeup : simpl never.

Lemma set_locks_id s : set_locks (k_locks s) s = s.
Proof. by destruct s. Qed.
Lemma set_locks_locks v w s : set_locks v (set_locks w s) = set_locks v s.
Proof. by destruct s. Qed.

Lemma acquire_eq lk s : lk ∉ k_locks s → acquire lk s = Ok tt (set_locks (lk :: k_locks s) s).
Proof.
  intros H. rewrite /acquire /bind /=. by rewrite bool_decide_eq_false_2.
Qed.
Lemma release_eq lk l s :
  k_locks s = lk :: l → lk ∉ l → release lk s = Ok tt (set_locks l s).
Proof.
  intros H Hl. rewrite /release /bind /= H bool_decide_eq_true_2; [left|].
  rewrite /modify H filter_cons_False; [tauto|]. by rewrite filter_not_in.
Qed.

Lemma wp_acquire lk Q s :
  lk ∉ k_locks s → Q tt (set_locks (lk :: k_locks s) s) → wp (acquire lk) Q s.
Proof. intros H HQ. exact (wp_eq _ _ _ _ _ (acquire_eq lk s H) HQ). Qed.
Lemma wp_release lk l Q s :
  k_locks s = lk :: l → lk ∉ l → Q tt (set_locks l s) → wp (release lk) Q s.
Proof. intros H1 H2 HQ. exact (wp_eq _ _ _ _ _ (release_eq lk l s H1 H2) HQ). Qed.

(** acquire() of a lock already held is the "acquire" panic, release() of one
    that is not held the "release" panic. *)
Lemma acquire_held lk s : lk ∈ k_locks s → acquire lk s = Panic "acquire".
Proof. intros H. rewrite /acquire /bind /=. by rewrite bool_decide_eq_true_2. Qed.
Lemma release_not_held lk s : lk ∉ k_locks s → release lk s = Panic "release".
Proof. intros H. rewrite /release /bind /=. by rewrite bool_decide_eq_false_2. Qed.

(** *** wakeup *)

Definition wake_one (ch : chan) (cur : option nat) (ps : gmap nat proc) (p : nat) : gmap nat proc :=
  let pr := default proc0 (ps !! p) in
  if bool_decide (cur = Some p) then ps
  else if bool_decide (p_state pr = SLEEPING) && bool_decide (p_chan pr = ch)
  then <[p := set_p_state RUNNABLE pr]> ps else ps.
Definition wake_all (ch : chan) (cur : option nat) (ps : gmap nat proc) : gmap nat proc :=
  foldl (wake_one ch cur) ps (seq 0 NPROC).

#[global] Arguments wake_all : simpl never.

Definition no_proc_lock (s : kstate) : Prop := ∀ i, proc_lock i ∉ k_locks s.

Lemma wakeup1_eq ch p s :
  no_proc_lock s →
  wakeup1 ch p s = Ok tt (set_procs (wake_one ch (k_cur s) (k_procs s) p) s).
Proof.
  intros Hl. rewrite /wakeup1 /wake_one {1}/bind /=.
  destruct (decide (k_cur s = Some p)) as [E|E].
  { rewrite bool_decide_eq_true_2 //. by destruct s. }
  rewrite bool_decide_eq_false_2 // {1}/bind acquire_eq // /=.
  rewrite /bind /= /proc_at /=. set (pr := default proc0 _).
  destruct (bool_decide _ && bool_decide _); cbn -[release];
    (erewrite release_eq; [|done|by apply Hl]); by destruct s.
Qed.

Lemma wakeup_list_eq ch l s :
  no_proc_lock s →
  forM l (wakeup1 ch) s = Ok tt (set_procs (foldl (wake_one ch (k_cur s)) (k_procs s) l) s).
Proof.
  revert s; induction l as [|p l IH]; intros s Hl; cbn [forM foldl].
  { by destruct s. }
  rewrite /bind wakeup1_eq //. rewrite IH //. 
Qed.

Lemma wakeup_eq ch s :
  no_proc_lock s →
  wakeup ch s = Ok tt (set_procs (wake_all ch (k_cur s) (k_procs s)) s).
Proof. apply wakeup_list_eq. Qed.

(** A wakeup changes nothing but the state of sleeping processes. *)
Definition woken (p q : proc) : Prop :=
  q = p ∨ (p_state p = SLEEPING ∧ q = set_p_state RUNNABLE p).

Lemma wake_one_at ch cur ps p i :
  default proc0 (wake_one ch cur ps p !! i) =
  let q := default proc0 (ps !! i) in
  if decide (i = p ∧ cur ≠ Some i ∧ p_state q = SLEEPING ∧ p_chan q = ch)
  then set_p_state RUNNABLE q else q.
Proof.
  rewrite /wake_one /=. destruct (decide (i = p)) as [->|Hne].
  - repeat case_bool_decide; case_decide; simpl; rewrite ?lookup_insert_eq; naive_solver.
  - case_decide; [naive_solver|]. repeat case_bool_decide; simpl; try done.
    rewrite lookup_insert_ne; [congruence|done].
Qed.

Lemma wake_list_at ch cur l ps i :
  default proc0 (foldl (wake_one ch cur) ps l !! i) =
  let q := default proc0 (ps !! i) in
  if decide (i ∈ l ∧ cur ≠ Some i ∧ p_state q = SLEEPING ∧ p_chan q = ch)
  then set_p_state RUNNABLE q else q.
Proof.
  revert ps; induction l as [|p l IH]; intros ps; cbn [foldl].
  { cbv zeta. case_decide; [set_solver|done]. }
  rewrite IH wake_one_at. cbv zeta. set (q := default proc0 (ps !! i)).
  destruct (decide (i = p ∧ _)) as [(-> & Hc & Hs & Hch)|Hn].
  - rewrite decide_False; [by intros (_ & _ & ? & _)|].
    rewrite decide_True //. set_solver.
  - destruct (decide (i ∈ l ∧ _)) as [H1|H1], (decide (i ∈ p :: l ∧ _)) as [H2|H2]; try done;
      rewrite elem_of_cons in H2; naive_solver.
Qed.

Lemma wake_all_at ch cur ps i :
  default proc0 (wake_all ch cur ps !! i) =
  let q := default proc0 (ps !! i) in
  if decide ((i < NPROC)%nat ∧ cur ≠ Some i ∧ p_state q = SLEEPING ∧ p_chan q = ch)
  then set_p_state RUNNABLE q else q.
Proof.
  rewrite /wake_all wake_list_at. cbv zeta.
  destruct (decide (i ∈ seq 0 NPROC ∧ _)) as [H1|H1], (decide ((i < NPROC)%nat ∧ _)) as [H2|H2];
    try done; rewrite elem_of_seq in H1; naive_solver lia.
Qed.

Lemma wake_all_pid ch cur ps i :
  p_pid (default proc0 (wake_all ch cur ps !! i)) = p_pid (default proc0 (ps !! i)).
Proof. rewrite wake_all_at /=. by case_decide. Qed.

(** The loop over the process table is unfolded last. *)
Strategy 1000 [wake_all wakeup].
