(* ===== verification/Spinlock.v ===== *)
(** Spin locks on several harts: kernel/spinlock.c.

    Sched.v models one hart at a time, with the list of locks it holds.  Here
    the locks and the per-CPU state are those of the C code, a hart executes
    acquire() and release() in the steps another hart can observe, and the
    steps of all harts interleave in any order.  The theorems say that the list
    of Sched.v is what the C code maintains. *)
From S2P Require Import Prelude Riscv State Sched.

(** ** struct spinlock and struct cpu *)

Record spinlock := Spinlock { lk_locked : bool; lk_cpu : option nat }.
Definition spinlock0 : spinlock := Spinlock false None.

(** Where a hart is inside acquire() or release(); [Idle] is between calls. *)
Inductive pc :=
| Idle
| AcqHolding (lk : lockid)  (* after push_off(), before holding() *)
| AcqSpin (lk : lockid)     (* at the atomic swap *)
| AcqCpu (lk : lockid)      (* before lk->cpu = mycpu() *)
| RelHolding (lk : lockid)  (* before holding() *)
| RelUnlock (lk : lockid)   (* after lk->cpu = 0, before the atomic store *)
| RelPop                    (* before pop_off() *)
| Panicked (msg : string).

(** [c_sie] is the interrupt-enable bit of sstatus; [c_held] the locks whose
    acquire() has returned and whose release() has not cleared lk->cpu. *)
Record cpu := Cpu { c_noff : Z; c_intena : bool; c_sie : bool; c_pc : pc; c_held : list lockid }.
Definition cpu0 : cpu := Cpu 0 false false Idle [].

#[global] Instance lockid_countable : Countable lockid.
Proof.
  refine (inj_countable' (λ l, match l with
    | kmem_lock => inl 0%nat | lru_lock => inl 1%nat | swap_lock => inl 2%nat | bcache_lock => inl 3%nat
    | wait_lock => inl 4%nat | pid_lock => inl 5%nat | log_lock => inl 6%nat | itable_lock => inl 7%nat
    | ftable_lock => inl 8%nat | tickslock => inl 9%nat | cons_lock => inl 10%nat | uart_tx_lock => inl 11%nat
    | proc_lock p => inr (0%nat, Z.of_nat p) | buf_lk b => inr (1%nat, Z.of_nat b)
    | inode_lk i => inr (2%nat, Z.of_nat i) | pipe_lock pi => inr (3%nat, pi) end)
    (λ x, match x with
    | inl 0%nat => kmem_lock | inl 1%nat => lru_lock | inl 2%nat => swap_lock | inl 3%nat => bcache_lock
    | inl 4%nat => wait_lock | inl 5%nat => pid_lock | inl 6%nat => log_lock | inl 7%nat => itable_lock
    | inl 8%nat => ftable_lock | inl 9%nat => tickslock | inl 10%nat => cons_lock | inl _ => uart_tx_lock
    | inr (0%nat, p) => proc_lock (Z.to_nat p) | inr (1%nat, b) => buf_lk (Z.to_nat b)
    | inr (2%nat, i) => inode_lk (Z.to_nat i) | inr (_, pi) => pipe_lock pi end) _).
  intros []; try done; by rewrite Nat2Z.id.
Defined.

Record harts := Harts { h_cpus : gmap nat cpu; h_locks : gmap lockid spinlock }.

Definition cpu_at (s : harts) (h : nat) : cpu := default cpu0 (h_cpus s !! h).
Definition lock_at (s : harts) (lk : lockid) : spinlock := default spinlock0 (h_locks s !! lk).
Definition set_cpu (h : nat) (c : cpu) (s : harts) : harts := Harts (<[h := c]> (h_cpus s)) (h_locks s).
Definition set_lock (lk : lockid) (l : spinlock) (s : harts) : harts := Harts (h_cpus s) (<[lk := l]> (h_locks s)).
Definition goto (p : pc) (c : cpu) : cpu := Cpu (c_noff c) (c_intena c) (c_sie c) p (c_held c).

(** ** push_off(), pop_off(), holding() *)

Definition push_off (c : cpu) : cpu :=
  Cpu (c_noff c + 1) (if c_noff c =? 0 then c_sie c else c_intena c) false (c_pc c) (c_held c).

Definition pop_off (c : cpu) : cpu + string :=
  if c_sie c then inr "pop_off - interruptible"%string
  else if c_noff c <? 1 then inr "pop_off"%string
  else
    let n := c_noff c - 1 in
    inl (Cpu n (c_intena c) ((n =? 0) && c_intena c) (c_pc c) (c_held c)).

Definition holds (s : harts) (h : nat) (lk : lockid) : bool :=
  lk_locked (lock_at s lk) && bool_decide (lk_cpu (lock_at s lk) = Some h).

(** ** The steps of a hart *)

Inductive call := CallAcquire (lk : lockid) | CallRelease (lk : lockid) | CallIntr (on : bool).

(** A hart between calls enters acquire() (its first statement is push_off())
    or release(), or, while it is not inside a push_off(), turns interrupts on
    or off. *)
Definition enter (h : nat) (op : call) (s : harts) : harts :=
  let c := cpu_at s h in
  match op with
  | CallAcquire lk => set_cpu h (goto (AcqHolding lk) (push_off c)) s
  | CallRelease lk => set_cpu h (goto (RelHolding lk) c) s
  | CallIntr on =>
      if c_noff c =? 0 then set_cpu h (Cpu 0 (c_intena c) on (c_pc c) (c_held c)) s else s
  end.

(** The next step of a call in progress. *)
Definition advance (h : nat) (s : harts) : harts :=
  let c := cpu_at s h in
  match c_pc c with
  | Idle | Panicked _ => s
  | AcqHolding lk =>
      if holds s h lk then set_cpu h (goto (Panicked "acquire") c) s
      else set_cpu h (goto (AcqSpin lk) c) s
  | AcqSpin lk =>
      if lk_locked (lock_at s lk) then s
      else set_lock lk (Spinlock true (lk_cpu (lock_at s lk))) (set_cpu h (goto (AcqCpu lk) c) s)
  | AcqCpu lk =>
      set_lock lk (Spinlock (lk_locked (lock_at s lk)) (Some h))
        (set_cpu h (Cpu (c_noff c) (c_intena c) (c_sie c) Idle (lk :: c_held c)) s)
  | RelHolding lk =>
      if holds s h lk then
        set_lock lk (Spinlock (lk_locked (lock_at s lk)) None)
          (set_cpu h (Cpu (c_noff c) (c_intena c) (c_sie c) (RelUnlock lk) (filter (λ x, x ≠ lk) (c_held c))) s)
      else set_cpu h (goto (Panicked "release") c) s
  | RelUnlock lk =>
      set_lock lk (Spinlock false (lk_cpu (lock_at s lk))) (set_cpu h (goto RelPop c) s)
  | RelPop =>
      match pop_off c with
      | inl c' => set_cpu h (goto Idle c') s
      | inr msg => set_cpu h (goto (Panicked msg) c) s
      end
  end.

Inductive step (s : harts) : harts → Prop :=
| step_enter h op : c_pc (cpu_at s h) = Idle → step s (enter h op s)
| step_advance h : step s (advance h s).

(** All locks free, no hart in a critical section; interrupts as they are. *)
Record boot (s : harts) : Prop := {
  bt_locks lk : lock_at s lk = spinlock0;
  bt_cpus h : c_noff (cpu_at s h) = 0 ∧ c_pc (cpu_at s h) = Idle ∧ c_held (cpu_at s h) = []
}.
Inductive reachable (s0 : harts) : harts → Prop :=
| reach_refl : reachable s0 s0
| reach_step s s' : reachable s0 s → step s s' → reachable s0 s'.

(** ** The invariant *)

(** The hart is between the swap that took [lk] and the store that frees it. *)
Definition in_window (c : cpu) (lk : lockid) : Prop := c_pc c = AcqCpu lk ∨ c_pc c = RelUnlock lk.
Definition owns (s : harts) (h : nat) (lk : lockid) : Prop :=
  lk ∈ c_held (cpu_at s h) ∨ in_window (cpu_at s h) lk.

(** push_off()s without their pop_off(). *)
Definition pending (p : pc) : Z :=
  match p with AcqHolding _ | AcqSpin _ | AcqCpu _ | RelUnlock _ | RelPop => 1 | _ => 0 end.

(** A panicking hart is left as it is; [msg] says where it stopped. *)
Record spin_inv (s : harts) : Prop := {
  si_nodup h : NoDup (c_held (cpu_at s h));
  si_window h lk : in_window (cpu_at s h) lk → lk ∉ c_held (cpu_at s h);
  si_locked lk : lk_locked (lock_at s lk) = true ↔ ∃ h, owns s h lk;
  si_excl h1 h2 lk : owns s h1 lk → owns s h2 lk → h1 = h2;
  si_cpu h lk : lk_cpu (lock_at s lk) = Some h ↔ lk ∈ c_held (cpu_at s h);
  si_noff h : (∀ msg, c_pc (cpu_at s h) ≠ Panicked msg) →
    c_noff (cpu_at s h) = Z.of_nat (length (c_held (cpu_at s h))) + pending (c_pc (cpu_at s h));
  si_off h : 0 < c_noff (cpu_at s h) → c_sie (cpu_at s h) = false;
  si_nneg h : 0 ≤ c_noff (cpu_at s h);
  si_panic h msg : c_pc (cpu_at s h) = Panicked msg → msg = "acquire"%string ∨ msg = "release"%string
}.

(** ** Lemmas *)

Lemma cpu_at_set h c s h' : cpu_at (set_cpu h c s) h' = if decide (h' = h) then c else cpu_at s h'.
Proof.
  rewrite /cpu_at /=. case_decide; [subst; by rewrite lookup_insert_eq|by rewrite lookup_insert_ne; [congruence|]].
Qed.
Lemma lock_at_set lk l s lk' : lock_at (set_lock lk l s) lk' = if decide (lk' = lk) then l else lock_at s lk'.
Proof.
  rewrite /lock_at /=. case_decide; [subst; by rewrite lookup_insert_eq|by rewrite lookup_insert_ne; [congruence|]].
Qed.
Lemma cpu_at_set_lock lk l s h : cpu_at (set_lock lk l s) h = cpu_at s h.
Proof. done. Qed.
Lemma lock_at_set_cpu h c s lk : lock_at (set_cpu h c s) lk = lock_at s lk.
Proof. done. Qed.

Lemma holds_held s h lk : spin_inv s → holds s h lk = bool_decide (lk ∈ c_held (cpu_at s h)).
Proof.
  intros I. apply Bool.eq_iff_eq_true. rewrite andb_true_iff !bool_decide_eq_true (si_cpu _ I) (si_locked _ I).
  split; [tauto|]. intros H. split; [|done]. exists h. by left.
Qed.

Lemma boot_inv s : boot s → spin_inv s.
Proof.
  intros [Bl Bc]. split.
  - intros h. destruct (Bc h) as (_ & _ & ->). constructor.
  - intros h lk [E|E]; destruct (Bc h) as (_ & Ep & _); congruence.
  - intros lk. rewrite Bl. split; [done|]. intros [h [Hh|[E|E]]]; destruct (Bc h) as (_ & Ep & Eh); try congruence.
    rewrite Eh in Hh. by apply elem_of_nil in Hh.
  - intros h1 h2 lk [Hh|[E|E]]; destruct (Bc h1) as (_ & Ep & Eh); try congruence.
    rewrite Eh in Hh. by apply elem_of_nil in Hh.
  - intros h lk. rewrite Bl. destruct (Bc h) as (_ & _ & ->). split; [done|]. intros H. by apply elem_of_nil in H.
  - intros h _. by destruct (Bc h) as (-> & -> & ->).
  - intros h. destruct (Bc h) as (-> & _). lia.
  - intros h. destruct (Bc h) as (-> & _). lia.
  - intros h msg. destruct (Bc h) as (_ & -> & _). done.
Qed.

(** A hart that moves without taking or freeing a lock. *)
Lemma spin_inv_pc s h c : spin_inv s →
  c_held c = c_held (cpu_at s h) → (∀ lk, in_window c lk ↔ in_window (cpu_at s h) lk) →
  ((∀ msg, c_pc c ≠ Panicked msg) → c_noff c = Z.of_nat (length (c_held c)) + pending (c_pc c)) →
  (0 < c_noff c → c_sie c = false) → 0 ≤ c_noff c →
  (∀ msg, c_pc c = Panicked msg → msg = "acquire"%string ∨ msg = "release"%string) →
  spin_inv (set_cpu h c s).
Proof.
  intros [I1 I2 I3 I4 I5 I6 I7 I8 I9] Hh Hw Hn Ho Hnn Hp.
  assert (∀ h' lk, owns (set_cpu h c s) h' lk ↔ owns s h' lk) as Hown.
  { intros h' lk. rewrite /owns cpu_at_set. case_decide; [subst; by rewrite Hh Hw|done]. }
  split; try (intros h'; rewrite cpu_at_set; case_decide; subst; auto; fail).
  - intros h'. rewrite cpu_at_set. case_decide; [rewrite Hh|]; apply I1.
  - intros h' lk. rewrite cpu_at_set. case_decide; [subst; rewrite Hh Hw|]; apply I2.
  - intros lk. rewrite lock_at_set_cpu I3. by setoid_rewrite Hown.
  - intros h1 h2 lk. rewrite !Hown. apply I4.
  - intros h' lk. rewrite lock_at_set_cpu cpu_at_set. case_decide; [subst; rewrite Hh|]; apply I5.
  - intros h' msg. rewrite cpu_at_set. case_decide; [apply Hp|apply I9].
Qed.

(** A hart that takes or gives up [lk]: the other locks and harts are as before. *)
Lemma owns_move s h c lk l h' x :
  owns (set_lock lk l (set_cpu h c s)) h' x ↔ if decide (h' = h) then x ∈ c_held c ∨ in_window c x else owns s h' x.
Proof. rewrite /owns cpu_at_set_lock cpu_at_set. by case_decide. Qed.

Lemma spin_inv_move s h c lk l : spin_inv s →
  (∀ x, x ≠ lk → x ∈ c_held c ↔ x ∈ c_held (cpu_at s h)) → (∀ x, x ≠ lk → ¬ in_window c x) →
  (∀ x, x ≠ lk → ¬ in_window (cpu_at s h) x) →
  NoDup (c_held c) → (in_window c lk → lk ∉ c_held c) →
  (lk_locked l = true ↔ lk ∈ c_held c ∨ in_window c lk) → (lk_cpu l = Some h ↔ lk ∈ c_held c) →
  (lk_cpu l = Some h ∨ lk_cpu l = None) → (∀ h', h' ≠ h → ¬ owns s h' lk) →
  ((∀ msg, c_pc c ≠ Panicked msg) → c_noff c = Z.of_nat (length (c_held c)) + pending (c_pc c)) →
  (0 < c_noff c → c_sie c = false) → 0 ≤ c_noff c → (∀ msg, c_pc c ≠ Panicked msg) →
  spin_inv (set_lock lk l (set_cpu h c s)).
Proof.
  intros [I1 I2 I3 I4 I5 I6 I7 I8 I9] Hh Hw Hw0 Hnd Hwl Hlk Hcpu Hc2 Hoth Hn Ho Hnn Hp.
  assert (∀ x, x ≠ lk → (x ∈ c_held c ∨ in_window c x) ↔ owns s h x) as Hx.
  { intros x Hx. rewrite /owns Hh //. specialize (Hw x Hx). specialize (Hw0 x Hx). tauto. }
  split; try (intros h'; rewrite cpu_at_set_lock cpu_at_set; case_decide; subst; auto; fail).
  - intros h' x. rewrite cpu_at_set_lock cpu_at_set. case_decide; [|apply I2].
    intros Hwx. destruct (decide (x = lk)) as [->|]; [by apply Hwl|]. by apply Hw in Hwx.
  - intros x. rewrite lock_at_set lock_at_set_cpu. setoid_rewrite owns_move. case_decide as Ex.
    + subst x. rewrite Hlk. split; [intros H; exists h; by rewrite decide_True|].
      intros [h' H]. case_decide; [done|]. by apply Hoth in H.
    + rewrite I3. split; intros [h' H]; exists h'; (case_decide; [subst; by apply Hx|done]).
  - intros h1 h2 x. rewrite !owns_move. destruct (decide (x = lk)) as [->|Hne].
    + repeat case_decide; intros H1 H2; subst; try done; [by apply Hoth in H2|by apply Hoth in H1|by apply Hoth in H1].
    + intros H1 H2. apply (I4 h1 h2 x); [destruct (decide (h1 = h)) as [->|]|destruct (decide (h2 = h)) as [->|]];
        try done; by apply Hx.
  - intros h' x. rewrite lock_at_set lock_at_set_cpu cpu_at_set_lock cpu_at_set.
    destruct (decide (x = lk)) as [->|Hne], (decide (h' = h)) as [->|Hne']; [done| |by rewrite I5 Hh|apply I5].
    split; [destruct Hc2 as [->| ->]; congruence|]. intros H. exfalso. apply (Hoth h' Hne'). by left.
  - intros h' msg. rewrite cpu_at_set_lock cpu_at_set. case_decide; [|apply I9]. intros E. by apply Hp in E.
Qed.

Lemma length_filter_ne (l : list lockid) x : NoDup l → x ∈ l → (S (length (filter (λ y, y ≠ x) l)) = length l)%nat.
Proof.
  induction 1 as [|y l Hy Hnd IH]; intros Hx; [by apply elem_of_nil in Hx|].
  destruct (decide (y = x)) as [->|Hne].
  - rewrite filter_cons_False; [tauto|]. by rewrite filter_not_in.
  - rewrite filter_cons_True //=. rewrite IH //. by apply elem_of_cons in Hx as [?|?]; [congruence|].
Qed.

Lemma window_pc p c x : in_window (goto p c) x ↔ p = AcqCpu x ∨ p = RelUnlock x.
Proof. done. Qed.

Lemma enter_inv s h op : spin_inv s → c_pc (cpu_at s h) = Idle → spin_inv (enter h op s).
Proof.
  intros I Hpc. pose proof (si_noff _ I h) as Hn. rewrite Hpc in Hn. specialize (Hn ltac:(done)). cbn in Hn.
  pose proof (si_nneg _ I h). pose proof (si_off _ I h) as Ho.
  assert (∀ p lk, p ≠ AcqCpu lk → p ≠ RelUnlock lk → ∀ c, in_window (goto p c) lk ↔ in_window (cpu_at s h) lk) as Hw.
  { intros p lk H1 H2 c. rewrite window_pc /in_window Hpc. naive_solver. }
  destruct op as [lk|lk|on]; cbn [enter].
  - apply spin_inv_pc; [done|done|intros x; by apply Hw| |done| |done]; cbn in *; lia.
  - apply spin_inv_pc; [done|done|intros x; by apply Hw| |exact Ho|done|done]; cbn in *; lia.
  - case_match eqn:E; [|done]. apply Z.eqb_eq in E.
    apply spin_inv_pc; [done|done|done| | |done|]; cbn in *; [rewrite Hpc; cbn; lia|lia|congruence].
Qed.

Lemma advance_inv s h : spin_inv s → spin_inv (advance h s).
Proof.
  intros I. rewrite /advance. pose proof (si_noff _ I h) as Hn. pose proof (si_nneg _ I h) as Hnn.
  pose proof (si_off _ I h) as Ho. pose proof (si_nodup _ I h) as Hnd.
  destruct (c_pc (cpu_at s h)) as [|lk|lk|lk|lk|lk| |msg] eqn:Hpc; try done;
    specialize (Hn ltac:(done)); cbn in Hn.
  - (* holding() of acquire *) rewrite holds_held //. case_bool_decide as Hh.
    + apply spin_inv_pc; [done|done| |by intros Hp; destruct (Hp _ eq_refl)|exact Ho|exact Hnn|by intros msg [= <-]; left].
      intros x. rewrite window_pc /in_window Hpc. naive_solver.
    + apply spin_inv_pc; [done|done| |intros _; exact Hn|exact Ho|exact Hnn|done]. intros x. rewrite window_pc /in_window Hpc. naive_solver.
  - (* the swap *) destruct (lk_locked (lock_at s lk)) eqn:El; [done|].
    assert (∀ h', ¬ owns s h' lk) as Hno.
    { intros h' Hx. assert (lk_locked (lock_at s lk) = true); [|congruence]. apply (si_locked _ I). by exists h'. }
    assert (lk ∉ c_held (cpu_at s h)) as Hnh by (intros Hx; apply (Hno h); by left).
    apply spin_inv_move; [done|done|intros x Hx; rewrite window_pc; naive_solver|
      intros x Hx; rewrite /in_window Hpc; naive_solver|exact Hnd|by intros _| | | |by intros h' _|intros _; exact Hn|exact Ho|exact Hnn|done].
    + cbn. split; [intros _; right; by left|done].
    + cbn. rewrite (si_cpu _ I). split; [done|]. by intros ?%Hnh.
    + right. cbn. destruct (lk_cpu (lock_at s lk)) as [h'|] eqn:Ec; [|done]. apply (si_cpu _ I) in Ec.
      exfalso. apply (Hno h'). by left.
  - (* lk->cpu = mycpu() *)
    assert (owns s h lk) as Hown by (right; by left).
    assert (lk ∉ c_held (cpu_at s h)) as Hnh by (apply (si_window _ I); by left).
    apply spin_inv_move; [done| | | |by constructor| | | |by left| | |exact Ho|exact Hnn|done].
    + intros x Hx. cbn. rewrite elem_of_cons. naive_solver.
    + intros x Hx [E|E]; done.
    + intros x Hx. rewrite /in_window Hpc. naive_solver.
    + intros [E|E]; done.
    + cbn. split; [intros _; left; by left|]. intros _. apply (si_locked _ I). by exists h.
    + cbn. split; [intros _; by left|done].
    + intros h' Hne Hx. apply Hne. exact (si_excl _ I h' h lk Hx Hown).
    + intros _. cbn. lia.
  - (* holding() of release *) rewrite holds_held //. case_bool_decide as Hh.
    + apply spin_inv_move; [done| | | | | | | |by right| | |exact Ho|exact Hnn|done].
      * intros x Hx. cbn. rewrite list_elem_of_filter. naive_solver.
      * intros x Hx [E|E]; [done|]. cbn in E. congruence.
      * intros x Hx. rewrite /in_window Hpc. naive_solver.
      * cbn. by apply NoDup_filter.
      * intros _. cbn. rewrite list_elem_of_filter. naive_solver.
      * cbn. split; [intros _; right; by right|]. intros _. apply (si_locked _ I). exists h. by left.
      * cbn. rewrite list_elem_of_filter. naive_solver.
      * intros h' Hne Hx. apply Hne. exact (si_excl _ I h' h lk Hx (or_introl Hh)).
      * intros _. cbn. rewrite Hn. pose proof (length_filter_ne _ lk Hnd Hh). lia.
    + apply spin_inv_pc; [done|done| |by intros Hp; destruct (Hp _ eq_refl)|exact Ho|exact Hnn|by intros msg [= <-]; right].
      intros x. rewrite window_pc /in_window Hpc. naive_solver.
  - (* the store *)
    assert (owns s h lk) as Hown by (right; by right).
    assert (lk ∉ c_held (cpu_at s h)) as Hnh by (apply (si_window _ I); by right).
    apply spin_inv_move; [done|done|intros x Hx [E|E]; done| |exact Hnd|by intros [E|E]| | | | |intros _; exact Hn|exact Ho|exact Hnn|done].
    + intros x Hx. rewrite /in_window Hpc. naive_solver.
    + cbn. split; [done|]. intros [?|[E|E]]; done.
    + cbn. rewrite (si_cpu _ I). done.
    + cbn. destruct (lk_cpu (lock_at s lk)) as [h'|] eqn:Ec; [|by right]. apply (si_cpu _ I) in Ec.
      left. f_equal. exact (si_excl _ I h' h lk (or_introl Ec) Hown).
    + intros h' Hne Hx. apply Hne. exact (si_excl _ I h' h lk Hx Hown).
  - (* pop_off() *) rewrite /pop_off. assert (0 < c_noff (cpu_at s h)) as Hpos by lia. rewrite (Ho Hpos).
    rewrite (proj2 (Z.ltb_ge _ _)); [lia|].
    apply spin_inv_pc; [done|done| | | | |done]; cbn.
    + intros x. rewrite window_pc /in_window Hpc. naive_solver.
    + intros _. lia.
    + intros Hp. rewrite (proj2 (Z.eqb_neq _ _)) //. lia.
    + lia.
Qed.

Lemma reachable_inv s0 s : boot s0 → reachable s0 s → spin_inv s.
Proof.
  intros Hb Hr. induction Hr as [|s s' _ IH Hs]; [by apply boot_inv|].
  destruct Hs; [by apply enter_inv|by apply advance_inv].
Qed.

(** ** What the locks guarantee *)

(** C5: mutual exclusion: in every state the harts can reach from boot, in any
    interleaving of their steps, at most one hart is inside the critical section
    of a lock (from the successful atomic swap to the atomic store), and the
    lock's word is 1 exactly when some hart is. *)
Theorem mutual_exclusion s0 s lk : boot s0 → reachable s0 s →
  (∀ h1 h2, owns s h1 lk → owns s h2 lk → h1 = h2) ∧
  (lk_locked (lock_at s lk) = true ↔ ∃ h, owns s h lk).
Proof.
  intros Hb Hr. pose proof (reachable_inv s0 s Hb Hr) as I. split; [intros h1 h2; apply (si_excl _ I)|apply (si_locked _ I)].
Qed.

(** Interrupts are off on a hart while it holds a spin lock or is inside
    acquire() or release(), noff counts its locks exactly, and pop_off() never
    panics; the only panics are those of acquire() and release(). *)
Theorem interrupts_off s0 s h : boot s0 → reachable s0 s →
  match c_pc (cpu_at s h) with
  | Panicked msg => msg = "acquire"%string ∨ msg = "release"%string
  | p => c_noff (cpu_at s h) = Z.of_nat (length (c_held (cpu_at s h))) + pending p
  end ∧ (0 < c_noff (cpu_at s h) → c_sie (cpu_at s h) = false).
Proof.
  intros Hb Hr. pose proof (reachable_inv s0 s Hb Hr) as I. split; [|apply (si_off _ I)].
  pose proof (si_noff _ I h) as Hn. pose proof (si_panic _ I h) as Hp.
  destruct (c_pc (cpu_at s h)); try (apply Hn; done). by apply Hp.
Qed.

(** A call that no other hart interferes with: the entry and [n] steps. *)
Definition run_call (h : nat) (op : call) (n : nat) (s : harts) : harts := Nat.iter n (advance h) (enter h op s).

Lemma run_call_inv s h op n : spin_inv s → c_pc (cpu_at s h) = Idle → spin_inv (run_call h op n s).
Proof. intros I Hpc. induction n as [|n IH]; [by apply enter_inv|by apply advance_inv]. Qed.

Lemma cpu_at_self h c s : cpu_at (set_cpu h c s) h = c.
Proof. by rewrite cpu_at_set decide_True. Qed.
Lemma lock_at_self lk l s : lock_at (set_lock lk l s) lk = l.
Proof. by rewrite lock_at_set decide_True. Qed.
Lemma holds_set_cpu s h c h' lk : holds (set_cpu h c s) h' lk = holds s h' lk.
Proof. done. Qed.

Lemma run_acquire s h lk : spin_inv s → c_pc (cpu_at s h) = Idle → lk ∉ c_held (cpu_at s h) →
  lk_locked (lock_at s lk) = false →
  let s' := run_call h (CallAcquire lk) 3 s in let c := cpu_at s h in
  cpu_at s' h = Cpu (c_noff c + 1) (if c_noff c =? 0 then c_sie c else c_intena c) false Idle (lk :: c_held c) ∧
  lock_at s' lk = Spinlock true (Some h).
Proof.
  intros I Hpc Hh Hl. cbv zeta. set (c := cpu_at s h).
  assert (run_call h (CallAcquire lk) 3 s = advance h (advance h (set_cpu h (goto (AcqSpin lk) (push_off c))
    (set_cpu h (goto (AcqHolding lk) (push_off c)) s)))) as ->.
  { rewrite /run_call /= {3}/advance /enter cpu_at_self /= holds_set_cpu holds_held // bool_decide_eq_false_2 //. }
  set (s1 := set_cpu h _ _). assert (cpu_at s1 h = goto (AcqSpin lk) (push_off c)) as E1 by by rewrite /s1 cpu_at_self.
  assert (advance h s1 = set_lock lk (Spinlock true (lk_cpu (lock_at s lk))) (set_cpu h (goto (AcqCpu lk) (push_off c)) s1)) as ->.
  { rewrite /advance E1 /=. change (lock_at s1 lk) with (lock_at s lk). by rewrite Hl. }
  set (s2 := set_lock _ _ _). assert (cpu_at s2 h = goto (AcqCpu lk) (push_off c)) as E2 by by rewrite /s2 cpu_at_set_lock cpu_at_self.
  rewrite /advance E2 /=. rewrite cpu_at_set_lock cpu_at_self lock_at_self /s2 lock_at_self. done.
Qed.
Lemma run_acquire_held s h lk : spin_inv s → lk ∈ c_held (cpu_at s h) →
  c_pc (cpu_at (run_call h (CallAcquire lk) 1 s) h) = Panicked "acquire".
Proof.
  intros I Hh. rewrite /run_call /= /advance /enter cpu_at_self /= holds_set_cpu holds_held // bool_decide_eq_true_2 //.
  by rewrite cpu_at_self.
Qed.
Lemma run_release s h lk : spin_inv s → c_pc (cpu_at s h) = Idle → lk ∈ c_held (cpu_at s h) →
  let s' := run_call h (CallRelease lk) 3 s in let c := cpu_at s h in
  cpu_at s' h = Cpu (c_noff c - 1) (c_intena c) ((c_noff c - 1 =? 0) && c_intena c) Idle (filter (λ x, x ≠ lk) (c_held c)) ∧
  lock_at s' lk = spinlock0.
Proof.
  intros I Hpc Hh. pose proof (si_noff _ I h) as Hn. rewrite Hpc in Hn. specialize (Hn ltac:(done)). cbn in Hn.
  assert (0 < length (c_held (cpu_at s h)))%nat as Hlen by (destruct (c_held (cpu_at s h)); [by apply elem_of_nil in Hh|cbn; lia]).
  cbv zeta. set (c := cpu_at s h) in *.
  assert (run_call h (CallRelease lk) 3 s = advance h (advance h (set_lock lk (Spinlock (lk_locked (lock_at s lk)) None)
    (set_cpu h (Cpu (c_noff c) (c_intena c) (c_sie c) (RelUnlock lk) (filter (λ x, x ≠ lk) (c_held c)))
      (set_cpu h (goto (RelHolding lk) c) s))))) as ->.
  { rewrite /run_call /= {3}/advance /enter cpu_at_self /= holds_set_cpu holds_held // bool_decide_eq_true_2 //. }
  set (c1 := Cpu _ _ _ _ _). set (s1 := set_lock _ _ _).
  assert (cpu_at s1 h = c1) as E1 by by rewrite /s1 cpu_at_set_lock cpu_at_self.
  assert (advance h s1 = set_lock lk spinlock0 (set_cpu h (goto RelPop c1) s1)) as ->.
  { rewrite /advance E1 /=. by rewrite /s1 lock_at_self. }
  set (s2 := set_lock _ _ _). assert (cpu_at s2 h = goto RelPop c1) as E2 by by rewrite /s2 cpu_at_set_lock cpu_at_self.
  rewrite /advance E2 /= /pop_off /=. rewrite (si_off _ I h); [fold c; lia|]. rewrite (proj2 (Z.ltb_ge _ _)); [lia|].
  by rewrite cpu_at_self lock_at_set_cpu /s2 lock_at_self.
Qed.
Lemma run_release_free s h lk : spin_inv s → lk ∉ c_held (cpu_at s h) →
  c_pc (cpu_at (run_call h (CallRelease lk) 1 s) h) = Panicked "release".
Proof.
  intros I Hh. rewrite /run_call /= /advance /enter cpu_at_self /= holds_set_cpu holds_held // bool_decide_eq_false_2 //.
  by rewrite cpu_at_self.
Qed.

(** C10: the single-hart model of locking is implemented by the C code: acquire()
    and release() of Sched.v on the list of held locks do what the hart does
    with lk->locked, lk->cpu and push_off()/pop_off(): the same list of locks
    afterwards, or the same panic; acquire() needs the lock to be free, or it
    spins. *)
Theorem locking_refines s h lk (k : kstate) : spin_inv s → c_pc (cpu_at s h) = Idle →
  k_locks k = c_held (cpu_at s h) →
  match Sched.acquire lk k with
  | Ok _ k' => lk_locked (lock_at s lk) = false →
      let c := cpu_at (run_call h (CallAcquire lk) 3 s) h in c_pc c = Idle ∧ c_held c = k_locks k'
  | Panic msg => c_pc (cpu_at (run_call h (CallAcquire lk) 1 s) h) = Panicked msg
  | _ => False
  end ∧
  match Sched.release lk k with
  | Ok _ k' => let c := cpu_at (run_call h (CallRelease lk) 3 s) h in c_pc c = Idle ∧ c_held c = k_locks k'
  | Panic msg => c_pc (cpu_at (run_call h (CallRelease lk) 1 s) h) = Panicked msg
  | _ => False
  end.
Proof.
  intros I Hpc Hk. destruct (decide (lk ∈ c_held (cpu_at s h))) as [Hh|Hh].
  - rewrite acquire_held; [by rewrite Hk|]. split; [by apply run_acquire_held|].
    assert (Sched.release lk k = Ok tt (set_locks (filter (λ l, l ≠ lk) (k_locks k)) k)) as ->.
    { rewrite /Sched.release /bind /= bool_decide_eq_true_2; [by rewrite Hk|done]. }
    destruct (run_release s h lk I Hpc Hh) as [-> _]. by rewrite Hk.
  - rewrite acquire_eq; [by rewrite Hk|]. rewrite release_not_held; [by rewrite Hk|].
    split; [|by apply run_release_free]. intros Hl. destruct (run_acquire s h lk I Hpc Hh Hl) as [-> _]. by rewrite Hk.
Qed.

(** A matched acquire() and release() leave the hart as it was: the same
    nesting depth, the same locks, and interrupts enabled exactly if they were
    before; the lock is free again. *)
Theorem acquire_release_restores s h lk : spin_inv s →
  c_pc (cpu_at s h) = Idle → lk ∉ c_held (cpu_at s h) → lk_locked (lock_at s lk) = false →
  let s' := run_call h (CallRelease lk) 3 (run_call h (CallAcquire lk) 3 s) in
  c_noff (cpu_at s' h) = c_noff (cpu_at s h) ∧ c_held (cpu_at s' h) = c_held (cpu_at s h) ∧
  c_sie (cpu_at s' h) = c_sie (cpu_at s h) ∧ lk_locked (lock_at s' lk) = false.
Proof.
  intros I Hpc Hh Hl. cbv zeta. destruct (run_acquire s h lk I Hpc Hh Hl) as [Ec _].
  pose proof (run_call_inv s h (CallAcquire lk) 3 I Hpc) as I1. set (s1 := run_call h (CallAcquire lk) 3 s) in *.
  destruct (run_release s1 h lk I1) as [-> ->]; [by rewrite Ec|rewrite Ec; by left|]. rewrite Ec. cbn [c_noff c_held c_sie c_intena lk_locked spinlock0].
  rewrite Z.add_simpl_r. split; [done|]. split.
  { rewrite filter_cons_False; [tauto|]. by apply filter_not_in. }
  split; [|done]. pose proof (si_off _ I h) as Ho. pose proof (si_nneg _ I h).
  destruct (Z.eqb_spec (c_noff (cpu_at s h)) 0); [done|]. rewrite Ho //. lia.
Qed.

(** ** Two harts contending for a lock *)

Definition two_harts : harts := Harts {[ 0%nat := Cpu 0 false true Idle []; 1%nat := cpu0 ]} ∅.
Lemma two_harts_boot : boot two_harts.
Proof.
  split; [done|]. intros h. rewrite /cpu_at /=. destruct (decide (h = 0%nat)) as [->|H0]; [done|].
  rewrite lookup_insert_ne; [congruence|]. destruct (decide (h = 1%nat)) as [->|H1]; [done|].
  rewrite lookup_singleton_ne; [congruence|done].
Qed.
(** Hart 0 has kmem.lock, hart 1 spins on it. *)
Definition contended : harts :=
  advance 1 (advance 1 (enter 1 (CallAcquire kmem_lock) (run_call 0 (CallAcquire kmem_lock) 3 two_harts))).
Lemma reachable_advance s0 s h : reachable s0 s → reachable s0 (advance h s).
Proof. intros Hr. eapply reach_step; [exact Hr|constructor]. Qed.
Lemma contended_reachable : reachable two_harts contended.
Proof.
  do 2 apply reachable_advance. eapply reach_step; [|by apply step_enter]. do 3 apply reachable_advance.
  eapply reach_step; [apply reach_refl|by apply step_enter].
Qed.

Lemma mutual_exclusion_witness :
  owns contended 0 kmem_lock ∧ c_pc (cpu_at contended 1) = AcqSpin kmem_lock ∧
  (∀ h1 h2, owns contended h1 kmem_lock → owns contended h2 kmem_lock → h1 = h2) ∧
  (lk_locked (lock_at contended kmem_lock) = true ↔ ∃ h, owns contended h kmem_lock).
Proof.
  split; [left; by left|]. split; [done|].
  exact (mutual_exclusion two_harts contended kmem_lock two_harts_boot contended_reachable).
Defined.
Lemma interrupts_off_witness :
  match c_pc (cpu_at contended 0) with
  | Panicked msg => msg = "acquire"%string ∨ msg = "release"%string
  | p => c_noff (cpu_at contended 0) = Z.of_nat (length (c_held (cpu_at contended 0))) + pending p
  end ∧ (0 < c_noff (cpu_at contended 0) → c_sie (cpu_at contended 0) = false).
Proof. exact (interrupts_off two_harts contended 0 two_harts_boot contended_reachable). Defined.
Lemma locking_refines_witness :
  (let c := cpu_at (run_call 0 (CallAcquire kmem_lock) 3 two_harts) 0 in c_pc c = Idle ∧ c_held c = [kmem_lock]) ∧
  c_pc (cpu_at (run_call 0 (CallRelease kmem_lock) 1 two_harts) 0) = Panicked "release".
Proof.
  destruct (locking_refines two_harts 0 kmem_lock kstate0 (boot_inv _ two_harts_boot) eq_refl eq_refl) as [H1 H2].
  split; [exact (H1 eq_refl)|exact H2].
Defined.
Lemma acquire_release_restores_witness :
  let s' := run_call 0 (CallRelease kmem_lock) 3 (run_call 0 (CallAcquire kmem_lock) 3 two_harts) in
  c_noff (cpu_at s' 0) = 0 ∧ c_held (cpu_at s' 0) = [] ∧ c_sie (cpu_at s' 0) = true ∧
  lk_locked (lock_at s' kmem_lock) = false.
Proof.
  exact (acquire_release_restores two_harts 0 kmem_lock (boot_inv _ two_harts_boot) eq_refl (not_elem_of_nil _) eq_refl).
Defined.
