(* ===== verification/Bytes.v ===== *)
(** The bytes of a disk block as the file system and the log see them through
    a cast of buf->data: little-endian fields at byte offsets. *)
From S2P Require Import Prelude.

Fixpoint le_bytes (n : nat) (v : Z) : list Z :=
  match n with
  | O => []
  | S n' => u8 v :: le_bytes n' (v / 256)
  end.
Fixpoint of_le (l : list Z) : Z :=
  match l with
  | [] => 0
  | b :: l' => u8 b + 256 * of_le l'
  end.

(** Overwrite the bytes from offset [off] on. *)
Definition splice (d : list Z) (off : nat) (bs : list Z) : list Z :=
  take off d ++ bs ++ drop (off + length bs) d.
Definition slice (d : list Z) (off len : nat) : list Z := take len (drop off d).

Definition get_le (n : nat) (d : list Z) (off : Z) : Z := of_le (slice d (Z.to_nat off) n).
Definition put_le (n : nat) (d : list Z) (off v : Z) : list Z := splice d (Z.to_nat off) (le_bytes n v).
Definition get16 := get_le 2.
Definition put16 := put_le 2.
Definition get32 := get_le 4.
Definition put32 := put_le 4.

Lemma length_le_bytes n v : length (le_bytes n v) = n.
Proof. revert v; induction n; intros; cbn; auto. Qed.
Lemma of_le_bytes n v : of_le (le_bytes n v) = v mod 256 ^ Z.of_nat n.
Proof.
  revert v; induction n as [|n IH]; intros v; cbn [le_bytes of_le]; [by rewrite Z.mod_1_r|].
  rewrite IH /u8 Zmod_mod. rewrite Nat2Z.inj_succ Z.pow_succ_r; [lia|].
  rewrite Z.rem_mul_r; [lia|apply Z.pow_pos_nonneg; lia|]. reflexivity.
Qed.

Lemma length_splice d off bs :
  (off + length bs ≤ length d)%nat → length (splice d off bs) = length d.
Proof. intros. rewrite /splice !length_app length_take length_drop. lia. Qed.

Lemma slice_splice_eq d off bs :
  (off + length bs ≤ length d)%nat → slice (splice d off bs) off (length bs) = bs.
Proof.
  intros Hl. rewrite /slice /splice drop_app_length'; [rewrite length_take; lia|].
  by rewrite take_app_length.
Qed.
Lemma slice_lookup d off n i : (i < n)%nat → slice d off n !! i = d !! (off + i)%nat.
Proof. intros Hi. rewrite /slice lookup_take_lt // lookup_drop //. Qed.
Lemma slice_length d off n : (off + n ≤ length d)%nat → length (slice d off n) = n.
Proof. intros. rewrite /slice length_take length_drop. lia. Qed.

Lemma splice_lookup_ne d off bs i :
  (off + length bs ≤ length d)%nat → ¬ (off ≤ i < off + length bs)%nat →
  splice d off bs !! i = d !! i.
Proof.
  intros Hl Hi. rewrite /splice. destruct (decide (i < off)%nat).
  - rewrite lookup_app_l; [rewrite length_take; lia|]. by rewrite lookup_take_lt.
  - rewrite lookup_app_r; [rewrite length_take; lia|]. rewrite lookup_app_r; [rewrite length_take; lia|].
    rewrite lookup_drop length_take. f_equal. lia.
Qed.
Lemma splice_lookup_in d off bs i :
  (off + length bs ≤ length d)%nat → (i < length bs)%nat → splice d off bs !! (off + i)%nat = bs !! i.
Proof.
  intros Hl Hi. rewrite /splice lookup_app_r; [rewrite length_take; lia|].
  rewrite lookup_app_l; rewrite length_take; [lia|]. f_equal. lia.
Qed.
Lemma slice_splice_ne d off bs off' n :
  (off + length bs ≤ length d)%nat → (off' + n ≤ off ∨ off + length bs ≤ off')%nat →
  slice (splice d off bs) off' n = slice d off' n.
Proof.
  intros Hl Hd. apply list_eq. intros i. destruct (decide (i < n)%nat).
  - rewrite !slice_lookup //. apply splice_lookup_ne; [done|lia].
  - rewrite !lookup_ge_None_2 //; rewrite /slice length_take; lia.
Qed.

(** A field reads back what was stored in it; other fields are untouched. *)
Lemma get_put_eq n d off v :
  0 ≤ off → off + Z.of_nat n ≤ Z.of_nat (length d) → 0 ≤ v < 256 ^ Z.of_nat n →
  get_le n (put_le n d off v) off = v.
Proof.
  intros Ho Hl Hv. rewrite /get_le /put_le.
  pose proof (slice_splice_eq d (Z.to_nat off) (le_bytes n v)) as E. rewrite length_le_bytes in E.
  rewrite E; [lia|]. rewrite of_le_bytes. by apply Z.mod_small.
Qed.
Lemma get_put_ne n k d off v off' :
  0 ≤ off → 0 ≤ off' → off + Z.of_nat n ≤ Z.of_nat (length d) →
  off' + Z.of_nat k ≤ off ∨ off + Z.of_nat n ≤ off' →
  get_le k (put_le n d off v) off' = get_le k d off'.
Proof.
  intros Ho Ho' Hl Hd. rewrite /get_le /put_le slice_splice_ne //; rewrite length_le_bytes; lia.
Qed.
Lemma length_put n d off v :
  0 ≤ off → off + Z.of_nat n ≤ Z.of_nat (length d) → length (put_le n d off v) = length d.
Proof. intros. rewrite /put_le length_splice //. rewrite length_le_bytes. lia. Qed.
