(* ===== verification/Bio.v ===== *)
(** The buffer cache of kernel/bio.c over a disk of 1024-byte blocks.

    Invariant: the buffers form one ring through bcache.head, no block of a
    device is cached twice, and a valid buffer of device 0 (the device number
    the swap routines use) that nobody holds has the contents of its block; one
    that is not valid is still as it was at boot. *)
From S2P Require Import Prelude Riscv Mem Ring State Sched.

(** &bcache.head *)
Definition HEAD : nat := NBUF.

Definition buf_sl (b : nat) : slref :=
  SlRef (λ s, b_lock (buf_at s b)) (λ l, upd_buf b (set_b_lock l)) (buf_lk b) (ch_buf b).

(** ** The disk

    virtio_disk_rw() as its callers use it: one block moves between the buffer
    and the disk.  The caller sleeps until the completion interrupt, so it must
    run as a process and hold no spinlock, or sched() panics. *)
Definition virtio_disk_rw (b : nat) (write : bool) : K unit :=
  s ← get;
  if negb (bool_decide (k_locks s = [])) then panic "sched locks" else
  myproc;;
  let bf := buf_at s b in
  if write then modify (set_disk (<[b_blockno bf := b_data bf]> (k_disk s)))
  else modify (upd_buf b (set_b_data (block_at s (b_blockno bf)))).

(** ** kernel/bio.c *)

Definition binit1 (b : nat) : K unit :=
  h ← gets (λ s, b_next (buf_at s HEAD));
  modify (upd_buf b (set_b_next h));;
  modify (upd_buf b (set_b_prev (Some HEAD)));;
  initsleeplock (buf_sl b);;
  hn ← deref h;
  modify (upd_buf hn (set_b_prev (Some b)));;
  modify (upd_buf HEAD (set_b_next (Some b))).
Definition binit : K unit :=
  modify (upd_buf HEAD (set_b_prev (Some HEAD)));;
  modify (upd_buf HEAD (set_b_next (Some HEAD)));;
  forM (seq 0 NBUF) binit1.

(** The two loops of bget() follow b->next or b->prev until they reach the
    head.  There are NBUF buffers, so NBUF + 1 steps are enough. *)
Fixpoint bscan (fuel : nat) (lnk : buf → option nat) (test : buf → bool) (b : nat) : K (option nat) :=
  match fuel with
  | O => λ _, NoFuel
  | S f =>
      if (b =? HEAD)%nat then ret None else
      bf ← gets (λ s, buf_at s b);
      if test bf then ret (Some b) else
      nb ← deref (lnk bf);
      bscan f lnk test nb
  end.

Definition bget (dev blockno : Z) : K nat :=
  acquire bcache_lock;;
  first ← gets (λ s, b_next (buf_at s HEAD));
  first ← deref first;
  hit ← bscan (S NBUF) b_next (λ x, (b_dev x =? dev) && (b_blockno x =? blockno)) first;
  match hit with
  | Some b =>
      modify (upd_buf b (λ x, set_b_refcnt (u32 (b_refcnt x + 1)) x));;
      release bcache_lock;;
      acquiresleep (buf_sl b);;
      ret b
  | None =>
      last ← gets (λ s, b_prev (buf_at s HEAD));
      last ← deref last;
      victim ← bscan (S NBUF) b_prev (λ x, b_refcnt x =? 0) last;
      match victim with
      | Some b =>
          modify (upd_buf b (set_b_dev dev));;
          modify (upd_buf b (set_b_blockno blockno));;
          modify (upd_buf b (set_b_valid false));;
          modify (upd_buf b (set_b_refcnt 1));;
          release bcache_lock;;
          acquiresleep (buf_sl b);;
          ret b
      | None => panic "bget: no buffers"
      end
  end.

Definition bread (dev blockno : Z) : K nat :=
  b ← bget dev blockno;
  v ← gets (λ s, b_valid (buf_at s b));
  when (negb v) (virtio_disk_rw b false;; modify (upd_buf b (set_b_valid true)));;
  ret b.

Definition bwrite (b : nat) : K unit :=
  h ← holdingsleep (buf_sl b);
  if negb h then panic "bwrite" else virtio_disk_rw b true.

(** no one is waiting for it: unlink b and put it behind the head *)
Definition bmove (b : nat) : K unit :=
  bf ← gets (λ s, buf_at s b);
  nb ← deref (b_next bf);
  modify (upd_buf nb (set_b_prev (b_prev bf)));;
  bf ← gets (λ s, buf_at s b);
  pb ← deref (b_prev bf);
  modify (upd_buf pb (set_b_next (b_next bf)));;
  h ← gets (λ s, b_next (buf_at s HEAD));
  modify (upd_buf b (set_b_next h));;
  modify (upd_buf b (set_b_prev (Some HEAD)));;
  hn ← gets (λ s, b_next (buf_at s HEAD));
  hn ← deref hn;
  modify (upd_buf hn (set_b_prev (Some b)));;
  modify (upd_buf HEAD (set_b_next (Some b))).

Definition brelse (b : nat) : K unit :=
  h ← holdingsleep (buf_sl b);
  if negb h then panic "brelse" else
  releasesleep (buf_sl b);;
  acquire bcache_lock;;
  modify (upd_buf b (λ x, set_b_refcnt (u32 (b_refcnt x - 1)) x));;
  refcnt ← gets (λ s, b_refcnt (buf_at s b));
  when (refcnt =? 0) (bmove b);;
  release bcache_lock.

Definition bpin (b : nat) : K unit :=
  acquire bcache_lock;;
  modify (upd_buf b (λ x, set_b_refcnt (u32 (b_refcnt x + 1)) x));;
  release bcache_lock.
Definition bunpin (b : nat) : K unit :=
  acquire bcache_lock;;
  modify (upd_buf b (λ x, set_b_refcnt (u32 (b_refcnt x - 1)) x));;
  release bcache_lock.

(** ** Invariant *)

Definition bnx (s : kstate) (b : nat) : option nat := b_next (buf_at s b).
Definition bpv (s : kstate) (b : nat) : option nat := b_prev (buf_at s b).

(** The ring of the buffers, most recently released first. *)
Definition bc_ring (s : kstate) (l : list nat) : Prop :=
  ring (bnx s) (bpv s) (HEAD :: l) ∧ l ≡ₚ seq 0 NBUF.

Definition same_key (x y : buf) : Prop := b_dev x = b_dev y ∧ b_blockno x = b_blockno y.

(** Everything but the links; [held] is a device-0 buffer in use by the
    running thread, about which only its length is said. *)
Record bc_core (held : option nat) (s : kstate) : Prop := {
  bc_len b : (b < NBUF)%nat → length (b_data (buf_at s b)) = 1024%nat;
  bc_disk n : length (block_at s n) = 1024%nat;
  bc_uniq b1 b2 : (b1 < NBUF)%nat → (b2 < NBUF)%nat →
    b_valid (buf_at s b1) = true → b_valid (buf_at s b2) = true →
    same_key (buf_at s b1) (buf_at s b2) → b1 = b2;
  bc_unlocked b : (b < NBUF)%nat → held ≠ Some b → b_refcnt (buf_at s b) = 0 →
    sl_locked (b_lock (buf_at s b)) = false;
  bc_dev0 b : (b < NBUF)%nat → held ≠ Some b → b_dev (buf_at s b) = 0 →
    b_refcnt (buf_at s b) = 0;
  bc_coh b : (b < NBUF)%nat → held ≠ Some b → b_valid (buf_at s b) = true →
    b_dev (buf_at s b) = 0 → b_data (buf_at s b) = block_at s (b_blockno (buf_at s b));
  bc_boot b : (b < NBUF)%nat → held ≠ Some b → b_valid (buf_at s b) = false →
    b_dev (buf_at s b) = 0 → b_blockno (buf_at s b) = 0
}.

Definition bc_inv (held : option nat) (s : kstate) : Prop :=
  (∃ l, bc_ring s l) ∧ bc_core held s.

(** Some buffer can be recycled. *)
Definition bc_free (s : kstate) : Prop := ∃ b, (b < NBUF)%nat ∧ b_refcnt (buf_at s b) = 0.

(** The running thread holds buffer [b] with block [n] of device 0. *)
Record bc_held (b : nat) (n : Z) (s : kstate) : Prop := {
  bh_lt : (b < NBUF)%nat;
  bh_valid : b_valid (buf_at s b) = true;
  bh_dev : b_dev (buf_at s b) = 0;
  bh_blockno : b_blockno (buf_at s b) = n;
  bh_refcnt : b_refcnt (buf_at s b) = 1;
  bh_lock p : k_cur s = Some p → b_lock (buf_at s b) = Sleeplock true (p_pid (proc_at s p))
}.

(** A buffer without its links. *)
Definition core (x : buf) : buf := set_b_next None (set_b_prev None x).

(** ** Lemmas: sleep locks of buffers *)

Lemma upd_buf_locks b f l s : set_locks l (upd_buf b f s) = upd_buf b f (set_locks l s).
Proof. done. Qed.

Lemma upd_buf_procs b f v s : set_procs v (upd_buf b f s) = upd_buf b f (set_procs v s).
Proof. done. Qed.

Lemma acquiresleep_buf b p s :
  k_locks s = [] → k_cur s = Some p → sl_locked (b_lock (buf_at s b)) = false →
  acquiresleep (buf_sl b) s =
  Ok tt (upd_buf b (set_b_lock (Sleeplock true (p_pid (proc_at s p)))) s).
Proof.
  intros Hl Hc Hk. rewrite /acquiresleep {1}/bind acquire_eq; [rewrite Hl; set_solver|].
  rewrite {1}/bind /gets {1}/sr_get /= {1}/buf_at /=. rewrite -/(buf_at s b) Hk.
  rewrite /bind /myproc /bind /gets /= Hc /= Hl.
  rewrite (release_eq (buf_lk b) []); [reflexivity|set_solver|]. rewrite upd_buf_locks /=.
  kstate_eq.
Qed.

Lemma holdingsleep_buf b p s :
  k_locks s = [] → k_cur s = Some p →
  holdingsleep (buf_sl b) s =
  Ok (sl_locked (b_lock (buf_at s b)) && (sl_pid (b_lock (buf_at s b)) =? p_pid (proc_at s p))) s.
Proof.
  intros Hl Hc. rewrite /holdingsleep {1}/bind acquire_eq; [rewrite Hl; set_solver|].
  rewrite /bind /myproc /bind /gets /= Hc /= Hl.
  rewrite (release_eq (buf_lk b) []); [reflexivity|set_solver|]. rewrite /ret.
  kstate_eq.
Qed.

Lemma releasesleep_buf b s :
  k_locks s = [] →
  releasesleep (buf_sl b) s =
  Ok tt (set_procs (wake_all (ch_buf b) (k_cur s) (k_procs s)) (upd_buf b (set_b_lock sleeplock0) s)).
Proof.
  intros Hl. rewrite /releasesleep {1}/bind acquire_eq; [rewrite Hl; set_solver|].
  rewrite /bind /modify /=. rewrite wakeup_eq; [intros i; simpl; rewrite Hl; set_solver|].
  rewrite (release_eq (buf_lk b) []); [by rewrite /= Hl|set_solver|]. kstate_eq.
Qed.

(** ** Lemmas: the list *)

Lemma bscan_ring lnk prv test s l1 l2 fuel :
  ring (λ b, lnk (buf_at s b)) (λ b, prv (buf_at s b)) (HEAD :: l1 ++ l2) →
  (length l2 < fuel)%nat →
  bscan fuel lnk test (default HEAD (head l2)) s =
  Ok (List.find (λ b, test (buf_at s b)) l2) s.
Proof.
  revert l1 fuel; induction l2 as [|b l2 IH]; intros l1 fuel Hr Hf;
    (destruct fuel as [|fuel]; [simpl in Hf; lia|]).
  { done. }
  cbn [bscan head default].
  assert (b ≠ HEAD) as Hb.
  { apply ring_NoDup, NoDup_cons in Hr as [Hr _]. set_solver. }
  rewrite (proj2 (Nat.eqb_neq b HEAD)) //. rewrite {1}/bind /=.
  cbn [List.find]. destruct (test (buf_at s b)) eqn:Et; [done|].
  assert (lnk (buf_at s b) = Some (default HEAD (head l2))) as ->.
  { rewrite app_comm_cons in Hr. apply ring_rotate in Hr. simpl in Hr.
    pose proof (ring_next _ _ _ _ Hr) as Hn. simpl in Hn. rewrite Hn.
    f_equal. by destruct l2. }
  rewrite /bind /=. rewrite (IH (l1 ++ [b])); [by rewrite -app_assoc|simpl in Hf; lia|done].
Qed.

Lemma upd_buf_upd b f g s : upd_buf b f (upd_buf b g s) = upd_buf b (λ x, f (g x)) s.
Proof.
  rewrite {1}/upd_buf buf_at_upd decide_True // /upd_buf. kunfold. f_equal.
  apply insert_insert_eq.
Qed.

Lemma bc_ring_lt s l b : bc_ring s l → b ∈ l ↔ (b < NBUF)%nat.
Proof. intros [_ ->]. rewrite elem_of_seq. lia. Qed.

(** Updating a buffer without touching its links keeps the list. *)
Lemma bc_ring_upd s l b f :
  (∀ x, b_next (f x) = b_next x ∧ b_prev (f x) = b_prev x) →
  bc_ring s l → bc_ring (upd_buf b f s) l.
Proof.
  intros Hf [Hr Hp]. split; [|done]. eapply ring_ext; [..|exact Hr];
    intros x _; rewrite /bnx /bpv buf_at_upd; case_decide; subst; auto; apply Hf.
Qed.

(** The thread takes buffer [b] for block [n] of device 0. *)
Lemma bc_take s b n x' :
  bc_inv None s → (b < NBUF)%nat →
  b_next x' = b_next (buf_at s b) → b_prev x' = b_prev (buf_at s b) →
  b_dev x' = 0 → b_blockno x' = n → length (b_data x') = 1024%nat →
  (∀ b', (b' < NBUF)%nat → b' ≠ b → b_valid (buf_at s b') = true →
     ¬ (b_dev (buf_at s b') = 0 ∧ b_blockno (buf_at s b') = n)) →
  bc_inv (Some b) (upd_buf b (λ _, x') s).
Proof.
  intros [[l Hl] Hc] Hb Hn Hp Hd Hbn Hlen Hu. split.
  { exists l. destruct Hl as [Hr Hperm]. split; [|done].
    eapply ring_ext; [..|exact Hr]; intros x _; rewrite /bnx /bpv buf_at_upd; by case_decide; subst. }
  destruct Hc as [H1 H2 H3 H4 H5 H6 H7].
  assert (∀ b', Some b ≠ Some b' → buf_at (upd_buf b (λ _, x') s) b' = buf_at s b') as Hne.
  { intros b' ?. rewrite buf_at_upd decide_False //. congruence. }
  assert (buf_at (upd_buf b (λ _, x') s) b = x') as Heq by by rewrite buf_at_upd decide_True.
  split.
  - intros b' Hb'. destruct (decide (b' = b)) as [->|]; [by rewrite Heq|].
    rewrite Hne; [congruence|auto].
  - exact H2.
  - intros b1 b2 Hb1 Hb2 V1 V2 [K1 K2].
    destruct (decide (b1 = b)) as [->|N1], (decide (b2 = b)) as [->|N2]; [done|..].
    + rewrite -> Heq, Hne in * by congruence. destruct (Hu b2); [done..|]. split; congruence.
    + rewrite -> Heq, Hne in * by congruence. destruct (Hu b1); [done..|]. split; congruence.
    + rewrite -> !Hne in * by congruence. by apply H3.
  - intros b' Hb' Hx. rewrite Hne //. by apply H4.
  - intros b' Hb' Hx. rewrite Hne //. by apply H5.
  - intros b' Hb' Hx. rewrite Hne //. by apply H6.
  - intros b' Hb' Hx. rewrite Hne //. by apply H7.
Qed.

(** What the thread finds in the buffer it gets from bread(). *)
Definition taken (s : kstate) (p : nat) (n : Z) (d : list Z) (x : buf) (b : nat) : Prop :=
  b_next x = b_next (buf_at s b) ∧ b_prev x = b_prev (buf_at s b) ∧
  b_valid x = true ∧ b_dev x = 0 ∧ b_blockno x = n ∧ b_refcnt x = 1 ∧
  b_lock x = Sleeplock true (p_pid (proc_at s p)) ∧ b_data x = d.

(** bget() leaves the buffer locked, with one reference, for block [n] of
    device 0; a buffer that was not valid is filled by the caller. *)
Lemma bget_spec s p n :
  bc_inv None s → bc_free s → k_locks s = [] → k_cur s = Some p → n ≠ 0 →
  wp (bget 0 n) (λ b s', ∃ x, s' = upd_buf b (λ _, x) s ∧ (b < NBUF)%nat ∧
    taken s p n (b_data x) (set_b_valid true x) b ∧ length (b_data x) = 1024%nat ∧
    (b_valid x = true → b_data x = block_at s n) ∧
    (∀ b', (b' < NBUF)%nat → b' ≠ b → b_valid (buf_at s b') = true →
       ¬ (b_dev (buf_at s b') = 0 ∧ b_blockno (buf_at s b') = n))) s.
Proof.
  intros [[l [Hr Hp]] Hc] [bf [Hbf Hbf0]] Hl Hcur Hn0.
  assert (∀ b, b ∈ l ↔ (b < NBUF)%nat) as Hlt by (intros; exact (bc_ring_lt s l b (conj Hr Hp))).
  set (s1 := set_locks [bcache_lock] s).
  rewrite /bget. apply wp_bind, wp_acquire; [rewrite Hl; set_solver|]. rewrite Hl -/s1.
  apply wp_bind, wp_gets, wp_bind.
  assert (b_next (buf_at s1 HEAD) = Some (default HEAD (head l))) as ->
    by apply (ring_next _ _ _ _ Hr).
  apply wp_ret, wp_bind. eapply wp_eq.
  { apply (bscan_ring b_next b_prev _ s1 [] l); [exact Hr|].
    rewrite (Permutation_length Hp) length_seq. lia. }
  destruct (List.find _ l) as [b|] eqn:Ef.
  - apply List.find_some in Ef as [Hb [Hd Hn]%andb_true_iff].
    apply list_elem_of_In, Hlt in Hb. apply Z.eqb_eq in Hd, Hn.
    change (buf_at s1 b) with (buf_at s b) in *.
    assert (b_refcnt (buf_at s b) = 0) as Href by (by apply (bc_dev0 _ _ Hc)).
    assert (b_valid (buf_at s b) = true) as Hv.
    { destruct (b_valid (buf_at s b)) eqn:Ev; [done|].
      destruct Hn0. rewrite -Hn. by apply (bc_boot _ _ Hc). }
    apply wp_bind, wp_modify, wp_bind, (wp_release _ []); [reflexivity|apply not_elem_of_nil|].
    apply wp_bind. eapply wp_eq.
    { apply acquiresleep_buf; [done|exact Hcur|]. rewrite upd_buf_locks buf_at_upd decide_True //=.
      by apply (bc_unlocked _ _ Hc). }
    apply wp_ret. eexists. split.
    { rewrite upd_buf_locks upd_buf_upd. assert (set_locks [] s1 = s) as -> by (rewrite /s1; kstate_eq).
      reflexivity. }
    split; [done|]. cbn. rewrite Href. split_and!; try done; [by apply (bc_len _ _ Hc)|..].
    + intros _. rewrite -Hn. by apply (bc_coh _ _ Hc).
    + intros b' Hb' Hne Hv' [Hd' Hn']. apply Hne.
      apply (bc_uniq _ _ Hc); try done. split; congruence.
  - assert (∀ b, (b < NBUF)%nat → ¬ (b_dev (buf_at s b) = 0 ∧ b_blockno (buf_at s b) = n)) as Hno.
    { intros b Hb [Hd Hn]. apply Hlt, list_elem_of_In in Hb.
      pose proof (List.find_none _ _ Ef _ Hb) as Hf. simpl in Hf.
      change (buf_at s1 b) with (buf_at s b) in Hf. rewrite Hd Hn !Z.eqb_refl in Hf. done. }
    pose proof (ring_reverse _ _ _ _ Hr) as Hrr.
    apply wp_bind, wp_gets, wp_bind.
    assert (b_prev (buf_at s1 HEAD) = Some (default HEAD (head (reverse l)))) as ->
      by apply (ring_next _ _ _ _ Hrr).
    apply wp_ret, wp_bind. eapply wp_eq.
    { apply (bscan_ring b_prev b_next _ s1 [] (reverse l)); [exact Hrr|].
      rewrite length_reverse (Permutation_length Hp) length_seq. lia. }
    destruct (List.find _ (reverse l)) as [b|] eqn:Ev; last first.
    { exfalso. assert (In bf (reverse l)) as Hin.
      { apply list_elem_of_In. by rewrite elem_of_reverse Hlt. }
      pose proof (List.find_none _ _ Ev _ Hin) as Hf. simpl in Hf.
      change (buf_at s1 bf) with (buf_at s bf) in Hf. by rewrite Hbf0 in Hf. }
    apply List.find_some in Ev as [Hb Href%Z.eqb_eq].
    apply list_elem_of_In in Hb. rewrite elem_of_reverse Hlt in Hb.
    change (buf_at s1 b) with (buf_at s b) in *.
    do 4 (apply wp_bind, wp_modify). rewrite !upd_buf_upd.
    apply wp_bind, (wp_release _ []); [reflexivity|apply not_elem_of_nil|].
    apply wp_bind. eapply wp_eq.
    { apply acquiresleep_buf; [done|exact Hcur|]. rewrite upd_buf_locks buf_at_upd decide_True //=.
      by apply (bc_unlocked _ _ Hc). }
    apply wp_ret. eexists. split.
    { rewrite upd_buf_locks upd_buf_upd. assert (set_locks [] s1 = s) as -> by (rewrite /s1; kstate_eq).
      reflexivity. }
    split; [done|]. cbn. split_and!; try done; [by apply (bc_len _ _ Hc)|].
    intros b' Hb' _ _. by apply Hno.
Qed.

Lemma bread_spec s p n :
  bc_inv None s → bc_free s → k_locks s = [] → k_cur s = Some p → n ≠ 0 →
  wp (bread 0 n) (λ b s', ∃ x, s' = upd_buf b (λ _, x) s ∧ (b < NBUF)%nat ∧
    taken s p n (block_at s n) x b ∧ bc_inv (Some b) s') s.
Proof.
  intros Hi Hf Hl Hc Hn. apply wp_bind. wp_use (bget_spec s p n); [done..|].
  intros b s' (x & -> & Hb & Ht & Hlen & Hd & Hu).
  destruct Ht as (T1 & T2 & T3 & T4 & T5 & T6 & T7 & T8).
  apply wp_bind, wp_gets. rewrite buf_at_upd decide_True //. apply wp_bind, wp_when.
  - intros Hv. apply wp_bind, wp_bind, wp_get. ksimpl. rewrite Hl bool_decide_eq_true_2 //.
    apply wp_bind. rewrite /myproc. apply wp_bind, wp_gets. ksimpl. rewrite Hc. apply wp_ret.
    apply wp_modify, wp_modify, wp_ret. rewrite !upd_buf_upd buf_at_upd decide_True // T5.
    eexists. split; [reflexivity|]. split; [done|]. split.
    { by rewrite /taken /=. }
    apply (bc_take s b n); try done. apply (bc_disk _ _ (proj2 Hi)).
  - intros Hv%negb_false_iff. apply wp_ret. exists x. split; [done|]. split; [done|].
    rewrite (Hd Hv) in T8. split.
    { by rewrite /taken. }
    apply (bc_take s b n); done.
Qed.

(** [s'] differs from [s] in the buffers only. *)
Definition bufs_only (s s' : kstate) : Prop := s' = set_bufs (k_bufs s') s.
Lemma bufs_only_refl s : bufs_only s s.
Proof. by destruct s. Qed.
Lemma bufs_only_upd s s' b f : bufs_only s s' → bufs_only s (upd_buf b f s').
Proof.
  rewrite /bufs_only /upd_buf. intros E. generalize (<[b := f (buf_at s' b)]> (k_bufs s')).
  intros bs. by rewrite E.
Qed.

Lemma core_upd b f s x :
  (∀ y, core (f y) = core y) → core (buf_at (upd_buf b f s) x) = core (buf_at s x).
Proof. intros Hf. rewrite buf_at_upd. case_decide; subst; auto. Qed.

(** Moving a buffer to the front of the list changes links only. *)
Lemma bmove_spec s l b :
  bc_ring s l → (b < NBUF)%nat →
  wp (bmove b) (λ _ s', ∃ l', bufs_only s s' ∧ bc_ring s' l' ∧
    ∀ x, core (buf_at s' x) = core (buf_at s x)) s.
Proof.
  intros [Hr Hp] Hb.
  assert (b ∈ l) as Hin by (by apply (bc_ring_lt s l b (conj Hr Hp))).
  assert (b ≠ HEAD) as HbH by (rewrite /HEAD; lia).
  apply list_elem_of_split in Hin as (l1 & l2 & ->).
  rewrite app_comm_cons in Hr. apply ring_rotate in Hr. simpl in Hr.
  destruct (l2 ++ HEAD :: l1) as [|nb m] eqn:Em; [by destruct l2|].
  destruct (ring_links _ _ _ b Hr) as (nb' & pb & Hnx & Hpv & _ & _); [left|].
  pose proof (ring_next _ _ _ _ Hr) as Hnx'. simpl in Hnx'. rewrite Hnx in Hnx'.
  injection Hnx' as ->. unfold bnx in Hnx. unfold bpv in Hpv.
  assert (nb ≠ b ∧ pb ≠ b) as [Hnb Hpb].
  { pose proof (ring_NoDup _ _ _ Hr) as [Hni _]%NoDup_cons. split; [set_solver|].
    intros ->. apply ring_reverse in Hr as Hrr. apply ring_single in Hrr; [|done].
    apply (f_equal reverse) in Hrr. by rewrite reverse_involutive in Hrr. }
  rewrite /bmove. apply wp_bind, wp_gets; cbn beta. rewrite Hnx Hpv.
  apply wp_bind, wp_ret, wp_bind, wp_modify, wp_bind, wp_gets; cbn beta.
  rewrite buf_at_upd decide_False; [congruence|]. rewrite Hpv.
  apply wp_bind, wp_ret, wp_bind, wp_modify; cbn beta. rewrite Hnx.
  set (s2 := upd_buf pb _ _).
  assert (ring (bnx s2) (bpv s2) (HEAD :: l1 ++ l2)) as Hr2.
  { rewrite app_comm_cons. apply ring_rotate. rewrite Em.
    apply (ring_unlink (bnx s) (bpv s) _ _ b nb m pb); try done;
      rewrite /s2 /bnx /bpv; intros *; rewrite !buf_at_upd; repeat case_decide; subst; done. }
  assert (∀ x, core (buf_at s2 x) = core (buf_at s x)) as Hcore2.
  { intros x. by rewrite /s2 !core_upd. }
  assert (bufs_only s s2) as Hs2 by (by do 2 apply bufs_only_upd; apply bufs_only_refl).
  clearbody s2. pose proof (ring_next _ _ _ _ Hr2) as Hh. unfold bnx in Hh.
  set (h := default HEAD (head (l1 ++ l2))) in Hh.
  apply wp_bind, wp_gets, wp_bind, wp_modify, wp_bind, wp_modify, wp_bind, wp_gets; cbn beta.
  rewrite !buf_at_upd !decide_False; [congruence..|]. rewrite Hh.
  apply wp_bind, wp_ret, wp_bind, wp_modify, wp_modify.
  set (s6 := upd_buf HEAD _ _).
  assert (ring (bnx s6) (bpv s6) (HEAD :: b :: l1 ++ l2)) as Hr6.
  { assert (b ∉ HEAD :: l1 ++ l2) as Hbn.
    { pose proof (ring_NoDup _ _ _ Hr) as [Hni _]%NoDup_cons.
      rewrite -Em in Hni. set_solver. }
    assert (h ∈ HEAD :: l1 ++ l2) as Hhin.
    { rewrite /h. destruct (l1 ++ l2); set_solver. }
    assert (h ≠ b) by set_solver.
    destruct (l1 ++ l2) as [|c r].
    - apply (ring_insert (bnx s2) (bpv s2) _ _ HEAD [] b HEAD); try done;
        [apply (ring_next _ _ _ _ (ring_reverse _ _ _ _ Hr2))|..];
        rewrite /s6 /bnx /bpv; intros *; rewrite !buf_at_upd; repeat case_decide; subst; done.
    - apply (ring_rotate _ _ (c :: r) [HEAD; b]). simpl in h. subst h.
      change ((c :: r) ++ [HEAD; b]) with (c :: r ++ [HEAD] ++ [b]). rewrite app_assoc.
      apply (ring_insert (bnx s2) (bpv s2) _ _ c (r ++ [HEAD]) b HEAD);
        [by apply (ring_rotate _ _ [HEAD] (c :: r))|set_solver| |..].
      + destruct Hr2 as [_ Hr2]. by apply Forall_cons in Hr2 as [[_ ?] _].
      + rewrite /s6 /bnx !buf_at_upd. repeat case_decide; subst; done.
      + rewrite /s6 /bnx !buf_at_upd. repeat case_decide; subst; done.
      + intros x ??. rewrite /s6 /bnx !buf_at_upd. repeat case_decide; subst; done.
      + rewrite /s6 /bpv !buf_at_upd. repeat case_decide; subst; done.
      + rewrite /s6 /bpv !buf_at_upd. repeat case_decide; subst; done.
      + intros x ??. rewrite /s6 /bpv !buf_at_upd. repeat case_decide; subst; done. }
  assert (∀ x, core (buf_at s6 x) = core (buf_at s x)) as Hcore6.
  { intros x. by rewrite -Hcore2 /s6 !core_upd. }
  exists (b :: l1 ++ l2). split; [|split; [split; [exact Hr6|]|exact Hcore6]].
  - by do 4 apply bufs_only_upd.
  - rewrite -Hp. by rewrite Permutation_middle.
Qed.

Lemma core_fields x y : core x = core y →
  b_valid x = b_valid y ∧ b_dev x = b_dev y ∧ b_blockno x = b_blockno y ∧
  b_lock x = b_lock y ∧ b_refcnt x = b_refcnt y ∧ b_data x = b_data y.
Proof. destruct x, y. rewrite /core /set_b_next /set_b_prev /=. intros [=]; subst. done. Qed.

Lemma bc_core_ext held s s' :
  (∀ b, core (buf_at s' b) = core (buf_at s b)) → k_disk s' = k_disk s →
  bc_core held s → bc_core held s'.
Proof.
  intros Hc Hd [H1 H2 H3 H4 H5 H6 H7].
  assert (∀ n, block_at s' n = block_at s n) as Hblk by (intros; by rewrite /block_at Hd).
  assert (∀ b, b_valid (buf_at s' b) = b_valid (buf_at s b) ∧ b_dev (buf_at s' b) = b_dev (buf_at s b) ∧
    b_blockno (buf_at s' b) = b_blockno (buf_at s b) ∧ b_lock (buf_at s' b) = b_lock (buf_at s b) ∧
    b_refcnt (buf_at s' b) = b_refcnt (buf_at s b) ∧ b_data (buf_at s' b) = b_data (buf_at s b)) as Hf
    by (intros b; exact (core_fields _ _ (Hc b))).
  split; [|intros n; by rewrite Hblk|..]; intros b; destruct (Hf b) as (E1 & E2 & E3 & E4 & E5 & E6);
    rewrite ?E1 ?E2 ?E3 ?E4 ?E5 ?E6 ?Hblk; auto.
  intros b2. destruct (Hf b2) as (F1 & F2 & F3 & _). rewrite /same_key E2 E3 F1 F2 F3. apply H3.
Qed.

(** Giving the held buffer back with the contents of its block. *)
Lemma bc_give s b n x :
  bc_core (Some b) s → bc_held b n s → b_data (buf_at s b) = block_at s n →
  b_valid x = true → b_dev x = 0 → b_blockno x = n → b_data x = block_at s n →
  b_refcnt x = 0 → sl_locked (b_lock x) = false →
  bc_core None (upd_buf b (λ _, x) s).
Proof.
  intros [H1 H2 H3 H4 H5 H6 H7] [G1 G2 G3 G4 G5 G6] Hd X1 X2 X3 X4 X5 X6.
  assert (∀ b', b' ≠ b → buf_at (upd_buf b (λ _, x) s) b' = buf_at s b') as Hne.
  { intros b' ?. by rewrite buf_at_upd decide_False. }
  assert (buf_at (upd_buf b (λ _, x) s) b = x) as Heq by by rewrite buf_at_upd decide_True.
  split.
  - intros b' Hb'. destruct (decide (b' = b)) as [->|]; [by rewrite Heq X4|by rewrite Hne; auto].
  - exact H2.
  - intros b1 b2 Hb1 Hb2 V1 V2 [K1 K2].
    destruct (decide (b1 = b)) as [->|N1], (decide (b2 = b)) as [->|N2]; [done|..].
    + rewrite -> Heq, Hne in * by done. apply H3; try done. split; congruence.
    + rewrite -> Heq, Hne in * by done. apply H3; try done. split; congruence.
    + rewrite -> !Hne in * by done. by apply H3.
  - intros b' Hb' _. destruct (decide (b' = b)) as [->|]; [by rewrite Heq|].
    rewrite Hne //. apply H4; congruence.
  - intros b' Hb' _. destruct (decide (b' = b)) as [->|]; [by rewrite Heq|].
    rewrite Hne //. apply H5; congruence.
  - intros b' Hb' _. destruct (decide (b' = b)) as [->|]; [by rewrite Heq X3|].
    rewrite Hne //. apply H6; congruence.
  - intros b' Hb' _. destruct (decide (b' = b)) as [->|]; [by rewrite Heq X1|].
    rewrite Hne //. apply H7; congruence.
Qed.

(** brelse() up to the list: the lock is free, one reference less. *)
Definition unheld (x : buf) : buf := set_b_refcnt 0 (set_b_lock sleeplock0 x).

Lemma brelse_head b s p (Q : unit → kstate → Prop) :
  k_locks s = [] → k_cur s = Some p →
  b_lock (buf_at s b) = Sleeplock true (p_pid (proc_at s p)) → b_refcnt (buf_at s b) = 1 →
  wp (bmove b;; release bcache_lock) Q
    (set_locks [bcache_lock]
       (set_procs (wake_all (ch_buf b) (k_cur s) (k_procs s)) (upd_buf b unheld s))) →
  wp (brelse b) Q s.
Proof.
  intros Hlk Hcur Hk Hr HQ. apply wp_bind. eapply wp_eq; [exact (holdingsleep_buf b p s Hlk Hcur)|].
  rewrite Hk /= Z.eqb_refl. apply wp_bind. eapply wp_eq; [exact (releasesleep_buf b s Hlk)|].
  apply wp_bind, wp_acquire; [ksimpl; rewrite Hlk; apply not_elem_of_nil|]. ksimpl. rewrite Hlk.
  apply wp_bind, wp_modify, wp_bind, wp_gets. revert HQ.
  generalize (wake_all (ch_buf b) (k_cur s) (k_procs s)) as ps. intros ps HQ.
  rewrite -upd_buf_locks -upd_buf_procs upd_buf_upd.
  assert (upd_buf b (λ x, set_b_refcnt (u32 (b_refcnt (set_b_lock sleeplock0 x) - 1))
            (set_b_lock sleeplock0 x)) s = upd_buf b unheld s) as ->.
  { rewrite /upd_buf /unheld. cbn [b_refcnt set_b_lock]. by rewrite Hr. }
  assert (b_refcnt (buf_at (upd_buf b unheld s) b) = 0) as Hz by by rewrite buf_at_upd decide_True.
  change (buf_at (set_locks _ _) b) with (buf_at (upd_buf b unheld s) b). rewrite Hz. exact HQ.
Qed.

Lemma brelse_spec s p b n :
  bc_inv (Some b) s → bc_held b n s → k_locks s = [] → k_cur s = Some p →
  b_data (buf_at s b) = block_at s n →
  wp (brelse b) (λ _ s', ∃ bufs,
    s' = set_procs (wake_all (ch_buf b) (k_cur s) (k_procs s)) (set_bufs bufs s) ∧
    bc_inv None s' ∧ bc_free s') s.
Proof.
  intros [[l Hl] Hc] Hh Hlk Hcur Hd. pose proof Hh as [G1 G2 G3 G4 G5 G6].
  apply (brelse_head b s p); [done..|auto|done|].
  generalize (wake_all (ch_buf b) (k_cur s) (k_procs s)) as ps. intros ps.
  assert (bc_core None (upd_buf b unheld s)) as Hc2 by (apply (bc_give s b n (unheld (buf_at s b))); done).
  assert (bc_ring (upd_buf b unheld s) l) as Hl2 by (by apply bc_ring_upd).
  assert (b_refcnt (buf_at (upd_buf b unheld s) b) = 0) as Hz by by rewrite buf_at_upd decide_True.
  remember (upd_buf b unheld s) as s2 eqn:Hs2. apply wp_bind.
  wp_use (bmove_spec _ l b); [exact Hl2|done|]. intros [] s' (l' & Hs' & Hl' & Hcore).
  assert (k_locks s' = [bcache_lock]) as Hk by by rewrite Hs'.
  apply (wp_release _ []); [done|apply not_elem_of_nil|].
  assert (k_disk s' = k_disk s2) as Hdk by by rewrite Hs'.
  exists (k_bufs s'). split.
  { rewrite Hs' Hs2. destruct s; cbn in Hlk; subst; reflexivity. }
  split; [split; [exists l'; exact Hl'|by apply (bc_core_ext None s2)]|].
  exists b. split; [done|].
  destruct (core_fields _ _ (Hcore b)) as (_ & _ & _ & _ & Hrc & _).
  transitivity (b_refcnt (buf_at s2 b)); [exact Hrc|done].
Qed.

(** ** binit() *)

(** The buffers after binit(): linked in a ring, everything else zero. *)
Definition boot_bufs : gmap nat buf :=
  match binit kstate0 with Ok _ s => k_bufs s | _ => ∅ end.

Lemma binit_eq s : k_bufs s = ∅ → binit s = Ok tt (set_bufs boot_bufs s).
Proof. destruct s; cbn; intros ->. vm_compute. reflexivity. Qed.

Lemma boot_buf_core b : (b ≤ NBUF)%nat → core (default buf0 (boot_bufs !! b)) = buf0.
Proof.
  intros Hb. assert (forallb (λ b, match boot_bufs !! b with
    | Some (Buf false 0 0 (Sleeplock false 0) 0 _ _ d) => bool_decide (d = zero_block) | _ => false end)
    (seq 0 (S NBUF)) = true) as H by (vm_compute; reflexivity).
  rewrite forallb_forall in H. specialize (H b). rewrite -list_elem_of_In in H. rewrite elem_of_seq in H.
  specialize (H ltac:(lia)). destruct (boot_bufs !! b) as [[[] [] [] [[] []] [] ? ? d]|]; try done.
  apply bool_decide_eq_true in H. by subst.
Qed.

(** The buffer cache at boot. *)
Lemma boot_bc s : k_bufs s = boot_bufs → (∀ n, length (block_at s n) = 1024%nat) → bc_inv None s ∧ bc_free s.
Proof.
  intros Hb Hd.
  assert (∀ b, (b < NBUF)%nat → let x := buf_at s b in
    b_valid x = false ∧ b_dev x = 0 ∧ b_blockno x = 0 ∧ b_lock x = sleeplock0 ∧ b_refcnt x = 0 ∧ b_data x = zero_block) as Hf.
  { intros b Hlt. pose proof (boot_buf_core b (Nat.lt_le_incl _ _ Hlt)) as Hc. rewrite /buf_at Hb.
    revert Hc. generalize (default buf0 (boot_bufs !! b)). intros x Hc. exact (core_fields x buf0 Hc). }
  split; [split|].
  - exists (reverse (seq 0 NBUF)). split; [|by rewrite reverse_Permutation].
    split; [by apply (bool_decide_unpack (NoDup (HEAD :: reverse (seq 0 NBUF)))); vm_compute|].
    assert (forallb (λ ab, bool_decide (b_next (default buf0 (boot_bufs !! ab.1)) = Some ab.2) &&
      bool_decide (b_prev (default buf0 (boot_bufs !! ab.2)) = Some ab.1))
      (path HEAD (reverse (seq 0 NBUF)) HEAD) = true) as H by (vm_compute; reflexivity).
    rewrite forallb_forall in H. apply Forall_forall. intros ab Hab%list_elem_of_In.
    apply H, andb_true_iff in Hab as [H1%bool_decide_eq_true H2%bool_decide_eq_true].
    rewrite /linked /bnx /bpv /buf_at Hb. exact (conj H1 H2).
  - split; [intros b Hlt; by destruct (Hf b Hlt) as (_ & _ & _ & _ & _ & ->)|exact Hd|..].
    + intros b1 b2 H1 _ Hv. destruct (Hf b1 H1) as (E & _). congruence.
    + intros b Hlt _ _. by destruct (Hf b Hlt) as (_ & _ & _ & -> & _).
    + intros b Hlt _ _. by destruct (Hf b Hlt) as (_ & _ & _ & _ & -> & _).
    + intros b Hlt _ Hv. destruct (Hf b Hlt) as (E & _). congruence.
    + intros b Hlt _ _ _. by destruct (Hf b Hlt) as (_ & _ & -> & _).
  - exists 0%nat. split; [unfold NBUF; lia|]. destruct (Hf 0%nat) as (_ & _ & _ & _ & -> & _); [unfold NBUF; lia|done].
Qed.

(** binit() establishes the invariant of the buffer cache. *)
Lemma binit_spec s : k_bufs s = ∅ → (∀ n, length (block_at s n) = 1024%nat) →
  wp binit (λ _ s', bc_inv None s' ∧ bc_free s' ∧ s' = set_bufs (k_bufs s') s) s.
Proof.
  intros Hb Hd. eapply wp_eq; [by apply binit_eq|].
  destruct (boot_bc (set_bufs boot_bufs s)) as [H1 H2]; [done..|]. by split_and!.
Qed.

(** The table of boot buffers is unfolded last. *)
Strategy 1000 [boot_bufs].
