(* ===== verification/Walk.v ===== *)
(** Page-table walks and copies to and from user memory: walk(), walkaddr(),
    copyout(), copyin() and copyinstr() of kernel/vm.c, and either_copyout()
    and either_copyin() of kernel/proc.c.

    walk() allocates page-table pages with kalloc(), kalloc() swaps pages out,
    and swapping a page out walks its page table (without allocating).  The
    cycle is cut by making the allocator an argument of [walk_gen]. *)
From S2P Require Import Prelude Riscv Mem State Sched.

Definition get_mem : K (gmap Z Z) := gets k_mem.
Definition mod_mem (f : gmap Z Z → gmap Z Z) : K unit := modify (λ s, set_mem (f (k_mem s)) s).
(** *p and *p = v for a uint64 pointer p *)
Definition load64 (a : Z) : K Z := gets (λ s, ld64 (k_mem s) a).
Definition store64 (a v : Z) : K unit := mod_mem (λ m, st64 m a v).

(** for(int level = 2; level > 0; level--): [levels] are the levels left.
    [None] is the early return 0. *)
Fixpoint walk_levels (kalloc : K Z) (levels : list Z) (pagetable va : Z) (alloc : bool) : K (option Z) :=
  match levels with
  | [] => ret (Some pagetable)
  | level :: levels' =>
      let pte := pagetable + 8 * PX level va in
      v ← load64 pte;
      if tst v PTE_V then walk_levels kalloc levels' (PTE2PA v) va alloc
      else if negb alloc then ret None
      else
        pg ← kalloc;
        if pg =? 0 then ret None else
        mod_mem (λ m, memset m pg 0 PGSIZE);;
        store64 pte (Z.lor (PA2PTE pg) PTE_V);;
        walk_levels kalloc levels' pg va alloc
  end.

Definition walk_gen (kalloc : K Z) (pagetable va : Z) (alloc : bool) : K Z :=
  if MAXVA <=? va then panic "walk" else
  pt ← walk_levels kalloc [2; 1] pagetable va alloc;
  match pt with
  | Some pt => ret (pt + 8 * PX 0 va)
  | None => ret 0
  end.

(** walk(pagetable, va, 0) *)
Definition walk0 (pagetable va : Z) : K Z := walk_gen (ret 0) pagetable va false.

Definition walkaddr (pagetable va : Z) : K Z :=
  if MAXVA <=? va then ret 0 else
  pte ← walk0 pagetable va;
  if pte =? 0 then ret 0 else
  v ← load64 pte;
  if negb (tst v PTE_V) then ret 0 else
  if negb (tst v PTE_U) then ret 0 else
  ret (PTE2PA v).

(** copyout(): [src] are the bytes to copy, [len] its length.  Every round
    copies at least one byte, so [length src + 1] rounds are enough. *)
Fixpoint copyout_loop (fuel : nat) (pagetable dstva : Z) (src : list Z) : K Z :=
  match fuel with
  | O => λ _, NoFuel
  | S f =>
      if bool_decide (src = []) then ret 0 else
      let va0 := PGROUNDDOWN dstva in
      if MAXVA <=? va0 then ret (-1) else
      pte ← walk0 pagetable va0;
      if pte =? 0 then ret (-1) else
      v ← load64 pte;
      if negb (tst v PTE_V) || negb (tst v PTE_U) || negb (tst v PTE_W) then ret (-1) else
      let pa0 := PTE2PA v in
      let n := Z.min (PGSIZE - (dstva - va0)) (Z.of_nat (length src)) in
      mod_mem (λ m, wr_bytes m (pa0 + (dstva - va0)) (take (Z.to_nat n) src));;
      copyout_loop f pagetable (va0 + PGSIZE) (drop (Z.to_nat n) src)
  end.
Definition copyout (pagetable dstva : Z) (src : list Z) : K Z :=
  copyout_loop (S (length src)) pagetable dstva src.

(** copyin(): the status and the bytes that reached dst. *)
Fixpoint copyin_loop (fuel : nat) (pagetable srcva len : Z) (acc : list Z) : K (Z * list Z) :=
  match fuel with
  | O => λ _, NoFuel
  | S f =>
      if len <=? 0 then ret (0, acc) else
      let va0 := PGROUNDDOWN srcva in
      pa0 ← walkaddr pagetable va0;
      if pa0 =? 0 then ret (-1, acc) else
      let n := Z.min (PGSIZE - (srcva - va0)) len in
      m ← get_mem;
      copyin_loop f pagetable (va0 + PGSIZE) (len - n)
        (acc ++ rd_bytes m (pa0 + (srcva - va0)) (Z.to_nat n))
  end.
Definition copyin (pagetable srcva len : Z) : K (Z * list Z) :=
  copyin_loop (S (Z.to_nat len)) pagetable srcva len [].

(** while(n > 0) of copyinstr(): the bytes copied and whether a NUL was met *)
Fixpoint copy_str (n : nat) (m : gmap Z Z) (p : Z) : list Z * bool :=
  match n with
  | O => ([], false)
  | S n' =>
      if ld8 m p =? 0 then ([0], true)
      else let '(l, got) := copy_str n' m (p + 1) in (ld8 m p :: l, got)
  end.
Fixpoint copyinstr_loop (fuel : nat) (pagetable srcva max : Z) (acc : list Z) : K (Z * list Z) :=
  match fuel with
  | O => λ _, NoFuel
  | S f =>
      if max <=? 0 then ret (-1, acc) else
      let va0 := PGROUNDDOWN srcva in
      pa0 ← walkaddr pagetable va0;
      if pa0 =? 0 then ret (-1, acc) else
      let n := Z.min (PGSIZE - (srcva - va0)) max in
      m ← get_mem;
      let '(l, got_null) := copy_str (Z.to_nat n) m (pa0 + (srcva - va0)) in
      if got_null : bool then ret (0, acc ++ l)
      else copyinstr_loop f pagetable (va0 + PGSIZE) (max - n) (acc ++ l)
  end.
Definition copyinstr (pagetable srcva max : Z) : K (Z * list Z) :=
  copyinstr_loop (S (Z.to_nat max)) pagetable srcva max [].

(** either_copyout(user_dst, dst, src, len) *)
Definition either_copyout (user_dst : bool) (dst : Z) (src : list Z) : K Z :=
  p ← myproc;
  pt ← gets (λ s, p_pagetable (proc_at s p));
  if user_dst then copyout pt dst src
  else mod_mem (λ m, wr_bytes m dst src);; ret 0.

(** either_copyin(dst, user_src, src, len): status and bytes *)
Definition either_copyin (user_src : bool) (src len : Z) : K (Z * list Z) :=
  p ← myproc;
  pt ← gets (λ s, p_pagetable (proc_at s p));
  if user_src then copyin pt src len
  else m ← get_mem; ret (0, rd_bytes m src (Z.to_nat len)).

(** ** What a walk without allocation reads *)

Definition walk_pure (m : gmap Z Z) (pt va : Z) : Z :=
  let e2 := ld64 m (pt + 8 * PX 2 va) in
  if tst e2 PTE_V then
    let e1 := ld64 m (PTE2PA e2 + 8 * PX 1 va) in
    if tst e1 PTE_V then PTE2PA e1 + 8 * PX 0 va else 0
  else 0.

Lemma walk_gen_ro ka pt va s :
  va < MAXVA → walk_gen ka pt va false s = Ok (walk_pure (k_mem s) pt va) s.
Proof.
  intros Hva. rewrite /walk_gen (proj2 (Z.leb_gt _ _)) // /walk_pure /bind /=.
  rewrite /bind /load64 /gets /=.
  destruct (tst _ _); [|done]. rewrite /bind /gets /=. destruct (tst _ _); done.
Qed.
Lemma walk0_eq pt va s : va < MAXVA → walk0 pt va s = Ok (walk_pure (k_mem s) pt va) s.
Proof. apply walk_gen_ro. Qed.

(** The entry for [va], if the walk gets to one. *)
Definition pte_of (m : gmap Z Z) (pt va : Z) : option Z :=
  if walk_pure m pt va =? 0 then None else Some (ld64 m (walk_pure m pt va)).

(** ** Page-table trees

    [role] says which page-table page is what: [(root, level, prefix)] for the
    page of that level below [root] that covers the addresses with that
    prefix.  One role per page means that trees do not share pages. *)

Definition ptrole : Type := Z * Z * Z.

Record pt_ok (m : gmap Z Z) (role : gmap Z ptrole) : Prop := {
  pt_page P x : role !! P = Some x → P mod PGSIZE = 0 ∧ 0 < P;
  pt_child P root lvl pre i : role !! P = Some (root, lvl, pre) → 0 < lvl → 0 ≤ i < 512 →
    tst (ld64 m (P + 8 * i)) PTE_V = true →
    role !! PTE2PA (ld64 m (P + 8 * i)) = Some (root, lvl - 1, pre * 512 + i)
}.
Definition is_root (role : gmap Z ptrole) (r : Z) : Prop := role !! r = Some (r, 2, 0).

(** The leaf page of the tree of [pt] that covers [va]. *)
Definition leaf_role (pt va : Z) : ptrole := (pt, 0, PX 2 va * 512 + PX 1 va).

Lemma walk_leaf m role pt va :
  pt_ok m role → is_root role pt → walk_pure m pt va ≠ 0 →
  ∃ P, role !! P = Some (leaf_role pt va) ∧ walk_pure m pt va = P + 8 * PX 0 va.
Proof.
  intros [_ Hc] Hr. rewrite /walk_pure.
  destruct (tst (ld64 m (pt + 8 * PX 2 va)) PTE_V) eqn:E2; [|done].
  destruct (tst (ld64 m (_ + 8 * PX 1 va)) PTE_V) eqn:E1; [|done]. intros _.
  eexists. split; [|reflexivity].
  apply (Hc _ pt 2 0) in E2; [|done|lia|by apply PX_range].
  apply (Hc _ pt 1 (PX 2 va)) in E1; [done| |lia|by apply PX_range].
  rewrite E2. do 3 f_equal.
Qed.

(** The entries of different pages of different trees are different words. *)
Lemma walk_inj m role pt1 va1 pt2 va2 :
  pt_ok m role → is_root role pt1 → is_root role pt2 →
  0 ≤ va1 < MAXVA → va1 mod PGSIZE = 0 → 0 ≤ va2 < MAXVA → va2 mod PGSIZE = 0 →
  walk_pure m pt1 va1 ≠ 0 → walk_pure m pt2 va2 ≠ 0 →
  walk_pure m pt1 va1 < walk_pure m pt2 va2 + 8 →
  walk_pure m pt2 va2 < walk_pure m pt1 va1 + 8 →
  pt1 = pt2 ∧ va1 = va2.
Proof.
  intros Hpt R1 R2 B1 A1 B2 A2 N1 N2 L1 L2.
  destruct (walk_leaf m role pt1 va1) as (P1 & HP1 & W1); [done..|].
  destruct (walk_leaf m role pt2 va2) as (P2 & HP2 & W2); [done..|].
  pose proof (pt_page _ _ Hpt _ _ HP1) as [G1 _]. pose proof (pt_page _ _ Hpt _ _ HP2) as [G2 _].
  pose proof (PX_range 0 va1 (Z.le_refl 0)). pose proof (PX_range 0 va2 (Z.le_refl 0)).
  pose proof (PX_range 1 va1 ltac:(lia)). pose proof (PX_range 1 va2 ltac:(lia)).
  rewrite W1 W2 in L1 L2. rewrite /PGSIZE in G1, G2.
  assert (P1 = P2 ∧ PX 0 va1 = PX 0 va2) as [-> HX] by dlia.
  rewrite HP1 in HP2. injection HP2 as -> Hpre. split; [done|].
  rewrite (PX_split va1) // (PX_split va2) // HX. lia.
Qed.

Lemma walk_aligned m role pt va :
  pt_ok m role → is_root role pt → walk_pure m pt va mod 8 = 0.
Proof.
  intros Hpt Hr. destruct (Z.eq_dec (walk_pure m pt va) 0) as [->|Hn]; [done|].
  destruct (walk_leaf m role pt va) as (P & HP & ->); [done..|].
  pose proof (pt_page _ _ Hpt _ _ HP) as [G _]. rewrite /PGSIZE in G. dlia.
Qed.

(** Two memories that agree on the page-table pages above the leaves have the
    same walks. *)
Definition agree_dirs (role : gmap Z ptrole) (m m' : gmap Z Z) : Prop :=
  ∀ P root lvl pre x, role !! P = Some (root, lvl, pre) → 0 < lvl →
    P ≤ x < P + PGSIZE → ld8 m' x = ld8 m x.

Lemma agree_dirs_ld64 role m m' P root lvl pre i :
  agree_dirs role m m' → role !! P = Some (root, lvl, pre) → 0 < lvl → 0 ≤ i < 512 →
  ld64 m' (P + 8 * i) = ld64 m (P + 8 * i).
Proof.
  intros Ha HP Hl Hi. apply ld64_ext. intros x Hx. apply (Ha P root lvl pre x HP Hl). rewrite /PGSIZE. lia.
Qed.

Lemma walk_agree role m m' pt va :
  pt_ok m role → is_root role pt → agree_dirs role m m' →
  walk_pure m' pt va = walk_pure m pt va.
Proof.
  intros [_ Hc] Hr Ha. rewrite /walk_pure.
  rewrite (agree_dirs_ld64 role m m' pt pt 2 0) //; [by apply PX_range|].
  destruct (tst (ld64 m (pt + 8 * PX 2 va)) PTE_V) eqn:E2; [|done].
  apply (Hc _ pt 2 0) in E2; [|done|lia|by apply PX_range].
  rewrite (agree_dirs_ld64 role m m' _ pt 1 (PX 2 va)) //. by apply PX_range.
Qed.

Lemma pt_ok_agree role m m' : pt_ok m role → agree_dirs role m m' → pt_ok m' role.
Proof.
  intros [Hp Hc] Ha. split; [done|]. intros P root lvl pre i HP Hl Hi.
  rewrite (agree_dirs_ld64 role m m' P root lvl pre) //. by apply Hc.
Qed.

(** ** Copies of one byte

    The physical address of the byte at [va], when it can be read (or, with
    [w], written) from user mode. *)
Definition user_pa (w : bool) (m : gmap Z Z) (pt va : Z) : option Z :=
  let va0 := PGROUNDDOWN va in
  if MAXVA <=? va0 then None else
  match pte_of m pt va0 with
  | None => None
  | Some v =>
      if tst v PTE_V && tst v PTE_U && (if w then tst v PTE_W else negb (PTE2PA v =? 0))
      then Some (PTE2PA v + (va - va0)) else None
  end.

Lemma pgrounddown_off va : va - PGROUNDDOWN va = va mod PGSIZE.
Proof. rewrite PGROUNDDOWN_eq /PGSIZE. dlia. Qed.

Lemma copyin1_eq pt va s :
  copyin pt va 1 s =
  Ok (match user_pa false (k_mem s) pt va with Some a => (0, [ld8 (k_mem s) a]) | None => (-1, []) end) s.
Proof.
  rewrite /copyin /copyin_loop /user_pa /walkaddr. set (va0 := PGROUNDDOWN va).
  assert (Z.min (PGSIZE - (va - va0)) 1 = 1) as Hn.
  { rewrite /va0 pgrounddown_off. pose proof (Z.mod_pos_bound va PGSIZE). unfold PGSIZE in *. lia. }
  cbn -[PGROUNDDOWN walk0 Z.min]. rewrite -/va0. destruct (Z.leb_spec MAXVA va0) as [H|H]; [done|].
  rewrite /bind walk0_eq // /pte_of. destruct (walk_pure _ _ _ =? 0); [done|].
  rewrite /load64 /gets /=. destruct (tst _ PTE_V); [|done]. destruct (tst _ PTE_U); [|done]. cbn -[Z.min PTE2PA].
  destruct (PTE2PA _ =? 0); [done|]. rewrite Hn. done.
Qed.
Lemma copyout1_eq pt va b s :
  copyout pt va [b] s =
  match user_pa true (k_mem s) pt va with
  | Some a => Ok 0 (set_mem (st8 (k_mem s) a b) s)
  | None => Ok (-1) s
  end.
Proof.
  rewrite /copyout /copyout_loop /user_pa. set (va0 := PGROUNDDOWN va).
  assert (Z.min (PGSIZE - (va - va0)) 1 = 1) as Hn.
  { rewrite /va0 pgrounddown_off. pose proof (Z.mod_pos_bound va PGSIZE). unfold PGSIZE in *. lia. }
  cbn -[PGROUNDDOWN walk0 Z.min]. rewrite -/va0. destruct (Z.leb_spec MAXVA va0) as [H|H]; [done|].
  rewrite /bind walk0_eq // /pte_of. destruct (walk_pure _ _ _ =? 0); [done|].
  rewrite /load64 /gets /=. destruct (tst _ PTE_V); [|done]. destruct (tst _ PTE_U); [|done]. destruct (tst _ PTE_W); [|done].
  cbn -[Z.min PTE2PA]. rewrite Hn. done.
Qed.
