(* ===== verification/Printf.v ===== *)
(** Formatted output: kernel/printf.c and user/printf.c, as the bytes they put
    out, and atoi() of user/ulib.c. *)
From S2P Require Import Prelude.

(** ** Integers *)

Definition s64 (x : Z) : Z := (x + 2 ^ 63) mod 2 ^ 64 - 2 ^ 63.

(** digits[d] *)
Definition kdigit (d : Z) : Z := if d <? 10 then 48 + d else 87 + d.
Definition udigit (d : Z) : Z := if d <? 10 then 48 + d else 55 + d.

(** do { buf[i++] = digits[x % base]; } while((x /= base) != 0): the digits,
    last one first.  A 64-bit number has at most 64 of them. *)
Fixpoint digits_loop (fuel : nat) (digit : Z → Z) (x base : Z) : list Z :=
  match fuel with
  | O => []
  | S f => digit (x mod base) :: (if x / base =? 0 then [] else digits_loop f digit (x / base) base)
  end.
Definition digits_rev (digit : Z → Z) (x base : Z) : list Z := digits_loop 64 digit x base.

(** printint() of the kernel.  buf has 16 bytes: [None] when the digits and
    the sign do not fit and the writes run past it. *)
Definition printint (xx base : Z) (sign : bool) : option (list Z) :=
  let neg := sign && (xx <? 0) in
  let x := if neg then u64 (- xx) else u64 xx in
  let buf := digits_rev kdigit x base ++ (if neg then [45] else []) in
  if (length buf <=? 16)%nat then Some (reverse buf) else None.

(** printint() of user programs: the number is an int. *)
Definition uprintint (xx base : Z) (sgn : bool) : list Z :=
  let xx := s32 xx in
  let neg := sgn && (xx <? 0) in
  let x := if neg then u32 (- xx) else u32 xx in
  reverse (digits_rev udigit x base ++ (if neg then [45] else [])).

Fixpoint ptr_loop (n : nat) (digit : Z → Z) (x : Z) : list Z :=
  match n with
  | O => []
  | S n' => digit (Z.shiftr x 60) :: ptr_loop n' digit (u64 (Z.shiftl x 4))
  end.
Definition printptr (digit : Z → Z) (x : Z) : list Z := [48; 120] ++ ptr_loop 16 digit x.

(** ** Formats

    An argument is a 64-bit word, or a string ([None] is a null pointer). *)
Inductive varg := VNum (x : Z) | VStr (s : option (list Z)).

Inductive conv :=
| CInt (long : bool) (base : Z) (sign : bool)  (* %d %u %x and the l, ll forms *)
| CPtr | CStr | CPercent | CEnd | CBad (c : Z).

(** The chain of tests on the characters after a %, and how many more of them
    the conversion takes. *)
Definition conv_of (c0 c1 c2 : Z) : conv * nat :=
  let l := 108 in
  if c0 =? 100 then (CInt false 10 true, 0%nat)
  else if (c0 =? l) && (c1 =? 100) then (CInt true 10 true, 1%nat)
  else if (c0 =? l) && (c1 =? l) && (c2 =? 100) then (CInt true 10 true, 2%nat)
  else if c0 =? 117 then (CInt false 10 false, 0%nat)
  else if (c0 =? l) && (c1 =? 117) then (CInt true 10 false, 1%nat)
  else if (c0 =? l) && (c1 =? l) && (c2 =? 117) then (CInt true 10 false, 2%nat)
  else if c0 =? 120 then (CInt false 16 false, 0%nat)
  else if (c0 =? l) && (c1 =? 120) then (CInt true 16 false, 1%nat)
  else if (c0 =? l) && (c1 =? l) && (c2 =? 120) then (CInt true 16 false, 2%nat)
  else if c0 =? 112 then (CPtr, 0%nat)
  else if c0 =? 115 then (CStr, 0%nat)
  else if c0 =? 37 then (CPercent, 0%nat)
  else if c0 =? 0 then (CEnd, 0%nat)
  else (CBad c0, 0%nat).

Definition null_str : list Z := [40; 110; 117; 108; 108; 41].
Definition num_of (a : varg) : Z := match a with VNum x => x | VStr _ => 0 end.
Definition str_of (a : varg) : list Z :=
  match a with VStr (Some s) => s | VStr None => null_str | VNum _ => [] end.
Definition nth_char (l : list Z) (i : nat) : Z := default 0 (l !! i).

(** The loops of printf() and vprintf(): they differ in how integers are
    printed; both end at a % that ends the format.  [None] is a write past the
    end of the kernel's digit buffer. *)
Fixpoint format_loop (fuel : nat) (pint : bool → Z → Z → bool → option (list Z)) (digit : Z → Z)
    (fmt : list Z) (args : list varg) : option (list Z) :=
  match fuel, fmt with
  | O, _ | _, [] => Some []
  | S f, c :: fmt' =>
      if negb (c =? 37) then cons c <$> format_loop f pint digit fmt' args else
      let c0 := nth_char fmt' 0 in
      let c1 := if c0 =? 0 then 0 else nth_char fmt' 1 in
      let c2 := if c1 =? 0 then 0 else nth_char fmt' 2 in
      let '(cv, more) := conv_of c0 c1 c2 in
      let rest := drop (S more) fmt' in
      let a := default (VNum 0) (head args) in
      match cv with
      | CInt long base sign =>
          match pint long (num_of a) base sign with
          | Some out => app out <$> format_loop f pint digit rest (tail args)
          | None => None
          end
      | CPtr => app (printptr digit (num_of a)) <$> format_loop f pint digit rest (tail args)
      | CStr => app (str_of a) <$> format_loop f pint digit rest (tail args)
      | CPercent => cons 37 <$> format_loop f pint digit rest args
      | CEnd => Some []
      | CBad c => app [37; c] <$> format_loop f pint digit rest args
      end
  end.

(** kernel: an int is sign-extended to long long *)
Definition printf (fmt : list Z) (args : list varg) : option (list Z) :=
  format_loop (length fmt) (λ long x base sign, printint (if long then s64 x else s32 x) base sign)
    kdigit fmt args.
Definition vprintf (fmt : list Z) (args : list varg) : list Z :=
  default [] (format_loop (length fmt) (λ _ x base sgn, Some (uprintint x base sgn)) udigit fmt args).

(** ** atoi(), user/ulib.c *)
Fixpoint atoi_loop (n : Z) (s : list Z) : Z :=
  match s with
  | c :: s' => if (48 <=? c) && (c <=? 57) then atoi_loop (s32 (n * 10 + c - 48)) s' else n
  | [] => n
  end.
Definition atoi (s : list Z) : Z := atoi_loop 0 s.

(** ** Lemmas *)

Fixpoint of_digits (base : Z) (l : list Z) : Z :=
  match l with [] => 0 | d :: l' => (d - 48) + base * of_digits base l' end.

Lemma digits_loop_spec fuel x : (0 < fuel)%nat → 0 ≤ x < 10 ^ Z.of_nat fuel →
  of_digits 10 (digits_loop fuel udigit x 10) = x ∧
  Forall (λ c, 48 ≤ c ≤ 57) (digits_loop fuel udigit x 10) ∧
  digits_loop fuel udigit x 10 = digits_loop fuel kdigit x 10 ∧
  (∀ k, (0 < k)%nat → x < 10 ^ Z.of_nat k → (length (digits_loop fuel udigit x 10) ≤ k)%nat).
Proof.
  revert x; induction fuel as [|f IH]; intros x Hf Hx; [lia|]. cbn [digits_loop of_digits length].
  assert (0 ≤ x mod 10 < 10) as Hm by dlia.
  assert (udigit (x mod 10) = 48 + x mod 10 ∧ kdigit (x mod 10) = 48 + x mod 10) as [Eu Ek].
  { rewrite /udigit /kdigit (proj2 (Z.ltb_lt _ _)); [lia|done]. }
  rewrite Eu Ek. destruct (Z.eqb_spec (x / 10) 0) as [E|E].
  - cbn. split_and!; [dlia|constructor; [lia|constructor]|done|intros; lia].
  - rewrite Nat2Z.inj_succ Z.pow_succ_r in Hx; [lia|].
    destruct f as [|f]; [cbn in Hx; dlia|].
    destruct (IH (x / 10)) as (I1 & I2 & I3 & I4); [lia|dlia|].
    rewrite I1 I3. split_and!; [dlia|constructor; [lia|by rewrite -I3]|done|].
    intros k Hk Hxk. destruct k as [|[|k]]; [lia|cbn in Hxk; dlia|].
    rewrite -I3. apply le_n_S, I4; [lia|]. rewrite Nat2Z.inj_succ Z.pow_succ_r in Hxk; [lia|]. dlia.
Qed.

Lemma of_digits_nonneg l : Forall (λ c, 48 ≤ c ≤ 57) l → 0 ≤ of_digits 10 l.
Proof. induction 1; cbn; lia. Qed.
Lemma atoi_digits n l k :
  Forall (λ c, 48 ≤ c ≤ 57) l → 0 ≤ n → n * 10 ^ Z.of_nat (length l) + of_digits 10 l < 2 ^ 31 →
  atoi_loop n (reverse l ++ k) = atoi_loop (n * 10 ^ Z.of_nat (length l) + of_digits 10 l) k.
Proof.
  intros Hl Hn. revert k. induction Hl as [|d l Hd Hl IH]; intros k Hb; cbn [length of_digits] in *.
  { f_equal. lia. }
  pose proof (of_digits_nonneg l Hl) as Hnn.
  rewrite Nat2Z.inj_succ Z.pow_succ_r in Hb |- *; [lia..|].
  assert (0 ≤ n * 10 ^ Z.of_nat (length l)) as Hp by (apply Z.mul_nonneg_nonneg; [done|apply Z.pow_nonneg; lia]).
  rewrite reverse_cons -app_assoc IH; [nia|]. cbn [app atoi_loop].
  rewrite (proj2 (Z.leb_le _ _)); [lia|]. rewrite (proj2 (Z.leb_le _ _)); [lia|]. cbn [andb]. f_equal.
  rewrite /s32 Z.mod_small; [nia|]. lia.
Qed.

(** Printing and parsing agree: atoi() of what printf's %d of the user
    library prints for a non-negative int gives the number back, whatever
    non-digit follows it. *)
Theorem atoi_uprintint x k :
  0 ≤ x < 2 ^ 31 → (∀ c, head k = Some c → ¬ (48 ≤ c ≤ 57)) → atoi (uprintint x 10 true ++ k) = x.
Proof.
  intros Hx Hk. rewrite /uprintint.
  assert (s32 x = x) as Es by (rewrite /s32 Z.mod_small; lia). rewrite Es.
  rewrite (proj2 (Z.ltb_ge x 0)); [lia|]. cbn [andb]. rewrite app_nil_r u32_id; [lia|].
  destruct (digits_loop_spec 64 x) as (D1 & D2 & _ & _); [lia|change (10 ^ Z.of_nat 64) with (10 ^ 64); lia|].
  rewrite /atoi /digits_rev. revert D1 D2. generalize (digits_loop 64 udigit x 10). intros l D1 D2.
  rewrite (atoi_digits 0 l k D2); [lia|lia|]. rewrite D1 Z.mul_0_l Z.add_0_l.
  destruct k as [|c k]; [done|]. cbn. specialize (Hk c eq_refl).
  destruct ((48 <=? c) && (c <=? 57)) eqn:E; [|done]. lia.
Qed.

Lemma atoi_uprintint_witness : atoi (uprintint 2147483647 10 true ++ [32; 56]) = 2147483647.
Proof. apply (atoi_uprintint 2147483647 [32; 56]); [lia|]. intros c [= <-]. lia. Defined.

(** The kernel's printint() stays within its buffer of 16 digits and prints
    the decimal digits of the number, for every number below 10^15. *)
Theorem printint_fits x : 0 ≤ x < 10 ^ 15 →
  ∃ out, printint x 10 true = Some out ∧ of_digits 10 (reverse out) = x.
Proof.
  intros Hx. rewrite /printint (proj2 (Z.ltb_ge x 0)); [lia|]. cbn [andb]. rewrite app_nil_r u64_id; [lia|].
  destruct (digits_loop_spec 64 x) as (D1 & D2 & D3 & D4); [lia|change (10 ^ Z.of_nat 64) with (10 ^ 64); lia|]. rewrite /digits_rev -D3. clear D3.
  revert D1 D2 D4. generalize (digits_loop 64 udigit x 10). intros l D1 D2 D4.
  specialize (D4 15%nat ltac:(lia) ltac:(lia)). rewrite (proj2 (Nat.leb_le _ _)); [lia|].
  eexists. split; [done|]. by rewrite reverse_involutive.
Qed.

Lemma printint_fits_witness :
  ∃ out, printint 999999999999999 10 true = Some out ∧ of_digits 10 (reverse out) = 999999999999999.
Proof. apply (printint_fits 999999999999999). lia. Defined.
