(* ===== verification/Console.v ===== *)
(** The serial console: the UART driver of kernel/uart.c and the line
    discipline of kernel/console.c.

    The device is what the driver sees of a 16550: a queue of received bytes,
    the bytes written to THR, and LSR_TX_IDLE, which a write to THR clears and
    the device sets again when the byte is sent. *)
From S2P Require Import Prelude Riscv Mem State Sched Bio Walk Printf.

(** ** kernel/uart.c *)

Definition UART_TX_BUF_SIZE : Z := 32.

(** WriteReg(THR, c) *)
Definition write_thr (c : Z) : K unit :=
  modify (upd_uart (λ u, set_ut_idle false (set_ut_out (ut_out u ++ [u8 c]) u))).

(** while(1): the buffer is empty, or the device is busy, or a byte is sent. *)
Fixpoint uartstart_loop (fuel : nat) : K unit :=
  match fuel with
  | O => λ _, NoFuel
  | S f =>
      u ← gets k_uart;
      if ut_w u =? ut_r u then ret tt else
      if negb (ut_idle u) then ret tt else
      let c := default 0 (ut_buf u !! (ut_r u mod UART_TX_BUF_SIZE)) in
      modify (upd_uart (λ u, set_ut_r (u64 (ut_r u + 1)) u));;
      wakeup ch_uart_tx;;
      write_thr c;;
      uartstart_loop f
  end.
(** A byte makes the device busy, so two rounds are enough. *)
Definition uartstart : K unit := uartstart_loop 2.

(** The loop that waits for room sleeps; a woken thread tests again. *)
Definition uartputc (c : Z) : K unit :=
  acquire uart_tx_lock;;
  u ← gets k_uart;
  if ut_w u =? u64 (ut_r u + UART_TX_BUF_SIZE) then sleep ch_uart_tx uart_tx_lock else
  modify (upd_uart (λ u, set_ut_buf (<[ut_w u mod UART_TX_BUF_SIZE := u8 c]> (ut_buf u)) u));;
  modify (upd_uart (λ u, set_ut_w (u64 (ut_w u + 1)) u));;
  uartstart;;
  release uart_tx_lock.

(** Spins until the device is idle, which it becomes by itself. *)
Definition uartputc_sync (c : Z) : K unit :=
  modify (upd_uart (set_ut_idle true));;
  write_thr c.

Definition uartgetc : K Z :=
  u ← gets k_uart;
  match ut_in u with
  | [] => ret (-1)
  | c :: rest => modify (upd_uart (set_ut_in rest));; ret (u8 c)
  end.

(** ** kernel/console.c *)

Definition BACKSPACE : Z := 256.
Definition INPUT_BUF_SIZE : Z := 128.
Definition NL : Z := 10.
Definition CTRL_D : Z := 4.

Definition consputc (c : Z) : K unit :=
  if c =? BACKSPACE then uartputc_sync 8;; uartputc_sync 32;; uartputc_sync 8
  else uartputc_sync c.

(** printf() to the console: the bytes of Printf.v; a write past printint()'s
    buffer is undefined behaviour, modelled as a crash. *)
Definition cprintf (fmt : list Z) (args : list varg) : K unit :=
  match printf fmt args with
  | Some out => forM out consputc
  | None => panic "kerneltrap"
  end.

Fixpoint consolewrite_loop (k : nat) (user_src : bool) (src i : Z) : K Z :=
  match k with
  | O => ret i
  | S k' =>
      rb ← either_copyin user_src (u64 (src + i)) 1;
      if rb.1 =? -1 then ret i else
      uartputc (default 0 (head rb.2));;
      consolewrite_loop k' user_src src (i + 1)
  end.
Definition consolewrite (user_src : bool) (src n : Z) : K Z :=
  consolewrite_loop (Z.to_nat n) user_src src 0.

(** while(n > 0): the number of bytes still wanted when the loop ends, or
    [None] for the return of a killed process.  A reader that sleeps ends its
    run here. *)
Fixpoint consoleread_loop (k : nat) (user_dst : bool) (dst n target : Z) : K (option Z) :=
  match k with
  | O => ret (Some n)
  | S k' =>
      c ← gets k_cons;
      if c_r c =? c_w c then
        p ← myproc;
        kd ← killed p;
        if kd : bool then release cons_lock;; ret None
        else sleep ch_cons cons_lock;; block
      else
      let ch := default 0 (c_buf c !! (c_r c mod INPUT_BUF_SIZE)) in
      modify (upd_cons (λ c, set_c_r (u32 (c_r c + 1)) c));;
      if ch =? CTRL_D then
        when (n <? target) (modify (upd_cons (λ c, set_c_r (u32 (c_r c - 1)) c)));;
        ret (Some n)
      else
      r ← either_copyout user_dst dst [ch];
      if r =? -1 then ret (Some n) else
      if ch =? NL then ret (Some (n - 1)) else
      consoleread_loop k' user_dst (u64 (dst + 1)) (n - 1) target
  end.
Definition consoleread (user_dst : bool) (dst n : Z) : K Z :=
  acquire cons_lock;;
  r ← consoleread_loop (Z.to_nat n) user_dst dst n n;
  match r with
  | None => ret (-1)
  | Some rest => release cons_lock;; ret (n - rest)
  end.

(** "%d %s %s" and the lines of procdump() *)
Definition state_name (st : procstate) : list Z :=
  match st with
  | UNUSED => [117; 110; 117; 115; 101; 100]
  | USED => [117; 115; 101; 100]
  | SLEEPING => [115; 108; 101; 101; 112; 32]
  | RUNNABLE => [114; 117; 110; 98; 108; 101]
  | RUNNING => [114; 117; 110; 32; 32; 32]
  | ZOMBIE => [122; 111; 109; 98; 105; 101]
  end.
(** The bytes of a char array before its NUL. *)
Fixpoint cstr (l : list Z) : list Z :=
  match l with c :: l' => if c =? 0 then [] else c :: cstr l' | [] => [] end.
Definition procdump : K unit :=
  cprintf [NL] [];;
  forM (seq 0 NPROC) (λ i,
    p ← gets (λ s, proc_at s i);
    if bool_decide (p_state p = UNUSED) then ret tt else
    cprintf [37; 100; 32; 37; 115; 32; 37; 115]
      [VNum (p_pid p); VStr (Some (state_name (p_state p))); VStr (Some (cstr (p_name p)))];;
    cprintf [NL] []).

(** Kill line: erase back to the last newline or the write index. *)
Fixpoint kill_line (fuel : nat) : K unit :=
  match fuel with
  | O => λ _, NoFuel
  | S f =>
      c ← gets k_cons;
      if negb (c_e c =? c_w c) &&
         negb (default 0 (c_buf c !! (u32 (c_e c - 1) mod INPUT_BUF_SIZE)) =? NL)
      then
        modify (upd_cons (λ c, set_c_e (u32 (c_e c - 1)) c));;
        consputc BACKSPACE;;
        kill_line f
      else ret tt
  end.
(** At most INPUT_BUF_SIZE bytes are being edited. *)
Definition consoleintr (c : Z) : K unit :=
  acquire cons_lock;;
  (if c =? 16 then procdump
   else if c =? 21 then kill_line (S (Z.to_nat INPUT_BUF_SIZE))
   else if (c =? 8) || (c =? 127) then
     cs ← gets k_cons;
     when (negb (c_e cs =? c_w cs)) (
       modify (upd_cons (λ c, set_c_e (u32 (c_e c - 1)) c));;
       consputc BACKSPACE)
   else
     cs ← gets k_cons;
     when (negb (c =? 0) && (u32 (c_e cs - c_r cs) <? INPUT_BUF_SIZE)) (
       let c := if c =? 13 then NL else c in
       consputc c;;
       modify (upd_cons (λ cs, set_c_buf (<[c_e cs mod INPUT_BUF_SIZE := u8 c]> (c_buf cs)) cs));;
       modify (upd_cons (λ cs, set_c_e (u32 (c_e cs + 1)) cs));;
       cs ← gets k_cons;
       when ((c =? NL) || (c =? CTRL_D) || (u32 (c_e cs - c_r cs) =? INPUT_BUF_SIZE)) (
         modify (upd_cons (λ cs, set_c_w (c_e cs) cs));;
         wakeup ch_cons)));;
  release cons_lock.

(** uartintr(): the received bytes, then the transmit buffer. *)
Fixpoint uartintr_loop (fuel : nat) : K unit :=
  match fuel with
  | O => λ _, NoFuel
  | S f =>
      c ← uartgetc;
      if c =? -1 then ret tt else consoleintr c;; uartintr_loop f
  end.
Definition uartintr : K unit :=
  n ← gets (λ s, S (length (ut_in (k_uart s))));
  uartintr_loop n;;
  acquire uart_tx_lock;;
  uartstart;;
  release uart_tx_lock.

(** ** The input ring *)

(** Read, write and edit index are in order and at most a buffer apart, as
    numbers modulo 2^32. *)
Definition cons_ok (c : cons) : Prop :=
  0 ≤ c_r c < 2 ^ 32 ∧ 0 ≤ c_w c < 2 ^ 32 ∧ 0 ≤ c_e c < 2 ^ 32 ∧
  u32 (c_w c - c_r c) + u32 (c_e c - c_w c) = u32 (c_e c - c_r c) ∧
  u32 (c_e c - c_r c) ≤ INPUT_BUF_SIZE.

(** The bytes a reader can take now. *)
Definition cons_ready (c : cons) : list Z :=
  (λ i, default 0 (c_buf c !! (u32 (c_r c + i) mod INPUT_BUF_SIZE))) <$> seqZ 0 (u32 (c_w c - c_r c)).



(** Only the UART changes. *)
Definition uart_only (s s' : kstate) : Prop := s' = set_uart (k_uart s') s.

Lemma consputc_spec c s : wp (consputc c) (λ _ s', uart_only s s') s.
Proof.
  rewrite /consputc /uartputc_sync /write_thr. destruct (c =? BACKSPACE); wp_steps; rewrite /uart_only; by destruct s.
Qed.

Lemma uart_only_trans s1 s2 s3 : uart_only s1 s2 → uart_only s2 s3 → uart_only s1 s3.
Proof. rewrite /uart_only. intros E1 E2. rewrite {1}E2 E1. by destruct s1. Qed.
(** Printing changes the UART only. *)
Lemma cprintf_spec fmt args out s :
  printf fmt args = Some out → wp (cprintf fmt args) (λ _ s', uart_only s s') s.
Proof.
  intros E. rewrite /cprintf E. clear E. revert s. induction out as [|c out IH]; intros s; cbn [forM].
  - apply wp_ret. by destruct s.
  - apply wp_bind. wp_use consputc_spec. intros _ s1 F1. wp_use IH. intros _ s2 F2.
    exact (uart_only_trans _ _ _ F1 F2).
Qed.

Lemma cons_ok_edit c : cons_ok c → c_e c ≠ c_w c → cons_ok (set_c_e (u32 (c_e c - 1)) c) ∧
  u32 (u32 (c_e c - 1) - c_w c) = u32 (c_e c - c_w c) - 1.
Proof.
  rewrite /cons_ok /u32 /INPUT_BUF_SIZE. destruct c as [bf r w e]. cbn. intros (Hr & Hw & He & H1 & H2) Hne.
  assert (0 < (e - w) mod 2 ^ 32).
  { pose proof (Z.mod_pos_bound (e - w) (2 ^ 32)). assert ((e - w) mod 2 ^ 32 ≠ 0); [|lia].
    intros E. apply Hne. apply Z.mod_divide in E as [k Hk]; [|lia]. assert (k = 0) by lia. lia. }
  assert (((e - 1) mod 2 ^ 32 - w) mod 2 ^ 32 = (e - w) mod 2 ^ 32 - 1) as E1.
  { rewrite Zminus_mod_idemp_l. symmetry. apply (Z.mod_unique_pos _ _ ((e - w) / 2 ^ 32)); [pose proof (Z.mod_pos_bound (e - w) (2 ^ 32)); lia|].
    pose proof (Z.div_mod (e - w) (2 ^ 32)). lia. }
  assert (((e - 1) mod 2 ^ 32 - r) mod 2 ^ 32 = (e - r) mod 2 ^ 32 - 1) as E2.
  { rewrite Zminus_mod_idemp_l. symmetry. apply (Z.mod_unique_pos _ _ ((e - r) / 2 ^ 32)).
    - pose proof (Z.mod_pos_bound (e - r) (2 ^ 32)). pose proof (Z.mod_pos_bound (w - r) (2 ^ 32)). lia.
    - pose proof (Z.div_mod (e - r) (2 ^ 32)). lia. }
  pose proof (Z.mod_pos_bound (e - 1) (2 ^ 32)). rewrite E1 E2. lia.
Qed.

Lemma cons_ok_type c ch : cons_ok c → u32 (c_e c - c_r c) < INPUT_BUF_SIZE →
  let c' := set_c_e (u32 (c_e c + 1)) (set_c_buf ch c) in
  cons_ok c' ∧ u32 (c_e c' - c_r c') = u32 (c_e c - c_r c) + 1.
Proof.
  rewrite /cons_ok /u32 /INPUT_BUF_SIZE. destruct c as [bf r w e]. cbn. intros (Hr & Hw & He & H1 & H2) Hlt.
  assert (((e + 1) mod 2 ^ 32 - w) mod 2 ^ 32 = (e - w) mod 2 ^ 32 + 1) as E1.
  { rewrite Zminus_mod_idemp_l. symmetry. apply (Z.mod_unique_pos _ _ ((e - w) / 2 ^ 32)).
    - pose proof (Z.mod_pos_bound (e - w) (2 ^ 32)). pose proof (Z.mod_pos_bound (w - r) (2 ^ 32)). lia.
    - pose proof (Z.div_mod (e - w) (2 ^ 32)). lia. }
  assert (((e + 1) mod 2 ^ 32 - r) mod 2 ^ 32 = (e - r) mod 2 ^ 32 + 1) as E2.
  { rewrite Zminus_mod_idemp_l. symmetry. apply (Z.mod_unique_pos _ _ ((e - r) / 2 ^ 32)).
    - pose proof (Z.mod_pos_bound (e - r) (2 ^ 32)). lia.
    - pose proof (Z.div_mod (e - r) (2 ^ 32)). lia. }
  pose proof (Z.mod_pos_bound (e + 1) (2 ^ 32)). rewrite E1 E2. lia.
Qed.
Lemma cons_ok_line c : cons_ok c → cons_ok (set_c_w (c_e c) c).
Proof.
  rewrite /cons_ok /u32. destruct c as [bf r w e]. cbn. intros (Hr & Hw & He & H1 & H2).
  rewrite Z.sub_diag Zmod_0_l. lia.
Qed.

Lemma kill_line_spec n s :
  cons_ok (k_cons s) → u32 (c_e (k_cons s) - c_w (k_cons s)) < Z.of_nat n →
  wp (kill_line n) (λ _ s', cons_ok (k_cons s') ∧ k_locks s' = k_locks s ∧ c_w (k_cons s') = c_w (k_cons s) ∧
    c_r (k_cons s') = c_r (k_cons s)) s.
Proof.
  revert s; induction n as [|n IH]; intros s Hok Hn.
  { pose proof (u32_range (c_e (k_cons s) - c_w (k_cons s))). lia. }
  cbn [kill_line]. apply wp_bind, wp_gets. destruct (_ && _) eqn:E; [|by apply wp_ret].
  apply andb_true_iff in E as [E _]. apply negb_true_iff, Z.eqb_neq in E.
  destruct (cons_ok_edit _ Hok E) as [Hok' He]. apply wp_bind, wp_modify, wp_bind.
  wp_use (consputc_spec BACKSPACE). intros _ s1 F. rewrite F.
  wp_use (IH (set_uart (k_uart s1) (upd_cons (λ c, set_c_e (u32 (c_e c - 1)) c) s))).
  - exact Hok'.
  - cbn. rewrite He. lia.
  - intros _ s' (R1 & R2 & R3 & R4). done.
Qed.

Lemma wakeup_spec ch s (Q : unit → kstate → Prop) :
  no_proc_lock s → (∀ ps, Q tt (set_procs ps s)) → wp (wakeup ch) Q s.
Proof. intros Hl HQ. eapply wp_eq; [by apply wakeup_eq|]. apply HQ. Qed.

(** Console input keeps its ring well formed whatever is typed, backspace
    and kill-line included: the handler returns with the lock released, read,
    write and edit index stay in order and at most INPUT_BUF_SIZE apart (as
    counters that wrap at 2^32), and nothing a reader has yet to read is lost. *)
Theorem consoleintr_spec c s :
  cons_ok (k_cons s) → k_locks s = [] → c ≠ 16 →
  wp (consoleintr c) (λ _ s', cons_ok (k_cons s') ∧ k_locks s' = [] ∧ c_r (k_cons s') = c_r (k_cons s)) s.
Proof.
  intros Hok Hlk Hc. rewrite /consoleintr. apply wp_bind, wp_acquire; [rewrite Hlk; apply not_elem_of_nil|].
  rewrite Hlk. set (s0 := set_locks [cons_lock] s). change (cons_ok (k_cons s0)) in Hok. apply wp_bind.
  assert (∀ m : K unit, wp m (λ _ s', cons_ok (k_cons s') ∧ k_locks s' = [cons_lock] ∧ c_r (k_cons s') = c_r (k_cons s0)) s0 →
    wp m (λ _ s', wp (release cons_lock) (λ _ s', cons_ok (k_cons s') ∧ k_locks s' = [] ∧ c_r (k_cons s') = c_r (k_cons s)) s') s0)
    as Hrel.
  { intros m Hm. wp_use Hm. intros _ s' (R1 & R2 & R3). by eapply (wp_release cons_lock []); [done|apply not_elem_of_nil|]. }
  apply Hrel. rewrite (proj2 (Z.eqb_neq _ _) Hc). destruct (c =? 21).
  { wp_use (kill_line_spec (S (Z.to_nat INPUT_BUF_SIZE)) s0); [done| |by intros _ s' (R1 & R2 & _ & R3)].
    destruct Hok as (_ & _ & _ & H1 & H2). pose proof (u32_range (c_w (k_cons s0) - c_r (k_cons s0))).
    rewrite Nat2Z.inj_succ Z2Nat.id //. lia. }
  destruct ((c =? 8) || (c =? 127)).
  { apply wp_bind, wp_gets, wp_when; [intros E|done]. apply negb_true_iff, Z.eqb_neq in E.
    destruct (cons_ok_edit _ Hok E) as [Hok' _]. apply wp_bind, wp_modify.
    wp_use (consputc_spec BACKSPACE). intros _ s1 ->. done. }
  apply wp_bind, wp_gets, wp_when; [intros E|done]. apply andb_true_iff in E as [_ E%Z.ltb_lt].
  set (ch := if c =? 13 then NL else c). apply wp_bind. wp_use (consputc_spec ch).
  intros _ s1 F. apply wp_bind, wp_modify, wp_bind, wp_modify.
  assert (k_cons s1 = k_cons s0) as Ec by by rewrite F. assert (k_locks s1 = [cons_lock]) as El by by rewrite F.
  destruct (cons_ok_type (k_cons s0) (<[c_e (k_cons s0) mod INPUT_BUF_SIZE := u8 ch]> (c_buf (k_cons s0))) Hok E) as [Hok' He].
  set (s2 := upd_cons _ (upd_cons _ s1)).
  assert (k_cons s2 = set_c_e (u32 (c_e (k_cons s0) + 1)) (set_c_buf
    (<[c_e (k_cons s0) mod INPUT_BUF_SIZE := u8 ch]> (c_buf (k_cons s0))) (k_cons s0))) as Ec2.
  { rewrite /s2 /upd_cons. cbn. by rewrite Ec. }
  apply wp_bind, wp_gets, wp_when; intros E2; rewrite ?Ec2.
  - apply wp_bind, wp_modify, wakeup_spec.
    { rewrite /no_proc_lock. cbn. rewrite El. intros p. set_solver. }
    intros ps. assert (k_cons (set_procs ps (upd_cons (λ cs : cons, set_c_w (c_e cs) cs) s2)) =
      set_c_w (c_e (k_cons s2)) (k_cons s2)) as -> by done. rewrite Ec2.
    split; [by apply (cons_ok_line _ Hok')|]. by split.
  - split; [done|]. by split.
Qed.

Lemma consoleintr_spec_witness :
  wp (consoleintr 97) (λ _ s', cons_ok (k_cons s') ∧ k_locks s' = [] ∧ c_r (k_cons s') = 0) kstate0.
Proof. apply (consoleintr_spec 97 kstate0); by vm_compute. Defined.
