(* ===== verification/Swap.v ===== *)
(** The swap area: swapread() and swapwrite() of kernel/fs.c.  A slot of the
    area is four consecutive disk blocks, read and written through the buffer
    cache as blocks of device 0. *)
From S2P Require Import Prelude Riscv Mem Ring State Sched Bio Walk.

Definition BLKS_PER_PG : Z := PGSIZE / BSIZE.
Definition slot_block (blkno i : Z) : Z := SWAPBASE + BLKS_PER_PG * blkno + i.

(** One round of the loop of swapread(). *)
Definition swapread1 (ptr blkno : Z) (user_dst : bool) (i : Z) : K unit :=
  modify (λ s, set_nr_read (s32 (k_nr_read s + 1)) s);;
  bp ← bread 0 (slot_block blkno i);
  data ← gets (λ s, b_data (buf_at s bp));
  r ← either_copyout user_dst (ptr + i * BSIZE) data;
  if r =? -1 then panic "swapread: either_copyout failed" else
  brelse bp.
Definition swapread (ptr blkno : Z) (user_dst : bool) : K unit :=
  if (blkno <? 0) || (SWAPMAX / BLKS_PER_PG <=? blkno)
  then panic "swapread: blkno exceeded range" else
  forM (seqZ 0 BLKS_PER_PG) (swapread1 ptr blkno user_dst).

(** One round of the loop of swapwrite().  The copy overwrites the front of
    the buffer, all of it when it succeeds. *)
Definition swapwrite1 (ptr blkno : Z) (user_src : bool) (i : Z) : K unit :=
  modify (λ s, set_nr_write (s32 (k_nr_write s + 1)) s);;
  bp ← bread 0 (slot_block blkno i);
  rb ← either_copyin user_src (ptr + i * BSIZE) BSIZE;
  modify (upd_buf bp (λ x, set_b_data (rb.2 ++ drop (length rb.2) (b_data x)) x));;
  if rb.1 =? -1 then panic "swapwrite: either_copyin failed" else
  bwrite bp;;
  brelse bp.
Definition swapwrite (ptr blkno : Z) (user_src : bool) : K unit :=
  if (blkno <? 0) || (SWAPMAX / BLKS_PER_PG <=? blkno)
  then panic "swapwrite: blkno exceeded range" else
  forM (seqZ 0 BLKS_PER_PG) (swapwrite1 ptr blkno user_src).

(** ** Frames *)

(** [s'] differs from [s] in what disk transfers change: buffers, disk,
    woken processes and the two counters. *)
Definition io_only (s s' : kstate) : Prop :=
  s' = set_nr_read (k_nr_read s') (set_nr_write (k_nr_write s')
         (set_procs (k_procs s') (set_disk (k_disk s') (set_bufs (k_bufs s') s)))).

Lemma io_only_refl s : io_only s s.
Proof. by destruct s. Qed.
Lemma io_only_trans s1 s2 s3 : io_only s1 s2 → io_only s2 s3 → io_only s1 s3.
Proof.
  rewrite /io_only. generalize (k_nr_read s3) (k_nr_write s3) (k_procs s3) (k_disk s3) (k_bufs s3).
  intros ????? -> ->. reflexivity.
Qed.
Lemma io_only_keeps s s' : io_only s s' →
  k_mem s' = k_mem s ∧ k_freelist s' = k_freelist s ∧ k_pages s' = k_pages s ∧
  k_lru_head s' = k_lru_head s ∧ k_bitmap s' = k_bitmap s ∧ k_locks s' = k_locks s ∧
  k_cur s' = k_cur s.
Proof. by intros ->. Qed.
Lemma io_only_nr_read s s' v : io_only s s' → io_only s (set_nr_read v s').
Proof. destruct s, s'. rewrite /io_only /=. intros E. injection E. intros. by subst. Qed.
Lemma io_only_nr_write s s' v : io_only s s' → io_only s (set_nr_write v s').
Proof. destruct s, s'. rewrite /io_only /=. intros E. injection E. intros. by subst. Qed.
Lemma io_only_procs s s' v : io_only s s' → io_only s (set_procs v s').
Proof. destruct s, s'. rewrite /io_only /=. intros E. injection E. intros. by subst. Qed.
Lemma io_only_disk s s' v : io_only s s' → io_only s (set_disk v s').
Proof. destruct s, s'. rewrite /io_only /=. intros E. injection E. intros. by subst. Qed.
Lemma io_only_bufs s s' v : io_only s s' → io_only s (set_bufs v s').
Proof. destruct s, s'. rewrite /io_only /=. intros E. injection E. intros. by subst. Qed.
Lemma io_only_upd_buf s s' b f : io_only s s' → io_only s (upd_buf b f s').
Proof. apply io_only_bufs. Qed.
Ltac io_frame :=
  lazymatch goal with
  | |- io_only ?s ?s => apply io_only_refl
  | |- io_only ?s (set_nr_read ?v ?u) => apply (io_only_nr_read s u v); io_frame
  | |- io_only ?s (set_nr_write ?v ?u) => apply (io_only_nr_write s u v); io_frame
  | |- io_only ?s (set_procs ?v ?u) => apply (io_only_procs s u v); io_frame
  | |- io_only ?s (set_disk ?v ?u) => apply (io_only_disk s u v); io_frame
  | |- io_only ?s (set_bufs ?v ?u) => apply (io_only_bufs s u v); io_frame
  | |- io_only ?s (upd_buf ?b ?f ?u) => apply (io_only_upd_buf s u b f); io_frame
  | |- io_only _ ?x => is_var x; unfold x; io_frame
  end.

(** ... and in the contents of memory. *)
Definition io_mem (s s' : kstate) : Prop := io_only (set_mem (k_mem s') s) s'.
Lemma io_mem_trans s1 s2 s3 : io_mem s1 s2 → io_mem s2 s3 → io_mem s1 s3.
Proof.
  rewrite /io_mem /io_only. generalize (k_nr_read s3) (k_nr_write s3) (k_procs s3) (k_disk s3)
    (k_bufs s3) (k_mem s3). intros ?????? -> ->. reflexivity.
Qed.
Lemma io_mem_intro s s1 m : io_only s s1 → io_mem s (set_mem m s1).
Proof. rewrite /io_mem /io_only. generalize (k_nr_read s1) (k_nr_write s1) (k_procs s1) (k_disk s1)
    (k_bufs s1). intros ????? ->. reflexivity. Qed.
Lemma io_mem_keeps s s' : io_mem s s' →
  k_freelist s' = k_freelist s ∧ k_pages s' = k_pages s ∧
  k_lru_head s' = k_lru_head s ∧ k_bitmap s' = k_bitmap s ∧ k_locks s' = k_locks s ∧
  k_cur s' = k_cur s.
Proof. by intros ->. Qed.

Lemma woken_refl p : woken p p.
Proof. by left. Qed.
Lemma woken_trans p q r : woken p q → woken q r → woken p r.
Proof.
  intros [->|[Hp ->]] [->|[Hq ->]]; [by left|by right|by right|]. by rewrite /= in Hq.
Qed.

Definition procs_woken (s s' : kstate) : Prop := ∀ i, woken (proc_at s i) (proc_at s' i).
Lemma procs_woken_trans s1 s2 s3 : procs_woken s1 s2 → procs_woken s2 s3 → procs_woken s1 s3.
Proof. intros H1 H2 i. eapply woken_trans; [apply H1|apply H2]. Qed.
Lemma wake_all_woken ch cur ps i :
  woken (default proc0 (ps !! i)) (default proc0 (wake_all ch cur ps !! i)).
Proof. rewrite wake_all_at /=. case_decide as H; [right; tauto|by left]. Qed.
Lemma procs_woken_wake s s' ch cur :
  k_procs s' = wake_all ch cur (k_procs s) → procs_woken s s'.
Proof. intros E i. rewrite /proc_at E. apply wake_all_woken. Qed.
Lemma woken_fields p q : woken p q →
  p_pagetable q = p_pagetable p ∧ p_sz q = p_sz p ∧ p_trapframe q = p_trapframe p ∧
  p_pid q = p_pid p ∧ p_killed q = p_killed p.
Proof. by intros [->|[_ ->]]. Qed.

(** The state in which a process may do swap I/O. *)
Record swap_ready (p : nat) (s : kstate) : Prop := {
  sr_bc : bc_inv None s;
  sr_free : bc_free s;
  sr_locks : k_locks s = [];
  sr_cur : k_cur s = Some p
}.

Lemma bc_inv_ext held s s' :
  k_bufs s' = k_bufs s → k_disk s' = k_disk s → bc_inv held s → bc_inv held s'.
Proof.
  intros Hb Hd [[l [Hr Hp]] Hc].
  assert (∀ b, buf_at s' b = buf_at s b) as Hat by (intros; by rewrite /buf_at Hb).
  split.
  - exists l. split; [|done]. eapply ring_ext; [..|exact Hr]; intros x _; by rewrite /bnx /bpv Hat.
  - apply (bc_core_ext held s); [intros b; by rewrite Hat|done|done].
Qed.
Lemma bc_held_ext s s' b n :
  k_bufs s' = k_bufs s → k_cur s' = k_cur s → k_procs s' = k_procs s →
  bc_held b n s → bc_held b n s'.
Proof.
  intros Hb Hc Hp [G1 G2 G3 G4 G5 G6]. assert (buf_at s' b = buf_at s b) as E by by rewrite /buf_at Hb.
  split; rewrite ?E; try assumption. intros p. rewrite Hc /proc_at Hp. apply G6.
Qed.
Lemma set_mem_commute P B B' m u :
  set_procs P (set_bufs B (set_mem m (set_bufs B' u))) = set_mem m (set_procs P (set_bufs B u)).
Proof. reflexivity. Qed.
Lemma bc_free_ext s s' : k_bufs s' = k_bufs s → bc_free s → bc_free s'.
Proof. intros Hb [b [H1 H2]]. exists b. by rewrite /buf_at Hb. Qed.

Lemma swap_ready_ext p s s' :
  k_bufs s' = k_bufs s → k_disk s' = k_disk s → k_locks s' = k_locks s → k_cur s' = k_cur s →
  swap_ready p s → swap_ready p s'.
Proof.
  intros Hb Hd Hl Hc [H1 H2 H3 H4]. split; [by apply (bc_inv_ext None s)|by apply (bc_free_ext s)|..];
    congruence.
Qed.

(** ** Writing and reading one block *)

Lemma bc_held_take p s0 n d x b (s1 := upd_buf b (λ _, x) s0) :
  k_cur s0 = Some p → (b < NBUF)%nat → taken s0 p n d x b → bc_held b n s1.
Proof.
  intros Hc Hb (T1 & T2 & T3 & T4 & T5 & T6 & T7 & T8).
  assert (buf_at s1 b = x) as Hx by by rewrite /s1 buf_at_upd decide_True.
  split; rewrite ?Hx //. intros p' Hp'. change (k_cur s0 = Some p') in Hp'. 
  rewrite Hc in Hp'. by injection Hp' as <-.
Qed.

(** bwrite() of the held buffer after its data changed. *)
Lemma bc_write s b n d :
  bc_inv (Some b) s → bc_held b n s → length d = 1024%nat →
  bc_inv (Some b) (set_disk (<[n := d]> (k_disk s)) (upd_buf b (set_b_data d) s)).
Proof.
  intros [[l Hl] [H1 H2 H3 H4 H5 H6 H7]] [G1 G2 G3 G4 G5 G6] Hd. split.
  { exists l. by apply (bc_ring_upd s l b (set_b_data d)). }
  set (s' := set_disk _ _).
  assert (∀ b', Some b ≠ Some b' → buf_at s' b' = buf_at s b') as Hne.
  { intros b' ?. transitivity (buf_at (upd_buf b (set_b_data d) s) b'); [done|].
    rewrite buf_at_upd decide_False //. congruence. }
  assert (buf_at s' b = set_b_data d (buf_at s b)) as Heq.
  { transitivity (buf_at (upd_buf b (set_b_data d) s) b); [done|]. by rewrite buf_at_upd decide_True. }
  assert (∀ k, block_at s' k = if decide (k = n) then d else block_at s k) as Hblk.
  { intros k. rewrite /block_at /s'. ksimpl. case_decide; subst.
    - by rewrite lookup_insert_eq.
    - rewrite lookup_insert_ne; [congruence|done]. }
  split.
  - intros b' Hb'. destruct (decide (b' = b)) as [->|]; [by rewrite Heq|].
    rewrite Hne; [congruence|auto].
  - intros k. rewrite Hblk. by case_decide.
  - assert (∀ b', b_valid (buf_at s' b') = b_valid (buf_at s b') ∧
      b_dev (buf_at s' b') = b_dev (buf_at s b') ∧ b_blockno (buf_at s' b') = b_blockno (buf_at s b')) as Hk.
    { intros b'. destruct (decide (b' = b)) as [->|]; [by rewrite Heq|by rewrite Hne; [congruence|]]. }
    intros b1 b2 Hb1 Hb2. destruct (Hk b1) as (-> & K2 & K3), (Hk b2) as (-> & L2 & L3).
    rewrite /same_key K2 K3 L2 L3. by apply H3.
  - intros b' Hb' Hx. rewrite Hne //. by apply H4.
  - intros b' Hb' Hx. rewrite Hne //. by apply H5.
  - intros b' Hb' Hx. rewrite Hne // Hblk. intros Hv Hdev. rewrite decide_False; [|by apply H6].
    intros Hn. apply Hx. f_equal. apply H3; try done. split; congruence.
  - intros b' Hb' Hx. rewrite Hne //. by apply H7.
Qed.

Lemma bc_held_data s b n d k :
  bc_held b n s → bc_held b n (set_disk k (upd_buf b (set_b_data d) s)).
Proof.
  intros [G1 G2 G3 G4 G5 G6].
  assert (buf_at (set_disk k (upd_buf b (set_b_data d) s)) b = set_b_data d (buf_at s b)) as Heq.
  { transitivity (buf_at (upd_buf b (set_b_data d) s) b); [done|]. by rewrite buf_at_upd decide_True. }
  split; rewrite ?Heq //.
Qed.

Lemma bwrite_eq s p b n :
  k_locks s = [] → k_cur s = Some p → bc_held b n s →
  bwrite b s = Ok tt (set_disk (<[n := b_data (buf_at s b)]> (k_disk s)) s).
Proof.
  intros Hl Hc [G1 G2 G3 G4 G5 G6].
  rewrite /bwrite /bind (holdingsleep_buf b p s) // (G6 p Hc) /= Z.eqb_refl /=.
  rewrite /virtio_disk_rw /bind /get /= bool_decide_eq_true_2 //=.
  rewrite /myproc /bind /gets /= Hc /=. by rewrite /modify G4.
Qed.

(** Blocks of the swap area are never block 0. *)
Lemma slot_block_pos blkno i : 0 ≤ blkno → 0 ≤ i → slot_block blkno i ≠ 0.
Proof. rewrite /slot_block /BLKS_PER_PG /SWAPBASE. change (PGSIZE / BSIZE) with 4. lia. Qed.

Lemma swapwrite1_spec s p ptr blkno i :
  swap_ready p s → 0 ≤ blkno → 0 ≤ i →
  wp (swapwrite1 ptr blkno false i) (λ _ s', io_only s s' ∧ procs_woken s s' ∧ swap_ready p s' ∧
    k_disk s' = <[slot_block blkno i := rd_bytes (k_mem s) (ptr + i * BSIZE) 1024]> (k_disk s)) s.
Proof.
  intros Hs Hb Hi. set (n := slot_block blkno i). set (d := rd_bytes _ _ _).
  apply wp_bind, wp_modify. set (s0 := set_nr_write _ s).
  assert (swap_ready p s0) as [R1 R2 R3 R4] by (by apply (swap_ready_ext p s)).
  apply wp_bind. wp_use (bread_spec s0 p n); [done..|by apply slot_block_pos|].
  intros b s1 (x & -> & Hlt & Ht & Hinv). pose proof (bc_held_take p s0 n _ x b R4 Hlt Ht) as Hh.
  set (s1 := upd_buf b (λ _, x) s0) in *.
  apply wp_bind. eapply wp_eq.
  { rewrite /either_copyin /bind /myproc /bind /gets. change (k_cur s1) with (k_cur s0). rewrite R4.
    reflexivity. }
  cbn [fst snd]. change (rd_bytes _ _ _) with d.
  assert (length d = 1024%nat) as Hd by apply length_rd_bytes.
  apply wp_bind, wp_modify.
  assert (upd_buf b (λ x0, set_b_data (d ++ drop (length d) (b_data x0)) x0) s1
    = upd_buf b (set_b_data d) s1) as ->.
  { rewrite /upd_buf. do 3 f_equal. rewrite drop_ge; [|by rewrite app_nil_r].
    rewrite Hd (bc_len _ _ (proj2 Hinv)) //. }
  rewrite /=. apply wp_bind. pose proof (bc_write s1 b n d Hinv Hh Hd) as Hinv3.
  pose proof (bc_held_data s1 b n d (<[n := d]> (k_disk s1)) Hh) as Hh3.
  assert (bc_held b n (upd_buf b (set_b_data d) s1)) as Hh2 by exact (bc_held_data s1 b n d (k_disk s1) Hh).
  assert (b_data (buf_at (upd_buf b (set_b_data d) s1) b) = d) as Hdat by by rewrite buf_at_upd decide_True.
  eapply wp_eq; [exact (bwrite_eq (upd_buf b (set_b_data d) s1) p b n R3 R4 Hh2)|]. rewrite Hdat.
  wp_use (brelse_spec _ p b n); [exact Hinv3|exact Hh3|exact R3|exact R4| |].
  { transitivity d; [exact Hdat|]. rewrite /block_at. ksimpl. by rewrite lookup_insert_eq. }
  intros [] s' (bufs & -> & Hi' & Hf'). split; [io_frame|]. split; [eapply procs_woken_wake; rewrite ?/upd_buf; kproj; reflexivity|].
  split; [split; [exact Hi'|exact Hf'|exact R3|exact R4]|rewrite ?/upd_buf; kproj; reflexivity].
Qed.

Lemma swapread1_spec s p ptr blkno i :
  swap_ready p s → 0 ≤ blkno → 0 ≤ i →
  wp (swapread1 ptr blkno false i) (λ _ s', io_mem s s' ∧ procs_woken s s' ∧
    k_disk s' = k_disk s ∧ swap_ready p s' ∧
    k_mem s' = wr_bytes (k_mem s) (ptr + i * BSIZE) (block_at s (slot_block blkno i))) s.
Proof.
  intros Hs Hb Hi. set (n := slot_block blkno i).
  apply wp_bind, wp_modify. set (s0 := set_nr_read _ s).
  assert (swap_ready p s0) as [R1 R2 R3 R4] by (by apply (swap_ready_ext p s)).
  apply wp_bind. wp_use (bread_spec s0 p n); [done..|by apply slot_block_pos|].
  intros b s1 (x & -> & Hlt & Ht & Hinv). pose proof (bc_held_take p s0 n _ x b R4 Hlt Ht) as Hh.
  assert (b_data (buf_at (upd_buf b (λ _, x) s0) b) = block_at s n) as Hdat.
  { rewrite buf_at_upd decide_True //. by destruct Ht as (_ & _ & _ & _ & _ & _ & _ & ->). }
  set (s1 := upd_buf b (λ _, x) s0) in *.
  apply wp_bind, wp_gets, wp_bind. rewrite Hdat. eapply wp_eq.
  { rewrite /either_copyout /bind /myproc /bind /gets. change (k_cur s1) with (k_cur s0). rewrite R4.
    reflexivity. }
  rewrite /=. set (m := wr_bytes _ _ _). 
  wp_use (brelse_spec (set_mem m s1) p b n);
    [by apply (bc_inv_ext _ s1)|by apply (bc_held_ext s1)|exact R3|exact R4|exact Hdat|].
  intros [] s' (bufs & -> & Hi' & Hf'). unfold s1, upd_buf in *. kproj. kproj in Hi'. kproj in Hf'.
  rewrite set_mem_commute in Hi'. rewrite set_mem_commute in Hf'. rewrite set_mem_commute.
  repeat apply conj.
  - apply io_mem_intro. io_frame.
  - eapply procs_woken_wake. unfold s0. kproj. reflexivity.
  - unfold s0. kproj. reflexivity.
  - split; [exact Hi'|exact Hf'|kproj; exact R3|kproj; exact R4].
  - kproj. reflexivity.
Qed.

(** ** Whole slots *)

(** The 4096 bytes the disk holds in a slot. *)
Definition slot_bytes (s : kstate) (blkno : Z) : list Z :=
  block_at s (slot_block blkno 0) ++ block_at s (slot_block blkno 1) ++
  block_at s (slot_block blkno 2) ++ block_at s (slot_block blkno 3).
Definition in_slot (blkno n : Z) : Prop := slot_block blkno 0 ≤ n ≤ slot_block blkno 3.

Lemma slot_block_eq blkno i : slot_block blkno i = SWAPBASE + 4 * blkno + i.
Proof. done. Qed.

(** What four block writes do to the disk. *)
Lemma disk_writes s s1 s2 s3 s4 blkno d0 d1 d2 d3 :
  k_disk s1 = <[slot_block blkno 0 := d0]> (k_disk s) →
  k_disk s2 = <[slot_block blkno 1 := d1]> (k_disk s1) →
  k_disk s3 = <[slot_block blkno 2 := d2]> (k_disk s2) →
  k_disk s4 = <[slot_block blkno 3 := d3]> (k_disk s3) →
  slot_bytes s4 blkno = d0 ++ d1 ++ d2 ++ d3 ∧
  ∀ n, ¬ in_slot blkno n → block_at s4 n = block_at s n.
Proof.
  intros E1 E2 E3 E4. rewrite /slot_bytes /in_slot /block_at E4 E3 E2 E1 !slot_block_eq. split.
  - do 3 (rewrite lookup_insert_ne; [lia|]). rewrite lookup_insert_eq.
    do 2 (rewrite lookup_insert_ne; [lia|]). rewrite lookup_insert_eq.
    rewrite lookup_insert_ne; [lia|]. rewrite !lookup_insert_eq. reflexivity.
  - intros n Hn. do 4 (rewrite lookup_insert_ne; [lia|]). reflexivity.
Qed.

Lemma slot_bytes_other s s' blkno j :
  (∀ n, ¬ in_slot blkno n → block_at s' n = block_at s n) → j ≠ blkno →
  slot_bytes s' j = slot_bytes s j.
Proof.
  intros H Hj. rewrite /slot_bytes. rewrite !H //; rewrite /in_slot !slot_block_eq; lia.
Qed.

Lemma slot_in_range blkno : 0 ≤ blkno < SWAPMAX / BLKS_PER_PG →
  (blkno <? 0) || (SWAPMAX / BLKS_PER_PG <=? blkno) = false.
Proof. intros. apply orb_false_iff. lia. Qed.

Lemma rd_bytes_quarters m a :
  rd_bytes m (a + 0 * BSIZE) 1024 ++ rd_bytes m (a + 1 * BSIZE) 1024 ++
  rd_bytes m (a + 2 * BSIZE) 1024 ++ rd_bytes m (a + 3 * BSIZE) 1024 = rd_bytes m a 4096.
Proof.
  change 4096%nat with (1024 + (1024 + (1024 + 1024)))%nat. rewrite !rd_bytes_app /BSIZE.
  assert (∀ x y, x = y → rd_bytes m x 1024 = rd_bytes m y 1024) as E by (intros; congruence).
  rewrite (E (a + 0 * 1024) a); [lia|]. rewrite (E (a + 1 * 1024) (a + Z.of_nat 1024)); [lia|].
  rewrite (E (a + 2 * 1024) (a + Z.of_nat 1024 + Z.of_nat 1024)); [lia|].
  do 3 f_equal. apply E. lia.
Qed.
Lemma wr_bytes_app m a l1 l2 :
  wr_bytes (wr_bytes m a l1) (a + Z.of_nat (length l1)) l2 = wr_bytes m a (l1 ++ l2).
Proof.
  revert m a. induction l1 as [|b l1 IH]; intros m a; simpl; [f_equal; lia|].
  rewrite -IH. f_equal. lia.
Qed.
Lemma wr_bytes_quarters m a d0 d1 d2 d3 :
  length d0 = 1024%nat → length d1 = 1024%nat → length d2 = 1024%nat →
  wr_bytes (wr_bytes (wr_bytes (wr_bytes m (a + 0 * BSIZE) d0) (a + 1 * BSIZE) d1)
    (a + 2 * BSIZE) d2) (a + 3 * BSIZE) d3 = wr_bytes m a (d0 ++ d1 ++ d2 ++ d3).
Proof.
  intros L0 L1 L2. rewrite -!wr_bytes_app L0 L1 L2 /BSIZE.
  assert (∀ m a a' l, a = a' → wr_bytes m a l = wr_bytes m a' l) as E by (intros; congruence).
  rewrite (E m (a + 0 * 1024) a); [lia|]. rewrite (E _ (a + 1 * 1024) (a + Z.of_nat 1024)); [lia|].
  rewrite (E _ (a + 2 * 1024) (a + Z.of_nat 1024 + Z.of_nat 1024)); [lia|]. apply E. lia.
Qed.

Lemma swapwrite_spec s p ptr blkno :
  swap_ready p s → 0 ≤ blkno < SWAPMAX / BLKS_PER_PG →
  wp (swapwrite ptr blkno false) (λ _ s', io_only s s' ∧ procs_woken s s' ∧ swap_ready p s' ∧
    slot_bytes s' blkno = rd_bytes (k_mem s) ptr 4096 ∧
    ∀ n, ¬ in_slot blkno n → block_at s' n = block_at s n) s.
Proof.
  intros Hs Hb. rewrite /swapwrite slot_in_range //.
  change (forM (seqZ 0 BLKS_PER_PG)) with (@forM kstate Z [0; 1; 2; 3]). rewrite /forM.
  apply wp_bind. wp_use (swapwrite1_spec s p ptr blkno 0); [exact Hs|lia..|].
  intros _ s1 (I1 & W1 & R1 & D1). apply wp_bind.
  wp_use (swapwrite1_spec s1 p ptr blkno 1); [exact R1|lia..|].
  intros _ s2 (I2 & W2 & R2 & D2). apply wp_bind.
  wp_use (swapwrite1_spec s2 p ptr blkno 2); [exact R2|lia..|].
  intros _ s3 (I3 & W3 & R3 & D3). apply wp_bind.
  wp_use (swapwrite1_spec s3 p ptr blkno 3); [exact R3|lia..|].
  intros _ s4 (I4 & W4 & R4 & D4). apply wp_ret.
  rewrite (proj1 (io_only_keeps _ _ I1)) in D2.
  rewrite (proj1 (io_only_keeps _ _ I2)) (proj1 (io_only_keeps _ _ I1)) in D3.
  rewrite (proj1 (io_only_keeps _ _ I3)) (proj1 (io_only_keeps _ _ I2)) (proj1 (io_only_keeps _ _ I1)) in D4.
  destruct (disk_writes _ _ _ _ _ _ _ _ _ _ D1 D2 D3 D4) as [DA DB].
  repeat apply conj; [| |exact R4| |exact DB].
  - eauto using io_only_trans.
  - eauto using procs_woken_trans.
  - rewrite DA. apply rd_bytes_quarters.
Qed.

Lemma swapread_spec s p ptr blkno :
  swap_ready p s → 0 ≤ blkno < SWAPMAX / BLKS_PER_PG →
  wp (swapread ptr blkno false) (λ _ s', io_mem s s' ∧ procs_woken s s' ∧
    k_disk s' = k_disk s ∧ swap_ready p s' ∧
    k_mem s' = wr_bytes (k_mem s) ptr (slot_bytes s blkno)) s.
Proof.
  intros Hs Hb. rewrite /swapread slot_in_range //.
  change (forM (seqZ 0 BLKS_PER_PG)) with (@forM kstate Z [0; 1; 2; 3]). rewrite /forM.
  apply wp_bind. wp_use (swapread1_spec s p ptr blkno 0); [exact Hs|lia..|].
  intros _ s1 (I1 & W1 & D1 & R1 & E1). apply wp_bind.
  wp_use (swapread1_spec s1 p ptr blkno 1); [exact R1|lia..|].
  intros _ s2 (I2 & W2 & D2 & R2 & E2). apply wp_bind.
  wp_use (swapread1_spec s2 p ptr blkno 2); [exact R2|lia..|].
  intros _ s3 (I3 & W3 & D3 & R3 & E3). apply wp_bind.
  wp_use (swapread1_spec s3 p ptr blkno 3); [exact R3|lia..|].
  intros _ s4 (I4 & W4 & D4 & R4 & E4). apply wp_ret.
  pose proof (bc_disk _ _ (proj2 (sr_bc _ _ Hs))) as Hlen.
  repeat apply conj; [eauto using io_mem_trans|eauto using procs_woken_trans|congruence|exact R4|].
  rewrite E4 E3 E2 E1 /slot_bytes. rewrite /block_at D3 D2 D1. apply wr_bytes_quarters; apply Hlen.
Qed.
