(* ===== verification/Kalloc.v ===== *)
(** The page allocator, the LRU list and page replacement: kernel/kalloc.c.

    The LRU list is a circular doubly linked list threaded through the array
    pages[]; an entry is named by its index, [pa / PGSIZE].  The free list is
    threaded through the free pages themselves, in [k_mem]. *)
From S2P Require Import Prelude Riscv Mem Ring State Sched Bio Walk Swap Printf Console.

(** The symbols the linker script kernel/kernel.ld defines. *)
Class Image := {
  img_etext : Z;
  img_end : Z;
  img_trampoline : Z;
  img_etext_aligned : img_etext mod PGSIZE = 0;
  img_trampoline_aligned : img_trampoline mod PGSIZE = 0;
  img_order : KERNBASE < img_etext ∧ img_etext ≤ img_end ∧ img_end < PHYSTOP;
  img_trampoline_in : KERNBASE ≤ img_trampoline < img_etext
}.

Section kalloc.
Context `{Image}.

(** *** LRU list *)

Definition lru_init : K unit :=
  modify (set_lru_head None);;
  modify (set_bitmap ∅).

Definition lru_add (pa : Z) : K unit :=
  let p := pa / PGSIZE in
  acquire lru_lock;;
  hd ← gets k_lru_head;
  match hd with
  | None =>
      modify (set_lru_head (Some p));;
      modify (upd_page p (set_pg_next (Some p)));;
      modify (upd_page p (set_pg_prev (Some p)))
  | Some h =>
      tl ← gets (λ s, pg_prev (page_at s h));
      modify (upd_page p (set_pg_next (Some h)));;
      modify (upd_page p (set_pg_prev tl));;
      t ← deref tl;
      modify (upd_page t (set_pg_next (Some p)));;
      modify (upd_page h (set_pg_prev (Some p)))
  end;;
  release lru_lock.

(** p->prev->next = p->next; p->next->prev = p->prev *)
Definition lru_disconnect (p : Z) : K unit :=
  pg ← gets (λ s, page_at s p);
  pv ← deref (pg_prev pg);
  modify (upd_page pv (set_pg_next (pg_next pg)));;
  nx ← gets (λ s, pg_next (page_at s p));
  nx ← deref nx;
  pv ← gets (λ s, pg_prev (page_at s p));
  modify (upd_page nx (set_pg_prev pv)).

(** p->next = 0; p->prev = 0 *)
Definition lru_hang_up (p : Z) : K unit :=
  modify (upd_page p (set_pg_next None));;
  modify (upd_page p (set_pg_prev None)).

(** Unlinking as lru_remove() and swap_out() do it; they differ in the head
    they leave, given the old head and p->next. *)
Definition lru_unlink (new_head : option Z → option Z → option Z) (p : Z) : K unit :=
  nx ← gets (λ s, pg_next (page_at s p));
  (if bool_decide (nx = Some p) then modify (set_lru_head None)
   else
     lru_disconnect p;;
     hd ← gets k_lru_head;
     nx ← gets (λ s, pg_next (page_at s p));
     modify (set_lru_head (new_head hd nx)));;
  lru_hang_up p.

Definition lru_remove (pa : Z) : K unit :=
  let p := pa / PGSIZE in
  acquire lru_lock;;
  nx ← gets (λ s, pg_next (page_at s p));
  if bool_decide (nx = None) then release lru_lock else
  lru_unlink (λ hd nx, if bool_decide (hd = Some p) then nx else hd) p;;
  release lru_lock.

(** *** Page replacement *)

(** The while(1) of swap_out(): the victim and the address of its entry.
    Running out of fuel is a loop that does not end. *)
Fixpoint clock (fuel : nat) (p : Z) : K (Z * Z) :=
  match fuel with
  | O => λ _, NoFuel
  | S f =>
      pg ← gets (λ s, page_at s p);
      pte ← walk0 (pg_pagetable pg) (pg_vaddr pg);
      v ← load64 pte;
      if (pte =? 0) || negb (tst v PTE_V) then
        nx ← deref (pg_next pg);
        clock f nx
      else if tst v PTE_A then
        store64 pte (Z.land v (Z.lnot PTE_A));;
        nx ← gets (λ s, pg_next (page_at s p));
        nx ← deref nx;
        clock f nx
      else ret (p, pte)
  end.
(** Two turns around the list: the first clears the accessed bits. *)
Definition clock_fuel (s : kstate) : nat := 2 * size (k_pages s) + 1.

(** The first free entry of swap_bitmap, or -1. *)
Fixpoint first_free (n : nat) (i : Z) (bm : gmap Z Z) : Z :=
  match n with
  | O => -1
  | S n' => if default 0 (bm !! i) =? 0 then i else first_free n' (i + 1) bm
  end.
Definition alloc_slot : K Z :=
  acquire swap_lock;;
  i ← gets (λ s, first_free (Z.to_nat (SWAPMAX / 4)) 0 (k_bitmap s));
  when (negb (i =? -1)) (modify (λ s, set_bitmap (<[i := 1]> (k_bitmap s)) s));;
  release swap_lock;;
  ret i.

(** The three assignments to the victim's entry. *)
Definition swap_pte (pte swap_idx : Z) : K unit :=
  v ← load64 pte;
  store64 pte (Z.lor (Z.land v 1023) (u64 (Z.shiftl swap_idx 10)));;
  v ← load64 pte;
  store64 pte (Z.land v (Z.lnot PTE_V));;
  v ← load64 pte;
  store64 pte (Z.lor v PTE_S).

(** swap_out() up to the release of lru_lock: the page taken from its owner
    and its slot, or [None] for the early returns of 0.  sfence_vma() has no
    counterpart: address translation reads the page table in memory. *)
Definition swap_out_victim : K (option (Z * Z)) :=
  acquire lru_lock;;
  hd ← gets k_lru_head;
  match hd with
  | None => release lru_lock;; ret None
  | Some h =>
      fuel ← gets clock_fuel;
      pp ← clock fuel h;
      let '(p, pte) := (pp : Z * Z) in
      swap_idx ← alloc_slot;
      if swap_idx =? -1 then release lru_lock;; ret None else
      lru_unlink (λ _ nx, nx) p;;
      let pa := p * PGSIZE in
      swap_pte pte swap_idx;;
      release lru_lock;;
      ret (Some (pa, swap_idx))
  end.

Definition swap_out : K Z :=
  v ← swap_out_victim;
  match v with
  | None => ret 0
  | Some (pa, swap_idx) => swapwrite pa swap_idx false;; ret pa
  end.

(** *** Pages *)

Definition kfree (pa : Z) : K unit :=
  if negb (pa mod PGSIZE =? 0) || (pa <? img_end) || (PHYSTOP <=? pa) then panic "kfree" else
  mod_mem (λ m, memset m pa 1 PGSIZE);;
  acquire kmem_lock;;
  fl ← gets k_freelist;
  store64 pa fl;;
  modify (set_freelist pa);;
  release kmem_lock.

Definition kalloc : K Z :=
  acquire kmem_lock;;
  r ← gets k_freelist;
  (if r =? 0 then ret tt
   else nx ← load64 r; modify (set_freelist nx));;
  release kmem_lock;;
  r ← (if r =? 0 then swap_out else ret r);
  if r =? 0 then cprintf (str "kalloc: out of memory" ++ [NL]) [];; ret 0 else
  mod_mem (λ m, memset m r 5 PGSIZE);;
  ret r.

Definition freerange (pa_start pa_end : Z) : K unit :=
  let p := PGROUNDUP pa_start in
  forM ((λ i, p + i * PGSIZE) <$> seqZ 0 ((pa_end - p) / PGSIZE)) kfree.

Definition kinit : K unit :=
  lru_init;;
  freerange img_end PHYSTOP.


(** ** The LRU list *)

Definition pnx (s : kstate) (i : Z) : option Z := pg_next (page_at s i).
Definition ppv (s : kstate) (i : Z) : option Z := pg_prev (page_at s i).

(** The list [l] is threaded through pages[] from lru_head; no other entry has
    a successor. *)
Record lru_ok (s : kstate) (l : list Z) : Prop := {
  lo_ring : ring (pnx s) (ppv s) l;
  lo_head : k_lru_head s = head l;
  lo_out : ∀ i, i ∉ l → pnx s i = None
}.

(** [s'] is [s] but for the links of the list and the locks held. *)
Definition lru_only (s s' : kstate) : Prop :=
  s' = set_pages (k_pages s') (set_lru_head (k_lru_head s') (set_locks (k_locks s') s)) ∧
  ∀ i, pg_pagetable (page_at s' i) = pg_pagetable (page_at s i) ∧
       pg_vaddr (page_at s' i) = pg_vaddr (page_at s i).

Lemma lru_only_refl s : lru_only s s.
Proof. by destruct s. Qed.
Lemma lru_only_trans s1 s2 s3 : lru_only s1 s2 → lru_only s2 s3 → lru_only s1 s3.
Proof.
  intros [E1 H1] [E2 H2]. split.
  - rewrite E2. revert E1. generalize (k_pages s3) (k_lru_head s3) (k_locks s3). by intros ??? ->.
  - intros i. destruct (H1 i), (H2 i). split; congruence.
Qed.
Lemma lru_only_keeps s s' : lru_only s s' →
  k_mem s' = k_mem s ∧ k_freelist s' = k_freelist s ∧ k_bitmap s' = k_bitmap s ∧
  k_bufs s' = k_bufs s ∧ k_disk s' = k_disk s ∧ k_procs s' = k_procs s ∧ k_cur s' = k_cur s.
Proof. by intros [-> _]. Qed.

Lemma lru_only_locks s l : lru_only s (set_locks l s).
Proof. by destruct s. Qed.
Lemma lru_only_head s h : lru_only s (set_lru_head h s).
Proof. by destruct s. Qed.
Lemma lru_only_page s i f :
  (∀ x, pg_pagetable (f x) = pg_pagetable x ∧ pg_vaddr (f x) = pg_vaddr x) →
  lru_only s (upd_page i f s).
Proof.
  intros Hf. split; [by destruct s|]. intros j. rewrite page_at_upd.
  case_decide; subst; [apply Hf|done].
Qed.
Lemma lru_only_next s i v : lru_only s (upd_page i (set_pg_next v) s).
Proof. by apply lru_only_page. Qed.
Lemma lru_only_prev s i v : lru_only s (upd_page i (set_pg_prev v) s).
Proof. by apply lru_only_page. Qed.

Lemma pnx_next s i v j : pnx (upd_page i (set_pg_next v) s) j = if decide (j = i) then v else pnx s j.
Proof. rewrite /pnx page_at_upd. by case_decide. Qed.
Lemma pnx_prev s i v j : pnx (upd_page i (set_pg_prev v) s) j = pnx s j.
Proof. rewrite /pnx page_at_upd. case_decide; by subst. Qed.
Lemma ppv_next s i v j : ppv (upd_page i (set_pg_next v) s) j = ppv s j.
Proof. rewrite /ppv page_at_upd. case_decide; by subst. Qed.
Lemma ppv_prev s i v j : ppv (upd_page i (set_pg_prev v) s) j = if decide (j = i) then v else ppv s j.
Proof. rewrite /ppv page_at_upd. by case_decide. Qed.
Lemma pnx_locks l s j : pnx (set_locks l s) j = pnx s j.
Proof. reflexivity. Qed.
Lemma ppv_locks l s j : ppv (set_locks l s) j = ppv s j.
Proof. reflexivity. Qed.
Lemma pnx_head h s j : pnx (set_lru_head h s) j = pnx s j.
Proof. reflexivity. Qed.
Lemma ppv_head h s j : ppv (set_lru_head h s) j = ppv s j.
Proof. reflexivity. Qed.
Hint Rewrite pnx_next pnx_prev ppv_next ppv_prev pnx_locks ppv_locks pnx_head ppv_head : lru.
Ltac lru_links := autorewrite with lru; repeat case_decide; subst; try congruence; try tauto.
Ltac lru_frame :=
  lazymatch goal with
  | |- lru_only ?s ?s => apply lru_only_refl
  | |- lru_only ?s (set_locks ?v ?u) => apply (lru_only_trans s u); [lru_frame|apply lru_only_locks]
  | |- lru_only ?s (set_lru_head ?v ?u) => apply (lru_only_trans s u); [lru_frame|apply lru_only_head]
  | |- lru_only ?s (upd_page _ (set_pg_next _) ?u) =>
      apply (lru_only_trans s u); [lru_frame|apply lru_only_next]
  | |- lru_only ?s (upd_page _ (set_pg_prev _) ?u) =>
      apply (lru_only_trans s u); [lru_frame|apply lru_only_prev]
  | |- lru_only _ ?x => is_var x; unfold x; lru_frame
  | |- _ => idtac
  end.

(** The links and the list head, whatever else changes. *)
Lemma lru_ok_ext s s' l :
  k_pages s' = k_pages s → k_lru_head s' = k_lru_head s → lru_ok s l → lru_ok s' l.
Proof.
  intros Hp Hh [H1 H2 H3].
  assert (∀ i, page_at s' i = page_at s i) as E by (intros; by rewrite /page_at Hp).
  split; [|by rewrite Hh|intros i Hi; rewrite /pnx E; by apply H3].
  eapply ring_ext; [..|exact H1]; intros x _; by rewrite /pnx /ppv E.
Qed.

Lemma lru_add_spec s pa l (p := pa / PGSIZE) :
  lru_ok s l → lru_lock ∉ k_locks s → p ∉ l →
  wp (lru_add pa) (λ _ s', lru_only s s' ∧ k_locks s' = k_locks s ∧ lru_ok s' (l ++ [p])) s.
Proof.
  intros [Hr Hh Ho] Hlk Hp. rewrite /lru_add -/p.
  apply wp_bind, wp_acquire; [done|]. set (s0 := set_locks _ s).
  apply wp_bind, wp_gets. change (k_lru_head s0) with (k_lru_head s). rewrite Hh.
  destruct l as [|h l]; cbn [head].
  - wp_steps. eapply (wp_release lru_lock (k_locks s)); [done..|].
    split; [lru_frame|split; [done|split; [|done|]]].
    + apply ring_singleton; lru_links.
    + intros i Hi%not_elem_of_app. rewrite list_elem_of_singleton in Hi. lru_links.
      apply Ho. apply not_elem_of_nil.
  - destruct (ring_links _ _ _ h Hr) as (n & t & Hn & Ht & Hnl & Htl); [left|].
    apply wp_bind, wp_bind, wp_gets. change (pg_prev (page_at s0 h)) with (ppv s h). rewrite Ht.
    wp_steps. eapply (wp_release lru_lock (k_locks s)); [done..|].
    assert (h ≠ p ∧ t ≠ p) as [Hhp Htp] by (split; intros ->; apply Hp; [left|done]).
    split; [lru_frame|split; [done|split; [|done|]]].
    + apply (ring_insert (pnx s) (ppv s) _ _ h l p t); try done; intros; lru_links.
    + intros i Hi%not_elem_of_app. rewrite list_elem_of_singleton in Hi. lru_links.
      apply Ho, Hi.
Qed.

(** p->prev->next = p->next, p->next->prev = p->prev and the hanging up. *)
Lemma lru_unlink_spec s l1 p l2 :
  ring (pnx s) (ppv s) (l1 ++ p :: l2) → (∀ i, i ∉ l1 ++ p :: l2 → pnx s i = None) →
  pnx s p ≠ Some p →
  wp (lru_disconnect p) (λ _ s', lru_only s s' ∧ k_locks s' = k_locks s ∧ k_lru_head s' = k_lru_head s ∧
    pnx s' p = head (l2 ++ l1) ∧ ring (pnx s') (ppv s') (l2 ++ l1) ∧
    ∀ i, i ∉ l1 ++ p :: l2 → pnx s' i = None) s.
Proof.
  intros Hr Ho Hself. assert (NoDup (l1 ++ p :: l2)) as Hnd by exact (ring_NoDup _ _ _ Hr).
  assert (ring (pnx s) (ppv s) (p :: l2 ++ l1)) as Hr2 by (rewrite app_comm_cons; by apply ring_rotate).
  destruct (l2 ++ l1) as [|n l] eqn:El.
  { apply ring_next in Hr2. done. }
  destruct (ring_links _ _ _ p Hr2) as (n' & t & Hn' & Ht & Hnl & Htl); [left|].
  pose proof (ring_next _ _ _ _ Hr2) as Hn. cbn in Hn. rewrite Hn' in Hn. injection Hn as ->.
  assert (n ≠ p) as Hnp by congruence.
  assert (t ≠ p) as Htp.
  { intros ->. apply ring_reverse, ring_single in Hr2; [|done].
    apply (f_equal length) in Hr2. rewrite length_reverse in Hr2. done. }
  rewrite /lru_disconnect. apply wp_bind, wp_gets, wp_bind. fold (ppv s p) (pnx s p). rewrite Ht Hn'.
  wp_steps. match goal with |- context [pg_next (page_at ?u p)] => change (pg_next (page_at u p)) with (pnx u p) end.
  assert (pnx (upd_page t (set_pg_next (Some n)) s) p = Some n) as -> by lru_links.
  wp_steps. match goal with |- context [pg_prev (page_at ?u p)] => change (pg_prev (page_at u p)) with (ppv u p) end.
  assert (ppv (upd_page t (set_pg_next (Some n)) s) p = Some t) as -> by lru_links.
  split; [lru_frame|]. split; [done|]. split; [done|]. split; [lru_links|]. split.
  - apply (ring_unlink (pnx s) (ppv s) _ _ p n l t); try done; intros; lru_links.
  - intros i Hi. lru_links; [|by apply Ho]. exfalso. apply Hi. rewrite -El in Htl. set_solver.
Qed.

Lemma lru_hang_up_spec s p l :
  ring (pnx s) (ppv s) l → (∀ i, i ∉ l → i ≠ p → pnx s i = None) → p ∉ l → k_lru_head s = head l →
  wp (lru_hang_up p) (λ _ s', lru_only s s' ∧ k_locks s' = k_locks s ∧ lru_ok s' l) s.
Proof.
  intros Hr Ho Hp Hh. rewrite /lru_hang_up. wp_steps. split; [lru_frame|]. split; [done|].
  split; [|done|intros i Hi; lru_links; by apply Ho].
  apply (ring_ext (pnx s) (ppv s)); [..|done]; intros x Hx; lru_links.
Qed.

Lemma lru_unlink_ok s l1 p l2 nh l' :
  lru_ok s (l1 ++ p :: l2) → l' ≡ₚ l1 ++ l2 →
  (∃ k1 k2, l2 ++ l1 = k1 ++ k2 ∧ l' = k2 ++ k1) →
  (l1 ++ l2 ≠ [] → nh (head (l1 ++ p :: l2)) (head (l2 ++ l1)) = head l') →
  wp (lru_unlink nh p) (λ _ s', lru_only s s' ∧ k_locks s' = k_locks s ∧ lru_ok s' l') s.
Proof.
  intros [Hr Hh Ho] Hperm (k1 & k2 & Hk & Hl') Hnh. rewrite /lru_unlink.
  assert (NoDup (l1 ++ p :: l2)) as Hnd by exact (ring_NoDup _ _ _ Hr).
  assert (p ∉ l1 ++ l2) as Hp by (rewrite -Permutation_middle in Hnd; by apply NoDup_cons in Hnd as [? _]).
  assert (∀ i, i ∉ l' → i ≠ p → i ∉ l1 ++ p :: l2) as Hout by (intros i; rewrite Hperm; set_solver).
  assert (p ∉ l') as Hpl by by rewrite Hperm.
  apply wp_bind, wp_gets, wp_bind. fold (pnx s p).
  case_bool_decide as Hself.
  - assert (l1 ++ l2 = []) as Hnil.
    { apply ring_rotate, ring_single in Hr; [|done]. by apply app_eq_nil in Hr as [-> ->]. }
    rewrite Hnil in Hperm. apply Permutation_nil_r in Hperm as ->.
    apply wp_modify. wp_use (lru_hang_up_spec _ p []); [apply ring_nil| |done|done|].
    + intros i Hi Hne. rewrite pnx_head. by apply Ho, Hout.
    + intros _ s' (F & L & O). split; [|done]. eapply lru_only_trans; [apply lru_only_head|exact F].
  - apply wp_bind. wp_use (lru_unlink_spec s l1 p l2); [done..|].
    intros _ s1 (F1 & L1 & H1 & N1 & R1 & O1). wp_steps. fold (pnx s1 p). rewrite H1 Hh N1.
    assert (l1 ++ l2 ≠ []) as Hnn.
    { intros E. apply app_eq_nil in E as [-> ->]. apply ring_next in Hr. done. }
    wp_use (lru_hang_up_spec _ p l').
    + rewrite Hl'. apply ring_rotate. by rewrite -Hk.
    + intros i Hi Hne. by apply O1, Hout.
    + done.
    + by apply Hnh.
    + intros _ s' (F & L & O). split; [|split; [by rewrite L|done]].
      eapply lru_only_trans; [exact F1|]. eapply lru_only_trans; [apply lru_only_head|exact F].
Qed.

Lemma lru_remove_in s pa l1 l2 (p := pa / PGSIZE) :
  lru_ok s (l1 ++ p :: l2) → lru_lock ∉ k_locks s →
  wp (lru_remove pa) (λ _ s', lru_only s s' ∧ k_locks s' = k_locks s ∧ lru_ok s' (l1 ++ l2)) s.
Proof.
  intros Hok Hlk. rewrite /lru_remove -/p. apply wp_bind, wp_acquire; [done|]. set (s0 := set_locks _ s).
  assert (lru_ok s0 (l1 ++ p :: l2)) as Hok0 by (by apply (lru_ok_ext s)).
  apply wp_bind, wp_gets. fold (pnx s0 p). rewrite bool_decide_eq_false_2.
  { destruct (ring_links _ _ _ p (lo_ring _ _ Hok0)) as (? & ? & -> & _); [set_solver|done]. }
  apply wp_bind. wp_use (lru_unlink_ok s0 l1 p l2 _ (l1 ++ l2)).
  - exact Hok0.
  - done.
  - by exists l2, l1.
  - intros Hnn. destruct l1 as [|h l1]; cbn.
    + rewrite bool_decide_eq_true_2 // app_nil_r //.
    + rewrite bool_decide_eq_false_2 //. intros [= ->].
      pose proof (ring_NoDup _ _ _ (lo_ring _ _ Hok)) as Hnd. apply NoDup_cons in Hnd as [Hn _]. set_solver.
  - intros _ s1 (F1 & L1 & O1). eapply (wp_release lru_lock (k_locks s)); [done..|].
    split; [|split; [done|by apply (lru_ok_ext s1)]].
    apply (lru_only_trans s s1); [|apply lru_only_locks].
    apply (lru_only_trans s s0); [apply lru_only_locks|done].
Qed.
Lemma lru_remove_out s pa l :
  lru_ok s l → lru_lock ∉ k_locks s → pa / PGSIZE ∉ l → lru_remove pa s = Ok tt s.
Proof.
  intros [Hr Hh Ho] Hlk Hp. rewrite /lru_remove {1}/bind acquire_eq // /bind /gets.
  change (pg_next _) with (pnx s (pa / PGSIZE)). rewrite Ho // bool_decide_eq_true_2 //.
  rewrite (release_eq _ (k_locks s)) //. by destruct s.
Qed.
End kalloc.
