(* ===== verification/Vm.v ===== *)
(** Page tables and user memory: kernel/vm.c, except the walks and copies of
    Walk.v, and proc_mapstacks() of kernel/proc.c. *)
From S2P Require Import Prelude Riscv Mem Ring State Sched Bio Walk Swap Printf Console Kalloc.

(** for(a = from; a < to; a += PGSIZE) *)
Definition page_range (from to : Z) : list Z :=
  (λ i, from + i * PGSIZE) <$> seqZ 0 ((to - from + PGSIZE - 1) / PGSIZE).

Section vm.
Context `{Image}.

Definition walk (pagetable va : Z) (alloc : bool) : K Z := walk_gen kalloc pagetable va alloc.

(** pages[pa/PGSIZE].pagetable = pagetable; pages[pa/PGSIZE].vaddr = va;
    lru_add(pa) *)
Definition register (pagetable va pa : Z) : K unit :=
  modify (upd_page (pa / PGSIZE) (set_pg_pagetable pagetable));;
  modify (upd_page (pa / PGSIZE) (set_pg_vaddr va));;
  lru_add pa.

(** The for(;;) of mappages(); [n] pages follow this one.  The result is the
    last pa, or [None] when walk() fails. *)
Fixpoint mappages_loop (n : nat) (pagetable a pa perm : Z) : K (option Z) :=
  pte ← walk pagetable a true;
  if pte =? 0 then ret None else
  v ← load64 pte;
  if tst v PTE_V then panic "mappages: remap" else
  store64 pte (Z.lor (Z.lor (PA2PTE pa) perm) PTE_V);;
  match n with
  | O => ret (Some pa)
  | S n' => mappages_loop n' pagetable (u64 (a + PGSIZE)) (u64 (pa + PGSIZE)) perm
  end.

Definition mappages (pagetable va size pa perm : Z) : K Z :=
  if negb (va mod PGSIZE =? 0) then panic "mappages: va not aligned" else
  if negb (size mod PGSIZE =? 0) then panic "mappages: size not aligned" else
  if size =? 0 then panic "mappages: size" else
  r ← mappages_loop (Z.to_nat (size / PGSIZE - 1)) pagetable va pa perm;
  match r with
  | None => ret (-1)
  | Some pa =>
      when (tst perm PTE_U) (register pagetable va pa);;
      ret 0
  end.

Definition kvmmap (kpgtbl va pa sz perm : Z) : K unit :=
  r ← mappages kpgtbl va sz pa perm;
  if negb (r =? 0) then panic "kvmmap" else ret tt.

Definition proc_mapstacks (kpgtbl : Z) : K unit :=
  forM (seq 0 NPROC) (λ p,
    pa ← kalloc;
    if pa =? 0 then panic "kalloc" else
    kvmmap kpgtbl (KSTACK (Z.of_nat p)) pa PGSIZE (Z.lor PTE_R PTE_W)).

Definition kvmmake : K Z :=
  kpgtbl ← kalloc;
  mod_mem (λ m, memset m kpgtbl 0 PGSIZE);;
  kvmmap kpgtbl UART0 UART0 PGSIZE (Z.lor PTE_R PTE_W);;
  kvmmap kpgtbl VIRTIO0 VIRTIO0 PGSIZE (Z.lor PTE_R PTE_W);;
  kvmmap kpgtbl PLIC PLIC 67108864 (Z.lor PTE_R PTE_W);;
  kvmmap kpgtbl KERNBASE KERNBASE (img_etext - KERNBASE) (Z.lor PTE_R PTE_X);;
  kvmmap kpgtbl img_etext img_etext (PHYSTOP - img_etext) (Z.lor PTE_R PTE_W);;
  kvmmap kpgtbl TRAMPOLINE img_trampoline PGSIZE (Z.lor PTE_R PTE_X);;
  proc_mapstacks kpgtbl;;
  ret kpgtbl.

(** The result is what goes into kernel_pagetable, which only kvminithart()
    reads; its own result is what goes into satp. *)
Definition kvminit : K Z := kvmmake.
Definition kvminithart (kernel_pagetable : Z) : Z := MAKE_SATP kernel_pagetable.

(** swap_bitmap[swap_idx] = 0 under swap_lock *)
Definition free_slot (swap_idx : Z) : K unit :=
  acquire swap_lock;;
  modify (λ s, set_bitmap (<[swap_idx := 0]> (k_bitmap s)) s);;
  release swap_lock.

(** The body of the loop of uvmunmap(). *)
Definition uvmunmap1 (pagetable : Z) (do_free : bool) (a : Z) : K unit :=
  pte ← walk pagetable a false;
  if pte =? 0 then panic "uvmunmap: walk" else
  v ← load64 pte;
  if negb (tst v PTE_V) then
    if tst v PTE_S then
      when do_free (free_slot (u32 (Z.shiftr v 10)));;
      store64 pte 0
    else ret tt
  else
  if PTE_FLAGS v =? PTE_V then panic "uvmunmap: not a leaf" else
  when do_free (lru_remove (PTE2PA v);; kfree (PTE2PA v));;
  store64 pte 0.

Definition uvmunmap (pagetable va npages : Z) (do_free : bool) : K unit :=
  if negb (va mod PGSIZE =? 0) then panic "uvmunmap: not aligned" else
  forM (page_range va (u64 (va + npages * PGSIZE))) (uvmunmap1 pagetable do_free).

Definition uvmcreate : K Z :=
  pagetable ← kalloc;
  if pagetable =? 0 then ret 0 else
  mod_mem (λ m, memset m pagetable 0 PGSIZE);;
  ret pagetable.

Definition uvmfirst (pagetable : Z) (src : list Z) : K unit :=
  if PGSIZE <=? Z.of_nat (length src) then panic "uvmfirst: more than a page" else
  mem ← kalloc;
  mod_mem (λ m, memset m mem 0 PGSIZE);;
  mappages pagetable 0 PGSIZE mem (Z.lor (Z.lor (Z.lor PTE_W PTE_R) PTE_X) PTE_U);;
  mod_mem (λ m, wr_bytes m mem src).

Definition uvmdealloc (pagetable oldsz newsz : Z) : K Z :=
  if oldsz <=? newsz then ret oldsz else
  when (PGROUNDUP newsz <? PGROUNDUP oldsz) (
    let npages := s32 ((PGROUNDUP oldsz - PGROUNDUP newsz) / PGSIZE) in
    uvmunmap pagetable (PGROUNDUP newsz) npages true);;
  ret newsz.

(** The loop of uvmalloc(); the result says whether it finished. *)
Fixpoint uvmalloc_loop (addrs : list Z) (pagetable oldsz xperm : Z) : K bool :=
  match addrs with
  | [] => ret true
  | a :: addrs' =>
      mem ← kalloc;
      if mem =? 0 then uvmdealloc pagetable a oldsz;; ret false else
      mod_mem (λ m, memset m mem 0 PGSIZE);;
      r ← mappages pagetable a PGSIZE mem (Z.lor (Z.lor PTE_R PTE_U) xperm);
      if negb (r =? 0) then
        kfree mem;;
        uvmdealloc pagetable a oldsz;;
        ret false
      else uvmalloc_loop addrs' pagetable oldsz xperm
  end.
Definition uvmalloc (pagetable oldsz newsz xperm : Z) : K Z :=
  if newsz <? oldsz then ret oldsz else
  let oldsz := PGROUNDUP oldsz in
  ok ← uvmalloc_loop (page_range oldsz newsz) pagetable oldsz xperm;
  ret (if ok : bool then newsz else 0).

(** A page table has three levels; deeper recursion is running out of fuel. *)
Fixpoint freewalk_fuel (fuel : nat) (pagetable : Z) : K unit :=
  match fuel with
  | O => λ _, NoFuel
  | S f =>
      forM (seqZ 0 512) (λ i,
        pte ← load64 (pagetable + 8 * i);
        if tst pte PTE_V && (Z.land pte (Z.lor (Z.lor PTE_R PTE_W) PTE_X) =? 0) then
          freewalk_fuel f (PTE2PA pte);;
          store64 (pagetable + 8 * i) 0
        else if tst pte PTE_V then panic "freewalk: leaf"
        else ret tt);;
      kfree pagetable
  end.
Definition freewalk (pagetable : Z) : K unit := freewalk_fuel 3 pagetable.

Definition uvmfree (pagetable sz : Z) : K unit :=
  when (0 <? sz) (uvmunmap pagetable 0 (PGROUNDUP sz / PGSIZE) true);;
  freewalk pagetable.

(** Bringing a swapped-out page of entry [pte] back into page [pa]: steps 2 to
    4 of uvmcopy() and 5 to 8 of the page fault in usertrap(). [extra] are the
    flags set besides PTE_V. *)
Definition swap_in (pagetable va pte pa extra : Z) : K Z :=
  v ← load64 pte;
  let swap_idx := u32 (Z.shiftr v 10) in
  swapread pa swap_idx false;;
  free_slot swap_idx;;
  v ← load64 pte;
  let flags := Z.lor (Z.lor (Z.land (PTE_FLAGS v) (Z.lnot PTE_S)) PTE_V) extra in
  store64 pte (Z.lor (PA2PTE pa) flags);;
  register pagetable va pa;;
  ret flags.

(** Steps 4 to 8 of the page fault in usertrap(): a page is allocated, maybe by
    evicting another one, and the faulting page is brought back into it;
    [false] is the case of no memory. *)
Definition fault_in (pagetable va pte : Z) : K bool :=
  mem ← kalloc;
  if mem =? 0 then ret false else
  swap_in pagetable (PGROUNDDOWN va) pte mem 0;;
  ret true.

(** Copying the page at [pa] to a new page of the child; [false] is the jump
    to err. *)
Definition uvmcopy_child (new i pa flags : Z) : K bool :=
  mem ← kalloc;
  if mem =? 0 then ret false else
  mod_mem (λ m, memmove m mem pa PGSIZE);;
  r ← mappages new i PGSIZE mem flags;
  if negb (r =? 0) then kfree mem;; ret false
  else ret true.

(** One round of the loop of uvmcopy(). *)
Definition uvmcopy1 (old new i : Z) : K bool :=
  pte ← walk old i false;
  if pte =? 0 then panic "uvmcopy: pte should exist" else
  v ← load64 pte;
  if negb (tst v PTE_V) then
    if tst v PTE_S then
      parent_mem ← kalloc;
      if parent_mem =? 0 then ret false else
      flags ← swap_in old i pte parent_mem PTE_A;
      uvmcopy_child new i parent_mem flags
    else panic "uvmcopy: page not present"
  else
  uvmcopy_child new i (PTE2PA v) (PTE_FLAGS v).

Fixpoint uvmcopy_loop (pages : list Z) (old new : Z) : K Z :=
  match pages with
  | [] => ret 0
  | i :: pages' =>
      ok ← uvmcopy1 old new i;
      if ok : bool then uvmcopy_loop pages' old new
      else uvmunmap new 0 (i / PGSIZE) true;; ret (-1)
  end.
Definition uvmcopy (old new sz : Z) : K Z := uvmcopy_loop (page_range 0 sz) old new.

Definition uvmclear (pagetable va : Z) : K unit :=
  pte ← walk pagetable va false;
  if pte =? 0 then panic "uvmclear" else
  v ← load64 pte;
  store64 pte (Z.land v (Z.lnot PTE_U)).
End vm.
