(* ===== verification/Mm.v ===== *)
(** Physical memory as the kernel uses it, and that page replacement is
    invisible to processes.

    Every page of RAM the allocator owns is free, a page-table page, a page on
    the LRU list (mapped by exactly one entry), or in private use.  The view a
    process has of an address is the permissions and the 4096 bytes of its
    page, wherever they are: in memory or in a swap slot. *)
From S2P Require Import Prelude Riscv Mem Ring State Sched Bio Walk Swap Printf Console Kalloc.

(** ** Writing one leaf entry *)

(** [(pt, va)] names a page of the address space with root [pt]. *)
Definition upage (role : gmap Z ptrole) (pt va : Z) : Prop :=
  is_root role pt ∧ 0 ≤ va < MAXVA ∧ va mod PGSIZE = 0.

(** The memories agree outside page-table pages. *)
Definition agree_data (role : gmap Z ptrole) (m m' : gmap Z Z) : Prop :=
  ∀ P x, P mod PGSIZE = 0 → role !! P = None → P ≤ x < P + PGSIZE → ld8 m' x = ld8 m x.

Lemma agree_data_page role m m' P :
  agree_data role m m' → P mod PGSIZE = 0 → role !! P = None →
  rd_bytes m' P 4096 = rd_bytes m P 4096.
Proof. intros Ha Hm HP. apply rd_bytes_ext. intros x Hx. apply (Ha P x Hm HP). rewrite /PGSIZE. lia. Qed.

Section leaf.
Context (m : gmap Z Z) (role : gmap Z ptrole) (Hpt : pt_ok m role).

Lemma leaf_store pt va v :
  upage role pt va → walk_pure m pt va ≠ 0 →
  agree_dirs role m (st64 m (walk_pure m pt va) v) ∧ agree_data role m (st64 m (walk_pure m pt va) v).
Proof using Hpt.
  intros (Hr & Hva & Hal) Hw. destruct (walk_leaf m role pt va Hpt Hr Hw) as (P & HP & ->).
  pose proof (pt_page _ _ Hpt _ _ HP) as [HPm _]. pose proof (PX_range 0 va ltac:(lia)).
  rewrite /PGSIZE in HPm. split.
  - intros Q root lvl pre x HQ Hl Hx. pose proof (pt_page _ _ Hpt _ _ HQ) as [HQm _].
    rewrite /PGSIZE in HQm, Hx. apply ld8_st64_ne. intros Hx2.
    assert (P = Q) as -> by dlia. rewrite HP in HQ. injection HQ as ???. lia.
  - intros Q x HQm HQ Hx. rewrite /PGSIZE in HQm, Hx. apply ld8_st64_ne. intros Hx2.
    assert (P = Q) as -> by dlia. congruence.
Qed.

Lemma leaf_store_pt pt va v :
  upage role pt va → walk_pure m pt va ≠ 0 → pt_ok (st64 m (walk_pure m pt va) v) role.
Proof using Hpt. intros Hu Hw. exact (pt_ok_agree role m _ Hpt (proj1 (leaf_store pt va v Hu Hw))). Qed.

Lemma leaf_store_pte pt va v pt2 va2 :
  upage role pt va → walk_pure m pt va ≠ 0 → 0 ≤ v < 2 ^ 64 → upage role pt2 va2 →
  pte_of (st64 m (walk_pure m pt va) v) pt2 va2 =
  if decide (pt2 = pt ∧ va2 = va) then Some v else pte_of m pt2 va2.
Proof using Hpt.
  intros Hu Hw Hv Hu2. pose proof (leaf_store pt va v Hu Hw) as [Hd _].
  rewrite /pte_of (walk_agree role m _ pt2 va2 Hpt (proj1 Hu2) Hd).
  case_decide as E.
  - destruct E as [-> ->]. rewrite (proj2 (Z.eqb_neq _ _)) // ld_st64_eq //.
  - destruct (Z.eqb_spec (walk_pure m pt2 va2) 0) as [|Hw2]; [done|]. f_equal. apply ld_st64_ne.
    destruct (decide (walk_pure m pt va + 8 ≤ walk_pure m pt2 va2)); [by left|].
    destruct (decide (walk_pure m pt2 va2 + 8 ≤ walk_pure m pt va)); [by right|].
    exfalso. apply E. destruct Hu as (?&?&?), Hu2 as (?&?&?).
    destruct (walk_inj m role pt2 va2 pt va) as [-> ->]; try done; lia.
Qed.
End leaf.

(** What does not touch page-table pages leaves every entry as it is. *)
Definition agree_pt (role : gmap Z ptrole) (m m' : gmap Z Z) : Prop :=
  ∀ P r x, role !! P = Some r → P ≤ x < P + PGSIZE → ld8 m' x = ld8 m x.

Lemma agree_pt_dirs role m m' : agree_pt role m m' → agree_dirs role m m'.
Proof. intros Ha P root lvl pre x HP Hl Hx. by apply (Ha P _ x HP). Qed.
Lemma agree_pt_pte role m m' pt va :
  pt_ok m role → agree_pt role m m' → is_root role pt → pte_of m' pt va = pte_of m pt va.
Proof.
  intros Hpt Ha Hr. rewrite /pte_of (walk_agree role m m' pt va Hpt Hr (agree_pt_dirs _ _ _ Ha)).
  destruct (Z.eqb_spec (walk_pure m pt va) 0) as [|Hw]; [done|]. f_equal.
  destruct (walk_leaf m role pt va Hpt Hr Hw) as (P & HP & ->). pose proof (PX_range 0 va ltac:(lia)).
  apply ld64_ext. intros x Hx. apply (Ha P _ x HP). rewrite /PGSIZE. lia.
Qed.
Lemma agree_pt_ok role m m' : pt_ok m role → agree_pt role m m' → pt_ok m' role.
Proof. intros Hp Ha. exact (pt_ok_agree role m _ Hp (agree_pt_dirs _ _ _ Ha)). Qed.

(** A change confined to one page that is not a page-table page. *)
Lemma page_change_agree role m m' pa :
  (∀ P r, role !! P = Some r → P mod PGSIZE = 0) → pa mod PGSIZE = 0 → role !! pa = None →
  (∀ x, ¬ (pa ≤ x < pa + PGSIZE) → ld8 m' x = ld8 m x) → agree_pt role m m'.
Proof.
  intros Hal Hpa Hnone Hx P r x HP HxP. apply Hx. pose proof (Hal _ _ HP) as HPm.
  intros Hin. unfold PGSIZE in *. assert (P = pa) as -> by dlia. congruence.
Qed.

(** ** The invariant *)

Definition vmask : Z := Z.lor (Z.lor PTE_R PTE_W) (Z.lor PTE_X PTE_U).

(** The permissions and the bytes of a page of an address space. *)
Definition view (s : kstate) (pt va : Z) : option (Z * list Z) :=
  match pte_of (k_mem s) pt va with
  | Some v =>
      if tst v PTE_V then Some (Z.land v vmask, rd_bytes (k_mem s) (PTE2PA v) 4096)
      else if tst v PTE_S then Some (Z.land v vmask, u8 <$> slot_bytes s (Z.shiftr v 10))
      else None
  | None => None
  end.

(** The free list: every free page holds the address of the next one. *)
Fixpoint chain (m : gmap Z Z) (h : Z) (l : list Z) : Prop :=
  match l with
  | [] => h = 0
  | x :: l' => h = x ∧ chain m (ld64 m x) l'
  end.

Section mm.
Context `{Image}.

Definition ram_page (pa : Z) : Prop := pa mod PGSIZE = 0 ∧ img_end ≤ pa < PHYSTOP.

Definition leaf_v (s : kstate) (role : gmap Z ptrole) (pt va v : Z) : Prop :=
  upage role pt va ∧ pte_of (k_mem s) pt va = Some v.

Record mm_inv (s : kstate) (role : gmap Z ptrole) (fl lru : list Z) : Prop := {
  mi_pt : pt_ok (k_mem s) role;
  mi_lru : lru_ok s lru;
  mi_chain : chain (k_mem s) (k_freelist s) fl;
  mi_fl : NoDup fl ∧ ∀ pa, pa ∈ fl → ram_page pa ∧ role !! pa = None ∧ pa / PGSIZE ∉ lru;
  (* an LRU page is a page of RAM, mapped by the entry recorded for it *)
  mi_lru_page i : i ∈ lru → ram_page (i * PGSIZE) ∧ role !! (i * PGSIZE) = None;
  mi_lru_map i : i ∈ lru → ∃ v,
    leaf_v s role (pg_pagetable (page_at s i)) (pg_vaddr (page_at s i)) v ∧
    tst v PTE_V = true ∧ PTE2PA v = i * PGSIZE;
  (* and by no other *)
  mi_lru_uniq pt va v i : leaf_v s role pt va v → tst v PTE_V = true → i ∈ lru →
    PTE2PA v = i * PGSIZE → pt = pg_pagetable (page_at s i) ∧ va = pg_vaddr (page_at s i);
  (* mapped pages are neither free nor page-table pages *)
  mi_leaf pt va v : leaf_v s role pt va v → tst v PTE_V = true →
    role !! PTE2PA v = None ∧ PTE2PA v ∉ fl;
  (* every swapped-out page has a slot of its own, marked in use *)
  mi_slot pt va v : leaf_v s role pt va v → tst v PTE_V = false → tst v PTE_S = true →
    0 ≤ Z.shiftr v 10 < SWAPMAX / 4 ∧ bitmap_at s (Z.shiftr v 10) ≠ 0;
  mi_slot_inj pt va v pt' va' v' : leaf_v s role pt va v → tst v PTE_V = false → tst v PTE_S = true →
    leaf_v s role pt' va' v' → tst v' PTE_V = false → tst v' PTE_S = true →
    Z.shiftr v 10 = Z.shiftr v' 10 → pt = pt' ∧ va = va'
}.

(** A page in private use: allocated, and not (yet) mapped or linked anywhere. *)
Record private (s : kstate) (role : gmap Z ptrole) (fl lru : list Z) (pa : Z) : Prop := {
  pv_ram : ram_page pa;
  pv_role : role !! pa = None;
  pv_fl : pa ∉ fl;
  pv_lru : pa / PGSIZE ∉ lru;
  pv_leaf pt va v : leaf_v s role pt va v → tst v PTE_V = true → PTE2PA v ≠ pa
}.

(** The same view of every page of every address space. *)
Definition same_views (role : gmap Z ptrole) (s s' : kstate) : Prop :=
  ∀ pt va, upage role pt va → view s' pt va = view s pt va.


(** ** Changes to the accessed bits only *)

(** Two entries that differ in bits the kernel and the process do not use to
    find or check the page. *)
Definition sim (v v' : Z) : Prop :=
  Z.shiftr v' 10 = Z.shiftr v 10 ∧ tst v' PTE_V = tst v PTE_V ∧ tst v' PTE_S = tst v PTE_S ∧
  Z.land v' vmask = Z.land v vmask.
#[global] Instance sim_equiv : Equivalence sim.
Proof.
  split.
  - intros v. done.
  - intros v w (?&?&?&?). done.
  - intros u v w (A1&A2&A3&A4) (B1&B2&B3&B4). repeat split; congruence.
Qed.

Record ages (role : gmap Z ptrole) (s s' : kstate) : Prop := {
  ag_frame : s' = set_mem (k_mem s') s;
  ag_pt : pt_ok (k_mem s') role;
  ag_data : agree_data role (k_mem s) (k_mem s');
  ag_leaf pt va : upage role pt va →
    option_Forall2 sim (pte_of (k_mem s) pt va) (pte_of (k_mem s') pt va);
  ag_walk pt va : is_root role pt → walk_pure (k_mem s') pt va = walk_pure (k_mem s) pt va;
  ag_dirs : agree_dirs role (k_mem s) (k_mem s')
}.

Lemma ages_refl role s : pt_ok (k_mem s) role → ages role s s.
Proof.
  intros Hp. split; [by destruct s|done|done| |done|done]. intros pt va _.
  destruct (pte_of _ _ _); constructor. reflexivity.
Qed.
Lemma ages_trans role s1 s2 s3 : ages role s1 s2 → ages role s2 s3 → ages role s1 s3.
Proof.
  intros [F1 P1 D1 L1 W1 X1] [F2 P2 D2 L2 W2 X2]. split; [|done|..].
  - rewrite F2. by rewrite F1.
  - intros P x HP HN Hx. rewrite (D2 P x) // (D1 P x) //.
  - intros pt va Hu. specialize (L1 pt va Hu). specialize (L2 pt va Hu).
    destruct L1 as [u v Huv|]; inversion L2 as [? w Hvw|]; simplify_eq; constructor. by transitivity v.
  - intros pt va Hr. by rewrite W2 // W1.
  - intros P root lvl pre x HP Hl Hx. rewrite (X2 P root lvl pre x) // (X1 P root lvl pre x) //.
Qed.

Lemma PTE2PA_sim v v' : sim v v' → PTE2PA v' = PTE2PA v.
Proof. intros [E _]. by rewrite /PTE2PA E. Qed.

Lemma ages_leaf role s s' pt va v' :
  ages role s s' → leaf_v s' role pt va v' → ∃ v, leaf_v s role pt va v ∧ sim v v'.
Proof.
  intros Ha [Hu Hl]. pose proof (ag_leaf _ _ _ Ha pt va Hu) as Hf. rewrite Hl in Hf.
  inversion Hf as [v ? Hs E|]; simplify_eq. by exists v.
Qed.
Lemma ages_leaf_fwd role s s' pt va v :
  ages role s s' → leaf_v s role pt va v → ∃ v', leaf_v s' role pt va v' ∧ sim v v'.
Proof.
  intros Ha [Hu Hl]. pose proof (ag_leaf _ _ _ Ha pt va Hu) as Hf. rewrite Hl in Hf.
  inversion Hf as [? v' Hs E|]; simplify_eq. by exists v'.
Qed.

Lemma chain_ext m m' h l :
  (∀ pa, pa ∈ l → ld64 m' pa = ld64 m pa) → chain m h l → chain m' h l.
Proof.
  revert h. induction l as [|x l IH]; intros h Hx; [done|]. intros [-> Hc]. split; [done|].
  rewrite Hx; [left|]. apply IH; [|done]. intros pa Hpa. apply Hx. by right.
Qed.
Lemma agree_data_ld64 role m m' P :
  agree_data role m m' → P mod PGSIZE = 0 → role !! P = None → ld64 m' P = ld64 m P.
Proof. intros Ha Hm HP. apply ld64_ext. intros x Hx. apply (Ha P x Hm HP). rewrite /PGSIZE. lia. Qed.

Lemma page_at_mem m s i : page_at (set_mem m s) i = page_at s i.
Proof. reflexivity. Qed.

Lemma ages_mm role s s' fl lru :
  mm_inv s role fl lru → ages role s s' → mm_inv s' role fl lru.
Proof.
  intros Hmm Ha. destruct (Hmm) as [I1 I2 I3 [I4 I4'] I5 I6 I7 I8 I9 I10].
  assert (∀ i, page_at s' i = page_at s i) as Hpg by (intros; by rewrite (ag_frame _ _ _ Ha)).
  assert (∀ i, bitmap_at s' i = bitmap_at s i) as Hbm by (intros; by rewrite (ag_frame _ _ _ Ha)).
  split.
  - apply Ha.
  - apply (lru_ok_ext s); [by rewrite (ag_frame _ _ _ Ha)..|done].
  - assert (k_freelist s' = k_freelist s) as -> by by rewrite (ag_frame _ _ _ Ha).
    apply (chain_ext (k_mem s)); [|done]. intros pa Hpa. destruct (I4' pa Hpa) as ([Hm _] & Hr & _).
    by apply (agree_data_ld64 role), Hr; [apply Ha|].
  - done.
  - done.
  - intros i Hi. destruct (I6 i Hi) as (v & Hl & Hv & HP). rewrite Hpg.
    destruct (ages_leaf_fwd _ _ _ _ _ _ Ha Hl) as (v' & Hl' & Hs).
    exists v'. rewrite (PTE2PA_sim v) //. destruct Hs as (_ & -> & _). done.
  - intros pt va v' i Hl Hv Hi HP. destruct (ages_leaf _ _ _ _ _ _ Ha Hl) as (v & Hl' & Hs).
    rewrite Hpg. rewrite (PTE2PA_sim v) // in HP. destruct Hs as (_ & E & _).
    apply (I7 pt va v i Hl'); congruence.
  - intros pt va v' Hl Hv. destruct (ages_leaf _ _ _ _ _ _ Ha Hl) as (v & Hl' & Hs).
    rewrite (PTE2PA_sim v) //. destruct Hs as (_ & E & _). apply (I8 pt va v Hl'). congruence.
  - intros pt va v' Hl Hv HS. destruct (ages_leaf _ _ _ _ _ _ Ha Hl) as (v & Hl' & (E1 & E2 & E3 & _)).
    rewrite Hbm E1. apply (I9 pt va v Hl'); congruence.
  - intros pt va v' pt2 va2 v2' Hl Hv HS Hl2 Hv2 HS2 HE.
    destruct (ages_leaf _ _ _ _ _ _ Ha Hl) as (v & Hl' & (E1 & E2 & E3 & _)).
    destruct (ages_leaf _ _ _ _ _ _ Ha Hl2) as (v2 & Hl2' & (F1 & F2 & F3 & _)).
    apply (I10 pt va v pt2 va2 v2); congruence.
Qed.

Lemma ages_views role s s' fl lru :
  mm_inv s role fl lru → ages role s s' → same_views role s s'.
Proof.
  intros Hmm Ha pt va Hu. rewrite /view.
  pose proof (ag_leaf _ _ _ Ha pt va Hu) as Hf.
  destruct (pte_of (k_mem s) pt va) as [v|] eqn:E; inversion Hf as [? v' Hs|]; simplify_eq; [|done].
  pose proof (PTE2PA_sim v v' Hs) as HP. destruct Hs as (E1 & -> & -> & ->). rewrite HP E1.
  destruct (tst v PTE_V) eqn:HV.
  - do 2 f_equal. apply (agree_data_page role); [apply Ha|apply PTE2PA_aligned|].
    by apply (mi_leaf _ _ _ _ Hmm pt va v).
  - destruct (tst v PTE_S); [|done]. do 3 f_equal. rewrite (ag_frame _ _ _ Ha). reflexivity.
Qed.

(** ** The clock *)

Lemma tst_land_lnot v a n : 0 ≤ a → 0 ≤ n →
  tst (Z.land v (Z.lnot (Z.shiftl 1 a))) (Z.shiftl 1 n) = negb (n =? a) && tst v (Z.shiftl 1 n).
Proof. intros Ha Hn. rewrite !(Z.shiftl_1_l n) !tst_bit //. by apply testbit_clear. Qed.

Lemma clear_A_sim v : sim v (Z.land v (Z.lnot PTE_A)).
Proof.
  rewrite /sim /PTE_V /PTE_S /PTE_A !tst_land_lnot //. repeat split.
  - apply Z.bits_inj'. intros n Hn. rewrite !Z.shiftr_spec // testbit_clear; [lia..|].
    rewrite (proj2 (Z.eqb_neq _ _)); [lia|done].
  - rewrite -Z.land_assoc. f_equal.
Qed.

(** The accessed bit of a page of the list. *)
Definition accessed (s : kstate) (i : Z) : bool :=
  match pte_of (k_mem s) (pg_pagetable (page_at s i)) (pg_vaddr (page_at s i)) with
  | Some v => tst v PTE_A
  | None => false
  end.

Lemma leaf_v_walk s role pt va v : leaf_v s role pt va v →
  walk_pure (k_mem s) pt va ≠ 0 ∧ ld64 (k_mem s) (walk_pure (k_mem s) pt va) = v ∧ va < MAXVA.
Proof.
  intros [(Hr & Hva & _) Hl]. rewrite /pte_of in Hl. destruct (Z.eqb_spec (walk_pure (k_mem s) pt va) 0); [done|].
  injection Hl as Hl. split; [done|]. split; [done|lia].
Qed.

(** One turn of the loop at a page of the list. *)
Lemma clock_step role fl lru s i f :
  mm_inv s role fl lru → i ∈ lru →
  let pg := page_at s i in let w := walk_pure (k_mem s) (pg_pagetable pg) (pg_vaddr pg) in
  clock (S f) i s =
  if accessed s i then
    (nx ← deref (pg_next pg); clock f nx)
      (set_mem (st64 (k_mem s) w (Z.land (ld64 (k_mem s) w) (Z.lnot PTE_A))) s)
  else Ok (i, w) s.
Proof.
  intros Hmm Hi pg w. destruct (mi_lru_map _ _ _ _ Hmm i Hi) as (v & Hl & HV & HP).
  destruct (leaf_v_walk _ _ _ _ _ Hl) as (Hw & Hv & Hva). destruct (Hl) as [_ Hpte].
  rewrite /accessed Hpte /w -/pg. cbn [clock]. rewrite {1}/bind /gets -/pg.
  rewrite /bind walk0_eq; [done|]. fold pg in Hw, Hv. fold w in Hw, Hv |- *.
  rewrite /load64 /gets Hv HV (proj2 (Z.eqb_neq _ _)) //=.
  destruct (tst v PTE_A); [|done]. rewrite /store64 /mod_mem /modify /page_at. reflexivity.
Qed.

Lemma clear_A_ages role fl lru s i (pg := page_at s i)
    (w := walk_pure (k_mem s) (pg_pagetable pg) (pg_vaddr pg))
    (s' := set_mem (st64 (k_mem s) w (Z.land (ld64 (k_mem s) w) (Z.lnot PTE_A))) s) :
  mm_inv s role fl lru → i ∈ lru →
  ages role s s' ∧ ∀ j, j ∈ lru → accessed s' j = accessed s j && negb (bool_decide (j = i)).
Proof.
  intros Hmm Hi. pose proof (mi_pt _ _ _ _ Hmm) as Hpt.
  destruct (mi_lru_map _ _ _ _ Hmm i Hi) as (v & Hl & HV & HP).
  destruct (leaf_v_walk _ _ _ _ _ Hl) as (Hw & Hv & _). destruct (Hl) as [Hu Hpte].
  fold pg in Hw, Hv, Hl, Hu, Hpte. fold w in Hw, Hv. unfold s'. rewrite Hv.
  assert (0 ≤ Z.land v (Z.lnot PTE_A) < 2 ^ 64) as Hr.
  { pose proof (ld64_range (k_mem s) w) as Hb. rewrite Hv in Hb.
    pose proof (land_range_l v (Z.lnot PTE_A)). lia. }
  assert (∀ pt2 va2, upage role pt2 va2 → pte_of (st64 (k_mem s) w (Z.land v (Z.lnot PTE_A))) pt2 va2 =
    if decide (pt2 = pg_pagetable pg ∧ va2 = pg_vaddr pg) then Some (Z.land v (Z.lnot PTE_A))
    else pte_of (k_mem s) pt2 va2) as Hst by (intros pt2 va2 Hu2; by apply (leaf_store_pte _ role)).
  split.
  - split; [done|by apply leaf_store_pt|by apply leaf_store| | |by apply leaf_store].
    2: { intros pt2 va2 Hr2. apply (walk_agree role (k_mem s)); [done|done|]. by apply leaf_store. }
    intros pt2 va2 Hu2. cbn [k_mem set_mem]. rewrite Hst //. case_decide as E.
    + destruct E as [-> ->]. rewrite Hpte. constructor. apply clear_A_sim.
    + destruct (pte_of (k_mem s) pt2 va2); constructor. reflexivity.
  - intros j Hj. destruct (mi_lru_map _ _ _ _ Hmm j Hj) as (vj & Hlj & HVj & HPj).
    destruct (Hlj) as [Huj Hptej]. rewrite /accessed page_at_mem. cbn [k_mem set_mem]. rewrite Hst //.
    case_bool_decide as Eij.
    + subst j. rewrite decide_True // /PTE_A tst_land_lnot //= andb_false_r //.
    + rewrite decide_False; [|cbn [negb]; by rewrite andb_true_r]. intros [E1 E2]. apply Eij.
      rewrite E1 E2 Hpte in Hptej. rewrite /PGSIZE in HP, HPj. simplify_eq. lia.
Qed.

Lemma ages_page role s s' i : ages role s s' → page_at s' i = page_at s i.
Proof. intros Ha. rewrite (ag_frame _ _ _ Ha). reflexivity. Qed.

(** Passing over a stretch of accessed pages gives each a second chance. *)
Lemma clock_pass role fl lru l1 : ∀ l2 s x f,
  mm_inv s role fl lru → lru ≡ₚ l1 ++ l2 → ring (pnx s) (ppv s) (l1 ++ l2) →
  (∀ i, i ∈ l1 → accessed s i = true) → head (l1 ++ l2) = Some x →
  ∃ s' y, head (l2 ++ l1) = Some y ∧ clock (length l1 + f) x s = clock f y s' ∧ ages role s s' ∧
    ∀ i, i ∈ lru → accessed s' i = accessed s i && negb (bool_decide (i ∈ l1)).
Proof.
  induction l1 as [|a l1 IH]; intros l2 s x f Hmm Hperm Hr Hacc Hx.
  { exists s, x. rewrite app_nil_r. split; [done|]. split; [done|]. split; [apply ages_refl, Hmm|].
    intros i _. by rewrite andb_true_r. }
  injection Hx as <-. assert (a ∈ lru) as Ha by (rewrite Hperm; left).
  destruct (clear_A_ages role fl lru s a Hmm Ha) as [Hag Hac].
  cbn [length Nat.add]. rewrite (clock_step role fl lru) // Hacc; [left|].
  set (s1 := set_mem _ s) in *.
  pose proof (ring_next _ _ _ _ Hr) as Hn. change (pg_next (page_at s a)) with (pnx s a).
  rewrite -app_comm_cons in Hr. rewrite Hn /deref /bind /ret.
  pose proof (ring_NoDup _ _ _ Hr) as Hnd. apply NoDup_cons in Hnd as [Hnin _].
  destruct (IH (l2 ++ [a]) s1 (default a (head (l1 ++ l2))) f) as (s' & y & Hy & Hc & Hag' & Hacc').
  - by apply (ages_mm role s).
  - rewrite Hperm. solve_Permutation.
  - rewrite app_assoc. apply (ring_rotate _ _ [a]). exact Hr.
  - intros i Hi. rewrite Hac; [rewrite Hperm; right; apply elem_of_app; by left|]. rewrite Hacc; [by right|].
    rewrite bool_decide_eq_false_2 //. intros ->. apply Hnin, elem_of_app. by left.
  - rewrite app_assoc. by destruct (l1 ++ l2).
  - exists s', y. rewrite -app_assoc in Hy. split; [done|]. split; [exact Hc|].
    split; [by apply (ages_trans role s s1)|].
    intros i Hi. rewrite Hacc' // Hac //. rewrite -andb_assoc. f_equal. rewrite -negb_orb. f_equal.
    rewrite -bool_decide_or. apply bool_decide_ext. rewrite elem_of_cons. tauto.
Qed.

(** The policy: pages are passed while their accessed bit is set; the first
    one whose bit is clear is the victim, or else the first page, whose bit
    the first turn has cleared. *)
Fixpoint second_chance (acc : Z → bool) (l : list Z) : list Z * option Z :=
  match l with
  | [] => ([], None)
  | a :: l' => if acc a then let '(p, v) := second_chance acc l' in (a :: p, v) else ([], Some a)
  end.
Definition clock_passed (s : kstate) (lru : list Z) : list Z := (second_chance (accessed s) lru).1.
Definition clock_victim (s : kstate) (lru : list Z) : Z :=
  default (default 0 (head lru)) (second_chance (accessed s) lru).2.

Lemma second_chance_spec acc l :
  let '(p, v) := second_chance acc l in
  (∀ i, i ∈ p → acc i = true) ∧
  match v with
  | Some x => acc x = false ∧ ∃ l2, l = p ++ x :: l2
  | None => l = p
  end.
Proof.
  induction l as [|a l IH]; cbn [second_chance]; [split; [set_solver|done]|].
  destruct (acc a) eqn:Ea; [|by split; [set_solver|split; [done|by exists l]]].
  destruct (second_chance acc l) as [p [x|]]; destruct IH as [IH1 IH2].
  - split; [intros i; rewrite elem_of_cons; intros [->|]; auto|].
    destruct IH2 as (? & l2 & ->). split; [done|by exists l2].
  - split; [intros i; rewrite elem_of_cons; intros [->|]; auto|]. by subst.
Qed.

Definition entry_addr (s : kstate) (i : Z) : Z :=
  walk_pure (k_mem s) (pg_pagetable (page_at s i)) (pg_vaddr (page_at s i)).

Lemma clock_stop role fl lru s i f :
  mm_inv s role fl lru → i ∈ lru → accessed s i = false → clock (S f) i s = Ok (i, entry_addr s i) s.
Proof. intros Hmm Hi Ha. by rewrite (clock_step role fl lru) // Ha. Qed.

Lemma clock_spec role fl lru h s fuel :
  mm_inv s role fl lru → head lru = Some h → (length lru < fuel)%nat →
  ∃ s', clock fuel h s = Ok (clock_victim s lru, entry_addr s' (clock_victim s lru)) s' ∧
    clock_victim s lru ∈ lru ∧ ages role s s' ∧ accessed s' (clock_victim s lru) = false ∧
    ∀ i, i ∈ lru → accessed s' i = accessed s i && negb (bool_decide (i ∈ clock_passed s lru)).
Proof.
  intros Hmm Hh Hf. rewrite /clock_victim /clock_passed Hh.
  pose proof (lo_ring _ _ (mi_lru _ _ _ _ Hmm)) as Hr.
  pose proof (second_chance_spec (accessed s) lru) as Hsc.
  destruct (second_chance (accessed s) lru) as [p v]. destruct Hsc as [Hp Hv]. cbn [fst snd].
  destruct v as [x|]; cbn [default].
  - destruct Hv as (Hx & l2 & ->). rewrite length_app in Hf.
    destruct (clock_pass role fl _ p (x :: l2) s h (fuel - length p) Hmm (Permutation_refl _) Hr Hp Hh)
      as (s' & y & Hy & Hc & Ha & Hacc).
    injection Hy as <-. replace (length p + (fuel - length p))%nat with fuel in Hc by lia.
    assert (x ∈ p ++ x :: l2) as Hin by (apply elem_of_app; right; left).
    assert (accessed s' x = false) as Hx' by by rewrite Hacc // Hx.
    exists s'. split; [|done]. rewrite Hc. destruct (fuel - length p)%nat as [|f] eqn:Ef; [lia|].
    apply (clock_stop role fl (p ++ x :: l2)); [by apply (ages_mm role s)|done..].
  - subst lru. rewrite -(app_nil_r p) in Hr.
    destruct (clock_pass role fl p p [] s h (fuel - length p) Hmm) as (s' & y & Hy & Hc & Ha & Hacc);
      [by rewrite app_nil_r|done|done|by rewrite app_nil_r|].
    rewrite /= Hh in Hy. injection Hy as <-.
    replace (length p + (fuel - length p))%nat with fuel in Hc by lia.
    assert (h ∈ p) as Hin by (destruct p; [done|]; injection Hh as ->; left).
    assert (accessed s' h = false) as Hx'.
    { rewrite Hacc // bool_decide_eq_true_2 // andb_false_r //. }
    exists s'. split; [|done]. rewrite Hc. destruct (fuel - length p)%nat as [|f] eqn:Ef; [lia|].
    apply (clock_stop role fl p); [by apply (ages_mm role s)|done..].
Qed.

(** Every page of the list has an entry in pages[], so the fuel of [swap_out]
    is enough. *)
Lemma lru_length s l : lru_ok s l → (length l ≤ size (k_pages s))%nat.
Proof.
  intros [Hr _ _]. pose proof (ring_NoDup _ _ _ Hr) as Hnd.
  rewrite -size_dom -(size_list_to_set (C := gset Z) l Hnd). apply subseteq_size.
  intros i Hi%elem_of_list_to_set. destruct (ring_links _ _ _ i Hr Hi) as (b & _ & Hb & _).
  apply elem_of_dom. rewrite /pnx /page_at in Hb. destruct (k_pages s !! i); [by eexists|done].
Qed.

(** ** Swap slots *)

Lemma first_free_spec bm n : ∀ i, let r := first_free n i bm in
  (r = -1 ∧ ∀ j, i ≤ j < i + Z.of_nat n → default 0 (bm !! j) ≠ 0) ∨
  (i ≤ r < i + Z.of_nat n ∧ default 0 (bm !! r) = 0 ∧ ∀ j, i ≤ j < r → default 0 (bm !! j) ≠ 0).
Proof.
  induction n as [|n IH]; intros i; cbn [first_free]; [left; split; [done|lia]|].
  destruct (Z.eqb_spec (default 0 (bm !! i)) 0) as [E|E].
  - right. split; [lia|]. split; [done|lia].
  - specialize (IH (i + 1)). destruct IH as [[-> IH]|(IH1 & IH2 & IH3)].
    + left. split; [done|]. intros j Hj. destruct (Z.eq_dec j i) as [->|]; [done|]. apply IH. lia.
    + right. split; [lia|]. split; [done|]. intros j Hj. destruct (Z.eq_dec j i) as [->|]; [done|].
      apply IH3. lia.
Qed.

Definition slots_full (s : kstate) : Prop := ∀ j, 0 ≤ j < SWAPMAX / 4 → bitmap_at s j ≠ 0.

Lemma alloc_slot_spec s :
  swap_lock ∉ k_locks s →
  wp alloc_slot (λ idx s',
    (idx = -1 ∧ slots_full s ∧ s' = s) ∨
    (0 ≤ idx < SWAPMAX / 4 ∧ bitmap_at s idx = 0 ∧ (∀ j, 0 ≤ j < idx → bitmap_at s j ≠ 0) ∧
     s' = set_bitmap (<[idx := 1]> (k_bitmap s)) s)) s.
Proof.
  intros Hlk. rewrite /alloc_slot. apply wp_bind, wp_acquire; [done|].
  apply wp_bind, wp_gets. change (k_bitmap (set_locks _ s)) with (k_bitmap s).
  pose proof (first_free_spec (k_bitmap s) (Z.to_nat (SWAPMAX / 4)) 0) as Hff.
  set (i := first_free _ 0 _) in *. clearbody i.
  change (0 + Z.of_nat (Z.to_nat (SWAPMAX / 4))) with (SWAPMAX / 4) in Hff.
  destruct Hff as [[-> Hf]|(Hi & Hz & Hf)].
  - apply wp_bind. cbn [Z.eqb negb when]. apply wp_ret, wp_bind.
    eapply (wp_release swap_lock (k_locks s)); [done..|]. apply wp_ret. left.
    split; [done|]. split; [exact Hf|]. by destruct s.
  - apply wp_bind. rewrite (proj2 (Z.eqb_neq i (-1))); [lia|]. apply wp_modify, wp_bind.
    eapply (wp_release swap_lock (k_locks s)); [done..|]. apply wp_ret. right.
    split; [done|]. split; [exact Hz|]. split; [exact Hf|]. by destruct s.
Qed.

Lemma bitmap_at_set s idx v j :
  bitmap_at (set_bitmap (<[idx := v]> (k_bitmap s)) s) j = if decide (j = idx) then v else bitmap_at s j.
Proof.
  rewrite /bitmap_at. cbn [k_bitmap set_bitmap]. case_decide; subst.
  - by rewrite lookup_insert_eq.
  - rewrite lookup_insert_ne; [congruence|done].
Qed.

(** ** Taking a page from its owner *)

(** The entry swap_out() leaves behind. *)
Definition swapped_pte (v idx : Z) : Z :=
  Z.lor (Z.land (Z.lor (Z.land v 1023) (u64 (Z.shiftl idx 10))) (Z.lnot PTE_V)) PTE_S.

Lemma swapped_pte_bit v idx n :
  0 ≤ idx < SWAPMAX / 4 → 0 ≤ n →
  Z.testbit (swapped_pte v idx) n =
  (n =? 9) || negb (n =? 0) && (if n <? 10 then Z.testbit v n else Z.testbit idx (n - 10)).
Proof.
  intros Hi Hn. rewrite /swapped_pte /PTE_S testbit_set // /PTE_V testbit_clear // Z.lor_spec Z.land_spec.
  f_equal. f_equal. rewrite u64_id.
  { rewrite Z.shiftl_mul_pow2 //. change (SWAPMAX / 4) with 7000 in Hi. lia. }
  rewrite Z.shiftl_spec //. change 1023 with (Z.ones 10). destruct (Z.ltb_spec n 10).
  - rewrite Z.ones_spec_low; [lia|]. rewrite (Z.testbit_neg_r idx); [lia|]. by rewrite andb_true_r orb_false_r.
  - rewrite Z.ones_spec_high; [lia|]. by rewrite andb_false_r.
Qed.

Lemma swapped_pte_spec v idx (w := swapped_pte v idx) :
  0 ≤ idx < SWAPMAX / 4 →
  0 ≤ w < 2 ^ 64 ∧ tst w PTE_V = false ∧ tst w PTE_S = true ∧ Z.shiftr w 10 = idx ∧
  Z.land w vmask = Z.land v vmask.
Proof.
  intros Hi. pose proof (swapped_pte_bit v idx) as Hb. fold w in Hb. split; [|split; [|split; [|split]]].
  - rewrite /w /swapped_pte.
    apply (lor_range _ _ 64); [lia| |by vm_compute].
    pose proof (land_range_l (Z.lor (Z.land v 1023) (u64 (Z.shiftl idx 10))) (Z.lnot PTE_V)) as Hr.
    pose proof (lor_range (Z.land v 1023) (u64 (Z.shiftl idx 10)) 64) as Hr2.
    pose proof (u64_range (Z.shiftl idx 10)). pose proof (PTE_FLAGS_range v) as Hf. rewrite /PTE_FLAGS in Hf. lia.
  - change PTE_V with (2 ^ 0). by rewrite tst_bit // Hb.
  - change PTE_S with (2 ^ 9). by rewrite tst_bit // Hb.
  - apply Z.bits_inj'. intros n Hn. rewrite Z.shiftr_spec // Hb //; [lia|].
    rewrite (proj2 (Z.eqb_neq _ _)); [lia|]. rewrite (proj2 (Z.eqb_neq _ _)); [lia|].
    rewrite (proj2 (Z.ltb_ge _ _)); [lia|]. cbn. f_equal. lia.
  - apply Z.bits_inj'. intros n Hn. rewrite !Z.land_spec Hb //. change vmask with 30.
    destruct (Z.leb_spec 5 n).
    { rewrite (testbit_high 30 5); [lia..|]. by rewrite !andb_false_r. }
    assert (n = 0 ∨ n = 1 ∨ n = 2 ∨ n = 3 ∨ n = 4) as [E|[E|[E|[E|E]]]] by lia; subst n;
      cbn; by rewrite ?andb_false_r.
Qed.

Lemma lru_index_inj s role fl lru i j pt va :
  mm_inv s role fl lru → i ∈ lru → j ∈ lru →
  pg_pagetable (page_at s i) = pt → pg_vaddr (page_at s i) = va →
  pg_pagetable (page_at s j) = pt → pg_vaddr (page_at s j) = va → i = j.
Proof.
  intros Hmm Hi Hj Ei1 Ei2 Ej1 Ej2.
  destruct (mi_lru_map _ _ _ _ Hmm i Hi) as (v & [_ Hl] & _ & HP).
  destruct (mi_lru_map _ _ _ _ Hmm j Hj) as (w & [_ Hl'] & _ & HP').
  rewrite Ei1 Ei2 in Hl. rewrite Ej1 Ej2 Hl in Hl'. rewrite /PGSIZE in HP, HP'. simplify_eq. lia.
Qed.

(** [s'] is [s] with page [i] of the list taken from its owner: unlinked, and
    its entry pointing to the free slot [idx]. *)
Record detached (s s' : kstate) (lru' : list Z) (i idx pt va v : Z) : Prop := {
  dt_mem : k_mem s' = st64 (k_mem s) (walk_pure (k_mem s) pt va) (swapped_pte v idx);
  dt_lru : lru_ok s' lru';
  dt_page j : pg_pagetable (page_at s' j) = pg_pagetable (page_at s j) ∧
              pg_vaddr (page_at s' j) = pg_vaddr (page_at s j);
  dt_fl : k_freelist s' = k_freelist s;
  dt_bitmap j : bitmap_at s' j = if decide (j = idx) then 1 else bitmap_at s j;
  dt_disk : k_disk s' = k_disk s
}.

Section detach.
Context (s s' : kstate) (role : gmap Z ptrole) (fl lru lru' : list Z) (i idx v : Z).
Context (pt := pg_pagetable (page_at s i)) (va := pg_vaddr (page_at s i)).
Context (Hmm : mm_inv s role fl lru) (Hi : i ∈ lru) (Hperm : lru ≡ₚ i :: lru').
Context (Hl : leaf_v s role pt va v) (HV : tst v PTE_V = true) (HP : PTE2PA v = i * PGSIZE).
Context (Hidx : 0 ≤ idx < SWAPMAX / 4) (Hfree : bitmap_at s idx = 0).
Context (Hd : detached s s' lru' i idx pt va v).

Lemma detach_leaf pt2 va2 w :
  leaf_v s' role pt2 va2 w →
  (pt2 = pt ∧ va2 = va ∧ w = swapped_pte v idx) ∨ (¬ (pt2 = pt ∧ va2 = va) ∧ leaf_v s role pt2 va2 w).
Proof using All.
  intros [Hu Hw]. rewrite (dt_mem _ _ _ _ _ _ _ _ Hd) in Hw.
  rewrite (leaf_store_pte _ role) // in Hw; [apply Hmm|apply Hl| | |].
  - exact (proj1 (leaf_v_walk _ _ _ _ _ Hl)).
  - by apply swapped_pte_spec.
  - case_decide as E; [|right; by split]. left. destruct E. split; [done|]. split; [done|congruence].
Qed.

Lemma detach_fwd pt2 va2 w :
  leaf_v s role pt2 va2 w → ¬ (pt2 = pt ∧ va2 = va) → leaf_v s' role pt2 va2 w.
Proof using All.
  intros [Hu Hw] Hne. split; [done|]. rewrite (dt_mem _ _ _ _ _ _ _ _ Hd).
  rewrite (leaf_store_pte _ role) //; [apply Hmm|apply Hl| | |].
  - exact (proj1 (leaf_v_walk _ _ _ _ _ Hl)).
  - by apply swapped_pte_spec.
  - by rewrite decide_False.
Qed.

Lemma detach_pte : pte_of (k_mem s') pt va = Some (swapped_pte v idx).
Proof using All.
  rewrite (dt_mem _ _ _ _ _ _ _ _ Hd) (leaf_store_pte _ role) //; [apply Hmm|apply Hl| | |apply Hl|].
  - exact (proj1 (leaf_v_walk _ _ _ _ _ Hl)).
  - by apply swapped_pte_spec.
  - by rewrite decide_True.
Qed.

Lemma detach_data : agree_data role (k_mem s) (k_mem s') ∧ pt_ok (k_mem s') role.
Proof using All.
  rewrite (dt_mem _ _ _ _ _ _ _ _ Hd). pose proof (mi_pt _ _ _ _ Hmm).
  destruct (leaf_v_walk _ _ _ _ _ Hl) as [Hw _]. destruct Hl as [Hu _].
  split; [by apply leaf_store|by apply leaf_store_pt].
Qed.

Lemma detach_walk pt2 va2 : is_root role pt2 → walk_pure (k_mem s') pt2 va2 = walk_pure (k_mem s) pt2 va2.
Proof using All.
  intros Hr. rewrite (dt_mem _ _ _ _ _ _ _ _ Hd). pose proof (mi_pt _ _ _ _ Hmm).
  destruct (leaf_v_walk _ _ _ _ _ Hl) as [Hw _]. destruct Hl as [Hu _].
  apply (walk_agree role (k_mem s)); [done|done|]. by apply leaf_store.
Qed.

Lemma detach_sub j : j ∈ lru' → j ∈ lru ∧ j ≠ i.
Proof using All.
  intros Hj. split; [rewrite Hperm; by right|]. intros ->.
  pose proof (ring_NoDup _ _ _ (lo_ring _ _ (mi_lru _ _ _ _ Hmm))) as Hnd.
  rewrite Hperm in Hnd. by apply NoDup_cons in Hnd as [? _].
Qed.

Lemma detach_V pt2 va2 w :
  leaf_v s' role pt2 va2 w → tst w PTE_V = true → ¬ (pt2 = pt ∧ va2 = va) ∧ leaf_v s role pt2 va2 w.
Proof using All.
  intros Hw HwV. destruct (detach_leaf _ _ _ Hw) as [(_ & _ & ->)|]; [|done].
  destruct (swapped_pte_spec v idx Hidx) as (_ & E & _). congruence.
Qed.

Lemma detach_mm : mm_inv s' role fl lru'.
Proof using All.
  destruct (Hmm) as [I1 I2 I3 [I4 I4'] I5 I6 I7 I8 I9 I10].
  pose proof detach_data as [Hdat Hpt]. destruct (Hd) as [D1 D2 D3 D4 D5 D6].
  destruct (swapped_pte_spec v idx Hidx) as (_ & SV & SS & SI & _).
  split; [done|done| | | | | | | |].
  - rewrite D4. apply (chain_ext (k_mem s)); [|done]. intros pa Hpa.
    destruct (I4' pa Hpa) as ([Hm _] & Hr & _). by apply (agree_data_ld64 role).
  - split; [done|]. intros pa Hpa. destruct (I4' pa Hpa) as (R1 & R2 & R3).
    split; [done|]. split; [done|]. intros Hin. by apply R3, detach_sub.
  - intros j Hj. by apply I5, detach_sub.
  - intros j Hj. destruct (detach_sub j Hj) as [Hj1 Hj2].
    destruct (I6 j Hj1) as (w & Hw & HwV & HwP). destruct (D3 j) as [-> ->].
    exists w. split; [|done]. apply detach_fwd; [done|]. intros [E1 E2]. apply Hj2.
    by apply (lru_index_inj s role fl lru j i pt va).
  - intros pt2 va2 w j Hw HwV Hj HwP. destruct (D3 j) as [-> ->].
    apply (I7 pt2 va2 w j); [|done|by apply detach_sub|done]. by apply detach_V.
  - intros pt2 va2 w Hw HwV. apply (I8 pt2 va2 w); [by apply detach_V|done].
  - intros pt2 va2 w Hw HwV HwS. rewrite D5. destruct (detach_leaf _ _ _ Hw) as [(_ & _ & ->)|[_ Hw']].
    + rewrite SI decide_True //.
    + destruct (I9 _ _ _ Hw' HwV HwS) as [B1 B2]. split; [done|]. by case_decide.
  - intros p1 a1 w1 p2 a2 w2 H1 HV1 HS1 H2 HV2 HS2 HE.
    destruct (detach_leaf _ _ _ H1) as [(-> & -> & ->)|[_ H1']], (detach_leaf _ _ _ H2) as [(-> & -> & ->)|[_ H2']].
    + done.
    + rewrite SI in HE. destruct (I9 _ _ _ H2' HV2 HS2) as [_ B]. congruence.
    + rewrite SI in HE. destruct (I9 _ _ _ H1' HV1 HS1) as [_ B]. congruence.
    + by apply (I10 p1 a1 w1 p2 a2 w2).
Qed.

Lemma detach_private : private s' role fl lru' (i * PGSIZE).
Proof using All.
  destruct (mi_lru_page _ _ _ _ Hmm i Hi) as [Hram Hrole]. split; [done|done| | |].
  - intros Hin. destruct (proj2 (mi_fl _ _ _ _ Hmm) _ Hin) as (_ & _ & Hn). apply Hn.
    by rewrite Z.div_mul.
  - rewrite Z.div_mul //. intros Hin. by apply (detach_sub i Hin).
  - intros pt2 va2 w Hw HwV E. destruct (detach_V _ _ _ Hw HwV) as [Hne Hw'].
    apply Hne. by apply (mi_lru_uniq _ _ _ _ Hmm pt2 va2 w i).
Qed.

Lemma detach_views pt2 va2 :
  upage role pt2 va2 → ¬ (pt2 = pt ∧ va2 = va) → view s' pt2 va2 = view s pt2 va2.
Proof using All.
  intros Hu Hne. rewrite /view.
  assert (pte_of (k_mem s') pt2 va2 = pte_of (k_mem s) pt2 va2) as ->.
  { rewrite (dt_mem _ _ _ _ _ _ _ _ Hd) (leaf_store_pte _ role) //; [apply Hmm|apply Hl| | |].
    - exact (proj1 (leaf_v_walk _ _ _ _ _ Hl)).
    - by apply swapped_pte_spec.
    - by rewrite decide_False. }
  destruct (pte_of (k_mem s) pt2 va2) as [w|] eqn:Ew; [|done].
  destruct (tst w PTE_V) eqn:EV.
  - do 2 f_equal. apply (agree_data_page role); [apply detach_data|apply PTE2PA_aligned|].
    by apply (mi_leaf _ _ _ _ Hmm pt2 va2 w).
  - destruct (tst w PTE_S); [|done]. do 3 f_equal. by rewrite /slot_bytes /block_at (dt_disk _ _ _ _ _ _ _ _ Hd).
Qed.

(** The bytes of the page are still in memory; the view of its owner is what
    the slot holds. *)
Lemma detach_victim :
  view s pt va = Some (Z.land v vmask, rd_bytes (k_mem s') (i * PGSIZE) 4096) ∧
  view s' pt va = Some (Z.land v vmask, u8 <$> slot_bytes s' idx).
Proof using All.
  destruct (swapped_pte_spec v idx Hidx) as (SR & SV & SS & SI & SM). split.
  - rewrite /view (proj2 Hl) HV HP. do 2 f_equal. symmetry.
    destruct (mi_lru_page _ _ _ _ Hmm i Hi) as [[Ha _] Hrole].
    apply (agree_data_page role); [apply detach_data|done|done].
  - rewrite /view detach_pte.
    by rewrite SV SS SI SM.
Qed.
End detach.

(** ** swap_out() and kalloc() *)

Lemma mm_inv_ext s s' role fl lru :
  k_mem s' = k_mem s → k_pages s' = k_pages s → k_lru_head s' = k_lru_head s →
  k_freelist s' = k_freelist s → k_bitmap s' = k_bitmap s →
  mm_inv s role fl lru → mm_inv s' role fl lru.
Proof.
  intros Em Ep Eh Ef Eb [I1 I2 I3 I4 I5 I6 I7 I8 I9 I10].
  assert (∀ i, page_at s' i = page_at s i) as Hpg by (intros; by rewrite /page_at Ep).
  split; rewrite /leaf_v /bitmap_at ?Em ?Ef ?Eb; try done.
  - by apply (lru_ok_ext s).
  - intros i Hi. rewrite Hpg. by apply I6.
  - intros pt va v i. rewrite Hpg. apply I7.
Qed.
Lemma private_ext s s' role fl lru pa :
  k_mem s' = k_mem s → private s role fl lru pa → private s' role fl lru pa.
Proof. intros Em [P1 P2 P3 P4 P5]. split; rewrite /leaf_v ?Em; done. Qed.

Definition victim_taken (s s' : kstate) (role : gmap Z ptrole) (fl lru : list Z) (pa idx : Z) : Prop :=
  ∃ s1 lru' v (i := clock_victim s lru) (pt := pg_pagetable (page_at s i)) (va := pg_vaddr (page_at s i)),
    ages role s s1 ∧ pa = i * PGSIZE ∧ i ∈ lru ∧ lru ≡ₚ i :: lru' ∧
    leaf_v s1 role pt va v ∧ tst v PTE_V = true ∧ PTE2PA v = pa ∧
    0 ≤ idx < SWAPMAX / 4 ∧ bitmap_at s idx = 0 ∧ detached s1 s' lru' i idx pt va v.

(** What swap_out() does not change before the transfer. *)
Definition mm_only (s s' : kstate) : Prop :=
  k_bufs s' = k_bufs s ∧ k_disk s' = k_disk s ∧ k_locks s' = k_locks s ∧ k_cur s' = k_cur s ∧
  k_procs s' = k_procs s.

Lemma ages_locks role s s1 l :
  ages role (set_locks l s) s1 → ages role s (set_locks (k_locks s) s1).
Proof.
  intros [F P D L W X]. split; [|done..]. rewrite {1}F. cbn [k_mem set_locks]. by destruct s.
Qed.

Lemma swap_pte_eq s a idx :
  0 ≤ idx < SWAPMAX / 4 →
  swap_pte a idx s = Ok tt (set_mem (st64 (k_mem s) a (swapped_pte (ld64 (k_mem s) a) idx)) s).
Proof.
  intros Hidx. rewrite /swap_pte /bind /load64 /store64 /mod_mem /gets /modify. cbn [k_mem set_mem].
  set (b := Z.lor _ _). assert (0 ≤ b < 2 ^ 64) as Hb.
  { apply lor_range; [lia| |apply u64_range]. pose proof (PTE_FLAGS_range (ld64 (k_mem s) a)) as Hf.
    rewrite /PTE_FLAGS in Hf. lia. }
  rewrite ld_st64_eq // st64_st64 ld_st64_eq; [pose proof (land_range_l b (Z.lnot PTE_V)); lia|].
  rewrite st64_st64. by destruct s.
Qed.

Lemma swap_out_victim_spec s role fl lru :
  mm_inv s role fl lru → k_locks s = [] →
  wp swap_out_victim (λ r s', mm_only s s' ∧
    match r with
    | None => (lru = [] ∨ slots_full s) ∧ ages role s s'
    | Some (pa, idx) => victim_taken s s' role fl lru pa idx
    end) s.
Proof.
  intros Hmm Hlk. rewrite /swap_out_victim.
  apply wp_bind, wp_acquire; [rewrite Hlk; apply not_elem_of_nil|]. rewrite Hlk.
  set (s0 := set_locks [lru_lock] s). assert (mm_inv s0 role fl lru) as Hmm0 by by apply (mm_inv_ext s).
  apply wp_bind, wp_gets. rewrite (lo_head _ _ (mi_lru _ _ _ _ Hmm0)).
  destruct (head lru) as [h|] eqn:Eh; last first.
  { apply wp_bind. eapply (wp_release lru_lock []); [done|apply not_elem_of_nil|]. apply wp_ret.
    assert (set_locks [] s0 = s) as -> by (destruct s; cbn in *; by subst).
    split; [done|]. split; [left; by destruct lru|apply ages_refl, Hmm]. }
  apply wp_bind, wp_gets, wp_bind.
  destruct (clock_spec role fl lru h s0 (clock_fuel s0) Hmm0 Eh) as (s1 & Hc & Hi & Ha & _ & _).
  { pose proof (lru_length _ _ (mi_lru _ _ _ _ Hmm0)). rewrite /clock_fuel. lia. }
  change (clock_victim s0 lru) with (clock_victim s lru) in *. set (i := clock_victim s lru) in *.
  eapply wp_eq; [exact Hc|]. apply wp_bind.
  pose proof (ages_mm _ _ _ _ _ Hmm0 Ha) as Hmm1. pose proof (ag_frame _ _ _ Ha) as F1.
  assert (k_locks s1 = [lru_lock]) as L1 by by rewrite F1.
  wp_use (alloc_slot_spec s1); [rewrite L1; set_solver|].
  intros idx s2 [(-> & Hfull & ->)|(Hidx & Hz & _ & E2)].
  { apply wp_bind. eapply (wp_release lru_lock []); [done|apply not_elem_of_nil|]. apply wp_ret.
    rewrite -Hlk. split; [rewrite F1; done|]. split; [right|exact (ages_locks _ _ _ _ Ha)].
    intros j Hj. specialize (Hfull j Hj). rewrite F1 in Hfull. exact Hfull. }
  rewrite (proj2 (Z.eqb_neq idx (-1))); [lia|].
  destruct (list_elem_of_split _ _ Hi) as (l1 & l2 & El).
  apply wp_bind. wp_use (lru_unlink_ok s2 l1 i l2 _ (l2 ++ l1)).
  { rewrite -El. apply (lru_ok_ext s1); [by rewrite E2..|apply Hmm1]. }
  { apply Permutation_app_comm. }
  { exists [], (l2 ++ l1). by rewrite app_nil_r. }
  { done. }
  intros _ s3 (F3 & L3 & O3). destruct (lru_only_keeps _ _ F3) as (M3 & FL3 & B3 & BU3 & D3 & P3 & C3).
  assert (k_mem s3 = k_mem s1) as M31 by by rewrite M3 E2.
  apply wp_bind. eapply wp_eq; [by apply swap_pte_eq|]. rewrite M31.
  set (s4 := set_mem _ s3). apply wp_bind.
  assert (k_locks s4 = [lru_lock]) as L4 by (transitivity (k_locks s2); [exact L3|by rewrite E2]).
  eapply (wp_release lru_lock []); [exact L4|apply not_elem_of_nil|]. apply wp_ret.
  destruct (mi_lru_map _ _ _ _ Hmm1 i Hi) as (v & Hlv & HV & HP).
  assert (page_at s1 i = page_at s i) as Epg by (by rewrite (ages_page _ _ _ _ Ha)).
  destruct (leaf_v_walk _ _ _ _ _ Hlv) as (_ & Hld & _).
  split.
  { assert (mm_only s0 s1) as (G1 & G2 & _ & G4 & G5) by (rewrite F1; done).
    unfold s4. repeat apply conj; kproj; rewrite ?BU3 ?D3 ?C3 ?P3 ?E2 ?Hlk; kproj; by rewrite ?G1 ?G2 ?G4 ?G5. }
  exists (set_locks (k_locks s) s1), (l2 ++ l1), v. cbv zeta. fold i. rewrite -Epg.
  split; [exact (ages_locks _ _ _ _ Ha)|]. split; [done|]. split; [done|].
  split; [rewrite El; solve_Permutation|]. split; [exact Hlv|]. split; [done|]. split; [done|].
  split; [done|]. split; [rewrite F1 in Hz; exact Hz|]. split.
  - rewrite /s4. kproj. by rewrite /entry_addr Hld.
  - apply (lru_ok_ext s3); [by rewrite /s4; kproj..|done].
  - intros j. destruct F3 as [_ F3]. destruct (F3 j) as [G1 G2].
    change (page_at (set_locks [] s4) j) with (page_at s3 j). rewrite G1 G2 E2. done.
  - rewrite /s4. kproj. rewrite FL3 E2. by kproj.
  - intros j. change (bitmap_at (set_locks [] s4) j) with (bitmap_at s3 j).
    change (bitmap_at (set_locks (k_locks s) s1) j) with (bitmap_at s1 j).
    rewrite -bitmap_at_set -E2 /bitmap_at B3 //.
  - rewrite /s4. kproj. rewrite D3 E2. by kproj.
Qed.

Lemma view_io s s' pt va :
  k_mem s' = k_mem s → (∀ v, pte_of (k_mem s) pt va = Some v → tst v PTE_V = false → tst v PTE_S = true →
    slot_bytes s' (Z.shiftr v 10) = slot_bytes s (Z.shiftr v 10)) →
  view s' pt va = view s pt va.
Proof.
  intros Em Hs. rewrite /view Em. destruct (pte_of (k_mem s) pt va) as [v|] eqn:E; [|done].
  destruct (tst v PTE_V) eqn:EV; [done|]. destruct (tst v PTE_S) eqn:ES; [|done]. by rewrite Hs.
Qed.

Lemma u8_rd_bytes m a n : u8 <$> rd_bytes m a n = rd_bytes m a n.
Proof.
  apply list_eq. intros i. rewrite list_lookup_fmap. destruct (rd_bytes m a n !! i) as [b|] eqn:E; [|done].
  cbn. f_equal. apply u8_id. pose proof (rd_bytes_bytes m a n) as Hf. exact (Forall_lookup_1 _ _ _ _ Hf E).
Qed.

(** Walks end at the same entries, entries of pages that are not in memory still
    name the same slot, and no page came into memory. *)
Record same_slots (role : gmap Z ptrole) (s s' : kstate) : Prop := {
  ss_walk pt va : is_root role pt → walk_pure (k_mem s') pt va = walk_pure (k_mem s) pt va;
  ss_leaf pt va v : leaf_v s role pt va v → tst v PTE_V = false →
    ∃ v', leaf_v s' role pt va v' ∧ sim v v';
  ss_valid pt va v' : leaf_v s' role pt va v' → tst v' PTE_V = true →
    ∃ v, leaf_v s role pt va v ∧ tst v PTE_V = true ∧ PTE2PA v = PTE2PA v';
  ss_dirs : agree_dirs role (k_mem s) (k_mem s')
}.
Lemma same_slots_refl role s : same_slots role s s.
Proof. split; [done| | |done]; intros pt va v Hl Hv; exists v; (split; [done|]); [reflexivity|by split]. Qed.
Lemma same_slots_trans role s1 s2 s3 :
  same_slots role s1 s2 → same_slots role s2 s3 → same_slots role s1 s3.
Proof.
  intros [W1 L1 V1 D1] [W2 L2 V2 D2]. split; [intros pt va Hr; by rewrite W2 // W1| | |].
  - intros pt va v Hl HV. destruct (L1 pt va v Hl HV) as (v1 & Hl1 & S1).
    destruct (L2 pt va v1 Hl1) as (v2 & Hl2 & S2); [destruct S1 as (_ & -> & _); done|].
    exists v2. split; [done|]. by transitivity v1.
  - intros pt va v Hl HV. destruct (V2 pt va v Hl HV) as (v1 & Hl1 & HV1 & E1).
    destruct (V1 pt va v1 Hl1 HV1) as (v2 & Hl2 & HV2 & E2). exists v2. split_and!; [done..|congruence].
  - intros P root lvl pre x HP Hl Hx. rewrite (D2 P root lvl pre x) // (D1 P root lvl pre x) //.
Qed.
Lemma same_slots_mem role s s' : k_mem s' = k_mem s → same_slots role s s'.
Proof.
  intros E. split; rewrite /leaf_v /agree_dirs ?E //; intros pt va v Hl Hv; exists v; (split; [done|]); [reflexivity|by split].
Qed.
Lemma ages_slots role s s' : ages role s s' → same_slots role s s'.
Proof.
  intros Ha. split; [apply Ha| | |apply Ha].
  - intros pt va v Hl _. by apply (ages_leaf_fwd role s).
  - intros pt va v' Hl HV. destruct (ages_leaf role s s' pt va v' Ha Hl) as (v & Hl' & Hs). exists v.
    rewrite (PTE2PA_sim v v' Hs). destruct Hs as (_ & E & _). by rewrite -E.
Qed.
Lemma agree_slots role s s' :
  pt_ok (k_mem s) role → agree_pt role (k_mem s) (k_mem s') → same_slots role s s'.
Proof.
  intros Hp Ha. assert (∀ pt va v, leaf_v s role pt va v ↔ leaf_v s' role pt va v) as Hl.
  { intros pt va v. rewrite /leaf_v. split; intros [Hu Hl]; (split; [done|]); revert Hl;
      rewrite (agree_pt_pte role (k_mem s)) //; apply Hu. }
  split; [| | |by apply agree_pt_dirs].
  - intros pt va Hr. apply (walk_agree role (k_mem s)); [done|done|]. by apply agree_pt_dirs.
  - intros pt va v Hv _. exists v. split; [by apply Hl|reflexivity].
  - intros pt va v Hv HV. exists v. split; [by apply Hl|by split].
Qed.

Definition oom (s : kstate) (lru : list Z) : Prop := lru = [] ∨ slots_full s.

Lemma mm_only_ready s s' p : mm_only s s' → swap_ready p s → swap_ready p s'.
Proof. intros (E1 & E2 & E3 & E4 & _). by apply swap_ready_ext. Qed.

Lemma swap_out_spec s role fl lru p :
  mm_inv s role fl lru → swap_ready p s →
  wp swap_out (λ pa s', swap_ready p s' ∧ procs_woken s s' ∧ same_slots role s s' ∧ same_views role s s' ∧
    if pa =? 0 then oom s lru ∧ mm_inv s' role fl lru
    else pa / PGSIZE = clock_victim s lru ∧ ∃ lru', lru ≡ₚ pa / PGSIZE :: lru' ∧
      mm_inv s' role fl lru' ∧ private s' role fl lru' pa ∧ agree_data role (k_mem s) (k_mem s')) s.
Proof.
  intros Hmm Hsr. rewrite /swap_out. apply wp_bind.
  wp_use (swap_out_victim_spec s role fl lru Hmm (sr_locks _ _ Hsr)).
  intros r s1 (Hmo & Hr). pose proof (mm_only_ready _ _ _ Hmo Hsr) as Hsr1.
  assert (procs_woken s s1) as Hpw.
  { intros i. rewrite /proc_at. destruct Hmo as (_ & _ & _ & _ & ->). apply woken_refl. }
  destruct r as [[pa idx]|]; last first.
  { apply wp_ret. destruct Hr as [Ho Ha]. split; [done|]. split; [done|].
    split; [exact (ages_slots _ _ _ Ha)|].
    split; [exact (ages_views _ _ _ _ _ Hmm Ha)|]. split; [done|]. exact (ages_mm _ _ _ _ _ Hmm Ha). }
  destruct Hr as (s0 & lru' & v & Ha & Hpa & Hi & Hperm & Hl & HV & HP & Hidx & Hz & Hd).
  set (i := clock_victim s lru) in *. pose proof (ages_mm _ _ _ _ _ Hmm Ha) as Hmm0.
  rewrite Hpa in HP. rewrite -(ages_page _ _ _ i Ha) in Hl, Hd.
  assert (bitmap_at s0 idx = 0) as Hz0 by by rewrite (ag_frame _ _ _ Ha).
  pose proof (detach_mm s0 s1 role fl lru lru' i idx v Hmm0 Hi Hperm Hl HV HP Hidx Hz0 Hd) as Hmm1.
  pose proof (detach_private s0 s1 role fl lru lru' i idx v Hmm0 Hi Hperm Hl HV HP Hidx Hz0 Hd) as Hpriv.
  pose proof (detach_victim s0 s1 role fl lru lru' i idx v Hmm0 Hi Hperm Hl HV HP Hidx Hz0 Hd) as [V0 _].
  pose proof (detach_pte s0 s1 role fl lru lru' i idx v Hmm0 Hi Hperm Hl HV HP Hidx Hz0 Hd) as Hpte.
  pose proof (detach_views s0 s1 role fl lru lru' i idx v Hmm0 Hi Hperm Hl HV HP Hidx Hz0 Hd) as Vo.
  pose proof (ages_views _ _ _ _ _ Hmm Ha) as Va.
  pose proof (detach_data s0 s1 role fl lru lru' i idx v Hmm0 Hi Hperm Hl HV HP Hidx Hz0 Hd) as [Hdat _].
  assert (agree_dirs role (k_mem s0) (k_mem s1)) as Hdirs.
  { rewrite (dt_mem _ _ _ _ _ _ _ _ Hd). apply leaf_store; [apply Hmm0|apply Hl|]. exact (proj1 (leaf_v_walk _ _ _ _ _ Hl)). }
  apply wp_bind. wp_use (swapwrite_spec s1 p pa idx Hsr1 Hidx).
  intros _ s2 (Hio & Hw2 & Hsr2 & Hsl & Hot). apply wp_ret.
  destruct (io_only_keeps _ _ Hio) as (M2 & FL2 & PG2 & LH2 & B2 & _ & _).
  split; [done|]. split; [exact (procs_woken_trans _ _ _ Hpw Hw2)|]. split; [|split].
  - apply (same_slots_trans role s s0); [by apply ages_slots|].
    apply (same_slots_trans role s0 s1); [|by apply same_slots_mem]. split; [| | |exact Hdirs].
    + apply (detach_walk s0 s1 role fl lru lru' i idx v Hmm0 Hi Hperm Hl HV HP Hidx Hz0 Hd).
    + intros pt va w Hlw HwV. exists w. split; [|reflexivity].
      apply (detach_fwd s0 s1 role fl lru lru' i idx v Hmm0 Hi Hperm Hl HV HP Hidx Hz0 Hd); [done|].
      intros [-> ->]. destruct Hl as [_ Hl1], Hlw as [_ Hl2]. congruence.
    + intros pt va w Hw HwV. exists w. split; [|by split].
      by apply (detach_V s0 s1 role fl lru lru' i idx v Hmm0 Hi Hperm Hl HV HP Hidx Hz0 Hd).
  - intros pt va Hu. rewrite -(Va pt va Hu).
    destruct (decide (pt = pg_pagetable (page_at s0 i) ∧ va = pg_vaddr (page_at s0 i))) as [[-> ->]|Hne].
    + rewrite V0. destruct (swapped_pte_spec v idx Hidx) as (SR & SV & SS & SI & SM).
      rewrite /view M2 Hpte SV SS SI SM Hsl Hpa u8_rd_bytes. done.
    + rewrite -(Vo pt va Hu Hne). apply view_io; [done|]. intros w Ew WV WS.
      apply (slot_bytes_other s1 s2 idx); [done|]. intros E.
      apply Hne. destruct (swapped_pte_spec v idx Hidx) as (SR & SV & SS & SI & SM).
      apply (mi_slot_inj _ _ _ _ Hmm1 pt va w _ _ (swapped_pte v idx)); [by split|done|done| |done|done|by rewrite SI].
      split; [apply Hl|exact Hpte].
  - assert (pa ≠ 0) as Hn0.
    { destruct (pv_ram _ _ _ _ _ Hpriv) as [_ Hr]. rewrite -Hpa in Hr.
      pose proof img_order as (? & ? & ?). unfold KERNBASE in *. lia. }
    rewrite (proj2 (Z.eqb_neq _ _)) // {1 2}Hpa Z.div_mul //. split; [done|]. exists lru'.
    split; [done|]. split; [by apply (mm_inv_ext s1)|]. split; [apply (private_ext s1); [done|]; by rewrite Hpa|].
    rewrite M2. intros P x HP1 HP2 Hx. rewrite (Hdat P x) // (ag_data _ _ _ Ha P x) //.
Qed.

(** ** Allocating and freeing *)

(** Writing to a page in private use disturbs nothing. *)
Section private_write.
Context (s : kstate) (role : gmap Z ptrole) (fl lru : list Z) (pa : Z) (m' : gmap Z Z).
Context (Hmm : mm_inv s role fl lru) (Hp : private s role fl lru pa).
Context (Hm : ∀ x, ¬ (pa ≤ x < pa + PGSIZE) → ld8 m' x = ld8 (k_mem s) x).

Lemma private_agree : agree_pt role (k_mem s) m'.
Proof using All.
  apply (page_change_agree role _ _ pa); [|apply Hp|apply Hp|done].
  intros P r HP. by apply (pt_page _ _ (mi_pt _ _ _ _ Hmm) P r).
Qed.
Lemma private_leaf pt va v : leaf_v (set_mem m' s) role pt va v ↔ leaf_v s role pt va v.
Proof using All.
  rewrite /leaf_v. split; intros [Hu Hl]; (split; [done|]); revert Hl; cbn [k_mem set_mem];
    rewrite (agree_pt_pte role (k_mem s)) //; try apply Hmm; try apply private_agree; apply Hu.
Qed.
Lemma other_page P :
  P mod PGSIZE = 0 → P ≠ pa → rd_bytes m' P 4096 = rd_bytes (k_mem s) P 4096 ∧ ld64 m' P = ld64 (k_mem s) P.
Proof using All.
  intros HP Hne. destruct (pv_ram _ _ _ _ _ Hp) as [Hpa _]. unfold PGSIZE in *.
  split; [apply rd_bytes_ext|apply ld64_ext]; intros x Hx; apply Hm; dlia.
Qed.

Lemma private_mm : mm_inv (set_mem m' s) role fl lru.
Proof using All.
  destruct (Hmm) as [I1 I2 I3 [I4 I4'] I5 I6 I7 I8 I9 I10]. split; [| | |done|done| | | | |].
  - apply (agree_pt_ok role (k_mem s)); [done|apply private_agree].
  - by apply (lru_ok_ext s).
  - apply (chain_ext (k_mem s)); [|done]. intros x Hx. destruct (I4' x Hx) as ([Ha _] & _).
    apply other_page; [done|]. intros ->. by apply (pv_fl _ _ _ _ _ Hp).
  - intros i Hi. destruct (I6 i Hi) as (v & Hl & HV). exists v. by rewrite private_leaf.
  - intros pt va v i Hl. apply (private_leaf pt va v) in Hl. exact (I7 pt va v i Hl).
  - intros pt va v Hl. apply (private_leaf pt va v) in Hl. exact (I8 pt va v Hl).
  - intros pt va v Hl. apply (private_leaf pt va v) in Hl. exact (I9 pt va v Hl).
  - intros pt va v pt2 va2 v2 Hl HV HS Hl2.
    apply (private_leaf pt va v) in Hl. apply (private_leaf pt2 va2 v2) in Hl2. exact (I10 pt va v pt2 va2 v2 Hl HV HS Hl2).
Qed.
Lemma private_private : private (set_mem m' s) role fl lru pa.
Proof using All.
  destruct (Hp) as [P1 P2 P3 P4 P5]. split; try done. intros pt va v Hl. apply (private_leaf pt va v) in Hl. exact (P5 pt va v Hl).
Qed.
Lemma private_views : same_views role s (set_mem m' s).
Proof using All.
  intros pt va Hu. rewrite /view. cbn [k_mem set_mem].
  rewrite (agree_pt_pte role (k_mem s)); [apply Hmm|apply private_agree|apply Hu|].
  destruct (pte_of (k_mem s) pt va) as [v|] eqn:E; [|done]. destruct (tst v PTE_V) eqn:EV; [|done].
  do 2 f_equal. apply other_page; [apply PTE2PA_aligned|]. by apply (pv_leaf _ _ _ _ _ Hp pt va v).
Qed.
End private_write.

(** Taking the first free page. *)
Lemma take_free s role x fl lru :
  mm_inv s role (x :: fl) lru →
  let s' := set_freelist (ld64 (k_mem s) x) s in
  mm_inv s' role fl lru ∧ private s' role fl lru x ∧ same_views role s s'.
Proof.
  intros [I1 I2 I3 [I4 I4'] I5 I6 I7 I8 I9 I10] s'. apply NoDup_cons in I4 as [Hx Hnd].
  destruct (I4' x ltac:(left)) as (R1 & R2 & R3). split_and!; [split| |done]; try done.
  - by apply (lru_ok_ext s).
  - by destruct I3 as [_ ?].
  - split; [done|]. intros pa Hpa. apply I4'. by right.
  - intros pt va v Hl HV. destruct (I8 pt va v Hl HV) as [B1 B2]. split; [done|]. set_solver.
  - split; try done. intros pt va v Hl HV E. destruct (I8 pt va v Hl HV) as [_ B2]. apply B2. rewrite E. left.
Qed.

(** Giving a private page to the free list. *)
Lemma give_free s role fl lru pa (s' := set_freelist pa (set_mem (st64 (k_mem s) pa (k_freelist s)) s)) :
  mm_inv s role fl lru → private s role fl lru pa → 0 ≤ k_freelist s < 2 ^ 64 →
  mm_inv s' role (pa :: fl) lru ∧ same_views role s s'.
Proof.
  intros Hmm Hp Hf. set (m' := st64 (k_mem s) pa (k_freelist s)).
  assert (∀ x, ¬ (pa ≤ x < pa + PGSIZE) → ld8 m' x = ld8 (k_mem s) x) as Hm.
  { intros x Hx. apply ld8_st64_ne. rewrite /PGSIZE in Hx. lia. }
  pose proof (private_private s role fl lru pa m' Hmm Hp Hm) as [P1 P2 P3 P4 P5].
  pose proof (private_views s role fl lru pa m' Hmm Hp Hm) as Hv.
  destruct (private_mm s role fl lru pa m' Hmm Hp Hm) as [I1 I2 I3 [I4 I4'] I5 I6 I7 I8 I9 I10].
  split; [|exact Hv]. split; try done.
  - by apply (lru_ok_ext (set_mem m' s)).
  - split; [done|]. change (k_mem s') with m'. by rewrite /m' ld_st64_eq.
  - split; [by constructor|]. intros q [->|Hq]%elem_of_cons; [done|by apply I4'].
  - intros pt va v Hl HV. destruct (I8 pt va v Hl HV) as [B1 B2]. split; [done|].
    intros [E|]%elem_of_cons; [|done]. by apply (P5 pt va v).
Qed.

Lemma ram_range pa : ram_page pa → 0 < pa < 2 ^ 64 ∧ pa ≠ 0.
Proof.
  intros [_ Hr]. pose proof img_order as (? & ? & ?). unfold KERNBASE, PHYSTOP, KERNBASE in *. lia.
Qed.
Lemma mm_freelist s role fl lru :
  mm_inv s role fl lru → k_freelist s = default 0 (head fl) ∧ 0 ≤ k_freelist s < 2 ^ 64.
Proof.
  intros Hmm. pose proof (mi_chain _ _ _ _ Hmm) as Hc. destruct fl as [|x fl]; cbn in Hc |- *; [rewrite Hc; lia|].
  destruct Hc as [-> _]. destruct (proj2 (mi_fl _ _ _ _ Hmm) x ltac:(left)) as [Hr _].
  apply ram_range in Hr. lia.
Qed.

Lemma same_views_trans role s1 s2 s3 :
  same_views role s1 s2 → same_views role s2 s3 → same_views role s1 s3.
Proof. intros H1 H2 pt va Hu. by rewrite H2 // H1. Qed.
Lemma same_views_refl role s : same_views role s s.
Proof. by intros pt va. Qed.

Lemma memset_other m pa c x : ¬ (pa ≤ x < pa + PGSIZE) → ld8 (memset m pa c PGSIZE) x = ld8 m x.
Proof. intros Hx. rewrite ld8_memset // decide_False //. Qed.
Lemma rd_memset m pa c : rd_bytes (memset m pa c PGSIZE) pa 4096 = replicate 4096 (u8 c).
Proof.
  apply list_eq. intros i. destruct (decide (i < 4096)%nat).
  - rewrite rd_bytes_lookup // ld8_memset // decide_True; [unfold PGSIZE; lia|].
    by rewrite lookup_replicate_2.
  - rewrite !lookup_ge_None_2 //; rewrite ?length_rd_bytes ?length_replicate; lia.
Qed.

Record allocated (p : nat) (role : gmap Z ptrole) (s s' : kstate) : Prop := {
  al_ready : swap_ready p s';
  al_woken : procs_woken s s';
  al_slots : same_slots role s s';
  al_views : same_views role s s'
}.

Lemma fill_page s s1 role fl lru pa p c :
  mm_inv s1 role fl lru → private s1 role fl lru pa → allocated p role s s1 → 0 ≤ c < 256 →
  let s' := set_mem (memset (k_mem s1) pa c PGSIZE) s1 in
  mm_inv s' role fl lru ∧ private s' role fl lru pa ∧ allocated p role s s' ∧
  rd_bytes (k_mem s') pa 4096 = replicate 4096 c.
Proof.
  intros Hmm Hp [A1 A2 A4 A3] Hc s'. set (m' := memset _ _ _ _) in s'.
  pose proof (memset_other (k_mem s1) pa c) as Hm. fold m' in Hm.
  split; [by apply (private_mm s1 role fl lru pa)|]. split; [by apply (private_private s1 role fl lru pa)|].
  split; [|rewrite -(u8_id c Hc); apply rd_memset]. split; [by apply (swap_ready_ext p s1)|done| |].
  { apply (same_slots_trans role s s1); [done|]. apply agree_slots; [apply Hmm|].
    exact (private_agree s1 role fl lru pa m' Hmm Hp Hm). }
  eapply same_views_trans; [exact A3|]. by apply (private_views s1 role fl lru pa).
Qed.

(** The page kalloc() returns comes from the free list, or else from the
    process the clock chose. *)
Definition page_source (s : kstate) (fl lru fl' lru' : list Z) (pa : Z) : Prop :=
  (fl = pa :: fl' ∧ lru' = lru) ∨
  (fl = [] ∧ fl' = [] ∧ pa / PGSIZE = clock_victim s lru ∧ lru ≡ₚ pa / PGSIZE :: lru').

(** Printing to the console is not an allocation. *)
Lemma allocated_uart s s' u role p : allocated p role s s' → allocated p role s (set_uart u s').
Proof.
  intros [A1 A2 A3 A4]. split; [by apply (swap_ready_ext p s')|done| |done].
  apply (same_slots_trans role s s'); [done|]. by apply same_slots_mem.
Qed.

Lemma kalloc_spec s role fl lru p :
  mm_inv s role fl lru → swap_ready p s →
  wp kalloc (λ pa s', allocated p role s s' ∧
    if pa =? 0 then fl = [] ∧ oom s lru ∧ mm_inv s' role fl lru
    else ∃ fl' lru', page_source s fl lru fl' lru' pa ∧ mm_inv s' role fl' lru' ∧
      private s' role fl' lru' pa ∧ rd_bytes (k_mem s') pa 4096 = replicate 4096 5 ∧
      ∀ P, P mod PGSIZE = 0 → role !! P = None → P ≠ pa → rd_bytes (k_mem s') P 4096 = rd_bytes (k_mem s) P 4096) s.
Proof.
  intros Hmm Hsr. pose proof (sr_locks _ _ Hsr) as Hlk. rewrite /kalloc.
  apply wp_bind, wp_acquire; [rewrite Hlk; apply not_elem_of_nil|]. rewrite Hlk.
  apply wp_bind, wp_gets. change (k_freelist (set_locks [kmem_lock] s)) with (k_freelist s).
  destruct (mm_freelist _ _ _ _ Hmm) as [Ef _]. rewrite Ef.
  assert (set_locks [] (set_locks [kmem_lock] s) = s) as Els by (destruct s; cbn in *; by subst).
  destruct fl as [|x fl]; cbn [head default from_option].
  - apply wp_bind. cbn [Z.eqb]. apply wp_ret, wp_bind.
    eapply (wp_release kmem_lock []); [done|apply not_elem_of_nil|]. rewrite Els. apply wp_bind.
    wp_use (swap_out_spec s role [] lru p Hmm Hsr). intros pa s1 (Hsr1 & Hw1 & Hs1 & Hv1 & Hres).
    destruct (pa =? 0) eqn:E0.
    + destruct Hres as [Ho Hmm1]. apply wp_bind. wp_use cprintf_spec; [vm_compute; reflexivity|]. intros _ s2 F.
      apply wp_ret. rewrite F Z.eqb_refl. split; [|split; [done|split; [done|by apply (mm_inv_ext s1)]]].
      exact (allocated_uart s s1 (k_uart s2) role p (Build_allocated _ _ _ _ Hsr1 Hw1 Hs1 Hv1)).
    + destruct Hres as (Hvic & lru' & Hperm & Hmm1 & Hp & Hdat). apply wp_bind, wp_modify, wp_ret.
      destruct (fill_page s s1 role [] lru' pa p 5) as (G1 & G2 & G3 & G4); [done|done|by split|lia|].
      split; [exact G3|]. rewrite E0. exists [], lru'. split; [right; repeat split; done|].
      split; [exact G1|]. split; [exact G2|]. split; [exact G4|]. intros P HP1 HP2 HP3.
      rewrite -(agree_data_page role (k_mem s) (k_mem s1) P Hdat HP1 HP2).
      apply (other_page s1 role [] lru' pa _ Hmm1 Hp (memset_other (k_mem s1) pa 5) P HP1 HP3).
  - destruct (proj2 (mi_fl _ _ _ _ Hmm) x ltac:(left)) as [Hr _]. apply ram_range in Hr as [_ Hx].
    rewrite (proj2 (Z.eqb_neq _ _) Hx). apply wp_bind, wp_bind, wp_gets, wp_modify, wp_bind.
    eapply (wp_release kmem_lock []); [done|apply not_elem_of_nil|]. apply wp_bind, wp_ret.
    rewrite (proj2 (Z.eqb_neq _ _) Hx). apply wp_bind, wp_modify, wp_ret.
    set (s1 := set_locks [] _).
    assert (s1 = set_freelist (ld64 (k_mem s) x) s) as -> by (rewrite /s1; destruct s; cbn in *; by subst).
    destruct (take_free s role x fl lru Hmm) as (G1 & G2 & G3).
    destruct (fill_page s (set_freelist (ld64 (k_mem s) x) s) role fl lru x p 5) as (F1 & F2 & F3 & F4);
      [done|done|split; [by apply (swap_ready_ext p s)|intros i; apply woken_refl|by apply same_slots_mem|done]|lia|].
    split; [exact F3|]. rewrite (proj2 (Z.eqb_neq _ _) Hx). exists fl, lru. split; [left; by split|].
    split; [exact F1|]. split; [exact F2|]. split; [exact F4|]. intros P HP1 HP2 HP3.
    apply (other_page (set_freelist (ld64 (k_mem s) x) s) role fl lru x _ G1 G2 (memset_other (k_mem s) x 5) P HP1 HP3).
Qed.

Lemma kfree_run s pa : ram_page pa → k_locks s = [] →
  kfree pa s = Ok tt (set_freelist pa (set_mem (st64 (memset (k_mem s) pa 1 PGSIZE) pa (k_freelist s)) s)).
Proof.
  intros [Hal Hrg] Hlk. set (m' := memset _ _ _ _).
  rewrite /kfree (proj2 (Z.eqb_eq _ _) Hal) (proj2 (Z.ltb_ge _ _)); [lia|]. rewrite (proj2 (Z.leb_gt _ _)); [lia|].
  cbn [negb orb]. rewrite /bind /mod_mem {1}/modify -/m' acquire_eq; cbn [k_locks set_mem];
    [rewrite Hlk; apply not_elem_of_nil|]. rewrite Hlk /gets /store64 /mod_mem /modify.
  rewrite (release_eq _ []); [done|apply not_elem_of_nil|]. clearbody m'.
  cbn [k_mem k_freelist set_mem set_locks]. f_equal. destruct s; cbn in Hlk |- *; by subst.
Qed.
Lemma kfree_eq s role fl lru pa (m' := memset (k_mem s) pa 1 PGSIZE)
    (s' := set_freelist pa (set_mem (st64 m' pa (k_freelist s)) s)) :
  mm_inv s role fl lru → private s role fl lru pa → k_locks s = [] →
  kfree pa s = Ok tt s' ∧ mm_inv s' role (pa :: fl) lru ∧ same_slots role s s' ∧ same_views role s s'.
Proof.
  intros Hmm Hp Hlk. destruct (pv_ram _ _ _ _ _ Hp) as [Hal Hrg]. split.
  - by apply kfree_run.
  - pose proof (memset_other (k_mem s) pa 1) as Hm. fold m' in Hm.
    clearbody m'. pose proof (private_mm s role fl lru pa m' Hmm Hp Hm) as F1.
    pose proof (private_private s role fl lru pa m' Hmm Hp Hm) as F2.
    pose proof (private_views s role fl lru pa m' Hmm Hp Hm) as F3.
    destruct (give_free (set_mem m' s) role fl lru pa F1 F2) as [G1 G2];
      [exact (proj2 (mm_freelist _ _ _ _ F1))|].
    split; [exact G1|]. split; [|exact (same_views_trans _ _ _ _ F3 G2)].
    apply agree_slots; [apply Hmm|]. apply (private_agree s role fl lru pa); [done|done|].
    intros x Hx. rewrite -Hm //. apply ld8_st64_ne. unfold PGSIZE in Hx. lia.
Qed.

Lemma kfree_spec s role fl lru pa p :
  mm_inv s role fl lru → swap_ready p s → private s role fl lru pa →
  wp (kfree pa) (λ _ s', allocated p role s s' ∧ mm_inv s' role (pa :: fl) lru) s.
Proof.
  intros Hmm Hsr Hp. destruct (kfree_eq s role fl lru pa Hmm Hp (sr_locks _ _ Hsr)) as (E & G1 & G2 & G3).
  eapply wp_eq; [exact E|]. split; [|done]. split; [by apply (swap_ready_ext p s)|intros i; apply woken_refl|done|done].
Qed.

(** kfree() of anything else is a panic. *)
Lemma kfree_bad s pa : ¬ ram_page pa → kfree pa s = Panic "kfree".
Proof.
  intros Hn. rewrite /kfree. destruct (_ || _) eqn:E; [done|]. exfalso. apply Hn.
  apply orb_false_iff in E as [[E1 E2]%orb_false_iff E3]. apply negb_false_iff in E1.
  split; lia.
Qed.

(** *** Boot *)

(** Before kinit() there is no page table, no free page and an empty list. *)
Lemma mm_boot s :
  k_freelist s = 0 → k_lru_head s = None → k_pages s = ∅ → mm_inv s ∅ [] [].
Proof.
  intros Hf Hh Hp. assert (∀ pt va v, ¬ leaf_v s ∅ pt va v) as Hno.
  { intros pt va v [[Hr _] _]. by rewrite /is_root lookup_empty in Hr. }
  split; try done.
  - split; [apply ring_nil|done|]. intros i _. by rewrite /pnx /page_at Hp lookup_empty.
  - split; [constructor|]. intros pa Hpa. by apply elem_of_nil in Hpa.
  - intros i Hi. by apply elem_of_nil in Hi.
  - intros i Hi. by apply elem_of_nil in Hi.
  - intros pt va v i Hl. by apply Hno in Hl.
  - intros pt va v Hl. by apply Hno in Hl.
  - intros pt va v Hl. by apply Hno in Hl.
  - intros pt va v pt' va' v' Hl. by apply Hno in Hl.
Qed.

(** The pages of a range, as freerange() visits them. *)
Definition range_pages (pa_start pa_end : Z) : list Z :=
  (λ i, PGROUNDUP pa_start + i * PGSIZE) <$> seqZ 0 ((pa_end - PGROUNDUP pa_start) / PGSIZE).

Lemma range_pages_ram pa : pa ∈ range_pages img_end PHYSTOP ↔ ram_page pa.
Proof.
  pose proof img_order as (O1 & O2 & O3). unfold KERNBASE, PHYSTOP, KERNBASE in *.
  destruct (PGROUNDUP_spec img_end) as [A1 A2]; [lia|]. unfold PGSIZE in *.
  rewrite /range_pages list_elem_of_fmap. unfold ram_page, PGSIZE, PHYSTOP, KERNBASE. split.
  - intros (i & -> & Hi%elem_of_seqZ). dlia.
  - intros [Hm Hr]. exists ((pa - PGROUNDUP img_end) / 4096). rewrite elem_of_seqZ. dlia.
Qed.

Lemma range_pages_NoDup a b : NoDup (range_pages a b).
Proof. apply NoDup_fmap_2; [|apply NoDup_seqZ]. intros i j. rewrite /PGSIZE. lia. Qed.

Lemma kinit_spec s :
  k_freelist s = 0 → k_pages s = ∅ → k_locks s = [] →
  wp kinit (λ _ s', mm_inv s' ∅ (reverse (range_pages img_end PHYSTOP)) [] ∧
    k_locks s' = [] ∧ k_bitmap s' = ∅) s.
Proof.
  intros Hf Hp Hl. rewrite /kinit. apply wp_bind. rewrite /lru_init. wp_steps. rewrite /freerange.
  fold (range_pages img_end PHYSTOP). set (s0 := set_bitmap _ _).
  eapply wp_mono; [apply (wp_forM _ _ (λ l s, mm_inv s ∅ (reverse l) [] ∧ k_locks s = [] ∧ k_bitmap s = ∅))|done].
  { split; [by apply mm_boot|done]. }
  intros l1 pa l2 s1 El (Hmm & Hlk & Hbm). rewrite reverse_app /=.
  assert (pa ∈ range_pages img_end PHYSTOP) as Hin by (rewrite El; apply elem_of_app; right; left).
  pose proof (range_pages_NoDup img_end PHYSTOP) as Hnd. rewrite El in Hnd.
  destruct (kfree_eq s1 ∅ (reverse l1) [] pa Hmm) as (E & G & _); [|done|].
  { split; [by apply range_pages_ram|done| |apply not_elem_of_nil|].
    - rewrite elem_of_reverse. intros Hx. apply NoDup_app in Hnd as (_ & Hd & _). apply (Hd pa Hx). left.
    - intros pt va v [[Hr _] _]. by rewrite /is_root lookup_empty in Hr. }
  eapply wp_eq; [exact E|]. split; [exact G|done].
Qed.
End mm.
