(* ===== verification/Uvm.v ===== *)
(** Theorems about user address spaces: bringing a page back from swap,
    mapping and unmapping pages, the page fault of a swapped-out page. *)
From S2P Require Import Prelude Riscv Mem Ring State Sched Bio Walk Swap Kalloc Vm Mm.

Section uvm.
Context `{Image}.

(** ** Giving a page to an address space *)

(** [s'] is [s] with the private page [pa] mapped at [(pt, va)] by the valid
    entry [v'] and linked at the tail of the LRU list; the entry was [v]. *)
Record attached (s s' : kstate) (lru : list Z) (pa pt va v v' : Z) : Prop := {
  at_mem : k_mem s' = st64 (k_mem s) (walk_pure (k_mem s) pt va) v';
  at_lru : lru_ok s' (lru ++ [pa / PGSIZE]);
  at_page : pg_pagetable (page_at s' (pa / PGSIZE)) = pt ∧ pg_vaddr (page_at s' (pa / PGSIZE)) = va;
  at_other j : j ≠ pa / PGSIZE → pg_pagetable (page_at s' j) = pg_pagetable (page_at s j) ∧
    pg_vaddr (page_at s' j) = pg_vaddr (page_at s j);
  at_fl : k_freelist s' = k_freelist s;
  at_bitmap j : bitmap_at s' j = bitmap_at s j ∨ (tst v PTE_S = true ∧ j = Z.shiftr v 10);
  at_disk : k_disk s' = k_disk s;
  at_new : 0 ≤ v' < 2 ^ 64 ∧ tst v' PTE_V = true ∧ PTE2PA v' = pa
}.

Section attach.
Context (s s' : kstate) (role : gmap Z ptrole) (fl lru : list Z) (pa pt va v v' : Z).
Context (Hmm : mm_inv s role fl lru) (Hp : private s role fl lru pa).
Context (Hl : leaf_v s role pt va v) (HV : tst v PTE_V = false).
Context (Ha : attached s s' lru pa pt va v v').

Lemma attach_pte pt2 va2 : upage role pt2 va2 →
  pte_of (k_mem s') pt2 va2 = if decide (pt2 = pt ∧ va2 = va) then Some v' else pte_of (k_mem s) pt2 va2.
Proof using All.
  intros Hu. rewrite (at_mem _ _ _ _ _ _ _ _ Ha).
  apply (leaf_store_pte _ role); [apply Hmm|apply Hl| |apply Ha|done].
  exact (proj1 (leaf_v_walk _ _ _ _ _ Hl)).
Qed.
Lemma attach_leaf pt2 va2 w :
  leaf_v s' role pt2 va2 w →
  (pt2 = pt ∧ va2 = va ∧ w = v') ∨ (¬ (pt2 = pt ∧ va2 = va) ∧ leaf_v s role pt2 va2 w).
Proof using All.
  intros [Hu Hw]. rewrite attach_pte // in Hw. case_decide as E; [left|right; by split].
  destruct E. split; [done|]. split; [done|congruence].
Qed.
Lemma attach_fwd pt2 va2 w :
  leaf_v s role pt2 va2 w → ¬ (pt2 = pt ∧ va2 = va) → leaf_v s' role pt2 va2 w.
Proof using All. intros [Hu Hw] Hne. split; [done|]. by rewrite attach_pte // decide_False. Qed.
Lemma attach_data : agree_data role (k_mem s) (k_mem s') ∧ pt_ok (k_mem s') role.
Proof using All.
  rewrite (at_mem _ _ _ _ _ _ _ _ Ha). pose proof (mi_pt _ _ _ _ Hmm).
  destruct (leaf_v_walk _ _ _ _ _ Hl) as [Hw _]. destruct Hl as [Hu _].
  split; [by apply leaf_store|by apply leaf_store_pt].
Qed.
Lemma pa_index : pa / PGSIZE * PGSIZE = pa.
Proof using Hp. destruct (pv_ram _ _ _ _ _ Hp) as [Hal _]. unfold PGSIZE in *. dlia. Qed.

(** A swapped-out page other than [(pt, va)] keeps its slot. *)
Lemma attach_slot pt2 va2 w :
  leaf_v s role pt2 va2 w → ¬ (pt2 = pt ∧ va2 = va) → tst w PTE_V = false → tst w PTE_S = true →
  bitmap_at s' (Z.shiftr w 10) = bitmap_at s (Z.shiftr w 10).
Proof using All.
  intros Hw Hne WV WS. destruct (at_bitmap _ _ _ _ _ _ _ _ Ha (Z.shiftr w 10)) as [|[HS E]]; [done|].
  exfalso. apply Hne. by apply (mi_slot_inj _ _ _ _ Hmm pt2 va2 w pt va v).
Qed.

Lemma attach_mm : mm_inv s' role fl (lru ++ [pa / PGSIZE]).
Proof using All.
  destruct (Hmm) as [I1 I2 I3 [I4 I4'] I5 I6 I7 I8 I9 I10]. destruct (Hp) as [P1 P2 P3 P4 P5].
  pose proof attach_data as [Hdat Hpt]. destruct (Ha) as [A1 A2 A3 A4 A5 A6 A7 (A8 & A9 & A10)].
  pose proof pa_index as Hidx. split; [done|done| | | | | | | |].
  - rewrite A5. apply (chain_ext (k_mem s)); [|done]. intros q Hq.
    destruct (I4' q Hq) as ([Hm _] & Hr & _). by apply (agree_data_ld64 role).
  - split; [done|]. intros q Hq. destruct (I4' q Hq) as (R1 & R2 & R3).
    split; [done|]. split; [done|]. rewrite not_elem_of_app list_elem_of_singleton. split; [done|].
    intros E. apply P3. destruct R1 as [Hm _]. unfold PGSIZE in *. replace pa with q by dlia. done.
  - intros j [Hj| ->%list_elem_of_singleton]%elem_of_app; [by apply I5|]. by rewrite Hidx.
  - intros j [Hj| ->%list_elem_of_singleton]%elem_of_app.
    + assert (j ≠ pa / PGSIZE) as Hne by congruence. destruct (A4 j Hne) as [-> ->].
      destruct (I6 j Hj) as (w & Hw & WV & WP). exists w. split; [|done]. apply attach_fwd; [done|].
      intros [E1 E2]. rewrite E1 E2 in Hw. destruct Hl as [_ Hl'], Hw as [_ Hw']. congruence.
    + exists v'. destruct A3 as [-> ->]. split; [|by rewrite Hidx]. split; [apply Hl|].
      rewrite attach_pte; [apply Hl|]. by rewrite decide_True.
  - intros pt2 va2 w j Hw WV Hj WP. destruct (attach_leaf _ _ _ Hw) as [(-> & -> & ->)|[Hne Hw']].
    + assert (j = pa / PGSIZE) as -> by (unfold PGSIZE in *; dlia). by destruct A3 as [-> ->].
    + apply elem_of_app in Hj as [Hj| ->%list_elem_of_singleton].
      * assert (j ≠ pa / PGSIZE) as Hnj by congruence. destruct (A4 j Hnj) as [-> ->].
        by apply (I7 pt2 va2 w j).
      * exfalso. apply (P5 pt2 va2 w Hw' WV). by rewrite WP.
  - intros pt2 va2 w Hw WV. destruct (attach_leaf _ _ _ Hw) as [(-> & -> & ->)|[Hne Hw']].
    + by rewrite A10.
    + exact (I8 pt2 va2 w Hw' WV).
  - intros pt2 va2 w Hw WV WS. destruct (attach_leaf _ _ _ Hw) as [(-> & -> & ->)|[Hne Hw']]; [congruence|].
    rewrite (attach_slot pt2 va2 w) //. exact (I9 pt2 va2 w Hw' WV WS).
  - intros p1 a1 w1 p2 a2 w2 Hw1 V1 S1 Hw2 V2 S2.
    destruct (attach_leaf _ _ _ Hw1) as [(-> & -> & ->)|[Hne1 Hw1']]; [congruence|].
    destruct (attach_leaf _ _ _ Hw2) as [(-> & -> & ->)|[Hne2 Hw2']]; [congruence|].
    exact (I10 p1 a1 w1 p2 a2 w2 Hw1' V1 S1 Hw2' V2 S2).
Qed.

Lemma attach_views pt2 va2 :
  upage role pt2 va2 → ¬ (pt2 = pt ∧ va2 = va) → view s' pt2 va2 = view s pt2 va2.
Proof using All.
  intros Hu Hne. rewrite /view attach_pte // decide_False //.
  destruct (pte_of (k_mem s) pt2 va2) as [w|] eqn:Ew; [|done]. destruct (tst w PTE_V) eqn:EV.
  - do 2 f_equal. apply (agree_data_page role); [apply attach_data|apply PTE2PA_aligned|].
    by apply (mi_leaf _ _ _ _ Hmm pt2 va2 w).
  - destruct (tst w PTE_S); [|done]. do 3 f_equal. by rewrite /slot_bytes /block_at (at_disk _ _ _ _ _ _ _ _ Ha).
Qed.
Lemma attach_view : view s' pt va = Some (Z.land v' vmask, rd_bytes (k_mem s) pa 4096).
Proof using All.
  rewrite /view attach_pte; [apply Hl|]. rewrite decide_True //.
  destruct (at_new _ _ _ _ _ _ _ _ Ha) as (_ & -> & ->). do 2 f_equal.
  apply (agree_data_page role); [apply attach_data|apply Hp|apply Hp].
Qed.
End attach.


(** ** Bringing a page back *)

(** The entry that maps the page again. *)
Definition restored_flags (v extra : Z) : Z :=
  Z.lor (Z.lor (Z.land (PTE_FLAGS v) (Z.lnot PTE_S)) PTE_V) extra.

Lemma land_vmask_flags v : Z.land v vmask = Z.land (PTE_FLAGS v) vmask.
Proof. by rewrite /PTE_FLAGS -Z.land_assoc. Qed.

Lemma restored_spec v extra pa (v' := Z.lor (PA2PTE pa) (restored_flags v extra)) :
  ram_page pa → extra = 0 ∨ extra = PTE_A →
  0 ≤ v' < 2 ^ 64 ∧ tst v' PTE_V = true ∧ PTE2PA v' = pa ∧ Z.land v' vmask = Z.land v vmask.
Proof.
  intros [Hal Hr] He. pose proof (PTE_FLAGS_range v) as Hf.
  assert (0 ≤ extra < 1024) as Her by (destruct He as [-> | ->]; by vm_compute).
  assert (0 ≤ restored_flags v extra < 1024) as Hrf.
  { apply (lor_range _ _ 10); [lia| |done]. apply (flags_set_range _ 0); [lia|].
    by apply (flags_clear_range _ 9). }
  destruct (PTE_pack pa (restored_flags v extra) v') as (B1 & B2 & B3); [|done|done|done|].
  { pose proof img_order as (? & ? & ?). unfold KERNBASE, PHYSTOP, KERNBASE in *. lia. }
  split; [lia|]. split; [|split; [done|]].
  - rewrite /PTE_V tst_flags; [lia|]. rewrite B3 /restored_flags Z.lor_spec /PTE_V testbit_set //.
  - rewrite land_vmask_flags (land_vmask_flags v) B3 /restored_flags. apply Z.bits_inj'. intros n Hn.
    change vmask with 30. rewrite !Z.land_spec !Z.lor_spec /PTE_S !Z.land_spec Z.lnot_spec //.
    destruct (Z.leb_spec 5 n).
    { rewrite (testbit_high 30 5); [lia..|]. by rewrite !andb_false_r. }
    assert (n = 0 ∨ n = 1 ∨ n = 2 ∨ n = 3 ∨ n = 4) as [E|[E|[E|[E|E]]]] by lia; subst n;
      destruct He as [-> | ->]; cbn; by rewrite ?andb_false_r ?andb_true_r ?orb_false_r.
Qed.

Lemma free_slot_eq i s :
  swap_lock ∉ k_locks s → free_slot i s = Ok tt (set_bitmap (<[i := 0]> (k_bitmap s)) s).
Proof.
  intros Hl. rewrite /free_slot /bind acquire_eq // /modify (release_eq _ (k_locks s)); [done|done|by destruct s].
Qed.

Lemma lru_only_ready s s' p : lru_only s s' → k_locks s' = k_locks s → swap_ready p s → swap_ready p s'.
Proof.
  intros Ho Hl. destruct (lru_only_keeps _ _ Ho) as (_ & _ & _ & E1 & E2 & _ & E3). by apply swap_ready_ext.
Qed.

Lemma register_spec s lru pt va pa :
  lru_ok s lru → lru_lock ∉ k_locks s → pa / PGSIZE ∉ lru →
  wp (register pt va pa) (λ _ s', k_mem s' = k_mem s ∧ k_freelist s' = k_freelist s ∧
    k_bitmap s' = k_bitmap s ∧ k_bufs s' = k_bufs s ∧ k_disk s' = k_disk s ∧ k_procs s' = k_procs s ∧
    k_cur s' = k_cur s ∧ k_locks s' = k_locks s ∧ lru_ok s' (lru ++ [pa / PGSIZE]) ∧
    (pg_pagetable (page_at s' (pa / PGSIZE)) = pt ∧ pg_vaddr (page_at s' (pa / PGSIZE)) = va) ∧
    ∀ j, j ≠ pa / PGSIZE → pg_pagetable (page_at s' j) = pg_pagetable (page_at s j) ∧
      pg_vaddr (page_at s' j) = pg_vaddr (page_at s j)) s.
Proof.
  intros [Hr Hh Ho] Hlk Hni. set (i := pa / PGSIZE) in *. rewrite /register. fold i.
  apply wp_bind, wp_modify, wp_bind, wp_modify.
  set (s1 := upd_page i (set_pg_vaddr va) _).
  assert (∀ j, page_at s1 j = if decide (j = i) then Page (pg_next (page_at s i)) (pg_prev (page_at s i)) pt va
    else page_at s j) as Hpg.
  { intros j. rewrite /s1 !page_at_upd. case_decide; [|done]. by rewrite decide_True. }
  wp_use (lru_add_spec s1 pa lru); [|done|done|].
  { split; [|done|].
    - apply (ring_ext (pnx s) (ppv s)); [..|done]; intros x _; rewrite /pnx /ppv Hpg; case_decide; by subst.
    - intros j Hj. rewrite /pnx Hpg. case_decide; subst; by apply Ho. }
  intros _ s' (F & L & O). destruct (lru_only_keeps _ _ F) as (E1 & E2 & E3 & E4 & E5 & E6 & E7).
  split_and!; try done.
  - destruct (proj2 F i) as [-> _]. by rewrite Hpg decide_True.
  - destruct (proj2 F i) as [_ ->]. by rewrite Hpg decide_True.
  - intros j Hj. destruct (proj2 F j) as [-> ->]. by rewrite Hpg decide_False.
Qed.

(** What the process sees does not change when its page comes back: the slot
    is read into the page, freed, and the entry made valid again. *)
Lemma swap_in_spec s role fl lru p pt va v pa extra :
  mm_inv s role fl lru → swap_ready p s → private s role fl lru pa →
  leaf_v s role pt va v → tst v PTE_V = false → tst v PTE_S = true → extra = 0 ∨ extra = PTE_A →
  wp (swap_in pt va (walk_pure (k_mem s) pt va) pa extra) (λ flags s',
    flags = restored_flags v extra ∧ (swap_ready p s' ∧ procs_woken s s' ∧ same_views role s s') ∧
    mm_inv s' role fl (lru ++ [pa / PGSIZE]) ∧
    leaf_v s' role pt va (Z.lor (PA2PTE pa) flags) ∧ PTE2PA (Z.lor (PA2PTE pa) flags) = pa ∧
    tst (Z.lor (PA2PTE pa) flags) PTE_V = true ∧
    bitmap_at s' (Z.shiftr v 10) = 0) s.
Proof.
  intros Hmm Hsr Hp Hl HV HS He. rewrite /swap_in.
  destruct (leaf_v_walk _ _ _ _ _ Hl) as (Hw & Hld & Hva). set (w := walk_pure (k_mem s) pt va) in *.
  destruct (mi_slot _ _ _ _ Hmm pt va v Hl HV HS) as [Hidx _].
  apply wp_bind, wp_gets. rewrite Hld u32_id; [change (SWAPMAX / 4) with 7000 in Hidx; lia|].
  set (idx := Z.shiftr v 10) in *. apply wp_bind.
  wp_use (swapread_spec s p pa idx Hsr Hidx). intros _ s1 (Hio & Hpw & Hdk & Hsr1 & Hm1).
  destruct (io_mem_keeps _ _ Hio) as (FL1 & PG1 & LH1 & B1 & LK1 & C1).
  assert (length (slot_bytes s idx) = 4096%nat) as Hlen.
  { pose proof (bc_disk _ _ (proj2 (sr_bc _ _ Hsr))) as Hb. rewrite /slot_bytes !length_app !Hb. reflexivity. }
  set (m1 := wr_bytes (k_mem s) pa (slot_bytes s idx)) in *.
  assert (∀ x, ¬ (pa ≤ x < pa + PGSIZE) → ld8 m1 x = ld8 (k_mem s) x) as Hm.
  { intros x Hx. apply ld8_wr_bytes_ne. rewrite Hlen. unfold PGSIZE in Hx. lia. }
  assert (rd_bytes m1 pa 4096 = u8 <$> slot_bytes s idx) as Hrd by (rewrite -Hlen; apply rd_wr_u8).
  pose proof (private_mm s role fl lru pa m1 Hmm Hp Hm) as Hmm1'.
  pose proof (private_private s role fl lru pa m1 Hmm Hp Hm) as Hp1'.
  pose proof (private_views s role fl lru pa m1 Hmm Hp Hm) as Hv1'.
  pose proof (proj2 (private_leaf s role fl lru pa m1 Hmm Hp Hm pt va v) Hl) as Hl1'.
  clearbody m1.
  assert (mm_inv s1 role fl lru) as Hmm1 by by apply (mm_inv_ext (set_mem m1 s)).
  assert (private s1 role fl lru pa) as Hp1 by by apply (private_ext (set_mem m1 s)).
  assert (leaf_v s1 role pt va v) as Hl1 by by rewrite /leaf_v Hm1.
  assert (∀ k, slot_bytes s1 k = slot_bytes s k) as Hsl by (intros k; by rewrite /slot_bytes /block_at Hdk).
  assert (same_views role s s1) as Hv1.
  { intros pt2 va2 Hu. rewrite -(Hv1' pt2 va2 Hu). apply view_io; [done|]. intros; apply Hsl. }
  assert (walk_pure (k_mem s1) pt va = w) as Hw1.
  { rewrite Hm1. apply (walk_agree role (k_mem s)); [apply Hmm|apply Hl|]. apply agree_pt_dirs.
    exact (private_agree s role fl lru pa m1 Hmm Hp Hm). }
  destruct (leaf_v_walk _ _ _ _ _ Hl1) as (_ & Hld1 & _). rewrite Hw1 in Hld1.
  apply wp_bind. eapply wp_eq; [apply free_slot_eq; rewrite (sr_locks _ _ Hsr1); apply not_elem_of_nil|].
  set (s2 := set_bitmap _ s1). apply wp_bind, wp_gets. change (k_mem s2) with (k_mem s1). rewrite Hld1.
  fold (restored_flags v extra). set (flags := restored_flags v extra). set (v' := Z.lor (PA2PTE pa) flags).
  destruct (restored_spec v extra pa (pv_ram _ _ _ _ _ Hp) He) as (Q1 & Q2 & Q3 & Q4). fold flags v' in Q1, Q2, Q3, Q4.
  apply wp_bind, wp_modify, wp_bind. set (s3 := set_mem _ s2).
  wp_use (register_spec s3 lru pt va pa).
  { apply (lru_ok_ext s1); [done|done|apply Hmm1]. }
  { change (k_locks s3) with (k_locks s1). rewrite (sr_locks _ _ Hsr1). apply not_elem_of_nil. }
  { apply Hp. }
  intros _ s' (M & FL & B & BU & DK & PR & CU & LK & LR & PG & PO). apply wp_ret.
  assert (attached s1 s' lru pa pt va v v') as Hat.
  { split; [by rewrite Hw1 M|done|done|done|done| |done|done].
    intros j. rewrite /bitmap_at B. destruct (decide (j = idx)) as [->|Hne]; [by right|left].
    rewrite /s3 /s2. cbn [k_bitmap set_mem set_bitmap]. by rewrite lookup_insert_ne; [congruence|]. }
  split; [done|]. split; [split; [|split]|].
  - by apply (swap_ready_ext p s1).
  - apply (procs_woken_trans s s1); [done|]. intros i. rewrite /proc_at PR. apply woken_refl.
  - intros pt2 va2 Hu. rewrite -(Hv1 pt2 va2 Hu).
    destruct (decide (pt2 = pt ∧ va2 = va)) as [[-> ->]|Hne].
    + rewrite (attach_view s1 s' role fl lru pa pt va v v' Hmm1 Hp1 Hl1 HV Hat) Q4.
      by rewrite /view (proj2 Hl1) HV HS -/idx Hm1 Hrd Hsl.
    + by apply (attach_views s1 s' role fl lru pa pt va v v').
  - split; [by apply (attach_mm s1 s' role fl lru pa pt va v v')|]. split.
    { split; [apply Hl|]. rewrite (attach_pte s1 s' role fl lru pa pt va v v') //; [apply Hl|].
      by rewrite decide_True. }
    split; [done|]. split; [done|]. rewrite /bitmap_at B /s3 /s2. cbn [k_bitmap set_mem set_bitmap].
    by rewrite lookup_insert_eq.
Qed.

(** ** The page fault of a swapped-out page *)

Lemma fault_in_spec s role fl lru p pt va v :
  mm_inv s role fl lru → swap_ready p s →
  leaf_v s role pt (PGROUNDDOWN va) v → tst v PTE_V = false → tst v PTE_S = true →
  wp (fault_in pt va (walk_pure (k_mem s) pt (PGROUNDDOWN va))) (λ ok s',
    (swap_ready p s' ∧ procs_woken s s' ∧ same_views role s s') ∧
    if ok : bool then
      ∃ v' fl' lru', mm_inv s' role fl' lru' ∧ leaf_v s' role pt (PGROUNDDOWN va) v' ∧
        tst v' PTE_V = true ∧ PTE2PA v' / PGSIZE ∈ lru'
    else fl = [] ∧ oom s lru ∧ mm_inv s' role fl lru) s.
Proof.
  intros Hmm Hsr Hl HV HS. rewrite /fault_in. apply wp_bind.
  wp_use (kalloc_spec s role fl lru p Hmm Hsr). intros pa s1 ([A1 A2 A3 A4] & Hres).
  destruct (pa =? 0); [by apply wp_ret|].
  destruct Hres as (fl' & lru' & _ & Hmm1 & Hp1 & _).
  destruct (ss_leaf _ _ _ A3 _ _ _ Hl HV) as (v1 & Hl1 & (S1 & S2 & S3 & S4)).
  rewrite -(ss_walk _ _ _ A3); [apply Hl|]. apply wp_bind.
  wp_use (swap_in_spec s1 role fl' lru' p pt (PGROUNDDOWN va) v1 pa 0 Hmm1 A1 Hp1 Hl1);
    [congruence|congruence|by left|].
  intros flags s' (-> & (R1 & R2 & R3) & Hmm' & Hl' & HP' & HV' & _). apply wp_ret. split.
  - split; [done|]. split; [exact (procs_woken_trans _ _ _ A2 R2)|exact (same_views_trans _ _ _ _ A4 R3)].
  - eexists _, fl', _. split; [exact Hmm'|]. split; [exact Hl'|]. split; [exact HV'|].
    rewrite HP'. apply elem_of_app. right. by apply list_elem_of_singleton.
Qed.
End uvm.
