(* ===== verification/Log.v ===== *)
(** The write-ahead log of kernel/log.c and that a transaction survives a
    crash whole or not at all.

    The operations are written once, against [LogEnv]: what log.c uses of the
    buffer cache, of locks and of sleeping.  The kernel's own instance is the
    cache of Bio.v; [absdisk] is the contract of the cache, with the list of
    the writes that reached the disk, over which crashes are stated. *)
From S2P Require Import Prelude Riscv Mem State Sched Bytes Bio.

(** ** What log.c calls *)

Class LogEnv (S B : Type) := {
  io_bread : Z → Z → M S B;
  io_bwrite : B → M S unit;
  io_brelse : B → M S unit;
  io_bpin : B → M S unit;
  io_bunpin : B → M S unit;
  io_data : S → B → list Z;
  io_set_data : B → list Z → S → S;
  io_blockno : S → B → Z;
  io_log : S → logstate;
  io_set_log : logstate → S → S;
  (* log.lock, and sleep and wakeup on &log *)
  io_acquire : M S unit;
  io_release : M S unit;
  io_sleep : M S unit;
  io_wakeup : M S unit
}.

#[export] Instance kernel_env : LogEnv kstate nat := {
  io_bread := bread; io_bwrite := bwrite; io_brelse := brelse; io_bpin := bpin; io_bunpin := bunpin;
  io_data := λ s b, b_data (buf_at s b);
  io_set_data := λ b d, upd_buf b (set_b_data d);
  io_blockno := λ s b, b_blockno (buf_at s b);
  io_log := k_log; io_set_log := set_log;
  io_acquire := acquire log_lock; io_release := release log_lock;
  io_sleep := sleep ch_log log_lock; io_wakeup := wakeup ch_log
}.

(** ** The operations *)

Section log.
Context {S B : Type} `{LogEnv S B}.

Definition get_log : M S logstate := gets io_log.
Definition mod_log (f : logstate → logstate) : M S unit := modify (λ s, io_set_log (f (io_log s)) s).
(** log.lh.block[i] *)
Definition lh_block (l : logstate) (i : Z) : Z := default 0 (lg_block l !! i).

(** memmove(to->data, from->data, BSIZE) *)
Definition bcopy (to from : B) : M S unit :=
  d ← gets (λ s, io_data s from);
  modify (io_set_data to d).

Definition install_trans1 (recovering : bool) (tail : Z) : M S unit :=
  l ← get_log;
  lbuf ← io_bread (lg_dev l) (lg_start l + tail + 1);
  dbuf ← io_bread (lg_dev l) (lh_block l tail);
  bcopy dbuf lbuf;;
  io_bwrite dbuf;;
  when (negb recovering) (io_bunpin dbuf);;
  io_brelse lbuf;;
  io_brelse dbuf.
Definition install_trans (recovering : bool) : M S unit :=
  l ← get_log;
  forM (seqZ 0 (lg_n l)) (install_trans1 recovering).

Definition read_head : M S unit :=
  l ← get_log;
  buf ← io_bread (lg_dev l) (lg_start l);
  d ← gets (λ s, io_data s buf);
  mod_log (set_lg_n (s32 (get32 d 0)));;
  l ← get_log;
  forM (seqZ 0 (lg_n l)) (λ i,
    mod_log (λ l, set_lg_block (<[i := s32 (get32 d (4 + 4 * i))]> (lg_block l)) l));;
  io_brelse buf.

Definition write_head : M S unit :=
  l ← get_log;
  buf ← io_bread (lg_dev l) (lg_start l);
  modify (λ s, io_set_data buf (put32 (io_data s buf) 0 (lg_n l)) s);;
  forM (seqZ 0 (lg_n l)) (λ i,
    modify (λ s, io_set_data buf (put32 (io_data s buf) (4 + 4 * i) (lh_block l i)) s));;
  io_bwrite buf;;
  io_brelse buf.

Definition recover_from_log : M S unit :=
  read_head;;
  install_trans true;;
  mod_log (set_lg_n 0);;
  write_head.

(** sizeof(struct logheader) is 4 * (LOGSIZE + 1) < BSIZE *)
Definition initlog (dev : Z) (sb : superblock) : M S unit :=
  if BSIZE <=? 4 * (LOGSIZE + 1) then panic "initlog: too big logheader" else
  mod_log (set_lg_start (sb_logstart sb));;
  mod_log (set_lg_size (sb_nlog sb));;
  mod_log (set_lg_dev dev);;
  recover_from_log.

(** A thread that has to wait ends in [Block]; woken, it runs the loop of
    begin_op() again. *)
Definition begin_op : M S unit :=
  io_acquire;;
  l ← get_log;
  if lg_committing l then io_sleep
  else if LOGSIZE <? lg_n l + (lg_outstanding l + 1) * MAXOPBLOCKS then io_sleep
  else
    mod_log (λ l, set_lg_outstanding (lg_outstanding l + 1) l);;
    io_release.

Definition write_log1 (tail : Z) : M S unit :=
  l ← get_log;
  to ← io_bread (lg_dev l) (lg_start l + tail + 1);
  from ← io_bread (lg_dev l) (lh_block l tail);
  bcopy to from;;
  io_bwrite to;;
  io_brelse from;;
  io_brelse to.
Definition write_log : M S unit :=
  l ← get_log;
  forM (seqZ 0 (lg_n l)) write_log1.

Definition commit : M S unit :=
  l ← get_log;
  when (0 <? lg_n l) (
    write_log;;
    write_head;;
    install_trans false;;
    mod_log (set_lg_n 0);;
    write_head).

Definition end_op : M S unit :=
  io_acquire;;
  mod_log (λ l, set_lg_outstanding (lg_outstanding l - 1) l);;
  l ← get_log;
  if lg_committing l then panic "log.committing" else
  let do_commit := lg_outstanding l =? 0 in
  (if do_commit then mod_log (set_lg_committing true) else io_wakeup);;
  io_release;;
  when do_commit (
    commit;;
    io_acquire;;
    mod_log (set_lg_committing false);;
    io_wakeup;;
    io_release).

(** The index of [blockno] in log.lh.block, or log.lh.n. *)
Fixpoint log_index (n : nat) (i : Z) (l : logstate) (blockno : Z) : Z :=
  match n with
  | O => i
  | Datatypes.S n' => if lh_block l i =? blockno then i else log_index n' (i + 1) l blockno
  end.
Definition log_write (b : B) : M S unit :=
  io_acquire;;
  l ← get_log;
  if (LOGSIZE <=? lg_n l) || (lg_size l - 1 <=? lg_n l) then panic "too big a transaction" else
  if lg_outstanding l <? 1 then panic "log_write outside of trans" else
  blockno ← gets (λ s, io_blockno s b);
  let i := log_index (Z.to_nat (lg_n l)) 0 l blockno in
  mod_log (λ l, set_lg_block (<[i := blockno]> (lg_block l)) l);;
  when (i =? lg_n l) (io_bpin b;; mod_log (λ l, set_lg_n (lg_n l + 1) l));;
  io_release.
End log.

(** ** The contract of the cache

    [ad_view] is what bread() returns for a block: the cached contents, which
    stay in memory while the block is pinned, or those on disk.  [ad_trace] are
    the writes that reached the disk, in order. *)
Record absdisk := AbsDisk {
  ad_disk : gmap Z (list Z);
  ad_view : gmap Z (list Z);
  ad_trace : list (Z * list Z);
  ad_log : logstate;
  ad_locked : bool
}.
Definition dblock (d : gmap Z (list Z)) (n : Z) : list Z := default zero_block (d !! n).

Definition ad_bwrite (n : Z) : M absdisk unit := modify (λ s,
  AbsDisk (<[n := dblock (ad_view s) n]> (ad_disk s)) (ad_view s)
    (ad_trace s ++ [(n, dblock (ad_view s) n)]) (ad_log s) (ad_locked s)).
#[export] Instance absdisk_env : LogEnv absdisk Z := {
  io_bread := λ _ n, ret n;
  io_bwrite := ad_bwrite;
  io_brelse := λ _, ret tt; io_bpin := λ _, ret tt; io_bunpin := λ _, ret tt;
  io_data := λ s n, dblock (ad_view s) n;
  io_set_data := λ n d s, AbsDisk (ad_disk s) (<[n := d]> (ad_view s)) (ad_trace s) (ad_log s) (ad_locked s);
  io_blockno := λ _ n, n;
  io_log := ad_log;
  io_set_log := λ l s, AbsDisk (ad_disk s) (ad_view s) (ad_trace s) l (ad_locked s);
  io_acquire := λ s, if ad_locked s then Panic "acquire"
                     else Ok tt (AbsDisk (ad_disk s) (ad_view s) (ad_trace s) (ad_log s) true);
  io_release := λ s, if ad_locked s then Ok tt (AbsDisk (ad_disk s) (ad_view s) (ad_trace s) (ad_log s) false)
                     else Panic "release";
  io_sleep := block;
  io_wakeup := ret tt
}.

(** ** Crash safety *)

Definition apply_writes (ws : list (Z * list Z)) (d : gmap Z (list Z)) : gmap Z (list Z) :=
  foldl (λ d w, <[w.1 := w.2]> d) d ws.

Lemma apply_writes_app ws1 ws2 d : apply_writes (ws1 ++ ws2) d = apply_writes ws2 (apply_writes ws1 d).
Proof. apply foldl_app. Qed.
Lemma dblock_insert n x d b : dblock (<[n := x]> d) b = if decide (b = n) then x else dblock d b.
Proof.
  rewrite /dblock. case_decide; subst; [by rewrite lookup_insert_eq|].
  rewrite lookup_insert_ne; [congruence|done].
Qed.
Lemma dblock_writes_ne ws d b : b ∉ ws.*1 → dblock (apply_writes ws d) b = dblock d b.
Proof.
  induction ws as [|w ws IH] using rev_ind; [done|]. rewrite fmap_app not_elem_of_app. intros [H1 H2].
  rewrite apply_writes_app /= dblock_insert decide_False; [set_solver|]. by apply IH.
Qed.
(** When every write to [b] writes [x], and there is one, [b] holds [x]. *)
Lemma dblock_writes_in ws d b x :
  b ∈ ws.*1 → (∀ y, (b, y) ∈ ws → y = x) → dblock (apply_writes ws d) b = x.
Proof.
  induction ws as [|[n y] ws IH] using rev_ind; [by intros ?%elem_of_nil|]. intros Hb Hx.
  rewrite apply_writes_app /= dblock_insert. case_decide as E.
  - subst n. apply Hx. set_solver.
  - rewrite fmap_app elem_of_app in Hb. destruct Hb as [Hb|Hb]; [|set_solver].
    apply IH; [done|]. intros z Hz. apply Hx. set_solver.
Qed.

(** The header block. *)
Definition put_head (l : logstate) (d : list Z) : list Z :=
  foldl (λ d i, put32 d (4 + 4 * i) (lh_block l i)) (put32 d 0 (lg_n l)) (seqZ 0 (lg_n l)).
Definition head_n (d : list Z) : Z := s32 (get32 d 0).
Definition head_block (d : list Z) (i : Z) : Z := s32 (get32 d (4 + 4 * i)).

(** What holds of log.lh between operations: few enough blocks, no block
    twice, none of them in the log itself, all of them block numbers. *)
Record lh_ok (l : logstate) : Prop := {
  lh_n : 0 ≤ lg_n l ≤ LOGSIZE;
  lh_start : 0 ≤ lg_start l;
  lh_home i : 0 ≤ i < lg_n l →
    0 ≤ lh_block l i < 2 ^ 31 ∧ ¬ (lg_start l ≤ lh_block l i ≤ lg_start l + LOGSIZE);
  lh_inj i j : 0 ≤ i < lg_n l → 0 ≤ j < lg_n l → lh_block l i = lh_block l j → i = j
}.

Lemma put_blocks_spec l d k : (∀ i, 0 ≤ i < Z.of_nat k → 0 ≤ lh_block l i < 2 ^ 31) → (k ≤ 30)%nat →
  length d = 1024%nat →
  let d' := foldl (λ d i, put32 d (4 + 4 * i) (lh_block l i)) d (seqZ 0 (Z.of_nat k)) in
  length d' = 1024%nat ∧ get32 d' 0 = get32 d 0 ∧
  ∀ i, 0 ≤ i < Z.of_nat k → get32 d' (4 + 4 * i) = lh_block l i.
Proof.
  intros Hb Hk Hd. induction k as [|k IH]; [by split_and!; [..|lia]|].
  destruct IH as (IH1 & IH2 & IH3); [intros i Hi; apply Hb; lia|lia|]. cbv zeta.
  rewrite seqZ_S foldl_app. cbn [foldl]. set (e := foldl _ d _) in *.
  rewrite Z.add_0_l. pose proof (Hb (Z.of_nat k) ltac:(lia)) as Hv.
  split_and!.
  - rewrite /put32 length_put; lia.
  - rewrite -IH2. apply (get_put_ne 4 4); lia.
  - intros i Hi. destruct (decide (i = Z.of_nat k)) as [->|Hne].
    + apply (get_put_eq 4); [lia|lia|change (256 ^ Z.of_nat 4) with (2 ^ 32); lia].
    + rewrite -(IH3 i); [lia|]. apply (get_put_ne 4 4); lia.
Qed.

Lemma put_head_spec l d :
  lh_ok l → length d = 1024%nat →
  length (put_head l d) = 1024%nat ∧ head_n (put_head l d) = lg_n l ∧
  ∀ i, 0 ≤ i < lg_n l → head_block (put_head l d) i = lh_block l i.
Proof.
  intros [Hn _ Hb _] Hd. change LOGSIZE with 30 in Hn. rewrite /put_head /head_n /head_block.
  assert (Z.of_nat (Z.to_nat (lg_n l)) = lg_n l) as En by lia.
  destruct (put_blocks_spec l (put32 d 0 (lg_n l)) (Z.to_nat (lg_n l))) as (P1 & P2 & P3).
  { intros i Hi. apply Hb. lia. }
  { lia. }
  { rewrite /put32 length_put; lia. }
  rewrite En in P1, P2, P3. split_and!; [done| |].
  - rewrite P2 {1}/get32 /put32 (get_put_eq 4); [lia|lia|change (256 ^ Z.of_nat 4) with (2 ^ 32); lia|]. apply s32_id. lia.
  - intros i Hi. rewrite P3; [lia|]. destruct (Hb i Hi). apply s32_id. lia.
Qed.

(** *** What each step does *)

Definition log_writes (l : logstate) (view : gmap Z (list Z)) : list (Z * list Z) :=
  (λ i, (lg_start l + i + 1, dblock view (lh_block l i))) <$> seqZ 0 (lg_n l).
Definition home_writes (l : logstate) (view : gmap Z (list Z)) : list (Z * list Z) :=
  (λ i, (lh_block l i, dblock view (lg_start l + i + 1))) <$> seqZ 0 (lg_n l).
Definition head_write (l : logstate) (view : gmap Z (list Z)) : list (Z * list Z) :=
  [(lg_start l, put_head l (dblock view (lg_start l)))].

(** [s'] is [s] after the writes [ws] reached the cache and the disk. *)
Definition wrote (ws : list (Z * list Z)) (s : absdisk) : absdisk :=
  AbsDisk (apply_writes ws (ad_disk s)) (apply_writes ws (ad_view s)) (ad_trace s ++ ws) (ad_log s) (ad_locked s).

Lemma wrote_nil s : wrote [] s = s.
Proof. destruct s. by rewrite /wrote /= app_nil_r. Qed.
Lemma wrote_app ws1 ws2 s : wrote ws2 (wrote ws1 s) = wrote (ws1 ++ ws2) s.
Proof. by rewrite /wrote /= !apply_writes_app app_assoc. Qed.

(** A loop that copies cached block [src i] to block [dst i] and writes it. *)
Lemma copy_loop_run (s : absdisk) (n : Z) (src dst : Z → Z) (body : Z → M absdisk unit) :
  (∀ i s', 0 ≤ i < n → ad_log s' = ad_log s →
     body i s' = Ok tt (wrote [(dst i, dblock (ad_view s') (src i))] s')) →
  (∀ i j, 0 ≤ i < n → 0 ≤ j < n → src i ≠ dst j) →
  forM (seqZ 0 n) body s =
  Ok tt (wrote ((λ i, (dst i, dblock (ad_view s) (src i))) <$> seqZ 0 n) s).
Proof.
  intros Hbody Hne. set (f := λ i, (dst i, dblock (ad_view s) (src i))).
  enough (wp (forM (seqZ 0 n) body) (λ _ s', s' = wrote (f <$> seqZ 0 n) s) s) as ([] & s' & -> & ->) by done.
  apply (wp_forM _ _ (λ l s', s' = wrote (f <$> l) s)); [by rewrite wrote_nil|].
  intros l1 a l2 s' El ->.
  assert (∀ x, x ∈ l1 ++ a :: l2 → 0 ≤ x < n) as Hin.
  { intros x. rewrite -El elem_of_seqZ. lia. }
  assert (0 ≤ a < n) as Ha by (apply Hin, elem_of_app; right; left).
  eapply wp_eq; [by apply Hbody|]. rewrite wrote_app fmap_app. do 2 f_equal. rewrite /f /=. do 2 f_equal.
  apply dblock_writes_ne. rewrite -list_fmap_compose. intros (j & E & Hj)%list_elem_of_fmap.
  apply (Hne a j Ha); [|done]. apply Hin, elem_of_app. by left.
Qed.

Lemma write_log_run s :
  lh_ok (ad_log s) → write_log s = Ok tt (wrote (log_writes (ad_log s) (ad_view s)) s).
Proof.
  intros [Hn Hs Hh _]. rewrite /write_log /bind /get_log /gets. cbn [io_log absdisk_env].
  apply (copy_loop_run s _ (lh_block (ad_log s)) (λ i, lg_start (ad_log s) + i + 1)).
  - intros i s' Hi El. rewrite /write_log1 /bind /get_log /gets. cbn [io_log io_bread io_bwrite io_brelse absdisk_env].
    rewrite El /ret /bcopy /bind /gets /modify /ad_bwrite /modify /wrote /=. cbn.
    by rewrite dblock_insert decide_True // El.
  - intros i j Hi Hj E. destruct (Hh i Hi) as [_ Hout]. change LOGSIZE with 30 in *. lia.
Qed.

Lemma install_trans_run r s :
  lh_ok (ad_log s) → install_trans r s = Ok tt (wrote (home_writes (ad_log s) (ad_view s)) s).
Proof.
  intros [Hn Hs Hh _]. rewrite /install_trans /bind /get_log /gets. cbn [io_log absdisk_env].
  apply (copy_loop_run s _ (λ i, lg_start (ad_log s) + i + 1) (lh_block (ad_log s))).
  - intros i s' Hi El. rewrite /install_trans1 /bind /get_log /gets. cbn [io_log io_bread io_bwrite io_brelse io_bunpin absdisk_env].
    rewrite El /ret /bcopy /bind /gets /modify /ad_bwrite /modify /wrote /=. cbn.
    destruct r; cbn; by rewrite dblock_insert decide_True // El.
  - intros i j Hi Hj E. destruct (Hh j Hj) as [_ Hout]. change LOGSIZE with 30 in *. lia.
Qed.

Lemma write_head_run s : write_head s = Ok tt (wrote (head_write (ad_log s) (ad_view s)) s).
Proof.
  rewrite /write_head /bind /get_log /gets. cbn [io_log io_bread io_set_data io_data absdisk_env].
  rewrite /ret /modify. set (l := ad_log s). cbn [ad_view].
  set (st d := AbsDisk (ad_disk s) (<[lg_start l := d]> (ad_view s)) (ad_trace s) (ad_log s) (ad_locked s)).
  assert (∀ k d, forM k (λ i, modify (λ s0 : absdisk, AbsDisk (ad_disk s0)
      (<[lg_start l := put32 (dblock (ad_view s0) (lg_start l)) (4 + 4 * i) (lh_block l i)]> (ad_view s0))
      (ad_trace s0) (ad_log s0) (ad_locked s0))) (st d)
    = Ok tt (st (foldl (λ d i, put32 d (4 + 4 * i) (lh_block l i)) d k))) as Hloop.
  { induction k as [|i k IH]; intros d; [done|]. cbn [forM foldl]. rewrite /bind /modify -IH.
    f_equal. rewrite /st. cbn [ad_disk ad_view ad_trace ad_log ad_locked].
    rewrite dblock_insert decide_True // insert_insert_eq //. }
  rewrite (Hloop (seqZ 0 (lg_n l)) (put32 (dblock (ad_view s) (lg_start l)) 0 (lg_n l))).
  cbn [io_bwrite io_brelse absdisk_env]. rewrite /ad_bwrite /modify /st. cbn [ad_disk ad_view ad_trace ad_log ad_locked].
  rewrite dblock_insert decide_True // /wrote /head_write /=.
Qed.

Lemma read_head_run s (d := dblock (ad_view s) (lg_start (ad_log s))) :
  ∃ l', read_head s = Ok tt (io_set_log l' s) ∧ lg_start l' = lg_start (ad_log s) ∧
    lg_n l' = head_n d ∧ ∀ i, 0 ≤ i < head_n d → lh_block l' i = head_block d i.
Proof.
  rewrite /read_head /bind /get_log /mod_log /gets /modify. cbn [io_log io_set_log io_bread io_brelse io_data absdisk_env].
  rewrite /ret. fold d. fold (head_n d). set (l1 := set_lg_n (head_n d) (ad_log s)). cbn [ad_log].
  set (st l := AbsDisk (ad_disk s) (ad_view s) (ad_trace s) l (ad_locked s)).
  change (lg_n l1) with (head_n d).
  assert (∀ k, wp (forM k (λ i, modify (λ s0 : absdisk, AbsDisk (ad_disk s0) (ad_view s0) (ad_trace s0)
      (set_lg_block (<[i := s32 (get32 d (4 + 4 * i))]> (lg_block (ad_log s0))) (ad_log s0)) (ad_locked s0))))
    (λ _ s', ∃ l', s' = st l' ∧ lg_start l' = lg_start l1 ∧ lg_n l' = lg_n l1 ∧
       ∀ i, i ∈ k → lh_block l' i = head_block d i) (st l1)) as Hloop.
  { intros k. apply (wp_forM _ _ (λ k s', ∃ l', s' = st l' ∧ lg_start l' = lg_start l1 ∧ lg_n l' = lg_n l1 ∧
       ∀ i, i ∈ k → lh_block l' i = head_block d i)).
    - exists l1. split_and!; [done..|]. by intros i ?%elem_of_nil.
    - intros k1 a k2 s' _ (l' & -> & E1 & E2 & E3). apply wp_modify. eexists. split; [reflexivity|].
      split_and!; [done..|]. intros i Hi. rewrite /lh_block /=. destruct (decide (i = a)) as [->|Hne].
      + by rewrite lookup_insert_eq.
      + rewrite lookup_insert_ne; [congruence|]. apply E3. set_solver. }
  destruct (Hloop (seqZ 0 (head_n d))) as ([] & s' & E & l' & -> & E1 & E2 & E3).
  rewrite /modify in E. rewrite E. exists l'. split; [done|]. split; [done|]. split; [done|]. intros i Hi. apply E3. rewrite elem_of_seqZ. lia.
Qed.

(** The machine after a crash: the cache is cold, nothing is outstanding. *)
Definition reboot (d : gmap Z (list Z)) (l : logstate) : absdisk :=
  AbsDisk d d [] (Log (lg_start l) (lg_size l) 0 false (lg_dev l) 0 ∅) false.

(** The disk after recovery, given what was on it. *)
Definition recovered (d : gmap Z (list Z)) (l : logstate) : gmap Z (list Z) :=
  match recover_from_log (reboot d l) with
  | Ok _ s => ad_disk s
  | _ => d
  end.

(** The transaction the header on disk describes. *)
Record disk_head (d : gmap Z (list Z)) (l : logstate) : Prop := {
  dh_len : length (dblock d (lg_start l)) = 1024%nat;
  dh_n : head_n (dblock d (lg_start l)) = lg_n l;
  dh_block i : 0 ≤ i < lg_n l → head_block (dblock d (lg_start l)) i = lh_block l i
}.

Definition cleared (l : logstate) : logstate := set_lg_n 0 l.

Lemma lh_block_eq l l' n :
  lg_start l' = lg_start l → lg_n l' = n → (∀ i, 0 ≤ i < n → lh_block l' i = lh_block l i) → lg_n l = n →
  ∀ view, home_writes l' view = home_writes l view.
Proof.
  intros E1 E2 E3 E4 view. rewrite /home_writes E1 E2 E4. apply list_fmap_ext. intros k x Hk.
  apply list_elem_of_lookup_2, elem_of_seqZ in Hk. rewrite E3; [lia|done].
Qed.

(** Recovery copies every logged block home and then clears the header. *)
Lemma recover_run d l :
  lh_ok l → disk_head d l →
  ∃ h s', recover_from_log (reboot d l) = Ok tt s' ∧
    ad_trace s' = home_writes l d ++ [(lg_start l, h)] ∧
    ad_disk s' = apply_writes (home_writes l d ++ [(lg_start l, h)]) d ∧
    length h = 1024%nat ∧ head_n h = 0 ∧ lg_n (ad_log s') = 0.
Proof.
  intros Hl [D1 D2 D3]. rewrite /recover_from_log /bind.
  destruct (read_head_run (reboot d l)) as (l1 & -> & L1 & L2 & L3).
  change (ad_view (reboot d l)) with d in L2, L3. change (lg_start (ad_log (reboot d l))) with (lg_start l) in L1, L2, L3.
  rewrite D2 in L2, L3.
  assert (∀ i, 0 ≤ i < lg_n l → lh_block l1 i = lh_block l i) as L3'.
  { intros i Hi. rewrite L3 // D3 //. }
  set (s1 := io_set_log l1 (reboot d l)).
  assert (lh_ok (ad_log s1)) as Hl1.
  { destruct Hl as [H1 H2 H3 H4]. change (ad_log s1) with l1. split; rewrite ?L1 ?L2 //.
    - intros i Hi. rewrite L3' //. by apply H3.
    - intros i j Hi Hj. rewrite !L3' //. by apply H4. }
  rewrite (install_trans_run true s1 Hl1). change (ad_log s1) with l1. change (ad_view s1) with d.
  rewrite (lh_block_eq l l1 (lg_n l) L1 L2 L3' eq_refl d).
  rewrite /mod_log /modify write_head_run. cbn [io_log io_set_log absdisk_env].
  set (s2 := AbsDisk _ _ _ _ _). set (h := put_head (cleared l1) (dblock (ad_view s2) (lg_start l1))).
  change (ad_log s2) with (cleared l1).
  assert (lg_start l ∉ (home_writes l d).*1) as Hni.
  { rewrite -list_fmap_compose. intros (j & E & Hj)%list_elem_of_fmap. apply elem_of_seqZ in Hj.
    cbn in E. destruct (lh_home _ Hl j) as [_ Ho]; [lia|]. change LOGSIZE with 30 in *. lia. }
  assert (length (dblock (ad_view s2) (lg_start l1)) = 1024%nat) as Hlen.
  { rewrite L1 /s2 /=. by rewrite dblock_writes_ne. }
  assert (lh_ok (cleared l1)) as Hlc.
  { destruct Hl1 as [H1 H2 H3 H4]. change (ad_log s1) with l1 in *. split; [done|done|..]; cbn; lia. }
  destruct (put_head_spec (cleared l1) _ Hlc Hlen) as (P1 & P2 & _).
  exists h. eexists. split; [reflexivity|]. rewrite /wrote /head_write. cbn [ad_trace ad_disk ad_log].
  change (lg_start (cleared l1)) with (lg_start l1). fold h. rewrite L1.
  split; [reflexivity|]. split; [by rewrite apply_writes_app|]. split; [exact P1|]. split; [exact P2|reflexivity].
Qed.

(** *** Atomic commit *)

Definition outside (l : logstate) (b : Z) : Prop := ¬ (lg_start l ≤ b ≤ lg_start l + LOGSIZE).
Definition agree_outside (l : logstate) (d d' : gmap Z (list Z)) : Prop :=
  ∀ b, outside l b → dblock d b = dblock d' b.
Definition logged (l : logstate) (b : Z) : Prop := ∃ i, 0 ≤ i < lg_n l ∧ lh_block l i = b.

(** Between operations: the log on disk is empty, and the cache differs from
    the disk only in the blocks of the current transaction. *)
Record log_inv (s : absdisk) : Prop := {
  li_lh : lh_ok (ad_log s);
  li_disk : length (dblock (ad_disk s) (lg_start (ad_log s))) = 1024%nat ∧
            head_n (dblock (ad_disk s) (lg_start (ad_log s))) = 0;
  li_vlen : length (dblock (ad_view s) (lg_start (ad_log s))) = 1024%nat;
  li_view b : outside (ad_log s) b → ¬ logged (ad_log s) b → dblock (ad_view s) b = dblock (ad_disk s) b
}.

Lemma home_writes_in l d w : w ∈ home_writes l d →
  ∃ i, 0 ≤ i < lg_n l ∧ w = (lh_block l i, dblock d (lg_start l + i + 1)).
Proof. intros (i & -> & Hi%elem_of_seqZ)%list_elem_of_fmap. exists i. split; [lia|done]. Qed.
Lemma log_writes_in l d w : w ∈ log_writes l d →
  ∃ i, 0 ≤ i < lg_n l ∧ w = (lg_start l + i + 1, dblock d (lh_block l i)).
Proof. intros (i & -> & Hi%elem_of_seqZ)%list_elem_of_fmap. exists i. split; [lia|done]. Qed.

(** Installing blocks whose logged contents are those of [view] makes the disk
    equal to [view] outside the log. *)
Lemma install_new l d d1 view :
  (∀ i, 0 ≤ i < lg_n l → dblock d1 (lg_start l + i + 1) = dblock view (lh_block l i)) →
  (∀ b, outside l b → ¬ logged l b → dblock d b = dblock view b) →
  agree_outside l (apply_writes (home_writes l d1) d) view.
Proof.
  intros Hc Hd b Hb. destruct (decide (b ∈ (home_writes l d1).*1)) as [Hin|Hin].
  - apply dblock_writes_in; [done|]. intros y (i & Hi & [= -> ->])%home_writes_in. by apply Hc.
  - rewrite dblock_writes_ne //. apply Hd; [done|]. intros (i & Hi & <-). apply Hin.
    apply list_elem_of_fmap. exists (lh_block l i, dblock d1 (lg_start l + i + 1)). split; [done|].
    apply list_elem_of_fmap. exists i. split; [done|]. apply elem_of_seqZ. lia.
Qed.

Lemma start_not_home l d : lh_ok l → lg_start l ∉ (home_writes l d).*1.
Proof.
  intros Hl ([n x] & E & (i & Hi & [= -> ->])%home_writes_in)%list_elem_of_fmap. cbn in E.
  destruct (lh_home _ Hl i Hi) as [_ Ho]. change LOGSIZE with 30 in *. lia.
Qed.

Lemma reboot_cleared d l : reboot d (cleared l) = reboot d l.
Proof. done. Qed.
Lemma recovered_eq d l : lh_ok l → disk_head d l →
  ∃ h, recovered d l = apply_writes (home_writes l d ++ [(lg_start l, h)]) d ∧ length h = 1024%nat ∧ head_n h = 0.
Proof.
  intros Hl Hd. destruct (recover_run d l Hl Hd) as (h & s' & E & _ & E2 & E3 & E4 & _).
  exists h. by rewrite /recovered E.
Qed.
Lemma cleared_ok l : lh_ok l → lh_ok (cleared l).
Proof. intros [H1 H2 H3 H4]. split; [done|done|..]; cbn; lia. Qed.

(** An empty log: recovery keeps every block outside it. *)
Lemma recovered_old d l :
  lh_ok l → length (dblock d (lg_start l)) = 1024%nat → head_n (dblock d (lg_start l)) = 0 →
  agree_outside l (recovered d l) d.
Proof.
  intros Hl H1 H2 b Hb. destruct (recovered_eq d (cleared l) (cleared_ok l Hl)) as (h & E & _).
  { split; [done|done|]. cbn. lia. }
  rewrite /recovered -reboot_cleared -/(recovered d (cleared l)) E.
  change (home_writes (cleared l) d) with ([] : list (Z * list Z)).
  rewrite dblock_writes_ne //. cbn. rewrite list_elem_of_singleton. intros ->. apply Hb. cbn. change LOGSIZE with 30. lia.
Qed.
(** A committed log: recovery makes the disk what the transaction made it. *)
Lemma recovered_new d l view :
  lh_ok l → disk_head d l →
  (∀ i, 0 ≤ i < lg_n l → dblock d (lg_start l + i + 1) = dblock view (lh_block l i)) →
  (∀ b, outside l b → ¬ logged l b → dblock d b = dblock view b) →
  agree_outside l (recovered d l) view.
Proof.
  intros Hl Hd Hc Hv b Hb. destruct (recovered_eq d l Hl Hd) as (h & -> & _).
  rewrite apply_writes_app /= dblock_insert decide_False; [intros ->; apply Hb; change LOGSIZE with 30; lia|].
  by apply (install_new l d d view).
Qed.

Lemma prefix_app_cases {A} (k a b : list A) :
  k `prefix_of` a ++ b → k `prefix_of` a ∨ ∃ k', k = a ++ k' ∧ k' `prefix_of` b.
Proof.
  revert k. induction a as [|x a IH]; intros k Hk; [right; by exists k|].
  destruct k as [|y k]; [left; apply prefix_nil|]. apply prefix_cons_inv_1 in Hk as Hy.
  apply prefix_cons_inv_2 in Hk. subst y. destruct (IH k Hk) as [|(k' & -> & ?)]; [left; by apply prefix_cons|].
  right. by exists k'.
Qed.
Lemma prefix_in {A} (k l : list A) x : k `prefix_of` l → x ∈ k → x ∈ l.
Proof. intros [k' ->] Hx. apply elem_of_app. by left. Qed.

(** The disk writes of commit(), in order. *)
Definition commit_writes (l : logstate) (view : gmap Z (list Z)) : list (Z * list Z) :=
  let ws1 := log_writes l view in
  let v1 := apply_writes ws1 view in
  let ws2 := head_write l v1 in
  let v2 := apply_writes ws2 v1 in
  let ws3 := home_writes l v2 in
  let v3 := apply_writes ws3 v2 in
  ws1 ++ ws2 ++ ws3 ++ head_write (cleared l) v3.

Lemma commit_run s (l := ad_log s) :
  lh_ok l → 0 < lg_n l →
  commit s = Ok tt (io_set_log (cleared l) (wrote (commit_writes l (ad_view s)) s)).
Proof.
  intros Hl Hn. rewrite /commit /bind /get_log /gets. cbn [io_log absdisk_env]. fold l.
  rewrite (proj2 (Z.ltb_lt _ _) Hn) /when.
  rewrite (write_log_run s Hl). fold l. set (ws1 := log_writes l (ad_view s)).
  rewrite write_head_run. change (ad_log (wrote ws1 s)) with l. change (ad_view (wrote ws1 s)) with (apply_writes ws1 (ad_view s)).
  set (ws2 := head_write l _). rewrite wrote_app install_trans_run //.
  change (ad_log (wrote _ s)) with l. change (ad_view (wrote (ws1 ++ ws2) s)) with (apply_writes (ws1 ++ ws2) (ad_view s)).
  rewrite wrote_app. set (ws3 := home_writes l _). rewrite /mod_log /modify write_head_run.
  cbn [io_log io_set_log absdisk_env ad_log ad_view ad_disk ad_trace ad_locked].
  change (set_lg_n 0 (ad_log _)) with (cleared l).
  assert (ws1 ++ ws2 ++ ws3 ++ head_write (cleared l) (apply_writes ((ws1 ++ ws2) ++ ws3) (ad_view s)) =
    commit_writes l (ad_view s)) as E by (rewrite /commit_writes -!apply_writes_app -app_assoc //).
  rewrite -E. f_equal. rewrite {1}/wrote. cbn [ad_log ad_view ad_disk ad_trace ad_locked].
  rewrite /wrote. cbn [ad_log ad_view ad_disk ad_trace ad_locked]. rewrite -!apply_writes_app -!app_assoc.
  do 2 f_equal.
Qed.

Section crash.
Context (s : absdisk) (Hs : log_inv s).
#[local] Notation l := (ad_log s).
#[local] Notation view := (ad_view s).
#[local] Notation d0 := (ad_disk s).
Definition ws1 : list (Z * list Z) := log_writes l view.
Definition ws2 : list (Z * list Z) := head_write l (apply_writes ws1 view).
Definition v2 : gmap Z (list Z) := apply_writes ws2 (apply_writes ws1 view).
Definition ws3 : list (Z * list Z) := home_writes l v2.

Lemma ws1_addr w : w ∈ ws1 → lg_start l < w.1 ≤ lg_start l + LOGSIZE.
Proof using Hs.
  intros (i & Hi & ->)%log_writes_in. pose proof (lh_n _ (li_lh _ Hs)). cbn. lia.
Qed.
Lemma ws1_log d i : 0 ≤ i < lg_n l → dblock (apply_writes ws1 d) (lg_start l + i + 1) = dblock view (lh_block l i).
Proof using Hs.
  intros Hi. apply dblock_writes_in.
  - apply list_elem_of_fmap. exists (lg_start l + i + 1, dblock view (lh_block l i)). split; [done|].
    apply list_elem_of_fmap. exists i. split; [done|]. apply elem_of_seqZ. lia.
  - intros y (j & Hj & [= E ->])%log_writes_in. by replace j with i by lia.
Qed.
Lemma ws2_other d b : b ≠ lg_start l → dblock (apply_writes ws2 d) b = dblock d b.
Proof using Hs. intros Hb. cbn. by rewrite dblock_insert decide_False. Qed.
Lemma ws3_addr w : w ∈ ws3 → outside l w.1.
Proof using Hs. intros (i & Hi & ->)%home_writes_in. by apply (lh_home _ (li_lh _ Hs)). Qed.
Lemma log_not_ws3 k i : k `prefix_of` ws3 → 0 ≤ i ≤ LOGSIZE → lg_start l + i ∉ k.*1.
Proof using Hs.
  intros Hk Hi (w & E & Hw)%list_elem_of_fmap. apply (prefix_in _ _ _ Hk), ws3_addr in Hw. apply Hw. lia.
Qed.
Lemma v2_log i : 0 ≤ i < lg_n l → dblock v2 (lg_start l + i + 1) = dblock view (lh_block l i).
Proof using Hs. intros Hi. rewrite /v2 ws2_other; [lia|]. by apply ws1_log. Qed.
Lemma head_len : length (dblock (apply_writes ws1 view) (lg_start l)) = 1024%nat.
Proof using Hs.
  rewrite dblock_writes_ne; [|apply Hs]. intros (w & E & Hw%ws1_addr)%list_elem_of_fmap. lia.
Qed.

(** After the header: what the disk holds while blocks go home. *)
Lemma committed_disk k : k `prefix_of` ws3 →
  let d := apply_writes (ws1 ++ ws2 ++ k) d0 in
  disk_head d l ∧ (∀ i, 0 ≤ i < lg_n l → dblock d (lg_start l + i + 1) = dblock view (lh_block l i)) ∧
  (∀ b, outside l b → ¬ logged l b → dblock d b = dblock view b).
Proof using Hs.
  intros Hk d. pose proof (lh_n _ (li_lh _ Hs)) as Hn.
  assert (∀ i, 0 ≤ i ≤ LOGSIZE → dblock d (lg_start l + i) = dblock (apply_writes (ws1 ++ ws2) d0) (lg_start l + i)) as Hd.
  { intros i Hi. rewrite /d app_assoc apply_writes_app dblock_writes_ne //. by apply log_not_ws3. }
  split; [|split].
  - assert (dblock d (lg_start l) = put_head l (dblock (apply_writes ws1 view) (lg_start l))) as E.
    { rewrite -(Z.add_0_r (lg_start l)) Hd; [change LOGSIZE with 30; lia|]. rewrite apply_writes_app /= dblock_insert Z.add_0_r.
      by rewrite decide_True. }
    destruct (put_head_spec l _ (li_lh _ Hs) head_len) as (P1 & P2 & P3). by split; rewrite E.
  - intros i Hi. rewrite -Z.add_assoc Hd; [lia|]. rewrite apply_writes_app ws2_other; [lia|].
    rewrite Z.add_assoc. by apply ws1_log.
  - intros b Hb Hnl. rewrite /d !apply_writes_app dblock_writes_ne.
    { intros (w & E & Hw)%list_elem_of_fmap. apply (prefix_in _ _ _ Hk) in Hw.
      apply home_writes_in in Hw as (i & Hi & ->). apply Hnl. by exists i. }
    rewrite ws2_other; [intros ->; apply Hb; change LOGSIZE with 30; lia|]. rewrite dblock_writes_ne.
    { intros (w & E & Hw%ws1_addr)%list_elem_of_fmap. apply Hb. lia. }
    symmetry. by apply Hs.
Qed.

Lemma commit_final_head :
  let h := put_head (cleared l) (dblock (apply_writes ws3 v2) (lg_start l)) in
  length h = 1024%nat ∧ head_n h = 0.
Proof using Hs.
  pose proof (cleared_ok l (li_lh _ Hs)) as Hc.
  destruct (put_head_spec (cleared l) (dblock (apply_writes ws3 v2) (lg_start l)) Hc) as (P1 & P2 & _); [|done].
  rewrite dblock_writes_ne; [rewrite -{1}(Z.add_0_r (lg_start l)); apply log_not_ws3; [done|change LOGSIZE with 30; lia]|].
  rewrite /v2 /ws2 /= dblock_insert decide_True //. apply put_head_spec; [apply Hs|apply head_len].
Qed.

(** Wherever the machine stops during commit(), recovery finds the disk as it
    was before the transaction or as the transaction left it. *)
Lemma crash_atomic k :
  k `prefix_of` commit_writes l view →
  agree_outside l (recovered (apply_writes k d0) l) d0 ∨
  agree_outside l (recovered (apply_writes k d0) l) view.
Proof using Hs.
  intros Hk. pose proof (li_lh _ Hs) as Hl. destruct (li_disk _ Hs) as [Hd1 Hd2].
  rewrite /commit_writes in Hk. fold ws1 ws2 v2 ws3 in Hk.
  apply prefix_app_cases in Hk as [Hk|(k1 & -> & Hk)].
  { left. assert (lg_start l ∉ k.*1) as Hni.
    { intros (w & E & Hw)%list_elem_of_fmap. apply (prefix_in _ _ _ Hk), ws1_addr in Hw. lia. }
    intros b Hb. rewrite recovered_old //; rewrite dblock_writes_ne //.
    intros (w & E & Hw)%list_elem_of_fmap. apply (prefix_in _ _ _ Hk), ws1_addr in Hw. apply Hb. lia. }
  change (ws2 ++ ws3 ++ ?x) with ([(lg_start l, put_head l (dblock (apply_writes ws1 view) (lg_start l)))] ++ ws3 ++ x) in Hk.
  destruct k1 as [|w k1].
  { left. rewrite app_nil_r. intros b Hb.
    assert (lg_start l ∉ ws1.*1) as Hni by (intros (w & E & Hw%ws1_addr)%list_elem_of_fmap; lia).
    rewrite recovered_old //; rewrite dblock_writes_ne //.
    intros (w & E & Hw%ws1_addr)%list_elem_of_fmap. apply Hb. lia. }
  right. apply prefix_cons_inv_1 in Hk as Hw. apply prefix_cons_inv_2 in Hk. subst w.
  apply prefix_app_cases in Hk as [Hk|(k2 & -> & Hk)].
  { destruct (committed_disk k1 Hk) as (C1 & C2 & C3).
    by apply (recovered_new (apply_writes (ws1 ++ ws2 ++ k1) d0) l view). }
  destruct (committed_disk ws3 ltac:(done)) as (C1 & C2 & C3).
  assert (agree_outside l (apply_writes (ws1 ++ ws2 ++ ws3) d0) view) as Hnew.
  { rewrite app_assoc apply_writes_app. apply install_new; [exact v2_log|].
    intros b Hb Hnl. rewrite -(proj2 (proj2 (committed_disk [] ltac:(apply prefix_nil))) b Hb Hnl).
    by rewrite app_nil_r. }
  destruct k2 as [|w k2].
  { rewrite app_nil_r. by apply (recovered_new (apply_writes (ws1 ++ ws2 ++ ws3) d0) l view). }
  apply prefix_cons_inv_1 in Hk as Hw. apply prefix_cons_inv_2, prefix_nil_inv in Hk. subst w k2.
  destruct commit_final_head as [F1 F2].
  set (h := put_head _ _) in F1, F2 |- *.
  intros b Hb. change (ws1 ++ ?x :: ws3 ++ ?y) with (ws1 ++ ws2 ++ ws3 ++ y).
  assert (ws1 ++ ws2 ++ ws3 ++ [(lg_start (cleared l), h)] = (ws1 ++ ws2 ++ ws3) ++ [(lg_start l, h)]) as ->
    by by rewrite -!app_assoc.
  rewrite apply_writes_app recovered_old /=; [done|by rewrite dblock_insert decide_True..|done|].
  rewrite dblock_insert decide_False; [intros ->; apply Hb; change LOGSIZE with 30; lia|]. by apply Hnew.
Qed.
End crash.

(** A log of 30 blocks at block 2 with one block of an open transaction. *)
Definition ex_block : list Z := 7 :: replicate 1023 0.
Definition ex_log : absdisk := AbsDisk ∅ {[ 100 := ex_block ]} [] (Log 2 31 1 false 1 1 {[ 0 := 100 ]}) false.
Lemma ex_log_logged i : 0 ≤ i < 1 → i = 0.
Proof. lia. Qed.
Lemma ex_log_inv : log_inv ex_log.
Proof.
  split; [split|by vm_compute|by vm_compute|].
  - by vm_compute.
  - by vm_compute.
  - intros i ->%ex_log_logged. split; [by vm_compute|]. vm_compute. intros [_ Hx]. by apply Hx.
  - intros i j ->%ex_log_logged ->%ex_log_logged. done.
  - intros b _ Hb. rewrite /dblock. cbn [ad_view ad_disk ex_log]. rewrite lookup_singleton_ne //.
    intros <-. apply Hb. exists 0. by split.
Qed.

(** C2: a commit is atomic under crashes.  commit() returns; it writes blocks in
    the order log, header, home locations, header; and wherever the machine
    stops, after any prefix [k] of these writes, recovery at the next boot makes
    the disk outside the log equal to what it was before the transaction or to
    what the transaction made it, never a mixture. *)
Theorem commit_atomic s :
  log_inv s → 0 < lg_n (ad_log s) →
  ∃ s' ws, commit s = Ok tt s' ∧ ad_trace s' = ad_trace s ++ ws ∧
    ∀ k, k `prefix_of` ws →
      agree_outside (ad_log s) (recovered (apply_writes k (ad_disk s)) (ad_log s)) (ad_disk s) ∨
      agree_outside (ad_log s) (recovered (apply_writes k (ad_disk s)) (ad_log s)) (ad_view s).
Proof.
  intros Hs Hn. eexists _, (commit_writes (ad_log s) (ad_view s)).
  split; [exact (commit_run s (li_lh _ Hs) Hn)|]. split; [done|]. exact (crash_atomic s Hs).
Qed.
Lemma commit_atomic_witness :
  ∃ s' ws, commit ex_log = Ok tt s' ∧ ad_trace s' = ws ∧
    ∀ k, k `prefix_of` ws →
      agree_outside (ad_log ex_log) (recovered (apply_writes k ∅) (ad_log ex_log)) ∅ ∨
      agree_outside (ad_log ex_log) (recovered (apply_writes k ∅) (ad_log ex_log)) (ad_view ex_log).
Proof. exact (commit_atomic ex_log ex_log_inv eq_refl). Defined.

(** C7: commit() makes the transaction durable: it returns, the disk outside the
    log is then what the block cache was, and the log is empty again with the
    invariant re-established. *)
Theorem commit_durable s :
  log_inv s → 0 < lg_n (ad_log s) →
  ∃ s', commit s = Ok tt s' ∧ log_inv s' ∧ lg_n (ad_log s') = 0 ∧
    ad_disk s' = apply_writes (commit_writes (ad_log s) (ad_view s)) (ad_disk s) ∧
    agree_outside (ad_log s) (ad_disk s') (ad_view s) ∧ agree_outside (ad_log s) (ad_view s') (ad_view s).
Proof.
  intros Hs Hn. eexists. split; [apply commit_run; [apply Hs|done]|].
  set (s' := io_set_log _ _). pose proof (li_lh _ Hs) as Hl.
  assert (commit_writes (ad_log s) (ad_view s) = (ws1 s ++ ws2 s ++ ws3 s) ++
    [(lg_start (ad_log s), put_head (cleared (ad_log s)) (dblock (apply_writes (ws3 s) (v2 s)) (lg_start (ad_log s))))]) as Ew.
  { rewrite /commit_writes -!app_assoc. reflexivity. }
  destruct (commit_final_head s Hs) as [F1 F2]. set (h := put_head _ _) in Ew, F1, F2.
  assert (∀ d, (∀ b, outside (ad_log s) b → ¬ logged (ad_log s) b → dblock d b = dblock (ad_view s) b) →
    agree_outside (ad_log s) (apply_writes (commit_writes (ad_log s) (ad_view s)) d) (ad_view s)) as Hout.
  { intros d Hd b Hb. rewrite Ew apply_writes_app. cbn [apply_writes foldl fst snd]. rewrite dblock_insert.
    rewrite decide_False; [intros ->; apply Hb; change LOGSIZE with 30; lia|].
    rewrite app_assoc apply_writes_app. apply install_new; [exact (v2_log s Hs)| |done].
    intros b' Hb' Hnl. rewrite apply_writes_app ws2_other //; [intros ->; apply Hb'; change LOGSIZE with 30; lia|].
    rewrite dblock_writes_ne; [|by apply Hd].
    intros (w & E & Hw)%list_elem_of_fmap. apply (ws1_addr s Hs) in Hw. apply Hb'. lia. }
  assert (∀ d, dblock (apply_writes (commit_writes (ad_log s) (ad_view s)) d) (lg_start (ad_log s)) = h) as Hh.
  { intros d. rewrite Ew apply_writes_app. cbn [apply_writes foldl fst snd]. by rewrite dblock_insert decide_True. }
  assert (agree_outside (ad_log s) (ad_disk s') (ad_view s)) as Hd' by (apply Hout; intros; symmetry; by apply Hs).
  assert (agree_outside (ad_log s) (ad_view s') (ad_view s)) as Hv' by (by apply Hout).
  split; [|done]. split.
  - by apply cleared_ok.
  - split; [etransitivity; [|exact F1]|etransitivity; [|exact F2]]; f_equal; apply Hh.
  - etransitivity; [|exact F1]. f_equal. apply Hh.
  - intros b Hb _. rewrite (Hd' b Hb). exact (Hv' b Hb).
Qed.

Lemma commit_durable_witness :
  ∃ s', commit ex_log = Ok tt s' ∧ log_inv s' ∧ lg_n (ad_log s') = 0 ∧
    ad_disk s' = apply_writes (commit_writes (ad_log ex_log) (ad_view ex_log)) ∅ ∧
    agree_outside (ad_log ex_log) (ad_disk s') (ad_view ex_log) ∧
    agree_outside (ad_log ex_log) (ad_view s') (ad_view ex_log).
Proof. exact (commit_durable ex_log ex_log_inv eq_refl). Defined.

(** *** Recovery can itself be interrupted *)

(** C8: recovery can itself be interrupted: if the machine stops after any
    prefix [k] of the writes of recover_from_log(), running it again at the next
    boot gives the same disk outside the log as an uninterrupted recovery. *)
Theorem recover_restart d l k :
  lh_ok l → disk_head d l →
  (∃ s', recover_from_log (reboot d l) = Ok tt s' ∧ k `prefix_of` ad_trace s') →
  agree_outside l (recovered (apply_writes k d) l) (recovered d l).
Proof.
  intros Hl Hd (s' & Er & Hk). destruct (recover_run d l Hl Hd) as (h & s1 & E & Et & Ed & Eh1 & Eh2 & _).
  rewrite Er in E. injection E as <-. rewrite Et in Hk.
  assert (recovered d l = apply_writes (home_writes l d ++ [(lg_start l, h)]) d) as Erec by by rewrite /recovered Er.
  assert (∀ i, 0 ≤ i ≤ LOGSIZE → ∀ w, w ∈ home_writes l d → lg_start l + i ≠ w.1) as Hni.
  { intros i Hi w (j & Hj & ->)%home_writes_in. destruct (lh_home _ Hl j Hj) as [_ Ho]. cbn. lia. }
  apply prefix_app_cases in Hk as [Hk|(k1 & -> & Hk)].
  - assert (∀ i, 0 ≤ i ≤ LOGSIZE → dblock (apply_writes k d) (lg_start l + i) = dblock d (lg_start l + i)) as Hlog.
    { intros i Hi. apply dblock_writes_ne. intros (w & E & Hw)%list_elem_of_fmap.
      by apply (Hni i Hi w (prefix_in _ _ _ Hk Hw)). }
    assert (dblock (apply_writes k d) (lg_start l) = dblock d (lg_start l)) as Hhead.
    { rewrite -(Z.add_0_r (lg_start l)). apply Hlog. change LOGSIZE with 30. lia. }
    pose proof (lh_n _ Hl) as Hn. destruct Hd as [D1 D2 D3].
    apply recovered_new; [done|by split; rewrite Hhead|..].
    + intros i Hi. rewrite -Z.add_assoc Hlog; [lia|]. rewrite Erec apply_writes_app /= dblock_insert.
      destruct (lh_home _ Hl i Hi) as [_ Ho]. rewrite decide_False; [lia|]. symmetry. apply dblock_writes_in.
      * apply list_elem_of_fmap. exists (lh_block l i, dblock d (lg_start l + i + 1)). split; [done|].
        apply list_elem_of_fmap. exists i. split; [done|]. apply elem_of_seqZ. lia.
      * intros y (j & Hj & [= Ej ->])%home_writes_in. apply (lh_inj _ Hl) in Ej as ->; [|done..]. f_equal. lia.
    + intros b Hb Hnl. assert (∀ w, w ∈ home_writes l d → b ≠ w.1) as Hnb.
      { intros w (j & Hj & ->)%home_writes_in E. apply Hnl. by exists j. }
      rewrite Erec apply_writes_app /= dblock_insert decide_False; [intros ->; apply Hb; change LOGSIZE with 30; lia|].
      rewrite (dblock_writes_ne (home_writes l d)); [intros (w & E & Hw)%list_elem_of_fmap; by apply (Hnb w Hw)|].
      rewrite (dblock_writes_ne k); [|done]. intros (w & E & Hw)%list_elem_of_fmap.
      exact (Hnb w (prefix_in _ _ _ Hk Hw) E).
  - destruct k1 as [|w k1].
    + rewrite app_nil_r. intros b Hb. rewrite Erec apply_writes_app /= dblock_insert.
      rewrite decide_False; [intros ->; apply Hb; change LOGSIZE with 30; lia|].
      assert (lg_start l ∉ (home_writes l d).*1) as Hs by by apply start_not_home.
      apply recovered_new; [done| | |done|done].
      * destruct Hd as [D1 D2 D3]. by split; rewrite dblock_writes_ne.
      * intros i Hi. pose proof (lh_n _ Hl). rewrite dblock_writes_ne.
        { intros (w & E & Hw)%list_elem_of_fmap. apply (Hni (i + 1) ltac:(lia) w Hw). lia. }
        symmetry. apply dblock_writes_in.
        -- apply list_elem_of_fmap. exists (lh_block l i, dblock d (lg_start l + i + 1)). split; [done|].
           apply list_elem_of_fmap. exists i. split; [done|]. apply elem_of_seqZ. lia.
        -- intros y (j & Hj & [= Ej ->])%home_writes_in. apply (lh_inj _ Hl) in Ej as ->; done.
    + apply prefix_cons_inv_1 in Hk as Hw. apply prefix_cons_inv_2, prefix_nil_inv in Hk. subst w k1.
      rewrite -Erec. intros b Hb. apply recovered_old; [done| | |done]; rewrite Erec apply_writes_app /= dblock_insert decide_True //.
Qed.

(** A disk with a committed transaction of one block in its log. *)
Definition ex_committed : gmap Z (list Z) :=
  <[2 := put_head (ad_log ex_log) zero_block]> {[ 3 := ex_block ]}.
Lemma ex_committed_head : disk_head ex_committed (ad_log ex_log).
Proof. split; [by vm_compute..|]. intros i ->%ex_log_logged. by vm_compute. Qed.
Lemma recover_restart_witness :
  agree_outside (ad_log ex_log) (recovered (apply_writes [(100, ex_block)] ex_committed) (ad_log ex_log))
    (recovered ex_committed (ad_log ex_log)).
Proof.
  apply (recover_restart ex_committed (ad_log ex_log) [(100, ex_block)] (li_lh _ ex_log_inv) ex_committed_head).
  eexists. split; [vm_compute; reflexivity|]. vm_compute. eexists. reflexivity.
Defined.

(** *** The operations of a transaction *)

Lemma log_index_spec l blockno n : ∀ i, let r := log_index n i l blockno in
  i ≤ r ≤ i + Z.of_nat n ∧ (r < i + Z.of_nat n → lh_block l r = blockno) ∧
  (r = i + Z.of_nat n → ∀ j, i ≤ j < i + Z.of_nat n → lh_block l j ≠ blockno).
Proof.
  induction n as [|n IH]; intros i; cbn [log_index]; [split_and!; lia|].
  destruct (Z.eqb_spec (lh_block l i) blockno) as [E|E]; [split_and!; [lia..|done|lia]|].
  destruct (IH (i + 1)) as (B & B1 & B2). split_and!; [lia|lia|intros; apply B1; lia|].
  intros Hr j Hj. destruct (Z.eq_dec j i) as [->|]; [done|]. apply B2; lia.
Qed.

(** The cache may differ from the disk in [b] besides the logged blocks. *)
Record log_inv_but (b : Z) (s : absdisk) : Prop := {
  lb_lh : lh_ok (ad_log s);
  lb_disk : length (dblock (ad_disk s) (lg_start (ad_log s))) = 1024%nat ∧
            head_n (dblock (ad_disk s) (lg_start (ad_log s))) = 0;
  lb_vlen : length (dblock (ad_view s) (lg_start (ad_log s))) = 1024%nat;
  lb_view c : c ≠ b → outside (ad_log s) c → ¬ logged (ad_log s) c → dblock (ad_view s) c = dblock (ad_disk s) c
}.

(** Log_write() makes the change of block [b] part of the running
    transaction: it returns without a panic, the block is then listed in the log
    header (once, also when it was logged before), and the invariant of the log
    holds again. *)
Theorem log_write_ok b s :
  log_inv_but b s → ad_locked s = false → outside (ad_log s) b → 0 ≤ b < 2 ^ 31 →
  1 ≤ lg_outstanding (ad_log s) → lg_n (ad_log s) < LOGSIZE → lg_n (ad_log s) < lg_size (ad_log s) - 1 →
  ∃ l', log_write b s = Ok tt (io_set_log l' s) ∧ log_inv (io_set_log l' s) ∧ logged l' b ∧
    lg_n (ad_log s) ≤ lg_n l' ≤ lg_n (ad_log s) + 1.
Proof.
  intros [I1 I2 I3 I4] Hlk Hb Hbr Hout Hn Hsz. destruct (I1) as [L1 L2 L3 L4].
  rewrite /log_write /bind /get_log /gets /mod_log /modify.
  cbn [io_acquire io_release io_log io_set_log io_blockno io_bpin absdisk_env]. rewrite Hlk.
  cbn [ad_log ad_view ad_disk ad_trace ad_locked].
  rewrite (proj2 (Z.leb_gt _ _) Hn) (proj2 (Z.leb_gt _ _) Hsz) (proj2 (Z.ltb_ge _ _) Hout). cbn [orb].
  set (l := ad_log s) in *. pose proof (log_index_spec l b (Z.to_nat (lg_n l)) 0) as (R1 & R2 & R3).
  set (i := log_index _ 0 l b) in *. clearbody i.
  assert (0 + Z.of_nat (Z.to_nat (lg_n l)) = lg_n l) as En by lia. rewrite En in R1, R2, R3.
  destruct (Z.eqb_spec i (lg_n l)) as [Ei|Ei]; cbn [when ret ad_log ad_view ad_disk ad_trace ad_locked].
  - set (l' := set_lg_n (lg_n l + 1) (set_lg_block (<[i := b]> (lg_block l)) l)).
    assert (∀ j, lh_block l' j = if decide (j = lg_n l) then b else lh_block l j) as Hlb.
    { intros j. rewrite /lh_block /l' /= Ei. case_decide; subst; [by rewrite lookup_insert_eq|].
      rewrite lookup_insert_ne; [congruence|done]. }
    exists l'. split; [reflexivity|]. split; [|split; [|cbn; lia]].
    + split; [split|done|done|].
      * cbn. lia.
      * done.
      * intros j Hj. rewrite Hlb. cbn in Hj. case_decide; [done|]. apply L3. lia.
      * intros j k Hj Hk. rewrite !Hlb. cbn in Hj, Hk. repeat case_decide; try lia.
        -- intros E. exfalso. apply (R3 Ei k); [lia|done].
        -- intros E. exfalso. apply (R3 Ei j); [lia|done].
        -- intros E. apply L4; [lia..|done].
      * intros c Hc Hnl. apply I4; [|done|].
        -- intros ->. apply Hnl. exists (lg_n l). cbn. split; [lia|]. by rewrite Hlb decide_True.
        -- intros (j & Hj & <-). apply Hnl. exists j. cbn. split; [lia|]. rewrite Hlb decide_False; [lia|done].
    + exists (lg_n l). cbn. split; [lia|]. by rewrite Hlb decide_True.
  - set (l' := set_lg_block (<[i := b]> (lg_block l)) l).
    assert (∀ j, lh_block l' j = lh_block l j) as Hlb.
    { intros j. rewrite /lh_block /l' /=. destruct (decide (j = i)) as [->|Hne].
      - rewrite lookup_insert_eq /=. symmetry. apply R2. lia.
      - rewrite lookup_insert_ne; [congruence|done]. }
    exists l'. split; [reflexivity|]. split; [|split; [|cbn; lia]].
    + split; [split|done|done|].
      * done.
      * done.
      * intros j Hj. rewrite Hlb. by apply L3.
      * intros j k Hj Hk. rewrite !Hlb. by apply L4.
      * intros c Hc Hnl. apply I4; [|done|].
        -- intros ->. apply Hnl. exists i. cbn. split; [lia|]. rewrite Hlb. apply R2. lia.
        -- intros (j & Hj & <-). apply Hnl. exists j. by rewrite Hlb.
    + exists i. cbn. split; [lia|]. rewrite Hlb. apply R2. lia.
Qed.

Lemma log_write_ok_witness :
  ∃ l', log_write 100 ex_log = Ok tt (io_set_log l' ex_log) ∧ log_inv (io_set_log l' ex_log) ∧ logged l' 100 ∧
    1 ≤ lg_n l' ≤ 2.
Proof.
  apply (log_write_ok 100 ex_log); try by vm_compute.
  - destruct ex_log_inv as [H1 H2 H3 H4]. split; [done..|]. intros c _. apply H4.
  - intros [_ Hx]. by vm_compute in Hx.
Defined.


