(* ===== verification/Fs.v ===== *)
(** The file system below the system calls: kernel/fs.c, except the swap
    routines of Swap.v.  Blocks, inodes, file contents, directories and path
    names, over the buffer cache of Bio.v and the log of Log.v. *)
From S2P Require Import Prelude Riscv Mem State Sched Bytes Bio Walk Printf Console Log.

(** ** kernel/fs.h and kernel/stat.h *)
Definition ROOTINO : Z := 1.
Definition FSMAGIC : Z := 270544960.
Definition NDIRECT : Z := 12.
Definition NINDIRECT : Z := BSIZE / 4.
Definition MAXFILE : Z := NDIRECT + NINDIRECT.
Definition IPB : Z := BSIZE / 64.
Definition BPB : Z := BSIZE * 8.
Definition IBLOCK (i : Z) (sb : superblock) : Z := i / IPB + sb_inodestart sb.
Definition BBLOCK (b : Z) (sb : superblock) : Z := b / BPB + sb_bmapstart sb.
Definition DIRSIZ : nat := 14.
Definition T_DIR : Z := 1.
Definition T_FILE : Z := 2.
Definition T_DEVICE : Z := 3.

(** bp->data *)
Definition bdata (bp : nat) : K (list Z) := gets (λ s, b_data (buf_at s bp)).
Definition mod_data (bp : nat) (f : list Z → list Z) : K unit :=
  modify (upd_buf bp (λ x, set_b_data (f (b_data x)) x)).
(** data[i] and data[i] = v *)
Definition byte_at (d : list Z) (i : Z) : Z := u8 (default 0 (d !! Z.to_nat i)).
Definition set_byte (d : list Z) (i v : Z) : list Z := <[Z.to_nat i := u8 v]> d.

Definition readsb (dev : Z) : K superblock :=
  bp ← bread dev 1;
  d ← bdata bp;
  brelse bp;;
  ret (Superblock (get32 d 0) (get32 d 4) (get32 d 8) (get32 d 12) (get32 d 16)
         (get32 d 20) (get32 d 24) (get32 d 28)).

Definition fsinit (dev : Z) : K unit :=
  sb ← readsb dev;
  modify (set_sb sb);;
  if negb (sb_magic sb =? FSMAGIC) then panic "invalid file system" else
  initlog dev sb.

Definition bzero (dev bno : Z) : K unit :=
  bp ← bread dev bno;
  mod_data bp (λ _, replicate (Z.to_nat BSIZE) 0);;
  log_write bp;;
  brelse bp.

(** ** Blocks *)

(** The inner loop of balloc(): the first bit that is zero. *)
Fixpoint balloc_scan (n : nat) (b bi size : Z) (d : list Z) : option Z :=
  match n with
  | O => None
  | S n' =>
      if size <=? b + bi then None
      else if Z.land (byte_at d (bi / 8)) (Z.shiftl 1 (bi mod 8)) =? 0 then Some bi
      else balloc_scan n' b (bi + 1) size d
  end.
Fixpoint balloc_loop (bs : list Z) (dev : Z) : K Z :=
  match bs with
  | [] => cprintf (str "balloc: out of blocks" ++ [NL]) [];; ret 0
  | b :: bs' =>
      sb ← gets k_sb;
      bp ← bread dev (BBLOCK b sb);
      d ← bdata bp;
      match balloc_scan (Z.to_nat BPB) b 0 (sb_size sb) d with
      | Some bi =>
          let m := Z.shiftl 1 (bi mod 8) in
          mod_data bp (λ d, set_byte d (bi / 8) (Z.lor (byte_at d (bi / 8)) m));;
          log_write bp;;
          brelse bp;;
          bzero dev (b + bi);;
          ret (b + bi)
      | None => brelse bp;; balloc_loop bs' dev
      end
  end.
Definition balloc (dev : Z) : K Z :=
  sb ← gets k_sb;
  balloc_loop ((λ i, i * BPB) <$> seqZ 0 ((sb_size sb + BPB - 1) / BPB)) dev.

Definition bfree (dev b : Z) : K unit :=
  sb ← gets k_sb;
  bp ← bread dev (BBLOCK b sb);
  let bi := b mod BPB in
  let m := Z.shiftl 1 (bi mod 8) in
  d ← bdata bp;
  if Z.land (byte_at d (bi / 8)) m =? 0 then panic "freeing free block" else
  mod_data bp (λ d, set_byte d (bi / 8) (Z.land (byte_at d (bi / 8)) (Z.lnot m)));;
  log_write bp;;
  brelse bp.

(** ** Inodes *)

Definition inode_sl (ip : nat) : slref :=
  SlRef (λ s, i_lock (inode_at s ip)) (λ l, upd_inode ip (set_i_lock l)) (inode_lk ip) (ch_inode ip).
Definition mod_inode (ip : nat) (f : inode → inode) : K unit := modify (upd_inode ip f).
Definition get_inode (ip : nat) : K inode := gets (λ s, inode_at s ip).

Definition iinit : K unit := forM (seq 0 NINODE) (λ i, initsleeplock (inode_sl i)).

(** The offset of inode [inum] in its block; the fields of struct dinode. *)
Definition dioff (inum : Z) : Z := inum mod IPB * 64.
Definition di_type (d : list Z) (o : Z) : Z := s16 (get16 d o).
Definition di_major (d : list Z) (o : Z) : Z := s16 (get16 d (o + 2)).
Definition di_minor (d : list Z) (o : Z) : Z := s16 (get16 d (o + 4)).
Definition di_nlink (d : list Z) (o : Z) : Z := s16 (get16 d (o + 6)).
Definition di_size (d : list Z) (o : Z) : Z := get32 d (o + 8).
Definition di_addr (d : list Z) (o i : Z) : Z := get32 d (o + 12 + 4 * i).

(** ip->addrs[i] *)
Definition addr_at (x : inode) (i : Z) : Z := default 0 (i_addrs x !! i).

(** The search of iget(): the entry of the inode, or the first free one. *)
Fixpoint iget_scan (l : list nat) (s : kstate) (dev inum : Z) (empty : option nat) : option nat * option nat :=
  match l with
  | [] => (None, empty)
  | i :: l' =>
      let x := inode_at s i in
      if (0 <? i_ref x) && (i_dev x =? dev) && (i_inum x =? inum) then (Some i, empty)
      else iget_scan l' s dev inum
             (if bool_decide (empty = None) && (i_ref x =? 0) then Some i else empty)
  end.
Definition iget (dev inum : Z) : K nat :=
  acquire itable_lock;;
  r ← gets (λ s, iget_scan (seq 0 NINODE) s dev inum None);
  match r.1 with
  | Some ip =>
      mod_inode ip (λ x, set_i_ref (i_ref x + 1) x);;
      release itable_lock;;
      ret ip
  | None =>
      match r.2 with
      | None => panic "iget: no inodes"
      | Some ip =>
          mod_inode ip (set_i_dev dev);;
          mod_inode ip (set_i_inum inum);;
          mod_inode ip (set_i_ref 1);;
          mod_inode ip (set_i_valid false);;
          release itable_lock;;
          ret ip
      end
  end.

Definition idup (ip : nat) : K nat :=
  acquire itable_lock;;
  mod_inode ip (λ x, set_i_ref (i_ref x + 1) x);;
  release itable_lock;;
  ret ip.

Fixpoint ialloc_loop (inums : list Z) (dev type : Z) : K (option nat) :=
  match inums with
  | [] => cprintf (str "ialloc: no inodes" ++ [NL]) [];; ret None
  | inum :: inums' =>
      sb ← gets k_sb;
      bp ← bread dev (IBLOCK inum sb);
      d ← bdata bp;
      let o := dioff inum in
      if di_type d o =? 0 then
        mod_data bp (λ d, splice d (Z.to_nat o) (replicate 64 0));;
        mod_data bp (λ d, put16 d o type);;
        log_write bp;;
        brelse bp;;
        ip ← iget dev inum;
        ret (Some ip)
      else brelse bp;; ialloc_loop inums' dev type
  end.
Definition ialloc (dev type : Z) : K (option nat) :=
  sb ← gets k_sb;
  ialloc_loop (seqZ 1 (sb_ninodes sb - 1)) dev type.

Definition dinode_write (x : inode) (o : Z) (d : list Z) : list Z :=
  let d := put16 d o (i_type x) in
  let d := put16 d (o + 2) (i_major x) in
  let d := put16 d (o + 4) (i_minor x) in
  let d := put16 d (o + 6) (i_nlink x) in
  let d := put32 d (o + 8) (i_size x) in
  foldl (λ d i, put32 d (o + 12 + 4 * i) (addr_at x i)) d (seqZ 0 (NDIRECT + 1)).
Definition iupdate (ip : nat) : K unit :=
  x ← get_inode ip;
  sb ← gets k_sb;
  bp ← bread (i_dev x) (IBLOCK (i_inum x) sb);
  mod_data bp (dinode_write x (dioff (i_inum x)));;
  log_write bp;;
  brelse bp.

Definition dinode_read (d : list Z) (o : Z) (x : inode) : inode :=
  let x := set_i_type (di_type d o) x in
  let x := set_i_major (di_major d o) x in
  let x := set_i_minor (di_minor d o) x in
  let x := set_i_nlink (di_nlink d o) x in
  let x := set_i_size (di_size d o) x in
  set_i_addrs (foldl (λ m i, <[i := di_addr d o i]> m) (i_addrs x) (seqZ 0 (NDIRECT + 1))) x.
Definition ilock (ip : nat) : K unit :=
  x ← get_inode ip;
  if i_ref x <? 1 then panic "ilock" else
  acquiresleep (inode_sl ip);;
  x ← get_inode ip;
  if i_valid x then ret tt else
  sb ← gets k_sb;
  bp ← bread (i_dev x) (IBLOCK (i_inum x) sb);
  d ← bdata bp;
  mod_inode ip (dinode_read d (dioff (i_inum x)));;
  brelse bp;;
  mod_inode ip (set_i_valid true);;
  x ← get_inode ip;
  if i_type x =? 0 then panic "ilock: no type" else ret tt.

Definition iunlock (ip : nat) : K unit :=
  h ← holdingsleep (inode_sl ip);
  x ← get_inode ip;
  if negb h || (i_ref x <? 1) then panic "iunlock" else
  releasesleep (inode_sl ip).

(** Free the blocks of an inode. *)
Definition itrunc (ip : nat) : K unit :=
  forM (seqZ 0 NDIRECT) (λ i,
    x ← get_inode ip;
    when (negb (addr_at x i =? 0)) (
      bfree (i_dev x) (addr_at x i);;
      mod_inode ip (λ x, set_i_addrs (<[i := 0]> (i_addrs x)) x)));;
  x ← get_inode ip;
  when (negb (addr_at x NDIRECT =? 0)) (
    bp ← bread (i_dev x) (addr_at x NDIRECT);
    forM (seqZ 0 NINDIRECT) (λ j,
      d ← bdata bp;
      let a := get32 d (4 * j) in
      when (negb (a =? 0)) (bfree (i_dev x) a));;
    brelse bp;;
    bfree (i_dev x) (addr_at x NDIRECT);;
    mod_inode ip (λ x, set_i_addrs (<[NDIRECT := 0]> (i_addrs x)) x));;
  mod_inode ip (set_i_size 0);;
  iupdate ip.

Definition iput (ip : nat) : K unit :=
  acquire itable_lock;;
  x ← get_inode ip;
  when ((i_ref x =? 1) && i_valid x && (i_nlink x =? 0)) (
    acquiresleep (inode_sl ip);;
    release itable_lock;;
    itrunc ip;;
    mod_inode ip (set_i_type 0);;
    iupdate ip;;
    mod_inode ip (set_i_valid false);;
    releasesleep (inode_sl ip);;
    acquire itable_lock);;
  mod_inode ip (λ x, set_i_ref (i_ref x - 1) x);;
  release itable_lock.

Definition iunlockput (ip : nat) : K unit := iunlock ip;; iput ip.

(** ** Inode contents *)

(** if((addr = ip->addrs[i]) == 0) addr = balloc(ip->dev) *)
Definition bmap_slot (ip : nat) (i : Z) : K Z :=
  x ← get_inode ip;
  if negb (addr_at x i =? 0) then ret (addr_at x i) else
  addr ← balloc (i_dev x);
  if addr =? 0 then ret 0 else
  mod_inode ip (λ x, set_i_addrs (<[i := addr]> (i_addrs x)) x);;
  ret addr.
Definition bmap (ip : nat) (bn : Z) : K Z :=
  if bn <? NDIRECT then bmap_slot ip bn else
  let bn := bn - NDIRECT in
  if bn <? NINDIRECT then
    addr ← bmap_slot ip NDIRECT;
    if addr =? 0 then ret 0 else
    x ← get_inode ip;
    bp ← bread (i_dev x) addr;
    d ← bdata bp;
    addr ← (if negb (get32 d (4 * bn) =? 0) then ret (get32 d (4 * bn)) else
            addr ← balloc (i_dev x);
            when (negb (addr =? 0)) (
              mod_data bp (λ d, put32 d (4 * bn) addr);;
              log_write bp);;
            ret addr);
    brelse bp;;
    ret addr
  else panic "bmap: out of range".

(** struct stat: dev, ino, type, nlink, size *)
Definition stati (x : inode) : list Z :=
  le_bytes 4 (i_dev x) ++ le_bytes 4 (i_inum x) ++ le_bytes 2 (i_type x) ++
  le_bytes 2 (i_nlink x) ++ replicate 4 0 ++ le_bytes 8 (i_size x).

(** readi(): [sink] is the copy to the destination at offset [tot]; the result
    has the bytes too, for a destination that is a local variable.  Every
    round reads up to a block boundary. *)
Fixpoint readi_loop (fuel : nat) (sink : Z → list Z → K Z) (ip : nat) (off n tot : Z) (acc : list Z) : K (Z * list Z) :=
  match fuel with
  | O => λ _, NoFuel
  | S f =>
      if n <=? tot then ret (tot, acc) else
      addr ← bmap ip (off / BSIZE);
      if addr =? 0 then ret (tot, acc) else
      x ← get_inode ip;
      bp ← bread (i_dev x) addr;
      let m := Z.min (n - tot) (BSIZE - off mod BSIZE) in
      d ← bdata bp;
      let bytes := slice d (Z.to_nat (off mod BSIZE)) (Z.to_nat m) in
      r ← sink tot bytes;
      if r =? -1 then brelse bp;; ret (-1, acc) else
      brelse bp;;
      readi_loop f sink ip (off + m) n (tot + m) (acc ++ bytes)
  end.
Definition readi_gen (sink : Z → list Z → K Z) (ip : nat) (off n : Z) : K (Z * list Z) :=
  x ← get_inode ip;
  if (i_size x <? off) || (u32 (off + n) <? off) then ret (0, []) else
  let n := if i_size x <? u32 (off + n) then i_size x - off else n in
  readi_loop (Z.to_nat (n / BSIZE + 3)) sink ip off n 0 [].
Definition readi (ip : nat) (user_dst : bool) (dst off n : Z) : K Z :=
  r ← readi_gen (λ tot bytes, either_copyout user_dst (u64 (dst + tot)) bytes) ip off n;
  ret r.1.
(** readi(ip, 0, &local, off, n) *)
Definition readi_local (ip : nat) (off n : Z) : K (Z * list Z) :=
  readi_gen (λ _ _, ret 0) ip off n.

(** writei(): [source] copies in [m] bytes from offset [tot]. *)
Fixpoint writei_loop (fuel : nat) (source : Z → Z → K (Z * list Z)) (ip : nat) (off n tot : Z) : K (Z * Z) :=
  match fuel with
  | O => λ _, NoFuel
  | S f =>
      if n <=? tot then ret (tot, off) else
      addr ← bmap ip (off / BSIZE);
      if addr =? 0 then ret (tot, off) else
      x ← get_inode ip;
      bp ← bread (i_dev x) addr;
      let m := Z.min (n - tot) (BSIZE - off mod BSIZE) in
      rb ← source tot m;
      mod_data bp (λ d, splice d (Z.to_nat (off mod BSIZE)) rb.2);;
      if rb.1 =? -1 then brelse bp;; ret (tot, off) else
      log_write bp;;
      brelse bp;;
      writei_loop f source ip (off + m) n (tot + m)
  end.
Definition writei_gen (source : Z → Z → K (Z * list Z)) (ip : nat) (off n : Z) : K Z :=
  x ← get_inode ip;
  if (i_size x <? off) || (u32 (off + n) <? off) then ret (-1) else
  if MAXFILE * BSIZE <? u32 (off + n) then ret (-1) else
  r ← writei_loop (Z.to_nat (n / BSIZE + 3)) source ip off n 0;
  let '(tot, off) := (r : Z * Z) in
  x ← get_inode ip;
  when (i_size x <? off) (mod_inode ip (set_i_size off));;
  iupdate ip;;
  ret tot.
Definition writei (ip : nat) (user_src : bool) (src off n : Z) : K Z :=
  writei_gen (λ tot m, either_copyin user_src (u64 (src + tot)) m) ip off n.
(** writei(ip, 0, &local, off, sizeof(local)) *)
Definition writei_local (ip : nat) (bytes : list Z) (off : Z) : K Z :=
  writei_gen (λ tot m, ret (0, slice bytes (Z.to_nat tot) (Z.to_nat m))) ip off (Z.of_nat (length bytes)).

(** ** Directories *)

(** strncmp() on byte strings that end at a NUL or at their length. *)
Fixpoint strncmp_l (n : nat) (p q : list Z) : Z :=
  match n with
  | O => 0
  | S n' =>
      let a := default 0 (head p) in
      let b := default 0 (head q) in
      if negb (a =? 0) && (a =? b) then strncmp_l n' (tail p) (tail q) else a - b
  end.
Definition namecmp (s t : list Z) : Z := strncmp_l DIRSIZ s t.
(** strncpy() into a field of [n] bytes: stops at a NUL, pads with NULs. *)
Fixpoint strncpy_l (n : nat) (t : list Z) : list Z :=
  match n with
  | O => []
  | S n' =>
      match t with
      | [] => replicate n 0
      | c :: t' => if c =? 0 then replicate n 0 else c :: strncpy_l n' t'
      end
  end.

(** struct dirent *)
Definition DIRENT : Z := 16.
Definition de_inum (d : list Z) : Z := get16 d 0.
Definition de_name (d : list Z) : list Z := slice d 2 DIRSIZ.
Definition mk_dirent (inum : Z) (name : list Z) : list Z := le_bytes 2 inum ++ strncpy_l DIRSIZ name.

(** for(off = 0; off < dp->size; off += sizeof(de)) *)
Definition dir_offsets (size : Z) : list Z := (λ i, i * DIRENT) <$> seqZ 0 ((size + DIRENT - 1) / DIRENT).

(** The offset and the inode of the entry. *)
Fixpoint dirlookup_loop (offs : list Z) (dp : nat) (name : list Z) : K (option (nat * Z)) :=
  match offs with
  | [] => ret None
  | off :: offs' =>
      r ← readi_local dp off DIRENT;
      if negb (r.1 =? DIRENT) then panic "dirlookup read" else
      let de := r.2 in
      if de_inum de =? 0 then dirlookup_loop offs' dp name
      else if namecmp name (de_name de) =? 0 then
        x ← get_inode dp;
        ip ← iget (i_dev x) (de_inum de);
        ret (Some (ip, off))
      else dirlookup_loop offs' dp name
  end.
Definition dirlookup (dp : nat) (name : list Z) : K (option (nat * Z)) :=
  x ← get_inode dp;
  if negb (i_type x =? T_DIR) then panic "dirlookup not DIR" else
  dirlookup_loop (dir_offsets (i_size x)) dp name.

(** The loop of dirlink(): the offset of the first free entry, or the end. *)
Fixpoint dirlink_loop (offs : list Z) (dp : nat) (end_off : Z) : K Z :=
  match offs with
  | [] => ret end_off
  | off :: offs' =>
      r ← readi_local dp off DIRENT;
      if negb (r.1 =? DIRENT) then panic "dirlink read" else
      if de_inum r.2 =? 0 then ret off else dirlink_loop offs' dp end_off
  end.
Definition dirlink (dp : nat) (name : list Z) (inum : Z) : K Z :=
  r ← dirlookup dp name;
  match r with
  | Some (ip, _) => iput ip;; ret (-1)
  | None =>
      x ← get_inode dp;
      off ← dirlink_loop (dir_offsets (i_size x)) dp
              (DIRENT * Z.of_nat (length (dir_offsets (i_size x))));
      n ← writei_local dp (mk_dirent inum name) off;
      if negb (n =? DIRENT) then ret (-1) else ret 0
  end.

(** ** Paths

    A path is the bytes of a C string before its NUL. *)
Definition SLASH : Z := 47.
Fixpoint skip_slashes (path : list Z) : list Z :=
  match path with
  | c :: p => if c =? SLASH then skip_slashes p else path
  | [] => []
  end.
Fixpoint span_elem (path : list Z) : list Z * list Z :=
  match path with
  | c :: p => if c =? SLASH then ([], path) else let '(a, b) := span_elem p in (c :: a, b)
  | [] => ([], [])
  end.
(** The element, cut to DIRSIZ bytes, and the rest of the path. *)
Definition skipelem (path : list Z) : option (list Z * list Z) :=
  match skip_slashes path with
  | [] => None
  | p => let '(elem, rest) := span_elem p in Some (take DIRSIZ elem, skip_slashes rest)
  end.

(** Every element takes at least one byte of the path. *)
Fixpoint namex_loop (fuel : nat) (ip : nat) (path name : list Z) (nameiparent : bool) : K (option nat * list Z) :=
  match fuel with
  | O => λ _, NoFuel
  | S f =>
      match skipelem path with
      | None =>
          if nameiparent then iput ip;; ret (None, name) else ret (Some ip, name)
      | Some (name, path) =>
          ilock ip;;
          x ← get_inode ip;
          if negb (i_type x =? T_DIR) then iunlockput ip;; ret (None, name)
          else if nameiparent && bool_decide (path = []) then iunlock ip;; ret (Some ip, name)
          else
            r ← dirlookup ip name;
            match r with
            | None => iunlockput ip;; ret (None, name)
            | Some (next, _) => iunlockput ip;; namex_loop f next path name nameiparent
            end
      end
  end.
Definition namex (path : list Z) (nameiparent : bool) : K (option nat * list Z) :=
  ip ← (if bool_decide (head path = Some SLASH) then iget ROOTDEV ROOTINO
        else p ← myproc; cwd ← gets (λ s, p_cwd (proc_at s p)); cwd ← deref cwd; idup cwd);
  namex_loop (S (length path)) ip path [] nameiparent.
Definition namei (path : list Z) : K (option nat) := r ← namex path false; ret r.1.
Definition nameiparent (path : list Z) : K (option nat * list Z) := namex path true.

(** ** Lemmas *)

(** *** Path names *)

Lemma skip_slashes_length p : (length (skip_slashes p) ≤ length p)%nat.
Proof. induction p as [|c p IH]; cbn; [done|]. destruct (c =? SLASH); cbn; lia. Qed.
Lemma skip_slashes_head p : head (skip_slashes p) ≠ Some SLASH.
Proof.
  induction p as [|c p IH]; cbn; [done|]. destruct (Z.eqb_spec c SLASH); [done|]. cbn. congruence.
Qed.
Lemma span_elem_app p : (span_elem p).1 ++ (span_elem p).2 = p.
Proof.
  induction p as [|c p IH]; cbn; [done|]. destruct (c =? SLASH); [done|].
  destruct (span_elem p). cbn in *. by rewrite IH.
Qed.
Lemma span_elem_noslash p : Forall (λ c, c ≠ SLASH) (span_elem p).1.
Proof.
  induction p as [|c p IH]; cbn; [constructor|]. destruct (Z.eqb_spec c SLASH); [constructor|].
  destruct (span_elem p). cbn in *. by constructor.
Qed.

(** What skipelem() promises: the element is not empty, has no slash and at
    most DIRSIZ bytes; the rest has no leading slash and is shorter. *)
Lemma skipelem_spec p name rest :
  skipelem p = Some (name, rest) →
  name ≠ [] ∧ (length name ≤ DIRSIZ)%nat ∧ Forall (λ c, c ≠ SLASH) name ∧
  head rest ≠ Some SLASH ∧ (length rest < length p)%nat.
Proof.
  rewrite /skipelem. destruct (skip_slashes p) as [|c q] eqn:E; [done|].
  pose proof (skip_slashes_head p) as Hh. pose proof (skip_slashes_length p) as Hl. rewrite E in Hh, Hl. cbn in Hh.
  pose proof (span_elem_app (c :: q)) as Ha. pose proof (span_elem_noslash (c :: q)) as Hn.
  assert ((span_elem (c :: q)).1 ≠ []) as Hne.
  { cbn. destruct (Z.eqb_spec c SLASH); [congruence|]. by destruct (span_elem q). }
  destruct (span_elem (c :: q)) as [el rs]. cbn [fst snd] in *. intros [= <- <-].
  destruct el as [|e el]; [done|]. split_and!.
  - done.
  - rewrite length_take. lia.
  - by apply Forall_take.
  - apply skip_slashes_head.
  - apply (f_equal length) in Ha. rewrite length_app in Ha. pose proof (skip_slashes_length rs). cbn in *. lia.
Qed.
Lemma skipelem_none p : skipelem p = None ↔ Forall (λ c, c = SLASH) p.
Proof.
  rewrite /skipelem. split.
  - intros Hn. induction p as [|c p IH]; [constructor|]. cbn [skip_slashes] in Hn.
    destruct (Z.eqb_spec c SLASH) as [->|Hc].
    + constructor; [done|by apply IH].
    + by destruct (span_elem (c :: p)).
  - intros Hf. assert (skip_slashes p = []) as -> by (induction Hf as [|c p -> _ IH]; [done|exact IH]). done.
Qed.

(** The elements of a path, and joining them again. *)
Fixpoint elems (fuel : nat) (p : list Z) : list (list Z) :=
  match fuel with
  | O => []
  | S f => match skipelem p with None => [] | Some (n, r) => n :: elems f r end
  end.
Definition join_path (l : list (list Z)) : list Z := foldr (λ e p, e ++ SLASH :: p) [] l.

Lemma span_elem_slash e p : Forall (λ c, c ≠ SLASH) e → span_elem (e ++ SLASH :: p) = (e, SLASH :: p).
Proof. induction 1 as [|c e Hc _ IH]; cbn; [done|]. rewrite (proj2 (Z.eqb_neq _ _) Hc) IH //. Qed.
Lemma skipelem_join e p :
  e ≠ [] → Forall (λ c, c ≠ SLASH) e → (length e ≤ DIRSIZ)%nat →
  skipelem (e ++ SLASH :: p) = Some (e, skip_slashes p).
Proof.
  intros Hne Hf Hl. destruct e as [|c e]; [done|]. pose proof Hf as Hf'. apply Forall_cons in Hf' as [Hc _].
  rewrite /skipelem. cbn [app skip_slashes]. rewrite (proj2 (Z.eqb_neq _ _) Hc).
  change (c :: e ++ SLASH :: p) with ((c :: e) ++ SLASH :: p). rewrite span_elem_slash //.
  cbn [skip_slashes]. rewrite Z.eqb_refl take_ge //.
Qed.

(** path resolution visits exactly the elements of a path: of a path built
    by joining names (each non-empty, without a slash, at most DIRSIZ bytes) with
    slashes, repeated skipelem() gives back these names, in order. *)
Theorem elems_join l fuel :
  Forall (λ e, e ≠ [] ∧ Forall (λ c, c ≠ SLASH) e ∧ (length e ≤ DIRSIZ)%nat) l →
  (length l < fuel)%nat → elems fuel (join_path l) = l.
Proof.
  intros Hf. revert fuel. induction Hf as [|e l (He1 & He2 & He3) Hl IH]; intros fuel Hfu;
    (destruct fuel as [|fuel]; [cbn in Hfu; lia|]); [done|].
  cbn [elems join_path foldr]. rewrite skipelem_join //. fold (join_path l).
  assert (skip_slashes (join_path l) = join_path l) as ->.
  { destruct Hl as [|e' l (E1 & E2 & _) _]; [done|]. destruct e' as [|c e']; [done|].
    apply Forall_cons in E2 as [Hc _]. cbn. by rewrite (proj2 (Z.eqb_neq _ _) Hc). }
  f_equal. apply IH. cbn in Hfu. lia.
Qed.

Lemma elems_join_witness :
  elems 3 (join_path [[117; 115; 114]; [98; 105; 110]]) = [[117; 115; 114]; [98; 105; 110]].
Proof.
  apply (elems_join [[117; 115; 114]; [98; 105; 110]] 3); [|cbn; lia].
  repeat constructor; try done; cbn; lia.
Defined.

(** *** Directory entries *)

Definition name_ok (n : list Z) : Prop := Forall (λ c, 0 < c < 256) n ∧ (length n ≤ DIRSIZ)%nat.

Lemma length_strncpy n t : length (strncpy_l n t) = n.
Proof.
  revert t; induction n as [|n IH]; intros t; cbn; [done|]. destruct t as [|c t]; [by rewrite /= length_replicate|].
  destruct (c =? 0); cbn; [by rewrite length_replicate|]. by rewrite IH.
Qed.
Lemma strncmp_nil n k : strncmp_l n [] (replicate k 0) = 0.
Proof. destruct n; [done|]. by destruct k. Qed.
Lemma strncmp_strncpy n a b :
  Forall (λ c, 0 < c < 256) a → Forall (λ c, 0 < c < 256) b → (length a ≤ n)%nat → (length b ≤ n)%nat →
  strncmp_l n a (strncpy_l n b) = 0 ↔ a = b.
Proof.
  revert a b; induction n as [|n IH]; intros a b Ha Hb La Lb.
  { destruct a, b; cbn in La, Lb; try lia. done. }
  destruct a as [|x a], b as [|y b]; cbn [strncmp_l strncpy_l head default from_option id].
  - done.
  - apply Forall_cons in Hb as [Hy _]. rewrite (proj2 (Z.eqb_neq y 0)); [lia|]. cbn. split; [lia|done].
  - apply Forall_cons in Ha as [Hx _]. rewrite (proj2 (Z.eqb_neq x 0)); [lia|]. cbn.
    split; [lia|done].
  - apply Forall_cons in Ha as [Hx Ha]. apply Forall_cons in Hb as [Hy Hb].
    rewrite (proj2 (Z.eqb_neq y 0)); [lia|]. cbn [head default from_option id tl].
    rewrite (proj2 (Z.eqb_neq x 0)); [lia|]. cbn [negb andb]. destruct (Z.eqb_spec x y) as [->|Hne].
    + cbn in La, Lb. cbn [tl]. destruct (IH a b Ha Hb) as [I1 I2]; [lia..|].
      split; [intros E; by rewrite (I1 E)|]. intros [= ->]. by apply I2.
    + split; [lia|congruence].
Qed.

(** a directory entry written by dirlink() is found under its name and
    under no other: namecmp() of a name with the padded name field is 0 exactly
    when the names are equal, also for names of the full DIRSIZ bytes, which have
    no terminating NUL. *)
Theorem dirent_name inum a b :
  name_ok a → name_ok b → namecmp a (de_name (mk_dirent inum b)) = 0 ↔ a = b.
Proof.
  intros [Ha La] [Hb Lb]. rewrite /namecmp /de_name /mk_dirent /slice drop_app_length' //.
  rewrite take_ge; [by rewrite length_strncpy|]. by apply strncmp_strncpy.
Qed.

Lemma dirent_name_witness : namecmp [97; 98] (de_name (mk_dirent 5 [97; 98])) = 0 ↔ [97; 98] = [97; 98].
Proof. apply (dirent_name 5 [97; 98] [97; 98]); (split; [repeat constructor; lia|cbn; unfold DIRSIZ; lia]). Defined.
Lemma dirent_inum inum b : 0 ≤ inum < 65536 → de_inum (mk_dirent inum b) = inum.
Proof.
  intros Hi. rewrite /de_inum /get16 /get_le /slice /mk_dirent. cbn [Z.to_nat drop].
  rewrite (take_app_length' (le_bytes 2 inum)) // of_le_bytes. by apply Z.mod_small.
Qed.
Lemma dirent_length inum b : length (mk_dirent inum b) = 16%nat.
Proof. by rewrite /mk_dirent length_app length_le_bytes length_strncpy. Qed.

(** *** Inodes on disk *)

Lemma s16_get16 v : s16 v = v → s16 (v mod 65536) = v.
Proof. rewrite /s16. intros E. rewrite -{2}E. f_equal. by rewrite Zplus_mod_idemp_l. Qed.

(** The values a struct inode's fields can have. *)
Record inode_ok (x : inode) : Prop := {
  io_type : s16 (i_type x) = i_type x; io_major : s16 (i_major x) = i_major x;
  io_minor : s16 (i_minor x) = i_minor x; io_nlink : s16 (i_nlink x) = i_nlink x;
  io_size : 0 ≤ i_size x < 2 ^ 32; io_addrs i : 0 ≤ i ≤ NDIRECT → 0 ≤ addr_at x i < 2 ^ 32
}.

Lemma get_put_mod n d off v :
  0 ≤ off → off + Z.of_nat n ≤ Z.of_nat (length d) → get_le n (put_le n d off v) off = v mod 256 ^ Z.of_nat n.
Proof.
  intros Ho Hl. rewrite /get_le /put_le.
  pose proof (slice_splice_eq d (Z.to_nat off) (le_bytes n v)) as E. rewrite length_le_bytes in E.
  rewrite E; [lia|]. apply of_le_bytes.
Qed.

Lemma put_addrs_spec x o d k : 0 ≤ o → o + 64 ≤ Z.of_nat (length d) → (k ≤ 13)%nat → (∀ i, 0 ≤ i ≤ NDIRECT → 0 ≤ addr_at x i < 2 ^ 32) →
  let d' := foldl (λ d i, put32 d (o + 12 + 4 * i) (addr_at x i)) d (seqZ 0 (Z.of_nat k)) in
  length d' = length d ∧ (∀ n off, o ≤ off → off + Z.of_nat n ≤ o + 12 → get_le n d' off = get_le n d off) ∧
  ∀ i, 0 ≤ i < Z.of_nat k → get32 d' (o + 12 + 4 * i) = addr_at x i.
Proof.
  intros Ho Hl Hk Ha. induction k as [|k IH]; [by split_and!; [..|lia]|].
  destruct IH as (IH1 & IH2 & IH3); [lia|]. cbv zeta. rewrite seqZ_S foldl_app. cbn [foldl].
  set (e := foldl _ d _) in *. rewrite Z.add_0_l. split_and!.
  - rewrite /put32 length_put; lia.
  - intros n off H1 H2. rewrite -(IH2 n off) //. apply (get_put_ne 4); lia.
  - intros i Hi. destruct (decide (i = Z.of_nat k)) as [->|Hne].
    + apply (get_put_eq 4); [lia|lia|]. apply Ha. change NDIRECT with 12. lia.
    + rewrite -(IH3 i); [lia|]. apply (get_put_ne 4 4); lia.
Qed.

Lemma read_addrs_spec d o i k (m : gmap Z Z) : 0 ≤ i < Z.of_nat k →
  default 0 (foldl (λ m i, <[i := di_addr d o i]> m) m (seqZ 0 (Z.of_nat k)) !! i) = di_addr d o i.
Proof.
  induction k as [|k IH]; intros Hik; [lia|]. rewrite seqZ_S foldl_app. cbn [foldl]. rewrite Z.add_0_l.
  destruct (decide (i = Z.of_nat k)) as [->|Hne]; [by rewrite lookup_insert_eq|].
  rewrite lookup_insert_ne; [lia|]. apply IH; lia.
Qed.

(** What iupdate() writes into an inode block, ilock() reads back: type,
    device numbers, link count, size and all block addresses of the inode, at
    every slot of the block. *)
Theorem dinode_roundtrip x y o d :
  inode_ok x → 0 ≤ o → o + 64 ≤ Z.of_nat (length d) →
  let z := dinode_read (dinode_write x o d) o y in
  i_type z = i_type x ∧ i_major z = i_major x ∧ i_minor z = i_minor x ∧ i_nlink z = i_nlink x ∧
  i_size z = i_size x ∧ (∀ i, 0 ≤ i ≤ NDIRECT → addr_at z i = addr_at x i) ∧
  length (dinode_write x o d) = length d.
Proof.
  intros [X1 X2 X3 X4 X5 X6] Ho Hl. cbv zeta. rewrite /dinode_write.
  set (d1 := put16 d o (i_type x)). set (d2 := put16 d1 (o + 2) (i_major x)).
  set (d3 := put16 d2 (o + 4) (i_minor x)). set (d4 := put16 d3 (o + 6) (i_nlink x)).
  set (d5 := put32 d4 (o + 8) (i_size x)).
  assert (length d1 = length d) as L1 by (rewrite /d1 /put16 length_put; lia).
  assert (length d2 = length d) as L2 by (rewrite /d2 /put16 length_put; lia).
  assert (length d3 = length d) as L3 by (rewrite /d3 /put16 length_put; lia).
  assert (length d4 = length d) as L4 by (rewrite /d4 /put16 length_put; lia).
  assert (length d5 = length d) as L5 by (rewrite /d5 /put32 length_put; lia).
  destruct (put_addrs_spec x o d5 13) as (A1 & A2 & A3); [lia|lia|lia|done|].
  change (seqZ 0 (NDIRECT + 1)) with (seqZ 0 (Z.of_nat 13)). set (d6 := foldl _ d5 _) in *.
  assert (get16 d6 o = i_type x mod 65536) as G1.
  { rewrite /get16 (A2 2%nat) /d5; [lia..|]. rewrite /put32 (get_put_ne 4 2 d4); [lia..|].
    rewrite /d4 /put16 (get_put_ne 2 2 d3); [lia..|]. rewrite /d3 /put16 (get_put_ne 2 2 d2); [lia..|].
    rewrite /d2 /put16 (get_put_ne 2 2 d1); [lia..|]. rewrite /d1 /put16 get_put_mod //; lia. }
  assert (get16 d6 (o + 2) = i_major x mod 65536) as G2.
  { rewrite /get16 (A2 2%nat) /d5; [lia..|]. rewrite /put32 (get_put_ne 4 2 d4); [lia..|].
    rewrite /d4 /put16 (get_put_ne 2 2 d3); [lia..|]. rewrite /d3 /put16 (get_put_ne 2 2 d2); [lia..|]. rewrite /d2 /put16 get_put_mod //; lia. }
  assert (get16 d6 (o + 4) = i_minor x mod 65536) as G3.
  { rewrite /get16 (A2 2%nat) /d5; [lia..|]. rewrite /put32 (get_put_ne 4 2 d4); [lia..|].
    rewrite /d4 /put16 (get_put_ne 2 2 d3); [lia..|]. rewrite /d3 /put16 get_put_mod //; lia. }
  assert (get16 d6 (o + 6) = i_nlink x mod 65536) as G4.
  { rewrite /get16 (A2 2%nat) /d5; [lia..|]. rewrite /put32 (get_put_ne 4 2 d4); [lia..|].
    rewrite /d4 /put16 get_put_mod //; lia. }
  assert (get32 d6 (o + 8) = i_size x) as G5.
  { rewrite /get32 (A2 4%nat) /d5; [lia..|]. apply (get_put_eq 4); [lia|lia|done]. }
  rewrite /dinode_read /di_type /di_major /di_minor /di_nlink /di_size G1 G2 G3 G4 G5 !s16_get16 //.
  split_and!; try reflexivity; [|lia].
  intros i Hi. change NDIRECT with 12 in Hi. transitivity (di_addr d6 o i); [|apply A3; lia].
  rewrite /addr_at. change (seqZ 0 (NDIRECT + 1)) with (seqZ 0 (Z.of_nat 13)).
  apply (read_addrs_spec d6 o i 13). lia.
Qed.

(** An inode of a file of 700 bytes in block 46. *)
Definition ex_inode : inode := Inode 1 5 1 sleeplock0 true 2 0 0 1 700 {[ 0 := 46 ]}.
Lemma ex_inode_ok : inode_ok ex_inode.
Proof.
  split; [by vm_compute..|]. intros i _. rewrite /addr_at. cbn [i_addrs ex_inode]. rewrite lookup_singleton. by case_decide.
Qed.
Lemma dinode_roundtrip_witness :
  let z := dinode_read (dinode_write ex_inode 64 zero_block) 64 inode0 in
  i_type z = i_type ex_inode ∧ i_major z = i_major ex_inode ∧ i_minor z = i_minor ex_inode ∧
  i_nlink z = i_nlink ex_inode ∧ i_size z = i_size ex_inode ∧
  (∀ i, 0 ≤ i ≤ NDIRECT → addr_at z i = addr_at ex_inode i) ∧
  length (dinode_write ex_inode 64 zero_block) = length zero_block.
Proof. exact (dinode_roundtrip ex_inode inode0 64 zero_block ex_inode_ok ltac:(done) ltac:(done)). Defined.

(** *** The block bitmap *)

Definition bit_used (d : list Z) (bi : Z) : bool :=
  negb (Z.land (byte_at d (bi / 8)) (Z.shiftl 1 (bi mod 8)) =? 0).
Definition bit_set (d : list Z) (bi : Z) : list Z :=
  set_byte d (bi / 8) (Z.lor (byte_at d (bi / 8)) (Z.shiftl 1 (bi mod 8))).
Definition bit_clear (d : list Z) (bi : Z) : list Z :=
  set_byte d (bi / 8) (Z.land (byte_at d (bi / 8)) (Z.lnot (Z.shiftl 1 (bi mod 8)))).

Lemma bit_used_testbit d bi : bit_used d bi = Z.testbit (byte_at d (bi / 8)) (bi mod 8).
Proof. rewrite /bit_used Z.shiftl_1_l. apply (tst_bit (byte_at d (bi / 8)) (bi mod 8)). dlia. Qed.
Lemma byte_at_range d i : 0 ≤ byte_at d i < 256.
Proof. apply u8_range. Qed.
Lemma byte_at_set d i v j : 0 ≤ i < Z.of_nat (length d) → 0 ≤ j →
  byte_at (set_byte d i v) j = if decide (j = i) then u8 v else byte_at d j.
Proof.
  intros Hi Hj. rewrite /byte_at /set_byte. case_decide.
  - subst. rewrite list_lookup_insert_eq; [lia|]. cbn. by rewrite /u8 Zmod_mod.
  - rewrite list_lookup_insert_ne //. lia.
Qed.
Lemma bit_set_spec d bi bj : 0 ≤ bi < 8 * Z.of_nat (length d) → 0 ≤ bj →
  bit_used (bit_set d bi) bj = (bj =? bi) || bit_used d bj.
Proof.
  intros Hi Hj. rewrite !bit_used_testbit /bit_set byte_at_set; [dlia..|]. case_decide as E.
  - rewrite u8_id.
    { apply (lor_range _ _ 8); [lia|apply byte_at_range|]. rewrite Z.shiftl_1_l. split; [lia|].
      apply Z.pow_lt_mono_r; dlia. }
    rewrite testbit_set; [dlia..|]. rewrite E. f_equal. destruct (Z.eqb_spec bj bi) as [->|]; [apply Z.eqb_refl|].
    apply Z.eqb_neq. dlia.
  - destruct (Z.eqb_spec bj bi) as [->|]; done.
Qed.
Lemma bit_clear_spec d bi bj : 0 ≤ bi < 8 * Z.of_nat (length d) → 0 ≤ bj →
  bit_used (bit_clear d bi) bj = negb (bj =? bi) && bit_used d bj.
Proof.
  intros Hi Hj. rewrite !bit_used_testbit /bit_clear byte_at_set; [dlia..|]. case_decide as E.
  - rewrite u8_id.
    { pose proof (land_range_l (byte_at d (bi / 8)) (Z.lnot (Z.shiftl 1 (bi mod 8)))). pose proof (byte_at_range d (bi / 8)). lia. }
    rewrite testbit_clear; [dlia..|]. rewrite E. f_equal. f_equal.
    destruct (Z.eqb_spec bj bi) as [->|]; [apply Z.eqb_refl|]. apply Z.eqb_neq. dlia.
  - destruct (Z.eqb_spec bj bi) as [->|]; done.
Qed.

(** The bitmap scan of balloc() returns the first free block of its range,
    or says that there is none when every block in range is in use; it never
    returns a block at or beyond the size of the file system. *)
Theorem balloc_scan_spec n b bi size d :
  match balloc_scan n b bi size d with
  | Some r => bi ≤ r < bi + Z.of_nat n ∧ b + r < size ∧ bit_used d r = false ∧
              ∀ j, bi ≤ j < r → bit_used d j = true
  | None => ∀ j, bi ≤ j < bi + Z.of_nat n → b + j < size → bit_used d j = true
  end.
Proof.
  revert bi. induction n as [|n IH]; intros bi; cbn [balloc_scan]; [lia|].
  destruct (Z.leb_spec size (b + bi)); [intros; lia|].
  destruct (_ =? 0) eqn:E.
  - split_and!; [lia..|by rewrite /bit_used E|lia].
  - specialize (IH (bi + 1)). assert (bit_used d bi = true) as Hb by by rewrite /bit_used E.
    destruct (balloc_scan _ _ _ _ _) as [r|].
    + destruct IH as (I1 & I2 & I3 & I4). split_and!; [lia..|done|]. intros j Hj.
      destruct (Z.eq_dec j bi) as [->|]; [done|]. apply I4. lia.
    + intros j Hj Hs. destruct (Z.eq_dec j bi) as [->|]; [done|]. apply IH; lia.
Qed.

(** *** The inode table *)

Definition live (s : kstate) (i : nat) : Prop := 0 < i_ref (inode_at s i).
Record itable_ok (s : kstate) : Prop := {
  it_ref i : (i < NINODE)%nat → 0 ≤ i_ref (inode_at s i);
  it_uniq i j : (i < NINODE)%nat → (j < NINODE)%nat → live s i → live s j →
    i_dev (inode_at s i) = i_dev (inode_at s j) → i_inum (inode_at s i) = i_inum (inode_at s j) → i = j
}.

Lemma iget_scan_spec s dev inum l : ∀ empty,
  let '(hit, emp) := iget_scan l s dev inum empty in
  match hit with
  | Some i => i ∈ l ∧ live s i ∧ i_dev (inode_at s i) = dev ∧ i_inum (inode_at s i) = inum
  | None => (∀ i, i ∈ l → live s i → ¬ (i_dev (inode_at s i) = dev ∧ i_inum (inode_at s i) = inum)) ∧
      match emp with
      | Some e => empty = Some e ∨ (e ∈ l ∧ i_ref (inode_at s e) = 0)
      | None => empty = None ∧ ∀ i, i ∈ l → i_ref (inode_at s i) ≠ 0
      end
  end.
Proof.
  induction l as [|i l IH]; intros empty; cbn [iget_scan].
  { split; [by intros i ?%elem_of_nil|]. destruct empty; [by left|]. split; [done|by intros i ?%elem_of_nil]. }
  destruct (_ && (i_inum _ =? inum)) eqn:E.
  - apply andb_true_iff in E as [[E1 E2]%andb_true_iff E3]. rewrite /live. split; [left|]. lia.
  - set (e' := if _ && _ then Some i else empty). specialize (IH e').
    destruct (iget_scan l s dev inum e') as [hit emp].
    destruct hit as [k|]; [destruct IH as [I1 I2]; split; [by right|done]|]. destruct IH as [I1 I2]. split.
    + intros k [->|Hk]%elem_of_cons Hlive; [|by apply I1]. intros [D1 D2]. rewrite /live in Hlive.
      rewrite D1 D2 !Z.eqb_refl !andb_true_r in E. lia.
    + destruct emp as [e|].
      * destruct I2 as [I2|[I2 I3]]; [|right; split; [by right|done]]. rewrite /e' in I2.
        destruct (_ && (i_ref _ =? 0)) eqn:E2; [|by left]. injection I2 as <-. right. split; [left|].
        apply andb_true_iff in E2 as [_ E2]. lia.
      * destruct I2 as [I2 I3]. rewrite /e' in I2.
        destruct (_ && (i_ref _ =? 0)) eqn:E2; [done|]. subst empty. split; [done|].
        intros k [->|Hk]%elem_of_cons; [|by apply I3]. rewrite bool_decide_eq_true_2 // in E2. cbn in E2. lia.
Qed.

Lemma inode_at_upd i f s j :
  inode_at (upd_inode i f s) j = if decide (j = i) then f (inode_at s i) else inode_at s j.
Proof.
  rewrite /inode_at /upd_inode. cbn [k_inodes set_inodes]. case_decide; subst.
  - by rewrite lookup_insert_eq.
  - by rewrite lookup_insert_ne; [congruence|].
Qed.

Lemma iget_table dev inum s :
  itable_ok s → itable_lock ∉ k_locks s →
  (∃ i, (i < NINODE)%nat ∧ i_ref (inode_at s i) = 0) ∨
  (∃ i, (i < NINODE)%nat ∧ live s i ∧ i_dev (inode_at s i) = dev ∧ i_inum (inode_at s i) = inum) →
  wp (iget dev inum) (λ ip s', (ip < NINODE)%nat ∧ itable_ok s' ∧ k_locks s' = k_locks s ∧
    i_dev (inode_at s' ip) = dev ∧ i_inum (inode_at s' ip) = inum ∧
    i_ref (inode_at s' ip) = i_ref (inode_at s ip) + 1 ∧
    (live s ip → i_valid (inode_at s' ip) = i_valid (inode_at s ip)) ∧
    (∀ j, j ≠ ip → inode_at s' j = inode_at s j) ∧ s' = set_inodes (k_inodes s') s) s.
Proof.
  intros [R U] Hlk Hroom. rewrite /iget. apply wp_bind, wp_acquire; [done|]. set (s0 := set_locks _ s).
  apply wp_bind, wp_gets. pose proof (iget_scan_spec s0 dev inum (seq 0 NINODE) None) as Hsc.
  destruct (iget_scan (seq 0 NINODE) s0 dev inum None) as [hit emp]. cbn [fst snd].
  destruct hit as [ip|].
  - destruct Hsc as (Hin & Hlive & Hd & Hi). apply elem_of_seq in Hin. change (inode_at s0) with (inode_at s) in *.
    apply wp_bind, wp_modify, wp_bind. eapply (wp_release itable_lock (k_locks s)); [done|done|]. apply wp_ret.
    set (s1 := set_locks _ _).
    assert (∀ j, inode_at s1 j = if decide (j = ip) then set_i_ref (i_ref (inode_at s ip) + 1) (inode_at s ip) else inode_at s j)
      as Hat by (intros j; exact (inode_at_upd ip _ s0 j)).
    change (live s0) with (live s) in Hlive. assert (0 ≤ i_ref (inode_at s ip)) by (apply R; lia).
    assert (∀ j, i_dev (inode_at s1 j) = i_dev (inode_at s j) ∧ i_inum (inode_at s1 j) = i_inum (inode_at s j)) as Hk.
    { intros j. rewrite Hat. case_decide; by subst. }
    assert (∀ j, live s1 j → live s j) as Hlv.
    { intros j. rewrite /live Hat. by case_decide; subst. }
    split_and!; [lia| |done|by rewrite (proj1 (Hk ip))|by rewrite (proj2 (Hk ip))|by rewrite Hat decide_True|
      by rewrite Hat decide_True|intros j Hj; by rewrite Hat decide_False|rewrite /s1 /s0; by destruct s].
    split.
    + intros j Hj. rewrite Hat. case_decide; [cbn; lia|by apply R].
    + intros j k Hj Hk' L1 L2. destruct (Hk j) as [-> ->], (Hk k) as [-> ->]. apply U; auto.
  - destruct Hsc as [Hno Hemp]. change (inode_at s0) with (inode_at s) in *. change (live s0) with (live s) in *.
    destruct emp as [ip|]; last first.
    { exfalso. destruct Hemp as [_ Hne]. destruct Hroom as [(i & Hi & H0)|(i & Hi & L & D1 & D2)].
      - apply (Hne i); [apply elem_of_seq; lia|done].
      - apply (Hno i); [apply elem_of_seq; lia|done|done]. }
    destruct Hemp as [?|[Hin H0]]; [done|]. apply elem_of_seq in Hin.
    do 4 (apply wp_bind, wp_modify). apply wp_bind.
    eapply (wp_release itable_lock (k_locks s)); [done|done|]. apply wp_ret. set (s1 := set_locks (k_locks s) _).
    set (x := set_i_valid false (set_i_ref 1 (set_i_inum inum (set_i_dev dev (inode_at s ip))))).
    assert (∀ j, inode_at s1 j = if decide (j = ip) then x else inode_at s j) as Hat.
    { intros j. change (inode_at s1 j) with (inode_at (upd_inode ip (set_i_valid false) (upd_inode ip (set_i_ref 1)
        (upd_inode ip (set_i_inum inum) (upd_inode ip (set_i_dev dev) s0)))) j).
      rewrite !inode_at_upd. case_decide; [|done]. by rewrite !decide_True. }
    split_and!; [lia| |done|by rewrite Hat decide_True|by rewrite Hat decide_True|by rewrite Hat decide_True // H0|
      rewrite /live H0; lia|intros j Hj; by rewrite Hat decide_False|rewrite /s1 /s0; by destruct s].
    split.
    + intros j Hj. rewrite Hat. case_decide; [cbn; lia|by apply R].
    + intros j k Hj Hk L1 L2. rewrite /live !Hat in L1 L2 |- *.
      destruct (decide (j = ip)) as [E1|E1], (decide (k = ip)) as [E2|E2]; [congruence| | |by apply U].
      * intros D1 D2. exfalso. apply (Hno k); [apply elem_of_seq; lia|done|by split].
      * intros D1 D2. exfalso. apply (Hno j); [apply elem_of_seq; lia|done|by split].
Qed.

(** iget() keeps the inode table free of duplicates: if the inode is in the
    table or an entry is free, it returns (without a panic) an entry for exactly
    the inode it was asked for, with one more reference, keeps what a live entry
    knows of its inode, leaves every other entry alone, and no two live entries
    are for the same inode. *)
Theorem iget_spec dev inum s :
  itable_ok s → itable_lock ∉ k_locks s →
  (∃ i, (i < NINODE)%nat ∧ i_ref (inode_at s i) = 0) ∨
  (∃ i, (i < NINODE)%nat ∧ live s i ∧ i_dev (inode_at s i) = dev ∧ i_inum (inode_at s i) = inum) →
  wp (iget dev inum) (λ ip s', (ip < NINODE)%nat ∧ itable_ok s' ∧ k_locks s' = k_locks s ∧
    i_dev (inode_at s' ip) = dev ∧ i_inum (inode_at s' ip) = inum ∧
    i_ref (inode_at s' ip) = i_ref (inode_at s ip) + 1 ∧
    (live s ip → i_valid (inode_at s' ip) = i_valid (inode_at s ip)) ∧
    (∀ j, j ≠ ip → inode_at s' j = inode_at s j)) s.
Proof.
  intros Ht Hl Hr. wp_use (iget_table dev inum s Ht Hl Hr). intros ip s' (? & ? & ? & ? & ? & ? & ? & ? & _).
  by split_and!.
Qed.

Lemma iget_spec_witness :
  wp (iget 1 5) (λ ip s', (ip < NINODE)%nat ∧ itable_ok s' ∧ k_locks s' = [] ∧
    i_dev (inode_at s' ip) = 1 ∧ i_inum (inode_at s' ip) = 5 ∧
    i_ref (inode_at s' ip) = i_ref (inode_at kstate0 ip) + 1 ∧
    (live kstate0 ip → i_valid (inode_at s' ip) = i_valid (inode_at kstate0 ip)) ∧
    (∀ j, j ≠ ip → inode_at s' j = inode_at kstate0 j)) kstate0.
Proof.
  apply (iget_spec 1 5 kstate0).
  - split; [intros i _; by vm_compute|]. intros i j _ _ Hl. by vm_compute in Hl.
  - apply not_elem_of_nil.
  - left. exists 0%nat. split; [unfold NINODE; lia|by vm_compute].
Defined.
