(* ===== verification/File.v ===== *)
(** Open files and pipes: kernel/file.c and kernel/pipe.c.

    A struct pipe lives in a page of kalloc(); it is kept in [k_pipes] under
    the address of that page.  Only the console registers itself in devsw[]. *)
From S2P Require Import Prelude Riscv Mem Ring Bytes State Sched Bio Walk Swap Kalloc Log Fs Printf Console Window.

Definition get_file (f : nat) : K file := gets (λ s, file_at s f).
Definition mod_file (f : nat) (g : file → file) : K unit := modify (upd_file f g).
Definition get_pipe (pi : Z) : K pipe := gets (λ s, pipe_at s pi).
Definition mod_pipe (pi : Z) (g : pipe → pipe) : K unit := modify (upd_pipe pi g).

Definition CONSOLE : Z := 1.
Definition PIPESIZE : Z := 512.

(** ** kernel/file.c: the file table *)

(** for(f = ftable.file; f < ftable.file + NFILE; f++) if(f->ref == 0) *)
Definition free_file (s : kstate) : option nat :=
  head (filter (λ f, f_ref (file_at s f) = 0) (seq 0 NFILE)).
Definition filealloc : K (option nat) :=
  acquire ftable_lock;;
  f ← gets free_file;
  match f with
  | Some f => mod_file f (set_f_ref 1);; release ftable_lock;; ret (Some f)
  | None => release ftable_lock;; ret None
  end.

Definition filedup (f : nat) : K nat :=
  acquire ftable_lock;;
  x ← get_file f;
  if f_ref x <? 1 then panic "filedup" else
  mod_file f (set_f_ref (f_ref x + 1));;
  release ftable_lock;;
  ret f.

(** ** kernel/pipe.c: writing and reading *)

(** while(i < n): [k] rounds are left.  [None] is the return of -1; a writer
    that finds the pipe full wakes the readers and its run ends in sleep(). *)
Fixpoint pipewrite_loop (k : nat) (pi : Z) (pr : nat) (addr i : Z) : K (option Z) :=
  match k with
  | O => ret (Some i)
  | S k' =>
      p ← get_pipe pi;
      kd ← (if negb (pi_readopen p) then ret true else killed pr);
      if kd : bool then release (pipe_lock pi);; ret None else
      if pi_nwrite p =? u32 (pi_nread p + PIPESIZE) then
        wakeup (ch_nread pi);;
        sleep (ch_nwrite pi) (pipe_lock pi);;
        block
      else
      pt ← gets (λ s, p_pagetable (proc_at s pr));
      rb ← copyin pt (u64 (addr + i)) 1;
      if rb.1 =? -1 then ret (Some i) else
      mod_pipe pi (λ p, set_pi_nwrite (u32 (pi_nwrite p + 1))
        (set_pi_data (<[pi_nwrite p mod PIPESIZE := default 0 (head rb.2)]> (pi_data p)) p));;
      pipewrite_loop k' pi pr addr (i + 1)
  end.
Definition pipewrite (pi addr n : Z) : K Z :=
  pr ← myproc;
  acquire (pipe_lock pi);;
  r ← pipewrite_loop (Z.to_nat n) pi pr addr 0;
  match r with
  | None => ret (-1)
  | Some i => wakeup (ch_nread pi);; release (pipe_lock pi);; ret i
  end.

(** for(i = 0; i < n; i++): [k] rounds are left. *)
Fixpoint piperead_loop (k : nat) (pi : Z) (pr : nat) (addr i : Z) : K Z :=
  match k with
  | O => ret i
  | S k' =>
      p ← get_pipe pi;
      if pi_nread p =? pi_nwrite p then ret i else
      let ch := default 0 (pi_data p !! (pi_nread p mod PIPESIZE)) in
      mod_pipe pi (λ p, set_pi_nread (u32 (pi_nread p + 1)) p);;
      pt ← gets (λ s, p_pagetable (proc_at s pr));
      r ← copyout pt (u64 (addr + i)) [ch];
      if r =? -1 then ret i else
      piperead_loop k' pi pr addr (i + 1)
  end.
Definition piperead (pi addr n : Z) : K Z :=
  pr ← myproc;
  acquire (pipe_lock pi);;
  p ← get_pipe pi;
  if (pi_nread p =? pi_nwrite p) && pi_writeopen p then
    kd ← killed pr;
    if kd : bool then release (pipe_lock pi);; ret (-1)
    else sleep (ch_nread pi) (pipe_lock pi);; block
  else
  i ← piperead_loop (Z.to_nat n) pi pr addr 0;
  wakeup (ch_nwrite pi);;
  release (pipe_lock pi);;
  ret i.

Section file.
Context `{Image}.

Definition pipeclose (pi : Z) (writable : bool) : K unit :=
  acquire (pipe_lock pi);;
  (if writable then mod_pipe pi (set_pi_writeopen false);; wakeup (ch_nread pi)
   else mod_pipe pi (set_pi_readopen false);; wakeup (ch_nwrite pi));;
  p ← get_pipe pi;
  if negb (pi_readopen p) && negb (pi_writeopen p) then
    release (pipe_lock pi);;
    kfree pi
  else release (pipe_lock pi).

Definition fileclose (f : nat) : K unit :=
  acquire ftable_lock;;
  x ← get_file f;
  if f_ref x <? 1 then panic "fileclose" else
  mod_file f (set_f_ref (f_ref x - 1));;
  if 0 <? f_ref x - 1 then release ftable_lock else
  ff ← get_file f;
  mod_file f (set_f_ref 0);;
  mod_file f (set_f_type FD_NONE);;
  release ftable_lock;;
  match f_type ff with
  | FD_PIPE => pipeclose (f_pipe ff) (f_writable ff)
  | FD_INODE | FD_DEVICE =>
      begin_op;;
      ip ← deref (f_ip ff);
      iput ip;;
      end_op
  | FD_NONE => ret tt
  end.

(** The label bad of pipealloc(). *)
Definition pipe_bad (f0 f1 : option nat) : K (option (nat * nat)) :=
  from_option fileclose (ret tt) f0;;
  from_option fileclose (ret tt) f1;;
  ret None.
Definition pipealloc : K (option (nat * nat)) :=
  r0 ← filealloc;
  match r0 with
  | None => pipe_bad None None
  | Some f0 =>
  r1 ← filealloc;
  match r1 with
  | None => pipe_bad (Some f0) None
  | Some f1 =>
  pi ← kalloc;
  if pi =? 0 then pipe_bad (Some f0) (Some f1) else
  mod_pipe pi (set_pi_readopen true);;
  mod_pipe pi (set_pi_writeopen true);;
  mod_pipe pi (set_pi_nwrite 0);;
  mod_pipe pi (set_pi_nread 0);;
  mod_file f0 (set_f_type FD_PIPE);;
  mod_file f0 (set_f_readable true);;
  mod_file f0 (set_f_writable false);;
  mod_file f0 (set_f_pipe pi);;
  mod_file f1 (set_f_type FD_PIPE);;
  mod_file f1 (set_f_readable false);;
  mod_file f1 (set_f_writable true);;
  mod_file f1 (set_f_pipe pi);;
  ret (Some (f0, f1))
  end
  end.

(** ** kernel/file.c: stat, read and write *)

Definition filestat (f : nat) (addr : Z) : K Z :=
  p ← myproc;
  x ← get_file f;
  if bool_decide (f_type x = FD_INODE) || bool_decide (f_type x = FD_DEVICE) then
    ip ← deref (f_ip x);
    ilock ip;;
    st ← gets (λ s, stati (inode_at s ip));
    iunlock ip;;
    pt ← gets (λ s, p_pagetable (proc_at s p));
    r ← copyout pt addr st;
    ret (if r <? 0 then -1 else 0)
  else ret (-1).

Definition fileread (f : nat) (addr n : Z) : K Z :=
  x ← get_file f;
  if negb (f_readable x) then ret (-1) else
  match f_type x with
  | FD_PIPE => piperead (f_pipe x) addr n
  | FD_DEVICE =>
      if (f_major x <? 0) || (NDEV <=? f_major x) || negb (f_major x =? CONSOLE) then ret (-1)
      else consoleread true addr n
  | FD_INODE =>
      ip ← deref (f_ip x);
      ilock ip;;
      x ← get_file f;
      r ← readi ip true addr (f_off x) (u32 n);
      when (0 <? r) (mod_file f (λ x, set_f_off (u32 (f_off x + r)) x));;
      iunlock ip;;
      ret r
  | FD_NONE => panic "fileread"
  end.

(** int max = ((MAXOPBLOCKS-1-1-2) / 2) * BSIZE *)
Definition write_max : Z := (MAXOPBLOCKS - 1 - 1 - 2) / 2 * BSIZE.
(** while(i < n): a round that does not write all of its piece ends the loop. *)
Fixpoint filewrite_loop (fuel : nat) (f ip : nat) (addr n i : Z) : K Z :=
  match fuel with
  | O => λ _, NoFuel
  | S fu =>
      if n <=? i then ret i else
      let n1 := Z.min (n - i) write_max in
      begin_op;;
      ilock ip;;
      x ← get_file f;
      r ← writei ip true (u64 (addr + i)) (f_off x) n1;
      when (0 <? r) (mod_file f (λ x, set_f_off (u32 (f_off x + r)) x));;
      iunlock ip;;
      end_op;;
      if negb (r =? n1) then ret i else
      filewrite_loop fu f ip addr n (i + r)
  end.
Definition filewrite (f : nat) (addr n : Z) : K Z :=
  x ← get_file f;
  if negb (f_writable x) then ret (-1) else
  match f_type x with
  | FD_PIPE => pipewrite (f_pipe x) addr n
  | FD_DEVICE =>
      if (f_major x <? 0) || (NDEV <=? f_major x) || negb (f_major x =? CONSOLE) then ret (-1)
      else consolewrite true addr n
  | FD_INODE =>
      ip ← deref (f_ip x);
      i ← filewrite_loop (Z.to_nat (n / write_max + 2)) f ip addr n 0;
      ret (if i =? n then n else -1)
  | FD_NONE => panic "filewrite"
  end.
End file.

(** ** The pipe is a queue

    The counters run modulo 2^32 and are at most PIPESIZE apart. *)
Definition pipe_used (p : pipe) : Z := dist (2 ^ 32) (pi_nread p) (pi_nwrite p).
Definition pipe_ok (p : pipe) : Prop :=
  0 ≤ pi_nread p < 2 ^ 32 ∧ 0 ≤ pi_nwrite p < 2 ^ 32 ∧ pipe_used p ≤ PIPESIZE.
(** The bytes written and not read yet, oldest first. *)
Definition pipe_bytes (p : pipe) : list Z := window PIPESIZE (pi_data p) (pi_nread p) (pipe_used p).

Definition pipe_push (b : Z) (p : pipe) : pipe :=
  set_pi_nwrite (u32 (pi_nwrite p + 1)) (set_pi_data (<[pi_nwrite p mod PIPESIZE := b]> (pi_data p)) p).
Definition pipe_pop (p : pipe) : pipe := set_pi_nread (u32 (pi_nread p + 1)) p.

Lemma pipe_div : (PIPESIZE | 2 ^ 32).
Proof. by exists (2 ^ 23). Qed.
Lemma pipe_used_range p : 0 ≤ pipe_used p.
Proof. by apply dist_range. Qed.
Lemma pipe_bytes_length p : Z.of_nat (length (pipe_bytes p)) = pipe_used p.
Proof. apply window_length, pipe_used_range. Qed.

Lemma pipe_full p : pipe_ok p → (pi_nwrite p =? u32 (pi_nread p + PIPESIZE)) = (pipe_used p =? PIPESIZE).
Proof.
  intros (Hr & Hw & _). apply Bool.eq_iff_eq_true. rewrite !Z.eqb_eq.
  symmetry. apply (dist_full (2 ^ 32) PIPESIZE); [by split|done].
Qed.
Lemma pipe_empty p : pipe_ok p → (pi_nread p =? pi_nwrite p) = (pipe_used p =? 0).
Proof.
  intros (Hr & Hw & _). apply Bool.eq_iff_eq_true. rewrite !Z.eqb_eq. split.
  - intros E. by rewrite /pipe_used E /dist Z.sub_diag.
  - by apply dist_0.
Qed.

Lemma pipe_push_ok b p : pipe_ok p → pipe_used p < PIPESIZE →
  pipe_ok (pipe_push b p) ∧ pipe_used (pipe_push b p) = pipe_used p + 1 ∧
  pipe_bytes (pipe_push b p) = pipe_bytes p ++ [b].
Proof.
  intros (Hr & Hw & _) Hu. assert (pipe_used (pipe_push b p) = pipe_used p + 1) as E.
  { apply (dist_push (2 ^ 32)); [done|]. change (pipe_used p + 1 < 2 ^ 32). unfold PIPESIZE in *. lia. }
  split; [|split; [done|]].
  - split; [done|]. split; [apply u32_range|]. rewrite E. lia.
  - rewrite /pipe_bytes E. cbn [pipe_push pi_data set_pi_nwrite set_pi_data pi_nread].
    rewrite (dist_index (2 ^ 32) PIPESIZE (pi_nread p) (pi_nwrite p)) //; [apply pipe_div|].
    apply window_push. split; [apply pipe_used_range|done].
Qed.
Lemma pipe_pop_ok p : pipe_ok p → 0 < pipe_used p →
  pipe_ok (pipe_pop p) ∧ pipe_used (pipe_pop p) = pipe_used p - 1 ∧
  pipe_bytes p = default 0 (pi_data p !! (pi_nread p mod PIPESIZE)) :: pipe_bytes (pipe_pop p).
Proof.
  intros (Hr & Hw & Hs) Hu. assert (pipe_used (pipe_pop p) = pipe_used p - 1) as E by by apply (dist_pop (2 ^ 32)).
  split; [|split; [done|]].
  - split; [apply u32_range|]. split; [done|]. rewrite E. lia.
  - rewrite {1}/pipe_bytes window_pop //. f_equal. rewrite /pipe_bytes E.
    cbn [pipe_pop pi_data set_pi_nread pi_nread]. symmetry. apply window_wrap; [done|apply pipe_div|done].
Qed.

(** ** pipewrite() *)

(** The bytes of the user buffer [addr + i], [addr + i + 1], ... up to the first
    one that cannot be read, at most [k]. *)
Fixpoint user_read (k : nat) (m : gmap Z Z) (pt addr i : Z) : list Z :=
  match k with
  | O => []
  | S k' =>
      match user_pa false m pt (u64 (addr + i)) with
      | Some a => ld8 m a :: user_read k' m pt addr (i + 1)
      | None => []
      end
  end.

(** Only pipe [pi] changes, and not its two flags. *)
Definition pipe_only (pi : Z) (s s' : kstate) : Prop :=
  s' = set_pipes (k_pipes s') s ∧ (∀ j, j ≠ pi → pipe_at s' j = pipe_at s j) ∧
  pi_readopen (pipe_at s' pi) = pi_readopen (pipe_at s pi) ∧
  pi_writeopen (pipe_at s' pi) = pi_writeopen (pipe_at s pi).

Lemma pipe_at_upd pi g s j : pipe_at (upd_pipe pi g s) j = if decide (j = pi) then g (pipe_at s pi) else pipe_at s j.
Proof.
  rewrite /pipe_at /upd_pipe /=. case_decide; [subst; by rewrite lookup_insert_eq|by rewrite lookup_insert_ne; [congruence|]].
Qed.
Lemma pipe_only_refl pi s : pipe_only pi s s.
Proof. split; [by destruct s|done]. Qed.
Lemma pipe_only_upd pi g s s' :
  pi_readopen (g (pipe_at s pi)) = pi_readopen (pipe_at s pi) →
  pi_writeopen (g (pipe_at s pi)) = pi_writeopen (pipe_at s pi) →
  pipe_only pi (upd_pipe pi g s) s' → pipe_only pi s s'.
Proof.
  intros Hr Hw (H1 & H2 & H3 & H4). split; [|split; [|split]].
  - rewrite {1}H1. by destruct s.
  - intros j Hj. rewrite H2 // pipe_at_upd. by case_decide.
  - rewrite H3 pipe_at_upd decide_True //.
  - rewrite H4 pipe_at_upd decide_True //.
Qed.

Lemma killed_eq p s : proc_lock p ∉ k_locks s → killed p s = Ok (negb (p_killed (proc_at s p) =? 0)) s.
Proof.
  intros Hl. rewrite /killed /bind acquire_eq //. rewrite /gets. erewrite release_eq; [|done|done].
  rewrite /ret. f_equal. by destruct s.
Qed.

(** What a writer or reader of the pipe runs with: it holds the pipe's lock
    alone, and its process has not been killed. *)
Definition pipe_ctx (pi : Z) (pr : nat) (s : kstate) : Prop :=
  pipe_ok (pipe_at s pi) ∧ k_locks s = [pipe_lock pi] ∧ k_cur s = Some pr ∧
  p_killed (proc_at s pr) = 0.

Lemma pipe_ctx_noproc pi pr s : pipe_ctx pi pr s → ∀ p, proc_lock p ∉ k_locks s.
Proof. intros (_ & -> & _) p. rewrite list_elem_of_singleton. done. Qed.

Lemma pipe_ctx_upd pi pr g s :
  pipe_ctx pi pr s → pipe_ok (g (pipe_at s pi)) → pipe_ctx pi pr (upd_pipe pi g s).
Proof. intros (_ & H) Hg. split; [by rewrite pipe_at_upd decide_True|exact H]. Qed.

(** A full pipe: readers are woken, the writer sleeps on &pi->nwrite with the
    pipe unlocked. *)
Definition asleep (ch : chan) (pr : nat) (s : kstate) : Prop :=
  p_state (proc_at s pr) = SLEEPING ∧ p_chan (proc_at s pr) = ch ∧ k_locks s = [proc_lock pr].

Lemma sleep_eq ch lk pr s : k_cur s = Some pr → k_locks s = [lk] → (∀ p, lk ≠ proc_lock p) →
  ∃ s', sleep ch lk s = Block s' ∧ asleep ch pr s' ∧ k_pipes s' = k_pipes s ∧ k_mem s' = k_mem s ∧
    (∀ j, j ≠ pr → proc_at s' j = proc_at s j).
Proof.
  intros Hc Hl Hp. rewrite /sleep /myproc {1}/bind {1}/bind /gets Hc /=.
  rewrite /bind acquire_eq; [rewrite Hl list_elem_of_singleton; by apply not_eq_sym, Hp|].
  rewrite {1}/release /bind /holding /gets bool_decide_eq_true_2; [cbn; rewrite Hl; by right; left|].
  rewrite /modify. set (s1 := set_locks _ _). assert (k_locks s1 = [proc_lock pr]) as Hl1.
  { change (filter (λ l : lockid, l ≠ lk) (proc_lock pr :: k_locks s) = [proc_lock pr]). rewrite Hl. rewrite filter_cons_True; [apply not_eq_sym, Hp|]. rewrite filter_cons_False; [tauto|done]. }
  assert (k_cur s1 = Some pr) as Hc1 by done.
  set (s2 := upd_proc pr (set_p_state SLEEPING) _). exists s2.
  assert (p_state (proc_at s2 pr) = SLEEPING) as Hst by by rewrite /s2 proc_at_upd decide_True.
  assert (p_chan (proc_at s2 pr) = ch) as Hch by by rewrite /s2 proc_at_upd decide_True // proc_at_upd decide_True.
  assert (k_locks s2 = [proc_lock pr]) as Hl2 by done.
  assert (k_cur s2 = Some pr) as Hc2 by done.
  assert (∀ j, j ≠ pr → proc_at s2 j = proc_at s j) as Ho.
  { intros j Hj. rewrite /s2 proc_at_upd decide_False; [done|]. rewrite proc_at_upd decide_False; [done|]. reflexivity. }
  assert (k_pipes s2 = k_pipes s) as Hp2 by done. assert (k_mem s2 = k_mem s) as Hm2 by done.
  clearbody s2. split; [|done].
  rewrite /sched /bind /myproc /bind /gets Hc2 /= /holding /bind /gets bool_decide_eq_true_2; [by rewrite Hl2; left|].
  cbn [negb]. rewrite Hl2. cbn [length Nat.eqb negb]. by rewrite Hst.
Qed.

(** One round of the writer. *)
Lemma pipewrite_step pi pr addr k i s :
  pipe_ctx pi pr s → pi_readopen (pipe_at s pi) = true →
  pipewrite_loop (S k) pi pr addr i s =
  if pipe_used (pipe_at s pi) =? PIPESIZE
  then (wakeup (ch_nread pi);; sleep (ch_nwrite pi) (pipe_lock pi);; block) s
  else match user_pa false (k_mem s) (p_pagetable (proc_at s pr)) (u64 (addr + i)) with
       | Some a => pipewrite_loop k pi pr addr (i + 1) (upd_pipe pi (pipe_push (ld8 (k_mem s) a)) s)
       | None => Ok (Some i) s
       end.
Proof.
  intros Hctx Hro. cbn [pipewrite_loop]. rewrite {1}/bind /get_pipe /gets Hro. cbn [negb].
  rewrite {1}/bind killed_eq; [by apply (pipe_ctx_noproc pi pr s)|].
  destruct Hctx as (Hok & _ & _ & ->). cbn [Z.eqb negb]. rewrite pipe_full //.
  destruct (pipe_used (pipe_at s pi) =? PIPESIZE); [done|].
  rewrite {1}/bind {1}/bind copyin1_eq. by destruct (user_pa _ _ _ _).
Qed.

(** The writer copies the readable prefix of its buffer to the end of the
    queue, or as much as fits and then goes to sleep. *)
Lemma pipewrite_loop_spec pi pr addr k : ∀ i s,
  pipe_ctx pi pr s → pi_readopen (pipe_at s pi) = true →
  let bs := user_read k (k_mem s) (p_pagetable (proc_at s pr)) addr i in
  let q := pipe_bytes (pipe_at s pi) in
  let room := PIPESIZE - Z.of_nat (length q) in
  if decide (Z.of_nat k ≤ room ∨ Z.of_nat (length bs) < room) then
    ∃ s', pipewrite_loop k pi pr addr i s = Ok (Some (i + Z.of_nat (length bs))) s' ∧
      pipe_only pi s s' ∧ pipe_ok (pipe_at s' pi) ∧ pipe_bytes (pipe_at s' pi) = q ++ bs
  else
    ∃ s', pipewrite_loop k pi pr addr i s = Block s' ∧ asleep (ch_nwrite pi) pr s' ∧ k_mem s' = k_mem s ∧
      pipe_ok (pipe_at s' pi) ∧ pipe_bytes (pipe_at s' pi) = q ++ take (Z.to_nat room) bs.
Proof.
  induction k as [|k IH]; intros i s Hctx Hro; cbv zeta; pose proof Hctx as (Hok & Hlk & Hcur & Hkd).
  { pose proof (pipe_bytes_length (pipe_at s pi)). destruct Hok as (_ & _ & Hu).
    rewrite decide_True; [left; lia|]. exists s. cbn [user_read length]. rewrite Z.add_0_r app_nil_r.
    split; [done|]. split; [apply pipe_only_refl|]. split; [apply Hctx|done]. }
  set (q := pipe_bytes (pipe_at s pi)). assert (Z.of_nat (length q) = pipe_used (pipe_at s pi)) as Hq by apply pipe_bytes_length.
  rewrite pipewrite_step //. destruct (Z.eqb_spec (pipe_used (pipe_at s pi)) PIPESIZE) as [Hf|Hf].
  { (* full *)
    rewrite decide_False; [pose proof (Nat2Z.is_nonneg (length (user_read (S k) (k_mem s) (p_pagetable (proc_at s pr)) addr i))); lia|].
    rewrite /bind wakeup_eq; [exact (pipe_ctx_noproc pi pr s Hctx)|]. set (s1 := set_procs _ s).
    destruct (sleep_eq (ch_nwrite pi) (pipe_lock pi) pr s1 Hcur Hlk) as (s2 & E & Ha & Hp & Hm & _); [done|].
    exists s2. rewrite E. split; [done|]. split; [done|]. split; [done|].
    assert (pipe_at s2 pi = pipe_at s pi) as -> by by rewrite /pipe_at Hp.
    split; [done|]. rewrite Hq Hf Z.sub_diag /=. by rewrite app_nil_r. }
  cbn [user_read]. set (pt := p_pagetable (proc_at s pr)).
  destruct (user_pa false (k_mem s) pt (u64 (addr + i))) as [a|] eqn:Ea.
  2:{ destruct Hok as (Hr & Hw & Hu). rewrite decide_True; [right; cbn [length]; lia|]. exists s. cbn [length].
      rewrite Z.add_0_r app_nil_r. split; [done|]. split; [apply pipe_only_refl|]. split; [apply Hctx|done]. }
  set (b := ld8 (k_mem s) a).
  assert (pipe_used (pipe_at s pi) < PIPESIZE) as Hlt by (destruct Hok as (_ & _ & ?); lia).
  destruct (pipe_push_ok b _ Hok Hlt) as (Hok' & Hu' & Hb').
  set (s1 := upd_pipe pi (pipe_push b) s).
  assert (pipe_at s1 pi = pipe_push b (pipe_at s pi)) as E1 by by rewrite /s1 pipe_at_upd decide_True.
  specialize (IH (i + 1) s1 (pipe_ctx_upd pi pr (pipe_push b) s Hctx Hok')).
  rewrite E1 in IH. specialize (IH Hro). cbv zeta in IH. rewrite Hb' in IH. fold q in IH.
  change (k_mem s1) with (k_mem s) in IH. change (p_pagetable (proc_at s1 pr)) with pt in IH.
  set (bs := user_read k (k_mem s) pt addr (i + 1)) in *.
  rewrite length_app in IH. cbn [length] in IH |- *. destruct (decide (Z.of_nat (S k) ≤ _ ∨ _)) as [Hd|Hd].
  - rewrite decide_True in IH; [lia|]. destruct IH as (s' & E & Ho & Hk & Hb). exists s'.
    split; [rewrite E; do 2 f_equal; lia|]. split; [|split; [done|]].
    + by apply (pipe_only_upd pi (pipe_push b)).
    + by rewrite Hb -app_assoc.
  - rewrite decide_False in IH; [lia|]. destruct IH as (s' & E & Ha & Hm & Hk & Hb). exists s'.
    split; [done|]. split; [done|]. split; [done|]. split; [done|]. rewrite Hb -app_assoc. f_equal.
    rewrite (_ : Z.to_nat (PIPESIZE - Z.of_nat (length q)) = S (Z.to_nat (PIPESIZE - Z.of_nat (length q + 1)))); [lia|done].
Qed.

(** What pipewrite() does to an open pipe: it appends the readable prefix of
    the buffer and wakes the readers, or fills the pipe and sleeps. *)
Definition pipe_rest (pi : Z) (pr : nat) (s : kstate) : Prop :=
  pipe_ok (pipe_at s pi) ∧ k_locks s = [] ∧ k_cur s = Some pr ∧ p_killed (proc_at s pr) = 0.

Definition awake (ch : chan) (cur : nat) (s : kstate) : Prop :=
  ∀ p, (p < NPROC)%nat → p ≠ cur → p_state (proc_at s p) = SLEEPING → p_chan (proc_at s p) ≠ ch.

Lemma wake_all_awake ch cur ps s : k_procs s = wake_all ch (Some cur) ps → awake ch cur s.
Proof.
  intros E p Hp Hne. rewrite /proc_at E wake_all_at /=. case_decide as Hd; [done|].
  intros Hs Hc. apply Hd. naive_solver.
Qed.

Lemma lock_release_eq pi pr s :
  k_locks s = [pipe_lock pi] → k_cur s = Some pr →
  ∀ ch, ∃ s', (wakeup ch;; release (pipe_lock pi)) s = Ok tt s' ∧ s' = set_locks [] (set_procs (k_procs s') s) ∧
    awake ch pr s' ∧ (∀ j, p_killed (proc_at s' j) = p_killed (proc_at s j) ∧ p_pagetable (proc_at s' j) = p_pagetable (proc_at s j)).
Proof.
  intros Hl Hc ch. rewrite /bind wakeup_eq; [intros p; rewrite Hl list_elem_of_singleton; done|].
  eexists. split; [eapply (release_eq _ []); [exact Hl|apply not_elem_of_nil]|]. split; [done|]. split.
  - eapply wake_all_awake. cbn. by rewrite Hc.
  - intros j. rewrite /proc_at. cbn [k_procs set_locks set_procs]. rewrite wake_all_at /=. by case_decide.
Qed.

Lemma acquire_ctx pi pr s : pipe_rest pi pr s →
  ∃ s1, acquire (pipe_lock pi) s = Ok tt s1 ∧ s1 = set_locks [pipe_lock pi] s ∧ pipe_ctx pi pr s1.
Proof.
  intros (H1 & H2 & H3 & H4). exists (set_locks [pipe_lock pi] s). split; [|split; [done|]].
  - rewrite acquire_eq; [rewrite H2; apply not_elem_of_nil|]. by rewrite H2.
  - by split.
Qed.

Lemma pipewrite_spec pi pr addr n s :
  pipe_rest pi pr s → pi_readopen (pipe_at s pi) = true → 0 ≤ n →
  let bs := user_read (Z.to_nat n) (k_mem s) (p_pagetable (proc_at s pr)) addr 0 in
  let q := pipe_bytes (pipe_at s pi) in
  let room := PIPESIZE - Z.of_nat (length q) in
  if decide (n ≤ room ∨ Z.of_nat (length bs) < room) then
    ∃ s', pipewrite pi addr n s = Ok (Z.of_nat (length bs)) s' ∧ pipe_rest pi pr s' ∧ k_mem s' = k_mem s ∧
      awake (ch_nread pi) pr s' ∧ (∀ j, j ≠ pi → pipe_at s' j = pipe_at s j) ∧
      (∀ j, p_pagetable (proc_at s' j) = p_pagetable (proc_at s j)) ∧
      pi_readopen (pipe_at s' pi) = pi_readopen (pipe_at s pi) ∧
      pi_writeopen (pipe_at s' pi) = pi_writeopen (pipe_at s pi) ∧
      pipe_bytes (pipe_at s' pi) = q ++ bs
  else
    ∃ s', pipewrite pi addr n s = Block s' ∧ asleep (ch_nwrite pi) pr s' ∧ k_mem s' = k_mem s ∧
      pipe_ok (pipe_at s' pi) ∧ pipe_bytes (pipe_at s' pi) = q ++ take (Z.to_nat room) bs.
Proof.
  intros Hr Hro Hn. cbv zeta. destruct (acquire_ctx pi pr s Hr) as (s1 & Ea & E1 & Hctx).
  pose proof Hr as (_ & _ & Hcur & _).
  pose proof (pipewrite_loop_spec pi pr addr (Z.to_nat n) 0 s1 Hctx) as HL. rewrite E1 in HL. specialize (HL Hro). cbv zeta in HL.
  change (pipe_at (set_locks _ s) pi) with (pipe_at s pi) in HL.
  change (k_mem (set_locks _ s)) with (k_mem s) in HL. change (proc_at (set_locks _ s) pr) with (proc_at s pr) in HL.
  rewrite -E1 Z2Nat.id // in HL.
  assert (pipewrite pi addr n s = (r ← pipewrite_loop (Z.to_nat n) pi pr addr 0;
    match r with None => ret (-1) | Some i => wakeup (ch_nread pi);; release (pipe_lock pi);; ret i end) s1) as ->.
  { rewrite /pipewrite /myproc {1}/bind {1}/bind /gets Hcur /=. by rewrite {1}/bind Ea. }
  rewrite /bind. destruct (decide _) as [Hd|Hd].
  - destruct HL as (s2 & -> & (Ho & Hoth & Hf1 & Hf2) & Hok & Hb).
    destruct (lock_release_eq pi pr s2) with (ch := ch_nread pi) as (s3 & E3 & F3 & Haw & Hk).
    { by rewrite Ho E1. } { by rewrite Ho E1. }
    exists s3. rewrite /bind in E3. destruct (wakeup (ch_nread pi) s2) as [[] s2'| | |]; try done. rewrite E3.
    split; [done|]. assert (∀ j, pipe_at s3 j = pipe_at s2 j) as Hp by (intros j; by rewrite F3).
    assert (∀ j, proc_at s2 j = proc_at s j) as Hps by (intros j; by rewrite Ho E1).
    split.
    { split; [by rewrite Hp|]. split; [by rewrite F3|]. split; [by rewrite F3 Ho E1|].
      rewrite (proj1 (Hk pr)) Hps. apply Hr. }
    split; [by rewrite F3 Ho E1|]. split; [done|]. split; [intros j Hj; by rewrite Hp Hoth // E1|].
    split; [intros j; by rewrite (proj2 (Hk j)) Hps|].
    split; [by rewrite Hp Hf1 E1|]. split; [by rewrite Hp Hf2 E1|]. by rewrite Hp Hb.
  - destruct HL as (s2 & -> & Ha & Hm & Hok & Hb). exists s2. split; [done|]. split; [done|].
    by rewrite Hm.
Qed.

(** ** piperead() *)

(** Copying bytes out one at a time: how many arrive, the memory after, and
    whether the next one could not be stored. *)
Fixpoint deliver (bs : list Z) (m : gmap Z Z) (pt addr i : Z) : Z * gmap Z Z * bool :=
  match bs with
  | [] => (0, m, false)
  | b :: bs' =>
      match user_pa true m pt (u64 (addr + i)) with
      | Some a => let '(c, m', lost) := deliver bs' (st8 m a b) pt addr (i + 1) in (c + 1, m', lost)
      | None => (0, m, true)
      end
  end.

(** Only memory and pipe [pi] change, and not its two flags. *)
Definition pipe_mem (pi : Z) (s s' : kstate) : Prop := pipe_only pi (set_mem (k_mem s') s) s'.

Lemma piperead_step pi pr addr k i s : pipe_ok (pipe_at s pi) →
  piperead_loop (S k) pi pr addr i s =
  if pipe_used (pipe_at s pi) =? 0 then Ok i s else
  let ch := default 0 (pi_data (pipe_at s pi) !! (pi_nread (pipe_at s pi) mod PIPESIZE)) in
  let s1 := upd_pipe pi pipe_pop s in
  match user_pa true (k_mem s) (p_pagetable (proc_at s pr)) (u64 (addr + i)) with
  | Some a => piperead_loop k pi pr addr (i + 1) (set_mem (st8 (k_mem s) a ch) s1)
  | None => Ok i s1
  end.
Proof.
  intros Hok. cbn [piperead_loop]. rewrite {1}/bind /get_pipe /gets pipe_empty //.
  destruct (pipe_used (pipe_at s pi) =? 0); [done|]. cbv zeta. rewrite {1}/bind /mod_pipe /modify.
  rewrite {1}/bind {1}/bind copyout1_eq. change (upd_pipe pi _ s) with (upd_pipe pi pipe_pop s).
  change (k_mem (upd_pipe pi pipe_pop s)) with (k_mem s).
  change (p_pagetable (proc_at (upd_pipe pi pipe_pop s) pr)) with (p_pagetable (proc_at s pr)).
  by destruct (user_pa _ _ _ _).
Qed.

Lemma piperead_loop_spec pi pr addr k : ∀ i s c m' lost,
  pipe_ok (pipe_at s pi) →
  deliver (take k (pipe_bytes (pipe_at s pi))) (k_mem s) (p_pagetable (proc_at s pr)) addr i = (c, m', lost) →
  ∃ s', piperead_loop k pi pr addr i s = Ok (i + c) s' ∧ pipe_mem pi s s' ∧ k_mem s' = m' ∧ 0 ≤ c ∧
    pipe_ok (pipe_at s' pi) ∧
    pipe_bytes (pipe_at s' pi) = drop (Z.to_nat (c + if lost : bool then 1 else 0)) (pipe_bytes (pipe_at s pi)).
Proof.
  induction k as [|k IH]; intros i s c m' lost Hok.
  { intros [= <- <- <-]. exists s. rewrite Z.add_0_r. split; [done|]. split; [|done].
    rewrite /pipe_mem (_ : set_mem (k_mem s) s = s); [by destruct s|]. apply pipe_only_refl. }
  rewrite piperead_step //. pose proof (pipe_used_range (pipe_at s pi)).
  destruct (Z.eqb_spec (pipe_used (pipe_at s pi)) 0) as [He|He].
  { assert (pipe_bytes (pipe_at s pi) = []) as -> by by rewrite /pipe_bytes He.
    intros [= <- <- <-]. exists s. rewrite Z.add_0_r. split; [done|]. split; [|by rewrite /pipe_bytes He].
    rewrite /pipe_mem (_ : set_mem (k_mem s) s = s); [by destruct s|]. apply pipe_only_refl. }
  destruct (pipe_pop_ok (pipe_at s pi)) as (Hok' & Hu' & Hb'); [done|lia|]. rewrite Hb'.
  set (ch := default 0 _). cbv zeta. cbn [take deliver]. set (pt := p_pagetable (proc_at s pr)).
  set (s1 := upd_pipe pi pipe_pop s).
  assert (pipe_at s1 pi = pipe_pop (pipe_at s pi)) as E1 by by rewrite /s1 pipe_at_upd decide_True.
  destruct (user_pa true (k_mem s) pt (u64 (addr + i))) as [a|].
  2:{ intros [= <- <- <-]. exists s1. rewrite Z.add_0_r. split; [done|]. split; [|rewrite E1; split; [done|split; [done|by split]]].
      apply (pipe_only_upd pi pipe_pop); [done..|]. rewrite (_ : upd_pipe _ _ _ = s1); [by destruct s|]. apply pipe_only_refl. }
  set (s2 := set_mem _ s1). destruct (deliver _ _ _ _ _) as [[c2 m2] l2] eqn:E2. intros [= <- <- <-].
  assert (pipe_at s2 pi = pipe_pop (pipe_at s pi)) as E3 by done || by rewrite -E1.
  destruct (IH (i + 1) s2 c2 m2 l2) as (s' & R & F & Hm & Hc & Hok2 & Hb2); [by rewrite E3|by rewrite E3|].
  exists s'. split; [rewrite R; f_equal; lia|]. split.
  - unfold pipe_mem in F |- *. apply (pipe_only_upd pi pipe_pop); [done..|].
    rewrite (_ : upd_pipe pi pipe_pop (set_mem (k_mem s') s) = set_mem (k_mem s') s2); [by destruct s|done].
  - split; [done|]. split; [lia|]. split; [done|]. rewrite Hb2 E3.
    rewrite (_ : Z.to_nat (c2 + 1 + _) = S (Z.to_nat (c2 + if l2 then 1 else 0))); [destruct l2; lia|done].
Qed.

Lemma piperead_spec pi pr addr n s c m' lost :
  pipe_rest pi pr s → 0 ≤ n → (pi_writeopen (pipe_at s pi) = true → pipe_bytes (pipe_at s pi) ≠ []) →
  deliver (take (Z.to_nat n) (pipe_bytes (pipe_at s pi))) (k_mem s) (p_pagetable (proc_at s pr)) addr 0 = (c, m', lost) →
  ∃ s', piperead pi addr n s = Ok c s' ∧ pipe_rest pi pr s' ∧ k_mem s' = m' ∧ awake (ch_nwrite pi) pr s' ∧
    (∀ j, j ≠ pi → pipe_at s' j = pipe_at s j) ∧
    pipe_bytes (pipe_at s' pi) = drop (Z.to_nat (c + if lost : bool then 1 else 0)) (pipe_bytes (pipe_at s pi)).
Proof.
  intros Hr Hn He HD. destruct (acquire_ctx pi pr s Hr) as (s1 & Ea & E1 & Hctx).
  pose proof Hr as (Hok & _ & Hcur & Hkd).
  assert (piperead pi addr n s = (i ← piperead_loop (Z.to_nat n) pi pr addr 0;
    wakeup (ch_nwrite pi);; release (pipe_lock pi);; ret i) s1) as ->.
  { rewrite /piperead /myproc {1}/bind {1}/bind /gets Hcur /=. rewrite {1}/bind Ea {1}/bind /get_pipe /gets.
    rewrite (_ : pipe_at s1 pi = pipe_at s pi); [by rewrite E1|].
    destruct (_ && _) eqn:E; [exfalso|done]. apply andb_true_iff in E as [E Hw]. rewrite pipe_empty // in E.
    apply Z.eqb_eq in E. apply (He Hw). by rewrite /pipe_bytes E. }
  destruct (piperead_loop_spec pi pr addr (Z.to_nat n) 0 s1 c m' lost) as (s2 & R & (Ho & Hoth & _) & Hm & Hc & Hok2 & Hb).
  { by rewrite E1. } { by rewrite E1. }
  rewrite /bind R.
  destruct (lock_release_eq pi pr s2) with (ch := ch_nwrite pi) as (s3 & E3 & F3 & Haw & Hk).
  { by rewrite Ho E1. } { by rewrite Ho E1. }
  exists s3. rewrite /bind in E3. destruct (wakeup (ch_nwrite pi) s2) as [[] s2'| | |]; try done. rewrite E3.
  split; [done|]. assert (∀ j, pipe_at s3 j = pipe_at s2 j) as Hp by (intros j; by rewrite F3).
  assert (∀ j, proc_at s2 j = proc_at s j) as Hps by (intros j; by rewrite Ho E1).
  split.
  { split; [by rewrite Hp|]. split; [by rewrite F3|]. split; [by rewrite F3 Ho E1|].
    by rewrite (proj1 (Hk pr)) Hps. }
  split; [by rewrite F3|]. split; [done|]. split; [intros j Hj; by rewrite Hp Hoth // E1|].
  by rewrite Hp Hb E1.
Qed.

(** ** A round trip through the pipe *)

(** Memories that agree on the page-table pages translate alike. *)
Lemma user_pa_agree role w m m' pt va :
  pt_ok m role → is_root role pt →
  (∀ P x a, role !! P = Some x → P ≤ a < P + PGSIZE → ld8 m' a = ld8 m a) →
  user_pa w m' pt va = user_pa w m pt va.
Proof.
  intros Hpt Hr Ha. rewrite /user_pa /pte_of (walk_agree role m m') //.
  { intros P root lvl pre a HP _ Hx. by apply (Ha P _ a HP). }
  destruct (Z.eqb_spec (walk_pure m pt (PGROUNDDOWN va)) 0) as [E|E]; [done|].
  destruct (walk_leaf m role pt (PGROUNDDOWN va)) as (P & HP & ->); [done..|].
  rewrite (ld64_ext m' m); [|done]. intros a Hx. apply (Ha P _ a HP).
  pose proof (PX_range 0 (PGROUNDDOWN va) (Z.le_refl 0)). unfold PGSIZE in *. lia.
Qed.

(** The user buffer at [addr] is the physical range at [pa], outside the page tables. *)
Definition buffer_at (role : gmap Z ptrole) (w : bool) (m : gmap Z Z) (pt addr pa n : Z) : Prop :=
  pt_ok m role ∧ is_root role pt ∧
  (∀ j, 0 ≤ j < n → user_pa w m pt (u64 (addr + j)) = Some (pa + j)) ∧
  (∀ P x, role !! P = Some x → pa + n ≤ P ∨ P + PGSIZE ≤ pa).

Lemma deliver_buffer role pt addr pa n bs : ∀ m i,
  buffer_at role true m pt addr pa n → 0 ≤ i → i + Z.of_nat (length bs) ≤ n →
  deliver bs m pt addr i = (Z.of_nat (length bs), wr_bytes m (pa + i) bs, false).
Proof.
  induction bs as [|b bs IH]; intros m i (Hpt & Hr & Hb & Hd) Hi Hn; [done|]. cbn [length] in Hn |- *.
  cbn [deliver wr_bytes]. rewrite Hb; [lia|]. set (m1 := st8 m (pa + i) b).
  assert (∀ P x a, role !! P = Some x → P ≤ a < P + PGSIZE → ld8 m1 a = ld8 m a) as Hag.
  { intros P x a HP Hx. apply ld8_st8_ne. destruct (Hd P x HP); lia. }
  rewrite (IH m1 (i + 1)); [|lia..|].
  - split; [|split; [done|split; [|done]]].
    + apply (pt_ok_agree role m); [done|]. intros P root lvl pre a HP _ Hx. by apply (Hag P _ a HP).
    + intros j Hj. rewrite (user_pa_agree role true m m1) //. by apply Hb.
  - rewrite (_ : pa + i + 1 = pa + (i + 1)); [lia|]. do 2 f_equal. lia.
Qed.
Lemma user_read_buffer role pt addr pa m k : ∀ i,
  buffer_at role false m pt addr pa (i + Z.of_nat k) → 0 ≤ i →
  user_read k m pt addr i = rd_bytes m (pa + i) k.
Proof.
  induction k as [|k IH]; intros i Hb Hi; [done|]. cbn [user_read rd_bytes].
  pose proof Hb as (_ & _ & Hp & _). rewrite Hp; [lia|]. f_equal.
  rewrite IH; [|lia|by rewrite (_ : pa + i + 1 = pa + (i + 1)); [lia|]].
  by rewrite (_ : i + 1 + Z.of_nat k = i + Z.of_nat (S k)); [lia|].
Qed.
