(* ===== verification/Proc.v ===== *)
(** Processes: kernel/proc.c, except proc_mapstacks() (Vm.v), myproc(), sched(),
    sleep(), wakeup(), killed() and setkilled() (Sched.v), either_copyout() and
    either_copyin() (Walk.v) and procdump() (Console.v). *)
From S2P Require Import Prelude Riscv Mem Ring Bytes State Sched Bio Walk Swap Kalloc Vm Log Fs Printf Console Window File.

(** struct trapframe: the offsets of the fields the C code uses. *)
Definition tf_kernel_satp : Z := 0.
Definition tf_kernel_sp : Z := 8.
Definition tf_kernel_trap : Z := 16.
Definition tf_epc : Z := 24.
Definition tf_kernel_hartid : Z := 32.
Definition tf_sp : Z := 48.
Definition tf_a0 : Z := 112.
Definition tf_a1 : Z := 120.
Definition tf_a7 : Z := 168.
Definition TRAPFRAME_BYTES : Z := 288.

Definition get_proc (p : nat) : K proc := gets (λ s, proc_at s p).
Definition mod_proc (p : nat) (g : proc → proc) : K unit := modify (upd_proc p g).

(** safestrcpy(s, t, n) into an array that holds [s] *)
Definition safestrcpy_l (s t : list Z) (n : nat) : list Z := splice s 0 (take (n - 1) (cstr t) ++ [0]).

(** The address of a struct proc as a sleep channel. *)
Definition chan_of (p : option nat) : chan := from_option ch_proc ch_null p.

Definition procinit : K unit :=
  forM (seq 0 NPROC) (λ p,
    mod_proc p (set_p_state UNUSED);;
    mod_proc p (set_p_kstack (KSTACK (Z.of_nat p)))).

Definition allocpid : K Z :=
  acquire pid_lock;;
  pid ← gets k_nextpid;
  modify (λ s, set_nextpid (s32 (pid + 1)) s);;
  release pid_lock;;
  ret pid.

Section proc.
Context `{Image}.
(** The address of forkret(). *)
Variable forkret_addr : Z.

Definition proc_pagetable (p : nat) : K Z :=
  pagetable ← uvmcreate;
  if pagetable =? 0 then ret 0 else
  r ← mappages pagetable TRAMPOLINE PGSIZE img_trampoline (Z.lor PTE_R PTE_X);
  if r <? 0 then uvmfree pagetable 0;; ret 0 else
  tf ← gets (λ s, p_trapframe (proc_at s p));
  r ← mappages pagetable TRAPFRAME PGSIZE tf (Z.lor PTE_R PTE_W);
  if r <? 0 then
    uvmunmap pagetable TRAMPOLINE 1 false;;
    uvmfree pagetable 0;;
    ret 0
  else ret pagetable.

Definition proc_freepagetable (pagetable sz : Z) : K unit :=
  uvmunmap pagetable TRAMPOLINE 1 false;;
  uvmunmap pagetable TRAPFRAME 1 false;;
  uvmfree pagetable sz.

Definition freeproc (p : nat) : K unit :=
  x ← get_proc p;
  when (negb (p_trapframe x =? 0)) (kfree (p_trapframe x));;
  mod_proc p (set_p_trapframe 0);;
  x ← get_proc p;
  when (negb (p_pagetable x =? 0)) (proc_freepagetable (p_pagetable x) (p_sz x));;
  mod_proc p (set_p_pagetable 0);;
  mod_proc p (set_p_sz 0);;
  mod_proc p (set_p_pid 0);;
  mod_proc p (set_p_parent None);;
  mod_proc p (λ x, set_p_name (<[0%nat := 0]> (p_name x)) x);;
  mod_proc p (set_p_chan ch_null);;
  mod_proc p (set_p_killed 0);;
  mod_proc p (set_p_xstate 0);;
  mod_proc p (set_p_state UNUSED).

(** The first loop of allocproc(): an UNUSED slot, locked. *)
Fixpoint find_unused (l : list nat) : K (option nat) :=
  match l with
  | [] => ret None
  | p :: l' =>
      acquire (proc_lock p);;
      x ← get_proc p;
      if bool_decide (p_state x = UNUSED) then ret (Some p)
      else release (proc_lock p);; find_unused l'
  end.
Definition allocproc : K (option nat) :=
  f ← find_unused (seq 0 NPROC);
  match f with
  | None => ret None
  | Some p =>
      pid ← allocpid;
      mod_proc p (set_p_pid pid);;
      mod_proc p (set_p_state USED);;
      release (proc_lock p);;
      tf ← kalloc;
      acquire (proc_lock p);;
      mod_proc p (set_p_trapframe tf);;
      if tf =? 0 then freeproc p;; release (proc_lock p);; ret None else
      release (proc_lock p);;
      pt ← proc_pagetable p;
      acquire (proc_lock p);;
      mod_proc p (set_p_pagetable pt);;
      if pt =? 0 then freeproc p;; release (proc_lock p);; ret None else
      mod_proc p (set_p_ra forkret_addr);;
      mod_proc p (λ x, set_p_sp (p_kstack x + PGSIZE) x);;
      ret (Some p)
  end.

Definition initcode : list Z :=
  [23; 5; 0; 0; 19; 5; 69; 2; 151; 5; 0; 0; 147; 133; 53; 2;
   147; 8; 112; 0; 115; 0; 0; 0; 147; 8; 32; 0; 115; 0; 0; 0;
   239; 240; 159; 255; 47; 105; 110; 105; 116; 0; 0; 36; 0; 0; 0; 0;
   0; 0; 0; 0].
Definition initcode_name : list Z := [105; 110; 105; 116; 99; 111; 100; 101].

Definition userinit : K unit :=
  o ← allocproc;
  modify (set_initproc o);;
  p ← deref o;
  pt ← gets (λ s, p_pagetable (proc_at s p));
  uvmfirst pt initcode;;
  mod_proc p (set_p_sz PGSIZE);;
  tf ← gets (λ s, p_trapframe (proc_at s p));
  store64 (tf + tf_epc) 0;;
  store64 (tf + tf_sp) PGSIZE;;
  mod_proc p (λ x, set_p_name (safestrcpy_l (p_name x) initcode_name 16) x);;
  ip ← namei [SLASH];
  mod_proc p (set_p_cwd ip);;
  mod_proc p (set_p_state RUNNABLE);;
  release (proc_lock p).

Definition growproc (n : Z) : K Z :=
  p ← myproc;
  x ← get_proc p;
  if 0 <? n then
    sz ← uvmalloc (p_pagetable x) (p_sz x) (u64 (p_sz x + n)) PTE_W;
    if sz =? 0 then ret (-1) else mod_proc p (set_p_sz sz);; ret 0
  else
    sz ← (if n <? 0 then uvmdealloc (p_pagetable x) (p_sz x) (u64 (p_sz x + n)) else ret (p_sz x));
    mod_proc p (set_p_sz sz);;
    ret 0.

(** for(i = 0; i < NOFILE; i++) if(p->ofile[i]) np->ofile[i] = filedup(p->ofile[i]); *)
Definition dup_files (p np : nat) : K unit :=
  forM (seq 0 NOFILE) (λ i,
    x ← get_proc p;
    match p_ofile x !! i with
    | Some f =>
        f ← filedup f;
        mod_proc np (λ x, set_p_ofile (<[i := f]> (p_ofile x)) x)
    | None => ret tt
    end).

Definition fork : K Z :=
  p ← myproc;
  o ← allocproc;
  match o with
  | None => ret (-1)
  | Some np =>
      release (proc_lock np);;
      x ← get_proc p;
      y ← get_proc np;
      r ← uvmcopy (p_pagetable x) (p_pagetable y) (p_sz x);
      if r <? 0 then
        acquire (proc_lock np);;
        freeproc np;;
        release (proc_lock np);;
        ret (-1)
      else
      acquire (proc_lock np);;
      x ← get_proc p;
      mod_proc np (set_p_sz (p_sz x));;
      y ← get_proc np;
      mod_mem (λ m, memmove m (p_trapframe y) (p_trapframe x) TRAPFRAME_BYTES);;
      store64 (p_trapframe y + tf_a0) 0;;
      dup_files p np;;
      cwd ← deref (p_cwd x);
      ip ← idup cwd;
      mod_proc np (set_p_cwd (Some ip));;
      mod_proc np (λ y, set_p_name (safestrcpy_l (p_name y) (p_name x) 16) y);;
      y ← get_proc np;
      release (proc_lock np);;
      acquire wait_lock;;
      mod_proc np (set_p_parent (Some p));;
      release wait_lock;;
      acquire (proc_lock np);;
      mod_proc np (set_p_state RUNNABLE);;
      release (proc_lock np);;
      ret (p_pid y)
  end.

Definition reparent1 (p pp : nat) : K unit :=
  y ← get_proc pp;
  when (bool_decide (p_parent y = Some p)) (
    i ← gets k_initproc;
    mod_proc pp (set_p_parent i);;
    wakeup (chan_of i)).
Definition reparent (p : nat) : K unit := forM (seq 0 NPROC) (reparent1 p).

Definition close_files (p : nat) : K unit :=
  forM (seq 0 NOFILE) (λ fd,
    x ← get_proc p;
    match p_ofile x !! fd with
    | Some f => fileclose f;; mod_proc p (λ x, set_p_ofile (delete fd (p_ofile x)) x)
    | None => ret tt
    end).

(** exit() ends in sched(), which does not return. *)
Definition exit (status : Z) : K unit :=
  p ← myproc;
  i ← gets k_initproc;
  if bool_decide (i = Some p) then panic "init exiting" else
  close_files p;;
  begin_op;;
  x ← get_proc p;
  cwd ← deref (p_cwd x);
  iput cwd;;
  end_op;;
  mod_proc p (set_p_cwd None);;
  acquire wait_lock;;
  reparent p;;
  x ← get_proc p;
  wakeup (chan_of (p_parent x));;
  acquire (proc_lock p);;
  mod_proc p (set_p_xstate status);;
  mod_proc p (set_p_state ZOMBIE);;
  release wait_lock;;
  sched;;
  panic "zombie exit".

(** The scan of wait(): [inl r] is a return of [r] with both locks released,
    [inr havekids] the end of the scan. *)
Fixpoint wait_scan (l : list nat) (p : nat) (addr : Z) (havekids : bool) : K (Z + bool) :=
  match l with
  | [] => ret (inr havekids)
  | pp :: l' =>
      y ← get_proc pp;
      if bool_decide (p_parent y = Some p) then
        acquire (proc_lock pp);;
        y ← get_proc pp;
        if bool_decide (p_state y = ZOMBIE) then
          x ← get_proc p;
          r ← (if addr =? 0 then ret 0 else copyout (p_pagetable x) addr (le_bytes 4 (p_xstate y)));
          if r <? 0 then
            release (proc_lock pp);;
            release wait_lock;;
            ret (inl (-1))
          else
          freeproc pp;;
          release (proc_lock pp);;
          release wait_lock;;
          ret (inl (p_pid y))
        else
        release (proc_lock pp);;
        wait_scan l' p addr true
      else wait_scan l' p addr havekids
  end.
(** A parent that finds only living children ends its run in sleep(). *)
Definition wait (addr : Z) : K Z :=
  p ← myproc;
  acquire wait_lock;;
  r ← wait_scan (seq 0 NPROC) p addr false;
  match r with
  | inl r => ret r
  | inr havekids =>
      stop ← (if negb havekids then ret true else killed p);
      if stop : bool then release wait_lock;; ret (-1) else
      sleep (ch_proc p) wait_lock;;
      block
  end.
End proc.

(** The loop of scheduler() from the slots [l] on, up to its swtch(): the
    process it picks, whose lock it holds. *)
Fixpoint scheduler_scan (l : list nat) : K (option nat) :=
  match l with
  | [] => ret None
  | p :: l' =>
      acquire (proc_lock p);;
      x ← get_proc p;
      if bool_decide (p_state x = RUNNABLE) then
        mod_proc p (set_p_state RUNNING);;
        modify (set_cur (Some p));;
        ret (Some p)
      else release (proc_lock p);; scheduler_scan l'
  end.
(** What scheduler() does when swtch() comes back from [p]. *)
Definition scheduler_back (p : nat) : K unit :=
  modify (set_cur None);;
  release (proc_lock p).

Definition yield : K unit :=
  p ← myproc;
  acquire (proc_lock p);;
  mod_proc p (set_p_state RUNNABLE);;
  sched;;
  release (proc_lock p).

(** forkret(), up to usertrapret(); [first] is its static variable. *)
Definition forkret (first : bool) : K unit :=
  p ← myproc;
  release (proc_lock p);;
  when first (fsinit ROOTDEV).

Fixpoint kill_scan (l : list nat) (pid : Z) : K Z :=
  match l with
  | [] => ret (-1)
  | p :: l' =>
      acquire (proc_lock p);;
      x ← get_proc p;
      if p_pid x =? pid then
        mod_proc p (set_p_killed 1);;
        when (bool_decide (p_state x = SLEEPING)) (mod_proc p (set_p_state RUNNABLE));;
        release (proc_lock p);;
        ret 0
      else release (proc_lock p);; kill_scan l' pid
  end.
Definition kill (pid : Z) : K Z := kill_scan (seq 0 NPROC) pid.

(** ** Lemmas *)

(** kill() finds the first slot with the pid, marks the process killed and
    wakes it if it sleeps. *)
Definition kill_mark (x : proc) : proc :=
  set_p_killed 1 (if bool_decide (p_state x = SLEEPING) then set_p_state RUNNABLE x else x).

Lemma upd_proc_locks p g l s : set_locks l (upd_proc p g s) = upd_proc p g (set_locks l s).
Proof. done. Qed.
Lemma set_locks_nil s : k_locks s = [] → set_locks [] s = s.
Proof. destruct s; cbn; by intros ->. Qed.

(** acquire(&p->lock) when no lock is held, and the release after it. *)
Lemma with_lock {A} (lk : lockid) (m : K A) Q s :
  k_locks s = [] → wp m Q (set_locks [lk] s) → wp (acquire lk;; m) Q s.
Proof.
  intros Hl Hm. apply wp_bind, wp_acquire; [rewrite Hl; apply not_elem_of_nil|]. by rewrite Hl.
Qed.
Lemma wp_unlock (lk : lockid) (Q : unit → kstate → Prop) s :
  k_locks s = [lk] → Q tt (set_locks [] s) → wp (release lk) Q s.
Proof. intros Hl HQ. by eapply (wp_release lk []); [|apply not_elem_of_nil|]. Qed.

Lemma kill_scan_spec pid l : ∀ s, k_locks s = [] →
  wp (kill_scan l pid) (λ r s',
    match list_find (λ p, p_pid (proc_at s p) = pid) l with
    | Some (_, p) => r = 0 ∧ s' = upd_proc p (λ _, kill_mark (proc_at s p)) s
    | None => r = -1 ∧ s' = s
    end) s.
Proof.
  induction l as [|p l IH]; intros s Hl; cbn [kill_scan list_find]; [by apply wp_ret|].
  apply with_lock; [done|]. apply wp_bind, wp_gets. change (proc_at (set_locks _ s) p) with (proc_at s p).
  case_decide as Hp; [rewrite (proj2 (Z.eqb_eq _ _) Hp)|rewrite (proj2 (Z.eqb_neq _ _) Hp)].
  - apply wp_bind, wp_modify, wp_bind, wp_when; intros Es.
    + apply wp_modify, wp_bind, wp_unlock; [done|]. apply wp_ret. split; [done|].
      rewrite /kill_mark Es. rewrite /upd_proc /proc_at. destruct s; cbn in *. subst. rewrite lookup_insert_eq /= insert_insert_eq.
      by destruct (default _ _).
    + apply wp_bind, wp_unlock; [done|]. apply wp_ret. split; [done|]. rewrite /kill_mark Es.
      destruct s; cbn in *; by subst.
  - apply wp_bind, wp_unlock; [done|]. rewrite set_locks_locks set_locks_nil //.
    wp_use (IH s Hl). intros r s'. by destruct (list_find _ l) as [[? ?]|].
Qed.

(** The scheduler runs the first runnable process of its scan. *)
Lemma scheduler_scan_spec l : ∀ s, k_locks s = [] →
  wp (scheduler_scan l) (λ r s',
    match list_find (λ p, p_state (proc_at s p) = RUNNABLE) l with
    | Some (_, p) => r = Some p ∧ s' = set_cur (Some p) (upd_proc p (set_p_state RUNNING) (set_locks [proc_lock p] s))
    | None => r = None ∧ s' = s
    end) s.
Proof.
  induction l as [|p l IH]; intros s Hl; cbn [scheduler_scan list_find]; [by apply wp_ret|].
  apply with_lock; [done|]. apply wp_bind, wp_gets. change (proc_at (set_locks _ s) p) with (proc_at s p).
  case_decide as Hp; [rewrite bool_decide_eq_true_2 //|rewrite bool_decide_eq_false_2 //].
  - apply wp_bind, wp_modify, wp_bind, wp_modify, wp_ret. done.
  - apply wp_bind, wp_unlock; [done|]. rewrite set_locks_locks set_locks_nil //.
    wp_use (IH s Hl). intros r s'. by destruct (list_find _ l) as [[? ?]|].
Qed.

(** reparent() gives every child of [p] to init, and nothing else but the
    state of a sleeping process changes. *)
Definition adopt (init : option nat) (p : nat) (o : option nat) : option nat :=
  if decide (o = Some p) then init else o.
Definition same_but_parent (x y : proc) : Prop :=
  woken (set_p_parent None x) (set_p_parent None y).

Lemma same_but_parent_refl x : same_but_parent x x.
Proof. by left. Qed.
Lemma same_but_parent_woken x y z : same_but_parent x y → woken y z → same_but_parent x z ∧ p_parent z = p_parent y.
Proof.
  intros H1 [->|[Hs ->]]; [done|]. split; [|done]. destruct x, y. rewrite /same_but_parent /woken in H1 |- *; cbn in *.
  destruct H1 as [H1|[H1 H2]]; [injection H1; intros; subst; by right|].
  injection H2; intros; by subst.
Qed.
Lemma same_but_parent_set x y o : same_but_parent x y → same_but_parent x (set_p_parent o y).
Proof. by destruct x, y. Qed.

Lemma reparent_run p s (l : list nat) : no_proc_lock s →
  wp (forM l (reparent1 p)) (λ _ s', k_locks s' = k_locks s ∧ k_initproc s' = k_initproc s ∧ ∀ i,
    same_but_parent (proc_at s i) (proc_at s' i) ∧
    p_parent (proc_at s' i) = if decide (i ∈ l) then adopt (k_initproc s) p (p_parent (proc_at s i))
                              else p_parent (proc_at s i)) s.
Proof.
  intros Hn. eapply wp_mono.
  - apply (wp_forM l (reparent1 p) (λ l s', k_locks s' = k_locks s ∧ k_initproc s' = k_initproc s ∧ ∀ i,
      same_but_parent (proc_at s i) (proc_at s' i) ∧
      p_parent (proc_at s' i) = if decide (i ∈ l) then adopt (k_initproc s) p (p_parent (proc_at s i))
                                else p_parent (proc_at s i))).
    + split; [done|]. split; [done|]. intros i. split; [apply same_but_parent_refl|].
      case_decide as Hi; [by apply elem_of_nil in Hi|done].
    + intros l1 a l2 s1 _ (L1 & I1 & P1). rewrite /reparent1. apply wp_bind, wp_gets, wp_when; intros Ea.
      * apply bool_decide_eq_true in Ea. apply wp_bind, wp_gets, wp_bind, wp_modify. set (s2 := upd_proc a _ s1).
        assert (no_proc_lock s2) as Hn2 by (intros i; change (k_locks s2) with (k_locks s1); rewrite L1; apply Hn).
        eapply wp_eq; [by apply wakeup_eq|]. split; [done|]. split; [done|]. intros i.
        assert (same_but_parent (proc_at s i) (proc_at s2 i) ∧ p_parent (proc_at s2 i) =
          if decide (i ∈ l1 ++ [a]) then adopt (k_initproc s) p (p_parent (proc_at s i)) else p_parent (proc_at s i)) as [Q1 Q2].
        { rewrite /s2 proc_at_upd. destruct (P1 i) as [R1 R2]. destruct (decide (i = a)) as [->|Hi].
          - split; [by apply same_but_parent_set|]. rewrite decide_True; [apply elem_of_app; right; by left|].
            cbn. rewrite I1. rewrite R2 in Ea. rewrite /adopt. destruct (decide (a ∈ l1)); [|by rewrite Ea decide_True].
            rewrite /adopt in Ea. by destruct (decide (p_parent (proc_at s a) = Some p)).
          - split; [done|]. rewrite R2. destruct (decide (i ∈ l1)) as [H1|H1], (decide (i ∈ l1 ++ [a])) as [H2|H2]; try done;
              rewrite elem_of_app list_elem_of_singleton in H2; naive_solver. }
        destruct (same_but_parent_woken _ _ (default proc0 (wake_all (chan_of (k_initproc s1)) (k_cur s2) (k_procs s2) !! i)) Q1) as [Q3 Q4].
        { apply wake_all_woken. }
        split; [exact Q3|]. etrans; [exact Q4|exact Q2].
      * apply bool_decide_eq_false in Ea. split; [done|]. split; [done|]. intros i. destruct (P1 i) as [R1 R2].
        split; [done|]. rewrite R2. destruct (decide (i ∈ l1)) as [H1|H1], (decide (i ∈ l1 ++ [a])) as [H2|H2]; try done;
          rewrite elem_of_app list_elem_of_singleton in H2; [naive_solver|].
        destruct H2 as [?| ->]; [done|]. rewrite /adopt. destruct (decide (p_parent (proc_at s a) = Some p)) as [Hd|Hd]; [|done].
        exfalso. apply Ea. by rewrite R2.
  - done.
Qed.

(** kill() marks exactly one process: the one in the first slot with that
    pid, which it also wakes if it is sleeping, and returns 0; without such a
    process it changes nothing and returns -1. *)
Theorem kill_marks pid s : k_locks s = [] →
  wp (kill pid) (λ r s',
    match list_find (λ p, p_pid (proc_at s p) = pid) (seq 0 NPROC) with
    | Some (_, p) => r = 0 ∧ p_killed (proc_at s' p) = 1 ∧ p_state (proc_at s' p) ≠ SLEEPING ∧
        ∀ q, q ≠ p → proc_at s' q = proc_at s q
    | None => r = -1 ∧ s' = s
    end) s.
Proof.
  intros Hl. wp_use (kill_scan_spec pid (seq 0 NPROC) s Hl). intros r s'.
  destruct (list_find _ (seq 0 NPROC)) as [[i p]|]; [|done]. intros [-> ->]. split; [done|].
  rewrite proc_at_upd decide_True //. split; [done|]. split.
  - rewrite /kill_mark. by case_bool_decide.
  - intros q Hq. by rewrite proc_at_upd decide_False.
Qed.

(** Three processes: 1 is init, 4 its child, 5 a child of 4. *)
Definition ex_procs : kstate :=
  set_initproc (Some 0%nat) (set_cur (Some 1%nat) (set_procs (
    <[0%nat := set_p_pid 1 (set_p_state SLEEPING (set_p_chan (ch_proc 0) proc0))]>
    (<[1%nat := set_p_pid 4 (set_p_state RUNNING (set_p_parent (Some 0%nat) proc0))]>
    {[ 2%nat := set_p_pid 5 (set_p_state RUNNABLE (set_p_parent (Some 1%nat) proc0)) ]})) kstate0)).

Lemma kill_marks_witness :
  wp (kill 5) (λ r s', r = 0 ∧ p_killed (proc_at s' 2) = 1 ∧ p_state (proc_at s' 2) ≠ SLEEPING ∧
    ∀ q, q ≠ 2%nat → proc_at s' q = proc_at ex_procs q) ex_procs.
Proof. exact (kill_marks 5 ex_procs eq_refl). Defined.

(** One pass of the scheduler over the process table dispatches the first
    RUNNABLE process it meets: it becomes RUNNING and the current process, with
    only its lock held; when none is runnable nothing changes. *)
Theorem scheduler_dispatches l s : k_locks s = [] →
  wp (scheduler_scan l) (λ r s',
    match list_find (λ p, p_state (proc_at s p) = RUNNABLE) l with
    | Some (_, p) => r = Some p ∧ k_cur s' = Some p ∧ k_locks s' = [proc_lock p] ∧
        p_state (proc_at s' p) = RUNNING ∧ ∀ q, q ≠ p → proc_at s' q = proc_at s q
    | None => r = None ∧ s' = s
    end) s.
Proof.
  intros Hl. wp_use (scheduler_scan_spec l s Hl). intros r s'.
  destruct (list_find _ l) as [[i p]|]; [|done]. intros [-> ->]. split; [done|]. split; [done|]. split; [done|].
  set (s1 := set_locks _ s). change (proc_at (set_cur _ ?x)) with (proc_at x). split.
  - by rewrite proc_at_upd decide_True.
  - intros q Hq. by rewrite proc_at_upd decide_False.
Qed.
Lemma scheduler_dispatches_witness :
  wp (scheduler_scan (seq 0 NPROC)) (λ r s', r = Some 2%nat ∧ k_cur s' = Some 2%nat ∧ k_locks s' = [proc_lock 2] ∧
    p_state (proc_at s' 2) = RUNNING ∧ ∀ q, q ≠ 2%nat → proc_at s' q = proc_at ex_procs q) ex_procs.
Proof. exact (scheduler_dispatches (seq 0 NPROC) ex_procs eq_refl). Defined.

(** Reparent() leaves no orphan: every child of the exiting process becomes
    a child of init, the parent of every other process stays, and besides that
    only sleeping processes are woken. *)
Theorem reparent_adopts p s : no_proc_lock s →
  wp (reparent p) (λ _ s', k_locks s' = k_locks s ∧ ∀ i, (i < NPROC)%nat →
    same_but_parent (proc_at s i) (proc_at s' i) ∧
    p_parent (proc_at s' i) = adopt (k_initproc s) p (p_parent (proc_at s i))) s.
Proof.
  intros Hn. wp_use (reparent_run p s (seq 0 NPROC) Hn). intros _ s' (R1 & _ & R3). split; [done|].
  intros i Hi. destruct (R3 i) as [Q1 Q2]. split; [done|]. rewrite Q2 decide_True //. apply elem_of_seq. lia.
Qed.
Lemma reparent_adopts_witness :
  wp (reparent 1) (λ _ s', k_locks s' = [] ∧ ∀ i, (i < NPROC)%nat →
    same_but_parent (proc_at ex_procs i) (proc_at s' i) ∧
    p_parent (proc_at s' i) = adopt (Some 0%nat) 1 (p_parent (proc_at ex_procs i))) ex_procs.
Proof. exact (reparent_adopts 1 ex_procs (λ i, not_elem_of_nil _)). Defined.
