(* ===== verification/Syscall.v ===== *)
(** System-call arguments (kernel/syscall.c) and exec() (kernel/exec.c). *)
From S2P Require Import Prelude Riscv Mem Ring Bytes State Sched Bio Walk Swap Kalloc Vm Log Fs Printf Console Window File Proc.

(** ** kernel/syscall.c: fetching arguments *)

Definition fetchaddr (addr : Z) : K (Z * Z) :=
  p ← myproc;
  x ← get_proc p;
  if (p_sz x <=? addr) || (p_sz x <? u64 (addr + 8)) then ret (-1, 0) else
  rb ← copyin (p_pagetable x) addr 8;
  if negb (rb.1 =? 0) then ret (-1, 0) else ret (0, of_le rb.2).

(** fetchstr() into a local array: the length or -1, and the bytes before the NUL. *)
Definition fetchstr (addr max : Z) : K (Z * list Z) :=
  p ← myproc;
  x ← get_proc p;
  rb ← copyinstr (p_pagetable x) addr max;
  if rb.1 <? 0 then ret (-1, []) else
  ret (Z.of_nat (length (cstr rb.2)), cstr rb.2).
(** fetchstr() into kernel memory at [buf]; a failed copy may have stored a
    part of the string. *)
Definition fetchstr_to (addr buf max : Z) : K Z :=
  p ← myproc;
  x ← get_proc p;
  rb ← copyinstr (p_pagetable x) addr max;
  mod_mem (λ m, wr_bytes m buf rb.2);;
  ret (if rb.1 <? 0 then -1 else Z.of_nat (length (cstr rb.2))).

Definition argraw (n : Z) : K Z :=
  p ← myproc;
  tf ← gets (λ s, p_trapframe (proc_at s p));
  if (0 <=? n) && (n <=? 5) then load64 (tf + tf_a0 + 8 * n) else panic "argraw".
Definition argint (n : Z) : K Z := v ← argraw n; ret (s32 v).
Definition argaddr (n : Z) : K Z := argraw n.
Definition argstr (n max : Z) : K (Z * list Z) := addr ← argaddr n; fetchstr addr max.

(** ** kernel/exec.c *)

Definition ELF_MAGIC : Z := 1179403647.
Definition ELF_PROG_LOAD : Z := 1.
(** struct elfhdr *)
Definition ELFHDR_BYTES : Z := 64.
Definition elf_magic (d : list Z) : Z := get32 d 0.
Definition elf_entry (d : list Z) : Z := get_le 8 d 24.
Definition elf_phoff (d : list Z) : Z := get_le 8 d 32.
Definition elf_phnum (d : list Z) : Z := get16 d 56.
(** struct proghdr *)
Definition PROGHDR_BYTES : Z := 56.
Definition ph_type (d : list Z) : Z := get32 d 0.
Definition ph_flags (d : list Z) : Z := get32 d 4.
Definition ph_off (d : list Z) : Z := get_le 8 d 8.
Definition ph_vaddr (d : list Z) : Z := get_le 8 d 16.
Definition ph_filesz (d : list Z) : Z := get_le 8 d 32.
Definition ph_memsz (d : list Z) : Z := get_le 8 d 40.

Definition flags2perm (flags : Z) : Z :=
  let perm := if tst flags 1 then PTE_X else 0 in
  if tst flags 2 then Z.lor perm PTE_W else perm.

(** for(i = 0; i < sz; i += PGSIZE) *)
Fixpoint loadseg_loop (pages : list Z) (pagetable va : Z) (ip : nat) (offset sz : Z) : K Z :=
  match pages with
  | [] => ret 0
  | i :: pages' =>
      pa ← walkaddr pagetable (u64 (va + i));
      if pa =? 0 then panic "loadseg: address should exist" else
      let n := if sz - i <? PGSIZE then sz - i else PGSIZE in
      r ← readi ip false pa (u32 (offset + i)) n;
      if negb (r =? n) then ret (-1) else
      loadseg_loop pages' pagetable va ip offset sz
  end.
Definition loadseg (pagetable va : Z) (ip : nat) (offset sz : Z) : K Z :=
  loadseg_loop (page_range 0 sz) pagetable va ip offset sz.

(** for(last=s=path; *s; s++) if( *s == '/') last = s+1; *)
Fixpoint last_elem (last path : list Z) : list Z :=
  match path with
  | [] => last
  | c :: path' => last_elem (if c =? SLASH then path' else last) path'
  end.

Section exec.
Context `{Image}.

(** The loop over the program headers: whether every one was loaded, and sz. *)
Fixpoint exec_load (phnum : nat) (pagetable : Z) (ip : nat) (off sz : Z) : K (bool * Z) :=
  match phnum with
  | O => ret (true, sz)
  | S k =>
      r ← readi_local ip (u32 off) PROGHDR_BYTES;
      if negb (r.1 =? PROGHDR_BYTES) then ret (false, sz) else
      let ph := r.2 in
      let off' := s32 (off + PROGHDR_BYTES) in
      if negb (ph_type ph =? ELF_PROG_LOAD) then exec_load k pagetable ip off' sz else
      if ph_memsz ph <? ph_filesz ph then ret (false, sz) else
      if u64 (ph_vaddr ph + ph_memsz ph) <? ph_vaddr ph then ret (false, sz) else
      if negb (ph_vaddr ph mod PGSIZE =? 0) then ret (false, sz) else
      sz1 ← uvmalloc pagetable sz (u64 (ph_vaddr ph + ph_memsz ph)) (flags2perm (ph_flags ph));
      if sz1 =? 0 then ret (false, sz) else
      l ← loadseg pagetable (ph_vaddr ph) ip (u32 (ph_off ph)) (u32 (ph_filesz ph));
      if l <? 0 then ret (false, sz1) else
      exec_load k pagetable ip off' sz1
  end.

(** The loop that pushes the strings of argv: the stack pointer and the
    pointers pushed so far, or [None] for a jump to bad. *)
Fixpoint exec_push (argv : list Z) (argc pagetable sp stackbase : Z) (ustack : list Z) : K (option (Z * list Z)) :=
  match argv with
  | [] => ret (Some (sp, ustack))
  | a :: argv' =>
      if MAXARG <=? argc then ret None else
      m ← get_mem;
      let n := strlen m a + 1 in
      let sp := u64 (sp - n) in
      let sp := sp - sp mod 16 in
      if sp <? stackbase then ret None else
      r ← copyout pagetable sp (rd_bytes m a (Z.to_nat n));
      if r <? 0 then ret None else
      exec_push argv' (argc + 1) pagetable sp stackbase (ustack ++ [sp])
  end.

(** The label bad. *)
Definition exec_bad (pagetable sz : Z) (ip : option nat) : K Z :=
  when (negb (pagetable =? 0)) (proc_freepagetable pagetable sz);;
  match ip with Some ip => iunlockput ip;; end_op | None => ret tt end;;
  ret (-1).

(** The second half of exec(): the stack, then the switch to the new image.
    [argv] are the addresses of the argument strings, before the null pointer. *)
Definition exec_stack (path : list Z) (argv : list Z) (entry pagetable sz : Z) : K Z :=
  p ← myproc;
  oldsz ← gets (λ s, p_sz (proc_at s p));
  let sz := PGROUNDUP sz in
  sz1 ← uvmalloc pagetable sz (u64 (sz + (USERSTACK + 1) * PGSIZE)) PTE_W;
  if sz1 =? 0 then exec_bad pagetable sz None else
  let sz := sz1 in
  uvmclear pagetable (u64 (sz - (USERSTACK + 1) * PGSIZE));;
  let stackbase := u64 (sz - USERSTACK * PGSIZE) in
  r ← exec_push argv 0 pagetable sz stackbase [];
  match r with
  | None => exec_bad pagetable sz None
  | Some (sp, ustack) =>
      let argc := Z.of_nat (length argv) in
      let sp := u64 (sp - (argc + 1) * 8) in
      let sp := sp - sp mod 16 in
      if sp <? stackbase then exec_bad pagetable sz None else
      r ← copyout pagetable sp (concat (le_bytes 8 <$> (ustack ++ [0])));
      if r <? 0 then exec_bad pagetable sz None else
      tf ← gets (λ s, p_trapframe (proc_at s p));
      store64 (tf + tf_a1) sp;;
      mod_proc p (λ x, set_p_name (safestrcpy_l (p_name x) (last_elem path path) 16) x);;
      oldpagetable ← gets (λ s, p_pagetable (proc_at s p));
      mod_proc p (set_p_pagetable pagetable);;
      mod_proc p (set_p_sz sz);;
      store64 (tf + tf_epc) entry;;
      store64 (tf + tf_sp) sp;;
      proc_freepagetable oldpagetable oldsz;;
      ret argc
  end.

Definition exec (path : list Z) (argv : list Z) : K Z :=
  p ← myproc;
  begin_op;;
  o ← namei path;
  match o with
  | None => end_op;; ret (-1)
  | Some ip =>
      ilock ip;;
      r ← readi_local ip 0 ELFHDR_BYTES;
      if negb (r.1 =? ELFHDR_BYTES) then exec_bad 0 0 (Some ip) else
      let elf := r.2 in
      if negb (elf_magic elf =? ELF_MAGIC) then exec_bad 0 0 (Some ip) else
      pagetable ← proc_pagetable p;
      if pagetable =? 0 then exec_bad 0 0 (Some ip) else
      l ← exec_load (Z.to_nat (elf_phnum elf)) pagetable ip (s32 (elf_phoff elf)) 0;
      let '(ok, sz) := (l : bool * Z) in
      if negb ok then exec_bad pagetable sz (Some ip) else
      iunlockput ip;;
      end_op;;
      exec_stack path argv (elf_entry elf) pagetable sz
  end.
End exec.
