(* ===== verification/Sysfile.v ===== *)
(** The system calls: kernel/sysfile.c, kernel/sysproc.c and the dispatch of
    kernel/syscall.c. *)
From S2P Require Import Prelude Riscv Mem Ring Bytes State Sched Bio Walk Swap Kalloc Vm Log Fs Printf Console Window File Proc Syscall.

(** ** kernel/fcntl.h *)
Definition O_RDONLY : Z := 0.
Definition O_WRONLY : Z := 1.
Definition O_RDWR : Z := 2.
Definition O_CREATE : Z := 512.
Definition O_TRUNC : Z := 1024.

(** ** File descriptors *)

(** The descriptor and its struct file, or [None] for -1. *)
Definition argfd (n : Z) : K (option (nat * nat)) :=
  fd ← argint n;
  p ← myproc;
  x ← get_proc p;
  if (fd <? 0) || (Z.of_nat NOFILE <=? fd) then ret None else
  ret (pair (Z.to_nat fd) <$> p_ofile x !! Z.to_nat fd).

(** for(fd = 0; fd < NOFILE; fd++) if(p->ofile[fd] == 0) *)
Definition first_fd (ofile : gmap nat nat) : option nat :=
  head (filter (λ fd, ofile !! fd = None) (seq 0 NOFILE)).
Definition fdalloc (f : nat) : K Z :=
  p ← myproc;
  x ← get_proc p;
  match first_fd (p_ofile x) with
  | Some fd =>
      mod_proc p (λ x, set_p_ofile (<[fd := f]> (p_ofile x)) x);;
      ret (Z.of_nat fd)
  | None => ret (-1)
  end.
(** p->ofile[fd] = 0 *)
Definition fdclear (p fd : nat) : K unit := mod_proc p (λ x, set_p_ofile (delete fd (p_ofile x)) x).

Section sysfile.
Context `{Image}.
Variable forkret_addr : Z.

Definition sys_dup : K Z :=
  a ← argfd 0;
  match a with
  | None => ret (-1)
  | Some (_, f) =>
      fd ← fdalloc f;
      if fd <? 0 then ret (-1) else
      filedup f;;
      ret fd
  end.

Definition sys_read : K Z :=
  p ← argaddr 1;
  n ← argint 2;
  a ← argfd 0;
  match a with None => ret (-1) | Some (_, f) => fileread f p n end.

Definition sys_write : K Z :=
  p ← argaddr 1;
  n ← argint 2;
  a ← argfd 0;
  match a with None => ret (-1) | Some (_, f) => filewrite f p n end.

Definition sys_close : K Z :=
  a ← argfd 0;
  match a with
  | None => ret (-1)
  | Some (fd, f) =>
      p ← myproc;
      fdclear p fd;;
      fileclose f;;
      ret 0
  end.

Definition sys_fstat : K Z :=
  st ← argaddr 1;
  a ← argfd 0;
  match a with None => ret (-1) | Some (_, f) => filestat f st end.

(** ** Links and directories *)

(** The label bad of sys_link(). *)
Definition link_bad (ip : nat) : K Z :=
  ilock ip;;
  mod_inode ip (λ x, set_i_nlink (s16 (i_nlink x - 1)) x);;
  iupdate ip;;
  iunlockput ip;;
  end_op;;
  ret (-1).
Definition sys_link : K Z :=
  old ← argstr 0 MAXPATH;
  if old.1 <? 0 then ret (-1) else
  new ← argstr 1 MAXPATH;
  if new.1 <? 0 then ret (-1) else
  begin_op;;
  o ← namei old.2;
  match o with
  | None => end_op;; ret (-1)
  | Some ip =>
      ilock ip;;
      x ← get_inode ip;
      if i_type x =? T_DIR then iunlockput ip;; end_op;; ret (-1) else
      mod_inode ip (λ x, set_i_nlink (s16 (i_nlink x + 1)) x);;
      iupdate ip;;
      iunlock ip;;
      r ← nameiparent new.2;
      match r.1 with
      | None => link_bad ip
      | Some dp =>
          ilock dp;;
          d ← get_inode dp;
          x ← get_inode ip;
          l ← (if negb (i_dev d =? i_dev x) then ret (-1) else dirlink dp r.2 (i_inum x));
          if l <? 0 then iunlockput dp;; link_bad ip else
          iunlockput dp;;
          iput ip;;
          end_op;;
          ret 0
      end
  end.

(** for(off=2*sizeof(de); off<dp->size; off+=sizeof(de)) *)
Fixpoint isdirempty_loop (offs : list Z) (dp : nat) : K bool :=
  match offs with
  | [] => ret true
  | off :: offs' =>
      r ← readi_local dp off DIRENT;
      if negb (r.1 =? DIRENT) then panic "isdirempty: readi" else
      if negb (de_inum r.2 =? 0) then ret false else isdirempty_loop offs' dp
  end.
Definition isdirempty (dp : nat) : K bool :=
  x ← get_inode dp;
  isdirempty_loop (drop 2 (dir_offsets (i_size x))) dp.

Definition DOT : Z := 46.
(** The label bad of sys_unlink(). *)
Definition unlink_bad (dp : nat) : K Z := iunlockput dp;; end_op;; ret (-1).
Definition sys_unlink : K Z :=
  path ← argstr 0 MAXPATH;
  if path.1 <? 0 then ret (-1) else
  begin_op;;
  r ← nameiparent path.2;
  match r.1 with
  | None => end_op;; ret (-1)
  | Some dp =>
      let name := r.2 in
      ilock dp;;
      if (namecmp name [DOT] =? 0) || (namecmp name [DOT; DOT] =? 0) then unlink_bad dp else
      l ← dirlookup dp name;
      match l with
      | None => unlink_bad dp
      | Some (ip, off) =>
          ilock ip;;
          x ← get_inode ip;
          if i_nlink x <? 1 then panic "unlink: nlink < 1" else
          busy ← (if i_type x =? T_DIR then e ← isdirempty ip; ret (negb e) else ret false);
          if busy : bool then iunlockput ip;; unlink_bad dp else
          n ← writei_local dp (replicate 16 0) off;
          if negb (n =? DIRENT) then panic "unlink: writei" else
          when (i_type x =? T_DIR) (
            mod_inode dp (λ d, set_i_nlink (s16 (i_nlink d - 1)) d);;
            iupdate dp);;
          iunlockput dp;;
          mod_inode ip (λ x, set_i_nlink (s16 (i_nlink x - 1)) x);;
          iupdate ip;;
          iunlockput ip;;
          end_op;;
          ret 0
      end
  end.

(** The label fail of create(). *)
Definition create_fail (ip dp : nat) : K (option nat) :=
  mod_inode ip (set_i_nlink 0);;
  iupdate ip;;
  iunlockput ip;;
  iunlockput dp;;
  ret None.
Definition create (path : list Z) (type major minor : Z) : K (option nat) :=
  r ← nameiparent path;
  match r.1 with
  | None => ret None
  | Some dp =>
      let name := r.2 in
      ilock dp;;
      l ← dirlookup dp name;
      match l with
      | Some (ip, _) =>
          iunlockput dp;;
          ilock ip;;
          x ← get_inode ip;
          if (type =? T_FILE) && ((i_type x =? T_FILE) || (i_type x =? T_DEVICE)) then ret (Some ip) else
          iunlockput ip;;
          ret None
      | None =>
          d ← get_inode dp;
          o ← ialloc (i_dev d) type;
          match o with
          | None => iunlockput dp;; ret None
          | Some ip =>
              ilock ip;;
              mod_inode ip (set_i_major major);;
              mod_inode ip (set_i_minor minor);;
              mod_inode ip (set_i_nlink 1);;
              iupdate ip;;
              x ← get_inode ip;
              d ← get_inode dp;
              l ← (if type =? T_DIR then
                     l1 ← dirlink ip [DOT] (i_inum x);
                     if l1 <? 0 then ret l1 else dirlink ip [DOT; DOT] (i_inum d)
                   else ret 0);
              if l <? 0 then create_fail ip dp else
              l ← dirlink dp name (i_inum x);
              if l <? 0 then create_fail ip dp else
              when (type =? T_DIR) (
                mod_inode dp (λ d, set_i_nlink (s16 (i_nlink d + 1)) d);;
                iupdate dp);;
              iunlockput dp;;
              ret (Some ip)
          end
      end
  end.

(** The second half of sys_open(): [ip] is locked, in a transaction. *)
Definition open_inode (ip : nat) (omode : Z) : K Z :=
  x ← get_inode ip;
  if (i_type x =? T_DEVICE) && ((i_major x <? 0) || (NDEV <=? i_major x)) then
    iunlockput ip;; end_op;; ret (-1)
  else
  o ← filealloc;
  match o with
  | None => iunlockput ip;; end_op;; ret (-1)
  | Some f =>
      fd ← fdalloc f;
      if fd <? 0 then fileclose f;; iunlockput ip;; end_op;; ret (-1) else
      (if i_type x =? T_DEVICE then
         mod_file f (set_f_type FD_DEVICE);;
         mod_file f (set_f_major (i_major x))
       else
         mod_file f (set_f_type FD_INODE);;
         mod_file f (set_f_off 0));;
      mod_file f (set_f_ip (Some ip));;
      mod_file f (set_f_readable (negb (tst omode O_WRONLY)));;
      mod_file f (set_f_writable (tst omode O_WRONLY || tst omode O_RDWR));;
      when (tst omode O_TRUNC && (i_type x =? T_FILE)) (itrunc ip);;
      iunlock ip;;
      end_op;;
      ret fd
  end.
Definition sys_open : K Z :=
  omode ← argint 1;
  path ← argstr 0 MAXPATH;
  if path.1 <? 0 then ret (-1) else
  begin_op;;
  if tst omode O_CREATE then
    o ← create path.2 T_FILE 0 0;
    match o with None => end_op;; ret (-1) | Some ip => open_inode ip omode end
  else
    o ← namei path.2;
    match o with
    | None => end_op;; ret (-1)
    | Some ip =>
        ilock ip;;
        x ← get_inode ip;
        if (i_type x =? T_DIR) && negb (omode =? O_RDONLY) then iunlockput ip;; end_op;; ret (-1)
        else open_inode ip omode
    end.

Definition sys_mkdir : K Z :=
  begin_op;;
  path ← argstr 0 MAXPATH;
  o ← (if path.1 <? 0 then ret None else create path.2 T_DIR 0 0);
  match o with
  | None => end_op;; ret (-1)
  | Some ip => iunlockput ip;; end_op;; ret 0
  end.

Definition sys_mknod : K Z :=
  begin_op;;
  major ← argint 1;
  minor ← argint 2;
  path ← argstr 0 MAXPATH;
  o ← (if path.1 <? 0 then ret None else create path.2 T_DEVICE (s16 major) (s16 minor));
  match o with
  | None => end_op;; ret (-1)
  | Some ip => iunlockput ip;; end_op;; ret 0
  end.

Definition sys_chdir : K Z :=
  p ← myproc;
  begin_op;;
  path ← argstr 0 MAXPATH;
  o ← (if path.1 <? 0 then ret None else namei path.2);
  match o with
  | None => end_op;; ret (-1)
  | Some ip =>
      ilock ip;;
      x ← get_inode ip;
      if negb (i_type x =? T_DIR) then iunlockput ip;; end_op;; ret (-1) else
      iunlock ip;;
      cwd ← gets (λ s, p_cwd (proc_at s p));
      cwd ← deref cwd;
      iput cwd;;
      end_op;;
      mod_proc p (set_p_cwd (Some ip));;
      ret 0
  end.

(** ** exec and pipe *)

(** for(i=0;; i++): the pages of the argument strings, [i] of them; the flag
    is false for a jump to bad. *)
Fixpoint exec_args (k : nat) (uargv : Z) (argv : list Z) : K (bool * list Z) :=
  match k with
  | O => ret (false, argv)
  | S k' =>
      r ← fetchaddr (u64 (uargv + 8 * Z.of_nat (length argv)));
      if r.1 <? 0 then ret (false, argv) else
      if r.2 =? 0 then ret (true, argv) else
      pg ← kalloc;
      if pg =? 0 then ret (false, argv) else
      n ← fetchstr_to r.2 pg PGSIZE;
      if n <? 0 then ret (false, argv ++ [pg]) else
      exec_args k' uargv (argv ++ [pg])
  end.
Definition sys_exec : K Z :=
  uargv ← argaddr 1;
  path ← argstr 0 MAXPATH;
  if path.1 <? 0 then ret (-1) else
  a ← exec_args (Z.to_nat MAXARG) uargv [];
  if negb a.1 then forM a.2 kfree;; ret (-1) else
  r ← exec path.2 a.2;
  forM a.2 kfree;;
  ret r.

Definition sys_pipe : K Z :=
  p ← myproc;
  fdarray ← argaddr 0;
  o ← pipealloc;
  match o with
  | None => ret (-1)
  | Some (rf, wf) =>
      fd0 ← fdalloc rf;
      fd1 ← (if fd0 <? 0 then ret (-1) else fdalloc wf);
      if fd1 <? 0 then
        when (0 <=? fd0) (fdclear p (Z.to_nat fd0));;
        fileclose rf;;
        fileclose wf;;
        ret (-1)
      else
      pt ← gets (λ s, p_pagetable (proc_at s p));
      r0 ← copyout pt fdarray (le_bytes 4 fd0);
      r ← (if r0 <? 0 then ret r0 else copyout pt (u64 (fdarray + 4)) (le_bytes 4 fd1));
      if r <? 0 then
        fdclear p (Z.to_nat fd0);;
        fdclear p (Z.to_nat fd1);;
        fileclose rf;;
        fileclose wf;;
        ret (-1)
      else ret 0
  end.

(** ** The swap calls *)

Definition sys_swapread : K Z :=
  ptr ← argaddr 0;
  blkno ← argint 1;
  swapread ptr blkno true;;
  ret 0.
Definition sys_swapwrite : K Z :=
  ptr ← argaddr 0;
  blkno ← argint 1;
  swapwrite ptr blkno true;;
  ret 0.
Definition sys_swapstat : K Z :=
  p ← myproc;
  ur ← argaddr 0;
  uw ← argaddr 1;
  pt ← gets (λ s, p_pagetable (proc_at s p));
  nr ← gets k_nr_read;
  r ← copyout pt ur (le_bytes 4 nr);
  if r <? 0 then ret (-1) else
  nw ← gets k_nr_write;
  r ← copyout pt uw (le_bytes 4 nw);
  ret (if r <? 0 then -1 else 0).

(** ** kernel/sysproc.c *)

Definition sys_exit : K Z := n ← argint 0; exit n;; ret 0.
Definition sys_getpid : K Z := p ← myproc; gets (λ s, p_pid (proc_at s p)).
Definition sys_fork : K Z := fork forkret_addr.
Definition sys_wait : K Z := p ← argaddr 0; wait p.
Definition sys_sbrk : K Z :=
  n ← argint 0;
  p ← myproc;
  addr ← gets (λ s, p_sz (proc_at s p));
  r ← growproc n;
  ret (if r <? 0 then -1 else addr).
(** A process whose time has not come ends its run in sleep(); [ticks0] is the
    tick at which the call started. *)
Definition sleep_until (ticks0 n : Z) : K Z :=
  t ← gets k_ticks;
  if u32 (t - ticks0) <? u32 n then
    p ← myproc;
    kd ← killed p;
    if kd : bool then release tickslock;; ret (-1) else
    sleep ch_ticks tickslock;; block
  else release tickslock;; ret 0.
Definition sys_sleep : K Z :=
  n ← argint 0;
  let n := if n <? 0 then 0 else n in
  acquire tickslock;;
  ticks0 ← gets k_ticks;
  sleep_until ticks0 n.
Definition sys_kill : K Z := pid ← argint 0; kill pid.
Definition sys_uptime : K Z :=
  acquire tickslock;;
  xticks ← gets k_ticks;
  release tickslock;;
  ret xticks.

(** ** kernel/syscall.c: dispatch *)

Definition syscalls (num : Z) : option (K Z) :=
  match num with
  | 1 => Some sys_fork | 2 => Some sys_exit | 3 => Some sys_wait | 4 => Some sys_pipe
  | 5 => Some sys_read | 6 => Some sys_kill | 7 => Some sys_exec | 8 => Some sys_fstat
  | 9 => Some sys_chdir | 10 => Some sys_dup | 11 => Some sys_getpid | 12 => Some sys_sbrk
  | 13 => Some sys_sleep | 14 => Some sys_uptime | 15 => Some sys_open | 16 => Some sys_write
  | 17 => Some sys_mknod | 18 => Some sys_unlink | 19 => Some sys_link | 20 => Some sys_mkdir
  | 21 => Some sys_close | 22 => Some sys_swapread | 23 => Some sys_swapwrite
  | 24 => Some sys_swapstat
  | _ => None
  end.

(** "%d %s: unknown sys call %d\n" *)
Definition unknown_call_fmt : list Z := str "%d %s: unknown sys call %d" ++ [NL].

Definition syscall : K unit :=
  p ← myproc;
  tf ← gets (λ s, p_trapframe (proc_at s p));
  a7 ← load64 (tf + tf_a7);
  let num := s32 a7 in
  match syscalls num with
  | Some f => r ← f; store64 (tf + tf_a0) (u64 r)
  | None =>
      x ← get_proc p;
      cprintf unknown_call_fmt [VNum (p_pid x); VStr (Some (cstr (p_name x))); VNum num];;
      store64 (tf + tf_a0) (u64 (-1))
  end.
End sysfile.
