(* ===== verification/Trap.v ===== *)
(** Traps: kernel/trap.c.

    The control registers a handler reads are an argument; what usertrapret()
    loads into them is its result. *)
From S2P Require Import Prelude Riscv Mem Ring Bytes State Sched Bio Walk Swap Kalloc Vm Mm Uvm Log Fs Printf Console Window File Proc Syscall Sysfile.

(** The registers of a hart when a trap is taken; [h_irq] is what
    plic_claim() returns, [h_hartid] the tp register. *)
Record hart := Hart {
  h_scause : Z; h_stval : Z; h_sepc : Z; h_sstatus : Z; h_satp : Z; h_hartid : Z; h_irq : Z
}.

Definition EXTERNAL_IRQ : Z := 2 ^ 63 + 9.
Definition TIMER_IRQ : Z := 2 ^ 63 + 5.

(** The tick counter counts on hart 0 only. *)
Definition clockintr (h : hart) : K unit :=
  when (h_hartid h =? 0) (
    acquire tickslock;;
    modify (λ s, set_ticks (u32 (k_ticks s + 1)) s);;
    wakeup ch_ticks;;
    release tickslock).

(** In Bio.v a disk request is complete when virtio_disk_rw() returns, so
    the disk's interrupt finds nothing left to do. *)
Definition devintr (h : hart) : K Z :=
  if h_scause h =? EXTERNAL_IRQ then
    (if h_irq h =? UART0_IRQ then uartintr
     else if h_irq h =? VIRTIO0_IRQ then ret tt
     else when (negb (h_irq h =? 0)) (cprintf (str "unexpected interrupt irq=%d" ++ [NL]) [VNum (h_irq h)]));;
    ret 1
  else if h_scause h =? TIMER_IRQ then clockintr h;; ret 2
  else ret 0.

Section trap.
Context `{Image}.
Variable forkret_addr : Z.
(** The address of usertrap(). *)
Variable usertrap_addr : Z.

(** if(killed(p)) exit(-1) *)
Definition exit_if_killed (p : nat) : K unit :=
  k ← killed p;
  when k (exit (-1)).

(** What goes into sepc, satp and sstatus for the sret. *)
Definition usertrapret (h : hart) : K (Z * Z * Z) :=
  p ← myproc;
  x ← get_proc p;
  let tf := p_trapframe x in
  store64 (tf + tf_kernel_satp) (h_satp h);;
  store64 (tf + tf_kernel_sp) (p_kstack x + PGSIZE);;
  store64 (tf + tf_kernel_trap) usertrap_addr;;
  store64 (tf + tf_kernel_hartid) (h_hartid h);;
  epc ← load64 (tf + tf_epc);
  ret (epc, MAKE_SATP (p_pagetable x),
       Z.lor (Z.land (h_sstatus h) (Z.lnot SSTATUS_SPP)) SSTATUS_SPIE).

(** The segmentation fault of the page-fault arm. *)
Definition segfault (p : nat) : K unit := setkilled p;; exit (-1).

(** The page-fault arm of usertrap(). *)
Definition page_fault (va : Z) : K unit :=
  p ← myproc;
  x ← get_proc p;
  sp ← load64 (p_trapframe x + tf_sp);
  if (p_sz x <=? va) || ((va <? PGROUNDDOWN sp) && (u64 (PGROUNDDOWN sp - PGSIZE) <=? va)) then segfault p else
  pte ← walk (p_pagetable x) va false;
  if pte =? 0 then segfault p else
  v ← load64 pte;
  if negb (tst v PTE_V) && tst v PTE_S then
    ok ← fault_in (p_pagetable x) va pte;
    if ok : bool then ret tt else segfault p
  else segfault p.

Definition usertrap (h : hart) : K (Z * Z * Z) :=
  if tst (h_sstatus h) SSTATUS_SPP then panic "usertrap: not from user mode" else
  p ← myproc;
  tf ← gets (λ s, p_trapframe (proc_at s p));
  store64 (tf + tf_epc) (h_sepc h);;
  which_dev ←
    (if h_scause h =? 8 then
       exit_if_killed p;;
       epc ← load64 (tf + tf_epc);
       store64 (tf + tf_epc) (u64 (epc + 4));;
       syscall forkret_addr;;
       ret 0
     else
       d ← devintr h;
       if negb (d =? 0) then ret d else
       if (h_scause h =? 13) || (h_scause h =? 15) || (h_scause h =? 12) then
         page_fault (h_stval h);;
         ret 0
       else
         x ← get_proc p;
         cprintf (str "usertrap(): unexpected scause 0x%lx pid=%d" ++ [NL]) [VNum (h_scause h); VNum (p_pid x)];;
         cprintf (str "            sepc=0x%lx stval=0x%lx" ++ [NL]) [VNum (h_sepc h); VNum (h_stval h)];;
         setkilled p;;
         ret 0);
  exit_if_killed p;;
  when (which_dev =? 2) yield;;
  usertrapret h.

(** sepc and sstatus are restored at the end. *)
Definition kerneltrap (h : hart) : K (Z * Z) :=
  if negb (tst (h_sstatus h) SSTATUS_SPP) then panic "kerneltrap: not from supervisor mode" else
  if tst (h_sstatus h) SSTATUS_SIE then panic "kerneltrap: interrupts enabled" else
  which_dev ← devintr h;
  if which_dev =? 0 then
    cprintf (str "scause=0x%lx sepc=0x%lx stval=0x%lx" ++ [NL])
      [VNum (h_scause h); VNum (h_sepc h); VNum (h_stval h)];;
    panic "kerneltrap"
  else
  c ← gets k_cur;
  when ((which_dev =? 2) && bool_decide (c ≠ None)) yield;;
  ret (h_sepc h, h_sstatus h).
End trap.

(** ** The page fault *)

Lemma PX_page level va : 0 ≤ level → 0 ≤ va → PX level (PGROUNDDOWN va) = PX level va.
Proof.
  intros Hl Hva. rewrite !PX_eq // PGROUNDDOWN_eq. f_equal.
  rewrite /PXSHIFT /PGSHIFT Z.pow_add_r; [lia..|]. change (2 ^ 12) with 4096.
  assert (0 < 2 ^ (9 * level)) by (apply Z.pow_pos_nonneg; lia).
  rewrite -!Z.div_div; [lia..|]. by rewrite Z.div_mul.
Qed.
Lemma walk_pure_page m pt va : 0 ≤ va → walk_pure m pt va = walk_pure m pt (PGROUNDDOWN va).
Proof. intros Hva. by rewrite /walk_pure !PX_page. Qed.

Section trap_spec.
Context `{Image}.

(** The faulting address is a page of the process that was swapped out. *)
Record faults (s : kstate) (role : gmap Z ptrole) (p : nat) (va v : Z) : Prop := {
  ft_size : 0 ≤ va < p_sz (proc_at s p);
  ft_max : p_sz (proc_at s p) ≤ MAXVA;
  ft_guard : let sp := PGROUNDDOWN (ld64 (k_mem s) (p_trapframe (proc_at s p) + tf_sp)) in
    ¬ (va < sp ∧ u64 (sp - PGSIZE) ≤ va);
  ft_leaf : leaf_v s role (p_pagetable (proc_at s p)) (PGROUNDDOWN va) v;
  ft_V : tst v PTE_V = false;
  ft_S : tst v PTE_S = true
}.
End trap_spec.
