(* ===== verification/Machine.v ===== *)
(** A small machine with a process of three pages, one of them swapped out and
    no free memory: the invariants of the memory-management theorems hold in
    it, so that those theorems apply to it. *)
From S2P Require Import Prelude Riscv Mem Ring State Sched Bio Walk Swap Kalloc Vm Mm Uvm.

(** ** Six pages of memory after the kernel *)
Definition B : Z := PHYSTOP - 6 * PGSIZE.
Definition root : Z := B.
Definition dir1 : Z := B + PGSIZE.
Definition dir0 : Z := B + 2 * PGSIZE.
Definition frame_a : Z := B + 3 * PGSIZE.
Definition frame_b : Z := B + 4 * PGSIZE.
Definition tframe : Z := B + 5 * PGSIZE.

#[global] Instance small_image : Image.
Proof.
  refine {| img_etext := KERNBASE + 2 * PGSIZE; img_end := B; img_trampoline := KERNBASE + PGSIZE |};
    try (vm_compute; reflexivity); try (vm_compute; intuition congruence).
Defined.

Definition rw_user : Z := Z.lor (Z.lor PTE_R PTE_W) PTE_U.
(** Page 0 is in [frame_a] and has been accessed, page 1 is in [frame_b], page 2
    is in slot 0 of the swap area. *)
Definition pte0 : Z := Z.lor (PA2PTE frame_a) (Z.lor rw_user (Z.lor PTE_A PTE_V)).
Definition pte1 : Z := Z.lor (PA2PTE frame_b) (Z.lor rw_user PTE_V).
Definition pte2 : Z := Z.lor (Z.shiftl 0 10) (Z.lor rw_user PTE_S).

Definition mem0 : gmap Z Z :=
  st64 (st64 (st64 (st64 (st64 (st64 (st8 (st8 ∅ frame_a 65) frame_b 66)
    root (Z.lor (PA2PTE dir1) PTE_V)) dir1 (Z.lor (PA2PTE dir0) PTE_V))
    dir0 pte0) (dir0 + 8) pte1) (dir0 + 16) pte2) (tframe + 48) 12280.

Definition ia : Z := frame_a / PGSIZE.
Definition ib : Z := frame_b / PGSIZE.
Definition pages0 : gmap Z page :=
  <[ia := Page (Some ib) (Some ib) root 0]> (<[ib := Page (Some ia) (Some ia) root 4096]> ∅).
Definition role0 : gmap Z ptrole :=
  <[root := (root, 2, 0)]> (<[dir1 := (root, 1, 0)]> (<[dir0 := (root, 0, 0)]> ∅)).

Definition proc_a : proc :=
  set_p_state RUNNING (set_p_pid 7 (set_p_sz 12288 (set_p_pagetable root (set_p_trapframe tframe proc0)))).

Definition machine : kstate :=
  set_bufs boot_bufs (set_disk {[ 2000 := 67 :: replicate 1023 0 ]} (set_bitmap {[ 0 := 1 ]}
    (set_cur (Some 0%nat) (set_procs {[ 0%nat := proc_a ]}
    (set_lru_head (Some ia) (set_pages pages0 (set_mem mem0 kstate0))))))).

(** ** The invariants hold *)

Lemma machine_ready : swap_ready 0 machine.
Proof.
  destruct (boot_bc machine) as [H1 H2]; [reflexivity| |by split].
  intros n. rewrite /block_at. change (k_disk machine) with ({[ 2000 := 67 :: replicate 1023 0 ]} : gmap Z (list Z)).
  rewrite lookup_singleton. by case_decide.
Qed.

(** Entries by computation: of the 512 entries of the page at [P], those after
    the first [n] are zero. *)
Lemma zero_entries P n : forallb (λ i, ld64 mem0 (P + 8 * i) =? 0) (seqZ n (512 - n)) = true →
  ∀ i, n ≤ i < 512 → ld64 mem0 (P + 8 * i) = 0.
Proof.
  intros Hf i Hi. rewrite forallb_forall in Hf. apply Z.eqb_eq, Hf, list_elem_of_In, elem_of_seqZ. lia.
Qed.
Lemma root_entries i : 1 ≤ i < 512 → ld64 mem0 (root + 8 * i) = 0.
Proof. apply zero_entries. vm_compute. reflexivity. Qed.
Lemma dir1_entries i : 1 ≤ i < 512 → ld64 mem0 (dir1 + 8 * i) = 0.
Proof. apply zero_entries. vm_compute. reflexivity. Qed.
Lemma dir0_entries i : 3 ≤ i < 512 → ld64 mem0 (dir0 + 8 * i) = 0.
Proof. apply zero_entries. vm_compute. reflexivity. Qed.

Lemma role_cases P x : role0 !! P = Some x →
  (P = root ∧ x = (root, 2, 0)) ∨ (P = dir1 ∧ x = (root, 1, 0)) ∨ (P = dir0 ∧ x = (root, 0, 0)).
Proof.
  rewrite /role0. intros H. apply lookup_insert_Some in H as [[<- <-]|[_ H]]; [by left|].
  apply lookup_insert_Some in H as [[<- <-]|[_ H]]; [by right; left|].
  apply lookup_insert_Some in H as [[<- <-]|[_ H]]; [by right; right|]. by rewrite lookup_empty in H.
Qed.
Lemma machine_pt : pt_ok mem0 role0.
Proof.
  split.
  - intros P x [[-> _]|[[-> _]|[-> _]]]%role_cases; by vm_compute.
  - intros P r lvl pre i HP Hl Hi HV. apply role_cases in HP as [[-> [= -> -> ->]]|[[-> [= -> -> ->]]|[-> [= -> -> ->]]]]; [..|lia].
    + destruct (decide (i = 0)) as [->|]; [by vm_compute|]. rewrite root_entries in HV; [lia|done].
    + destruct (decide (i = 0)) as [->|]; [by vm_compute|]. rewrite dir1_entries in HV; [lia|done].
Qed.

Lemma machine_leaf pt va v : leaf_v machine role0 pt va v → tst v PTE_V = true ∨ tst v PTE_S = true →
  pt = root ∧ ((va = 0 ∧ v = pte0) ∨ (va = 4096 ∧ v = pte1) ∨ (va = 8192 ∧ v = pte2)).
Proof.
  intros [(Hr & Hva & Hal) Hp] Hv. assert (pt = root) as ->.
  { apply role_cases in Hr as [[-> _]|[[-> H]|[-> H]]]; [done|by vm_compute in H..]. }
  split; [done|]. rewrite /pte_of /walk_pure in Hp. change (k_mem machine) with mem0 in Hp.
  pose proof (PX_range 2 va ltac:(lia)). pose proof (PX_range 1 va ltac:(lia)). pose proof (PX_range 0 va ltac:(lia)).
  destruct (decide (PX 2 va = 0)) as [E2|N2]; [rewrite E2 in Hp|rewrite root_entries in Hp; [lia|done]].

  rewrite (_ : ld64 mem0 (root + 8 * 0) = Z.lor (PA2PTE dir1) PTE_V) in Hp; [by vm_compute|].
  rewrite (_ : tst _ PTE_V = true) in Hp; [by vm_compute|]. rewrite (_ : PTE2PA _ = dir1) in Hp; [by vm_compute|].
  destruct (decide (PX 1 va = 0)) as [E1|N1]; [rewrite E1 in Hp|rewrite dir1_entries in Hp; [lia|done]].
  rewrite (_ : ld64 mem0 (dir1 + 8 * 0) = Z.lor (PA2PTE dir0) PTE_V) in Hp; [by vm_compute|].
  rewrite (_ : tst _ PTE_V = true) in Hp; [by vm_compute|]. rewrite (_ : PTE2PA _ = dir0) in Hp; [by vm_compute|].
  destruct (Z.eqb_spec (dir0 + 8 * PX 0 va) 0) as [|_]; [done|]. injection Hp as <-.
  rewrite (PX_split va) // E2 E1. 
  destruct (decide (PX 0 va = 0)) as [->|]; [left; by vm_compute|].
  destruct (decide (PX 0 va = 1)) as [->|]; [right; left; by vm_compute|].
  destruct (decide (PX 0 va = 2)) as [->|]; [right; right; by vm_compute|].
  rewrite dir0_entries in Hv; [lia|]. by destruct Hv.
Qed.

Definition lru0 : list Z := [ia; ib].

Lemma machine_lru : lru_ok machine lru0.
Proof.
  split; [|done|].
  - split; [by apply (bool_decide_unpack (NoDup lru0)); vm_compute|]. repeat constructor.
  - intros i Hi. rewrite /pnx /page_at. change (k_pages machine) with pages0. rewrite /pages0.
    rewrite /lru0 !not_elem_of_cons in Hi. rewrite !lookup_insert_ne //; naive_solver.
Qed.

Lemma machine_mm : mm_inv machine role0 [] lru0.
Proof.
  assert (∀ pt va v, leaf_v machine role0 pt va v → tst v PTE_V = true →
    pt = root ∧ ((va = 0 ∧ v = pte0) ∨ (va = 4096 ∧ v = pte1))) as HlV.
  { intros pt va v Hl HV. destruct (machine_leaf pt va v Hl (or_introl HV)) as (-> & [?|[?|[_ ->]]]); [auto..|done]. }
  assert (∀ pt va v, leaf_v machine role0 pt va v → tst v PTE_V = false → tst v PTE_S = true →
    pt = root ∧ va = 8192 ∧ v = pte2) as HlS.
  { intros pt va v Hl HV HS. destruct (machine_leaf pt va v Hl (or_intror HS)) as (-> & [[_ ->]|[[_ ->]|?]]); done. }
  split.
  - exact machine_pt.
  - exact machine_lru.
  - done.
  - split; [constructor|]. intros pa Hpa. by apply elem_of_nil in Hpa.
  - intros i [->|[->|[]%elem_of_nil]%elem_of_cons]%elem_of_cons; by vm_compute.
  - intros i [->|[->|[]%elem_of_nil]%elem_of_cons]%elem_of_cons.
    + exists pte0. by vm_compute.
    + exists pte1. by vm_compute.
  - intros pt va v i Hl HV Hi E. apply HlV in Hl as (-> & [[-> ->]|[-> ->]]); [..|done];
      apply elem_of_cons in Hi as [->|[->|[]%elem_of_nil]%elem_of_cons]; by vm_compute in E.
  - intros pt va v Hl HV. apply HlV in Hl as (-> & [[-> ->]|[-> ->]]); [..|done]; split; [done|apply not_elem_of_nil|done|apply not_elem_of_nil].
  - intros pt va v Hl HV HS. apply HlS in Hl as (-> & -> & ->); [|done..]. by vm_compute.
  - intros pt va v pt' va' v' H1 V1 S1 H2 V2 S2 _.
    apply HlS in H1 as (-> & -> & _); [|done..]. apply HlS in H2 as (-> & -> & _); done.
Qed.
