(* ===== verification/Paging.v ===== *)
(** Demand paging to swap: the theorems about the allocator, the page
    replacement and the page fault that hold in every state of the invariant,
    each at work on the small machine of Machine.v. *)
From S2P Require Import Prelude Riscv Mem Ring Bytes State Sched Bio Walk Swap Kalloc Vm Mm Uvm.
From S2P Require Import Log Fs Printf Console Window File Proc Syscall Sysfile Trap Machine.

Section paging.
Context `{Image}.

(** C1: a page fault on a page that was swapped out brings it back, whatever
    has to be evicted for it: the handler returns, afterwards the faulting page
    is resident, mapped by a valid entry and on the replacement list, and the
    contents and permissions of every page of every address space are what they
    were before the fault. *)
Theorem page_fault_restores s role fl lru p va v :
  mm_inv s role fl lru → swap_ready p s → faults s role p va v → fl ≠ [] ∨ ¬ oom s lru →
  wp (page_fault va) (λ _ s', swap_ready p s' ∧ same_views role s s' ∧
    ∃ v' fl' lru', mm_inv s' role fl' lru' ∧ leaf_v s' role (p_pagetable (proc_at s p)) (PGROUNDDOWN va) v' ∧
      tst v' PTE_V = true ∧ PTE2PA v' / PGSIZE ∈ lru') s.
Proof.
  intros Hmm Hsr [F1 F2 F3 F4 F5 F6] Hmem. rewrite /page_fault /myproc.
  pose proof (sr_cur _ _ Hsr) as Hcur. apply wp_bind, wp_bind, wp_gets. rewrite Hcur. apply wp_ret.
  apply wp_bind, wp_gets, wp_bind, wp_gets. cbv zeta in F3.
  set (sp := PGROUNDDOWN (ld64 (k_mem s) _)) in *.
  rewrite (_ : (_ <=? va) = false) /=; [apply Z.leb_gt; lia|].
  rewrite (_ : (va <? sp) && (u64 (sp - PGSIZE) <=? va) = false).
  { apply andb_false_iff. destruct (Z.ltb_spec va sp); [right|by left]. apply Z.leb_gt. lia. }
  set (pt := p_pagetable (proc_at s p)) in *. apply wp_bind. eapply wp_eq; [apply walk_gen_ro; lia|].
  rewrite walk_pure_page; [lia|]. pose proof F4 as [_ Hpte]. rewrite /pte_of in Hpte.
  destruct (walk_pure (k_mem s) pt (PGROUNDDOWN va) =? 0) eqn:Ew; [done|]. injection Hpte as Hld.
  apply wp_bind, wp_gets. rewrite Hld F5 F6 /=. apply wp_bind.
  wp_use (fault_in_spec s role fl lru p pt va v Hmm Hsr F4 F5 F6). intros ok s' ((R1 & R2 & R3) & R4).
  destruct ok; [|destruct R4 as (-> & Ho & _); by destruct Hmem]. apply wp_ret. by split.
Qed.

(** C3: kalloc() is transparent: it returns, the view of every address space
    is unchanged even if a page was swapped out for it, and the page it returns
    is in no use, comes from the free list or else from the clock's victim, and
    is filled with 5s; it returns 0 only when there is no free page and nothing
    can be evicted. *)
Theorem kalloc_transparent s role fl lru p :
  mm_inv s role fl lru → swap_ready p s →
  wp kalloc (λ pa s', swap_ready p s' ∧ same_views role s s' ∧
    if pa =? 0 then fl = [] ∧ oom s lru ∧ mm_inv s' role fl lru
    else ∃ fl' lru', page_source s fl lru fl' lru' pa ∧ mm_inv s' role fl' lru' ∧
      private s' role fl' lru' pa ∧ rd_bytes (k_mem s') pa 4096 = replicate 4096 5) s.
Proof.
  intros Hmm Hsr. wp_use (kalloc_spec s role fl lru p Hmm Hsr). intros pa s' ([A1 _ _ A4] & R). split_and!; [done..|].
  destruct (pa =? 0); [done|]. destruct R as (fl' & lru' & R1 & R2 & R3 & R4 & _). by exists fl', lru'.
Qed.

(** C4: swap_out() evicts exactly the page the clock picks: the frame leaves the
    replacement list and is private to the caller, its contents have moved to a
    slot of the swap area without changing what any address space contains; or
    it returns 0, because no user page is resident or every slot is taken. *)
Theorem swap_out_evicts s role fl lru p :
  mm_inv s role fl lru → swap_ready p s →
  wp swap_out (λ pa s', swap_ready p s' ∧ same_views role s s' ∧
    if pa =? 0 then oom s lru ∧ mm_inv s' role fl lru
    else pa / PGSIZE = clock_victim s lru ∧ ∃ lru', lru ≡ₚ pa / PGSIZE :: lru' ∧
      mm_inv s' role fl lru' ∧ private s' role fl lru' pa) s.
Proof.
  intros Hmm Hsr. wp_use (swap_out_spec s role fl lru p Hmm Hsr). intros pa s' (A1 & _ & _ & A4 & R). split_and!; [done..|].
  destruct (pa =? 0); [done|]. destruct R as (R1 & lru' & R2 & R3 & R4 & _). split; [done|]. by exists lru'.
Qed.

(** C6: the clock of swap_out() terminates within one turn of the list and one
    step, and picks by second chance: the victim is the first page, in list
    order, whose accessed bit is clear (the head if all are set); the bits of
    the pages it passed are cleared, those of the others are not touched. *)
Theorem clock_second_chance s role fl lru h fuel :
  mm_inv s role fl lru → head lru = Some h → (length lru < fuel)%nat →
  ∃ s', clock fuel h s = Ok (clock_victim s lru, entry_addr s' (clock_victim s lru)) s' ∧
    clock_victim s lru ∈ lru ∧ accessed s' (clock_victim s lru) = false ∧
    ∀ i, i ∈ lru → accessed s' i = accessed s i && negb (bool_decide (i ∈ clock_passed s lru)).
Proof.
  intros Hmm Hh Hf. destruct (clock_spec role fl lru h s fuel Hmm Hh Hf) as (s' & R1 & R2 & _ & R3 & R4). eauto.
Qed.

(** C9: what swapwrite() stores in a slot, swapread() brings back, into any
    page: the round trip of a page through the swap area. *)
Theorem swap_roundtrip s p from to blkno :
  swap_ready p s → 0 ≤ blkno < SWAPMAX / BLKS_PER_PG →
  wp (swapwrite from blkno false;; swapread to blkno false) (λ _ s', swap_ready p s' ∧
    rd_bytes (k_mem s') to 4096 = rd_bytes (k_mem s) from 4096 ∧
    ∀ j, j ≠ blkno → slot_bytes s' j = slot_bytes s j) s.
Proof.
  intros Hs Hb. apply wp_bind. wp_use (swapwrite_spec s p from blkno Hs Hb).
  intros _ s1 (_ & _ & R1 & E1 & O1). wp_use (swapread_spec s1 p to blkno R1 Hb).
  intros _ s2 (_ & _ & D2 & R2 & E2). split; [done|]. split.
  - rewrite E2 E1. rewrite -{2}(length_rd_bytes (k_mem s) from 4096). apply rd_wr_bytes, rd_bytes_bytes.
  - intros j Hj. rewrite -(slot_bytes_other s s1 blkno j O1 Hj). by rewrite /slot_bytes /block_at D2.
Qed.

(** Kfree() gives a private page back and the next kalloc() hands out that
    very page again; nothing of any address space changes. *)
Theorem kfree_kalloc s role fl lru pa p :
  mm_inv s role fl lru → swap_ready p s → private s role fl lru pa →
  wp (kfree pa;; kalloc) (λ r s', r = pa ∧ same_views role s s' ∧ mm_inv s' role fl lru ∧
    private s' role fl lru pa) s.
Proof.
  intros Hmm Hsr Hp. apply wp_bind. wp_use (kfree_spec s role fl lru pa p Hmm Hsr Hp).
  intros _ s1 ([A1 _ _ A4] & Hmm1). wp_use (kalloc_spec s1 role (pa :: fl) lru p Hmm1 A1).
  intros r s2 ([B1 _ _ B4] & R). destruct (r =? 0) eqn:Er; [by destruct R|].
  destruct R as (fl' & lru' & [[[= <- <-] ->]|[? _]] & R1 & R2 & _); [|done].
  split; [done|]. split; [exact (same_views_trans _ _ _ _ A4 B4)|]. by split.
Qed.

(** C23: kinit() makes a free list of every page of memory after the kernel,
    once each, and leaves the invariant of memory management established. *)
Theorem kinit_boots s :
  k_freelist s = 0 → k_pages s = ∅ → k_locks s = [] →
  wp kinit (λ _ s', mm_inv s' ∅ (reverse (range_pages img_end PHYSTOP)) [] ∧
    NoDup (range_pages img_end PHYSTOP) ∧ k_locks s' = []) s.
Proof.
  intros H1 H2 H3. wp_use (kinit_spec s H1 H2 H3). intros _ s' (R1 & R2 & _).
  split; [done|]. split; [apply range_pages_NoDup|done].
Qed.

(** lru_remove() takes a page out of the circular list of resident pages,
    wherever it is in the list and also when it is the head or the only page,
    and does nothing to a page that is not in it. *)
Theorem lru_remove_filters s pa l :
  lru_ok s l → lru_lock ∉ k_locks s →
  wp (lru_remove pa) (λ _ s', lru_ok s' (filter (λ i, i ≠ pa / PGSIZE) l) ∧ k_locks s' = k_locks s ∧
    k_mem s' = k_mem s) s.
Proof.
  intros Hl Hk. destruct (decide (pa / PGSIZE ∈ l)) as [Hin|Hout].
  - apply list_elem_of_split in Hin as (l1 & l2 & ->). wp_use (lru_remove_in s pa l1 l2 Hl Hk).
    intros _ s' (F & R1 & R2). pose proof (ring_NoDup _ _ _ (lo_ring _ _ Hl)) as Hnd.
    apply NoDup_app in Hnd as (_ & Hd & [Hn2 _]%NoDup_cons). split; [|split; [done|apply (lru_only_keeps _ _ F)]].
    rewrite filter_app filter_cons_False; [tauto|]. rewrite !filter_not_in //.
    intros Hx. apply (Hd _ Hx). by left.
  - eapply wp_eq; [exact (lru_remove_out s pa l Hl Hk Hout)|]. by rewrite filter_not_in.
Qed.
End paging.

(** ** On the small machine *)

Lemma machine_faults : faults machine role0 0 8200 pte2.
Proof. split; try by vm_compute. intros sp [Hx _]. by vm_compute in Hx. Qed.
Lemma machine_has_slots : ¬ oom machine lru0.
Proof. intros [Hl|Hf]; [done|]. apply (Hf 1); by vm_compute. Qed.

Lemma page_fault_restores_witness :
  wp (page_fault 8200) (λ _ s', swap_ready 0 s' ∧ same_views role0 machine s' ∧
    ∃ v' fl' lru', mm_inv s' role0 fl' lru' ∧ leaf_v s' role0 root 8192 v' ∧
      tst v' PTE_V = true ∧ PTE2PA v' / PGSIZE ∈ lru') machine.
Proof.
  exact (page_fault_restores machine role0 [] lru0 0 8200 pte2 machine_mm machine_ready machine_faults
    (or_intror machine_has_slots)).
Defined.

Lemma kalloc_transparent_witness :
  wp kalloc (λ pa s', swap_ready 0 s' ∧ same_views role0 machine s' ∧
    if pa =? 0 then ([] : list Z) = [] ∧ oom machine lru0 ∧ mm_inv s' role0 [] lru0
    else ∃ fl' lru', page_source machine [] lru0 fl' lru' pa ∧ mm_inv s' role0 fl' lru' ∧
      private s' role0 fl' lru' pa ∧ rd_bytes (k_mem s') pa 4096 = replicate 4096 5) machine.
Proof. exact (kalloc_transparent machine role0 [] lru0 0 machine_mm machine_ready). Defined.

Lemma swap_out_evicts_witness :
  wp swap_out (λ pa s', swap_ready 0 s' ∧ same_views role0 machine s' ∧
    if pa =? 0 then oom machine lru0 ∧ mm_inv s' role0 [] lru0
    else pa / PGSIZE = clock_victim machine lru0 ∧ ∃ lru', lru0 ≡ₚ pa / PGSIZE :: lru' ∧
      mm_inv s' role0 [] lru' ∧ private s' role0 [] lru' pa) machine.
Proof. exact (swap_out_evicts machine role0 [] lru0 0 machine_mm machine_ready). Defined.

Lemma clock_second_chance_witness :
  clock_victim machine lru0 = ib ∧
  ∃ s', clock 3 ia machine = Ok (clock_victim machine lru0, entry_addr s' (clock_victim machine lru0)) s' ∧
    clock_victim machine lru0 ∈ lru0 ∧ accessed s' (clock_victim machine lru0) = false ∧
    ∀ i, i ∈ lru0 → accessed s' i = accessed machine i && negb (bool_decide (i ∈ clock_passed machine lru0)).
Proof.
  split; [by vm_compute|].
  exact (clock_second_chance machine role0 [] lru0 ia 3 machine_mm eq_refl ltac:(cbn; lia)).
Defined.

Lemma swap_roundtrip_witness :
  wp (swapwrite frame_a 1 false;; swapread frame_b 1 false) (λ _ s', swap_ready 0 s' ∧
    rd_bytes (k_mem s') frame_b 4096 = rd_bytes (k_mem machine) frame_a 4096 ∧
    ∀ j, j ≠ 1 → slot_bytes s' j = slot_bytes machine j) machine.
Proof. apply (swap_roundtrip machine 0 frame_a frame_b 1 machine_ready). by vm_compute. Defined.

(** The trapframe page is in use, but not mapped for the user. *)
Lemma machine_private : private machine role0 [] lru0 tframe.
Proof.
  split; [by vm_compute|by vm_compute|apply not_elem_of_nil| |].
  - by apply (bool_decide_unpack (tframe / PGSIZE ∉ lru0)); vm_compute.
  - intros pt va v Hl HV. destruct (machine_leaf pt va v Hl (or_introl HV)) as (_ & [[_ ->]|[[_ ->]|[_ ->]]]); by vm_compute.
Qed.
Lemma kfree_kalloc_witness :
  wp (kfree tframe;; kalloc) (λ r s', r = tframe ∧ same_views role0 machine s' ∧ mm_inv s' role0 [] lru0 ∧
    private s' role0 [] lru0 tframe) machine.
Proof. exact (kfree_kalloc machine role0 [] lru0 tframe 0 machine_mm machine_ready machine_private). Defined.

Lemma kinit_boots_witness :
  wp kinit (λ _ s', mm_inv s' ∅ (reverse (range_pages img_end PHYSTOP)) [] ∧
    NoDup (range_pages img_end PHYSTOP) ∧ k_locks s' = []) kstate0.
Proof. exact (kinit_boots kstate0 eq_refl eq_refl eq_refl). Defined.

Lemma lru_remove_filters_witness :
  wp (lru_remove frame_a) (λ _ s', lru_ok s' [ib] ∧ k_locks s' = [] ∧ k_mem s' = k_mem machine) machine.
Proof. exact (lru_remove_filters machine frame_a lru0 machine_lru (not_elem_of_nil _)). Defined.
