(* ===== verification/Unmap.v ===== *)
(** Unmapping user pages: uvmunmap() and uvmdealloc() of kernel/vm.c with the
    pages in memory, in the swap area, or absent.  The frames and the slots of
    the pages are free again, and no other page changes. *)
From S2P Require Import Prelude Riscv Mem Ring State Sched Bio Walk Swap Kalloc Vm Mm Uvm Machine.

(** ** Stores to different places commute *)

Lemma st_le_st8 n m a v b w : ¬ a ≤ b < a + Z.of_nat n → st_le n (st8 m b w) a v = st8 (st_le n m a v) b w.
Proof.
  revert m a v. induction n as [|n IH]; intros m a v Hb; cbn [st_le]; [done|].
  rewrite -IH; [lia|]. f_equal. rewrite /st8. apply insert_insert_ne. lia.
Qed.
Lemma st_le_comm n k m a v b w :
  a + Z.of_nat n ≤ b ∨ b + Z.of_nat k ≤ a → st_le n (st_le k m b w) a v = st_le k (st_le n m a v) b w.
Proof.
  revert m b w. induction k as [|k IH]; intros m b w Hd; cbn [st_le]; [done|].
  rewrite IH; [lia|]. rewrite st_le_st8 //. lia.
Qed.
Lemma st_le_memset n k m a v d c i :
  a + Z.of_nat n ≤ d + i ∨ d + i + Z.of_nat k ≤ a →
  st_le n (memset_loop k m d c i) a v = memset_loop k (st_le n m a v) d c i.
Proof.
  revert m i. induction k as [|k IH]; intros m i Hd; cbn [memset_loop]; [done|].
  rewrite IH; [lia|]. rewrite st_le_st8 //. lia.
Qed.

Section unmap.
Context `{Image}.

(** ** An entry that is cleared *)

(** [s'] is [s] with the entry [v] of [(pt, va)] set to 0, its frame (if it has
    one) taken off the LRU list and its slot (if it has one) marked free. *)
Record dropped (s s' : kstate) (lru lru' : list Z) (pt va v : Z) : Prop := {
  dr_mem : k_mem s' = st64 (k_mem s) (walk_pure (k_mem s) pt va) 0;
  dr_lru : lru_ok s' lru';
  dr_page j : pg_pagetable (page_at s' j) = pg_pagetable (page_at s j) ∧
              pg_vaddr (page_at s' j) = pg_vaddr (page_at s j);
  dr_fl : k_freelist s' = k_freelist s;
  dr_bitmap j : bitmap_at s' j = bitmap_at s j ∨ (tst v PTE_V = false ∧ tst v PTE_S = true ∧ j = Z.shiftr v 10);
  dr_disk : k_disk s' = k_disk s;
  dr_list : if tst v PTE_V then PTE2PA v / PGSIZE ∈ lru ∧ lru ≡ₚ PTE2PA v / PGSIZE :: lru' else lru' = lru
}.

Section drop.
Context (s s' : kstate) (role : gmap Z ptrole) (fl lru lru' : list Z) (pt va v : Z).
Context (Hmm : mm_inv s role fl lru) (Hl : leaf_v s role pt va v).
Context (Hd : dropped s s' lru lru' pt va v).

Lemma drop_pte pt2 va2 : upage role pt2 va2 →
  pte_of (k_mem s') pt2 va2 = if decide (pt2 = pt ∧ va2 = va) then Some 0 else pte_of (k_mem s) pt2 va2.
Proof using All.
  intros Hu. rewrite (dr_mem _ _ _ _ _ _ _ Hd).
  apply (leaf_store_pte _ role); [apply Hmm|apply Hl| |done|done].
  exact (proj1 (leaf_v_walk _ _ _ _ _ Hl)).
Qed.
Lemma drop_leaf pt2 va2 w :
  leaf_v s' role pt2 va2 w → tst w PTE_V = true ∨ tst w PTE_S = true →
  ¬ (pt2 = pt ∧ va2 = va) ∧ leaf_v s role pt2 va2 w.
Proof using All.
  intros [Hu Hw] Hb. rewrite drop_pte // in Hw. case_decide as E; [|done]. injection Hw as <-. by destruct Hb.
Qed.
Lemma drop_fwd pt2 va2 w :
  leaf_v s role pt2 va2 w → ¬ (pt2 = pt ∧ va2 = va) → leaf_v s' role pt2 va2 w.
Proof using All. intros [Hu Hw] Hne. split; [done|]. by rewrite drop_pte // decide_False. Qed.
Lemma drop_data : agree_data role (k_mem s) (k_mem s') ∧ pt_ok (k_mem s') role.
Proof using All.
  rewrite (dr_mem _ _ _ _ _ _ _ Hd). pose proof (mi_pt _ _ _ _ Hmm).
  destruct (leaf_v_walk _ _ _ _ _ Hl) as [Hw _]. destruct Hl as [Hu _].
  split; [by apply leaf_store|by apply leaf_store_pt].
Qed.
Lemma drop_walk pt2 va2 : is_root role pt2 → walk_pure (k_mem s') pt2 va2 = walk_pure (k_mem s) pt2 va2.
Proof using All.
  intros Hr. rewrite (dr_mem _ _ _ _ _ _ _ Hd). pose proof (mi_pt _ _ _ _ Hmm).
  destruct (leaf_v_walk _ _ _ _ _ Hl) as [Hw _]. destruct Hl as [Hu _].
  apply (walk_agree role (k_mem s)); [done|done|]. by apply leaf_store.
Qed.

(** The LRU list loses at most the frame of the page. *)
Lemma drop_sub j : j ∈ lru' → j ∈ lru ∧ (tst v PTE_V = true → j ≠ PTE2PA v / PGSIZE).
Proof using All.
  intros Hj. pose proof (dr_list _ _ _ _ _ _ _ Hd) as Hx. destruct (tst v PTE_V); [|subst; by split].
  destruct Hx as [Hin Hp]. split; [rewrite Hp; by right|]. intros _ ->.
  pose proof (ring_NoDup _ _ _ (lo_ring _ _ (mi_lru _ _ _ _ Hmm))) as Hnd.
  rewrite Hp in Hnd. by apply NoDup_cons in Hnd as [? _].
Qed.
Lemma pa_of_leaf : PTE2PA v / PGSIZE * PGSIZE = PTE2PA v.
Proof using All. pose proof (PTE2PA_aligned v). unfold PGSIZE in *. dlia. Qed.

Lemma drop_mm : mm_inv s' role fl lru'.
Proof using All.
  destruct (Hmm) as [I1 I2 I3 [I4 I4'] I5 I6 I7 I8 I9 I10].
  pose proof drop_data as [Hdat Hpt]. destruct (Hd) as [D1 D2 D3 D4 D5 D6 D7].
  split; [done|done| | | | | | | |].
  - rewrite D4. apply (chain_ext (k_mem s)); [|done]. intros pa Hpa.
    destruct (I4' pa Hpa) as ([Hm _] & Hr & _). by apply (agree_data_ld64 role).
  - split; [done|]. intros pa Hpa. destruct (I4' pa Hpa) as (R1 & R2 & R3).
    split; [done|]. split; [done|]. intros Hin. by apply R3, drop_sub.
  - intros j Hj. by apply I5, drop_sub.
  - intros j Hj. destruct (drop_sub j Hj) as [Hj1 Hj2].
    destruct (I6 j Hj1) as (w & Hw & HwV & HwP). destruct (D3 j) as [-> ->].
    exists w. split; [|done]. apply drop_fwd; [done|]. intros [E1 E2].
    rewrite E1 E2 in Hw. assert (w = v) as -> by (destruct Hw as [_ Hw], Hl as [_ Hl']; congruence).
    apply (Hj2 HwV). rewrite HwP Z.div_mul //.
  - intros pt2 va2 w j Hw HwV Hj HwP. destruct (D3 j) as [-> ->].
    apply (I7 pt2 va2 w j); [|done|by apply drop_sub|done]. apply drop_leaf; [done|by left].
  - intros pt2 va2 w Hw HwV. apply (I8 pt2 va2 w); [apply drop_leaf; [done|by left]|done].
  - intros pt2 va2 w Hw HwV HwS. destruct (drop_leaf _ _ _ Hw (or_intror HwS)) as [Hne Hw'].
    destruct (I9 _ _ _ Hw' HwV HwS) as [B1 B2]. split; [done|]. destruct (D5 (Z.shiftr w 10)) as [->|(V0 & S0 & E)]; [done|].
    exfalso. apply Hne. by apply (I10 pt2 va2 w pt va v).
  - intros p1 a1 w1 p2 a2 w2 H1 HV1 HS1 H2 HV2 HS2 HE.
    apply (I10 p1 a1 w1 p2 a2 w2); [by apply drop_leaf; [|right]|done|done|by apply drop_leaf; [|right]|done|done|done].
Qed.

Lemma drop_views pt2 va2 :
  upage role pt2 va2 → view s' pt2 va2 = if decide (pt2 = pt ∧ va2 = va) then None else view s pt2 va2.
Proof using All.
  intros Hu. rewrite /view drop_pte //. case_decide as E; [done|].
  destruct (pte_of (k_mem s) pt2 va2) as [w|] eqn:Ew; [|done]. destruct (tst w PTE_V) eqn:EV.
  - do 2 f_equal. apply (agree_data_page role); [apply drop_data|apply PTE2PA_aligned|].
    by apply (mi_leaf _ _ _ _ Hmm pt2 va2 w).
  - destruct (tst w PTE_S); [|done]. do 3 f_equal. by rewrite /slot_bytes /block_at (dr_disk _ _ _ _ _ _ _ Hd).
Qed.

Lemma drop_private : tst v PTE_V = true → private s' role fl lru' (PTE2PA v).
Proof using All.
  intros HV. pose proof (dr_list _ _ _ _ _ _ _ Hd) as Hx. rewrite HV in Hx. destruct Hx as [Hin _].
  destruct (mi_lru_page _ _ _ _ Hmm _ Hin) as [Hram Hrole]. rewrite pa_of_leaf in Hram, Hrole.
  split; [done|done| | |].
  - by apply (mi_leaf _ _ _ _ Hmm pt va v).
  - intros Hj. by destruct (drop_sub _ Hj) as [_ Hne]; apply Hne.
  - intros pt2 va2 w Hw HwV E. destruct (drop_leaf _ _ _ Hw (or_introl HwV)) as [Hne Hw']. apply Hne.
    destruct (mi_lru_uniq _ _ _ _ Hmm pt2 va2 w _ Hw' HwV Hin) as [-> ->]; [by rewrite E pa_of_leaf|].
    destruct (mi_lru_uniq _ _ _ _ Hmm pt va v _ Hl HV Hin) as [-> ->]; [by rewrite pa_of_leaf|done].
Qed.
End drop.

(** ** uvmunmap() *)

(** The pages of [A] are gone from the address space [pt]; what they used is
    free, and nothing else changed. *)
Record unmapped (p : nat) (role : gmap Z ptrole) (pt : Z) (A : list Z) (s : kstate) (fl lru : list Z) (s' : kstate) (fl' lru' : list Z) : Prop := {
  um_ready : swap_ready p s';
  um_mm : mm_inv s' role fl' lru';
  um_views pt2 va2 : upage role pt2 va2 →
    view s' pt2 va2 = if decide (pt2 = pt ∧ va2 ∈ A) then None else view s pt2 va2;
  um_leaf pt2 va2 w : leaf_v s role pt2 va2 w → ¬ (pt2 = pt ∧ va2 ∈ A) → leaf_v s' role pt2 va2 w;
  um_lru j : j ∈ lru → (∀ a v, a ∈ A → leaf_v s role pt a v → tst v PTE_V = true → j ≠ PTE2PA v / PGSIZE) → j ∈ lru';
  um_fl : fl ⊆ fl';
  um_frame a v : a ∈ A → leaf_v s role pt a v → tst v PTE_V = true → PTE2PA v ∈ fl';
  um_slot a v : a ∈ A → leaf_v s role pt a v → tst v PTE_V = false → tst v PTE_S = true → bitmap_at s' (Z.shiftr v 10) = 0;
  um_bitmap j : bitmap_at s' j = 0 ∨ bitmap_at s' j = bitmap_at s j
}.

(** A page that uvmunmap() takes: its frame is on the LRU list. *)
Definition evictable (role : gmap Z ptrole) (pt : Z) (lru : list Z) (s : kstate) (a : Z) : Prop :=
  ∃ v, leaf_v s role pt a v ∧ 
    (tst v PTE_V = true → PTE_FLAGS v ≠ PTE_V ∧ PTE2PA v / PGSIZE ∈ lru).

(** The word of an entry is not in a page that is not a page-table page. *)
Lemma entry_disjoint m role pt va pa : pt_ok m role → upage role pt va → walk_pure m pt va ≠ 0 →
  pa mod PGSIZE = 0 → role !! pa = None →
  walk_pure m pt va + 8 ≤ pa ∨ pa + PGSIZE ≤ walk_pure m pt va.
Proof.
  intros Hpt (Hr & _) Hw Hpa Hno. destruct (walk_leaf m role pt va Hpt Hr Hw) as (P & HP & ->).
  pose proof (pt_page _ _ Hpt _ _ HP) as [HPm _]. pose proof (PX_range 0 va ltac:(lia)).
  assert (P ≠ pa) as Hne by congruence. unfold PGSIZE in *. dlia.
Qed.

Lemma unmap_absent p role pt a s fl lru v :
  mm_inv s role fl lru → swap_ready p s → leaf_v s role pt a v → tst v PTE_V = false → tst v PTE_S = false →
  unmapped p role pt [a] s fl lru s fl lru.
Proof.
  intros Hmm Hsr Hl HV HS. assert (∀ b w, b ∈ [a] → leaf_v s role pt b w → w = v) as Hone.
  { intros b w ->%list_elem_of_singleton [_ Hw]. destruct Hl as [_ Hl]. congruence. }
  split; [done|done| |done|done|done| | |auto].
  - intros pt2 va2 Hu. case_decide as E; [|done]. destruct E as [-> ->%list_elem_of_singleton].
    by rewrite /view (proj2 Hl) HV HS.
  - intros b w Hb Hw. rewrite (Hone b w Hb Hw). congruence.
  - intros b w Hb Hw. rewrite (Hone b w Hb Hw). congruence.
Qed.

Lemma dropped_unmapped p role pt a s s' fl lru lru' v :
  mm_inv s role fl lru → swap_ready p s' → leaf_v s role pt a v → dropped s s' lru lru' pt a v →
  tst v PTE_V = false → (tst v PTE_S = true → bitmap_at s' (Z.shiftr v 10) = 0) →
  (∀ j, bitmap_at s' j = 0 ∨ bitmap_at s' j = bitmap_at s j) → unmapped p role pt [a] s fl lru s' fl lru'.
Proof.
  intros Hmm Hsr Hl Hd HV HS Hb. pose proof (dr_list _ _ _ _ _ _ _ Hd) as Hx. rewrite HV in Hx. subst lru'.
  assert (∀ b w, b ∈ [a] → leaf_v s role pt b w → b = a ∧ w = v) as Hone.
  { intros b w ->%list_elem_of_singleton [_ Hw]. destruct Hl as [_ Hl]. split; [done|congruence]. }
  split; [done|exact (drop_mm s s' role fl lru lru pt a v Hmm Hl Hd)| | |done|done| | |done].
  - intros pt2 va2 Hu. rewrite (drop_views s s' role fl lru lru pt a v Hmm Hl Hd) //.
    by rewrite (decide_ext (pt2 = pt ∧ va2 = a) (pt2 = pt ∧ va2 ∈ [a])) // list_elem_of_singleton.
  - intros pt2 va2 w Hw Hne. apply (drop_fwd s s' role fl lru lru pt a v Hmm Hl Hd); [done|].
    by rewrite list_elem_of_singleton in Hne.
  - intros b w Hin Hw. destruct (Hone b w Hin Hw) as [_ ->]. congruence.
  - intros b w Hin Hw _. destruct (Hone b w Hin Hw) as [_ ->]. exact HS.
Qed.

(** Giving the frame of a page in memory back. *)
Lemma unmap_frame p role pt a s fl lru v :
  mm_inv s role fl lru → swap_ready p s → leaf_v s role pt a v → tst v PTE_V = true → PTE2PA v / PGSIZE ∈ lru →
  wp (lru_remove (PTE2PA v);; kfree (PTE2PA v);; store64 (walk_pure (k_mem s) pt a) 0)
    (λ _ s', ∃ fl' lru', unmapped p role pt [a] s fl lru s' fl' lru') s.
Proof.
  intros Hmm Hsr Hl HV Hin. set (pa := PTE2PA v) in *. set (i := pa / PGSIZE) in *.
  destruct (leaf_v_walk _ _ _ _ _ Hl) as (Hw & _). set (w := walk_pure (k_mem s) pt a) in *.
  assert (i * PGSIZE = pa) as Ei by (pose proof (PTE2PA_aligned v); unfold i, pa, PGSIZE in *; dlia).
  destruct (mi_lru_page _ _ _ _ Hmm i Hin) as [Hram Hrole]. rewrite Ei in Hram, Hrole.
  destruct (list_elem_of_split _ _ Hin) as (l1 & l2 & El). pose proof (mi_lru _ _ _ _ Hmm) as Hlru. rewrite El in Hlru.
  apply wp_bind. wp_use (lru_remove_in s pa l1 l2 Hlru); [rewrite (sr_locks _ _ Hsr); apply not_elem_of_nil|].
  intros [] s1 (Ho & Hk1 & Hlru1). destruct (lru_only_keeps _ _ Ho) as (E1 & E2 & E3 & E4 & E5 & E6 & E7).
  assert (k_locks s1 = []) as Hlk1 by (rewrite Hk1; apply Hsr).
  apply wp_bind. eapply wp_eq; [by apply kfree_run|]. apply wp_modify.
  set (s1' := set_mem (st64 (k_mem s1) w 0) s1).
  assert (lru ≡ₚ i :: l1 ++ l2) as Hperm by (rewrite El; symmetry; apply Permutation_middle).
  assert (dropped s s1' lru (l1 ++ l2) pt a v) as Hd.
  { split; [by rewrite /s1' /= E1| |intros j; exact (proj2 Ho j)|done|intros j; left; by rewrite /bitmap_at /s1' /= E3|done|by rewrite HV].
    by apply (lru_ok_ext s1). }
  pose proof (drop_mm _ _ _ _ _ _ _ _ _ Hmm Hl Hd) as Hmm1.
  pose proof (drop_private _ _ _ _ _ _ _ _ _ Hmm Hl Hd HV) as Hp1. fold pa in Hp1.
  assert (swap_ready p s1') as Hsr1 by (by apply (swap_ready_ext p s)).
  destruct (kfree_eq s1' role fl (l1 ++ l2) pa Hmm1 Hp1) as (_ & Hmm2 & _ & Hv2); [done|].
  set (s2 := set_freelist pa _) in Hmm2, Hv2. set (s2' := set_mem _ _).
  assert (s2' = s2) as ->.
  { rewrite /s2' /s2 /s1'. cbn [k_mem set_mem set_freelist k_freelist].
    assert (w + 8 ≤ pa ∨ pa + PGSIZE ≤ w) as Hdis.
    { apply (entry_disjoint _ role); [apply Hmm|apply Hl|done|apply Hram|done]. }
    assert (st64 (st64 (memset (k_mem s1) pa 1 PGSIZE) pa (k_freelist s1)) w 0 =
            st64 (memset (st64 (k_mem s1) w 0) pa 1 PGSIZE) pa (k_freelist s1)) as ->; [|by destruct s1].
    rewrite /st64 st_le_comm; [unfold PGSIZE in Hdis; lia|]. f_equal. rewrite /memset. apply st_le_memset.
    unfold PGSIZE in Hdis |- *. lia. }
  assert (∀ pt2 va2 u, leaf_v s1' role pt2 va2 u → leaf_v s2 role pt2 va2 u) as Hfw.
  { intros pt2 va2 u Hu. pose proof (memset_other (k_mem s1') pa 1) as Hm.
    assert (∀ x, ¬ (pa ≤ x < pa + PGSIZE) → ld8 (k_mem s2) x = ld8 (k_mem s1') x) as Hm2.
    { intros x Hx. rewrite -Hm //. apply ld8_st64_ne. unfold PGSIZE in Hx. lia. }
    exact (proj2 (private_leaf s1' role fl (l1 ++ l2) pa (k_mem s2) Hmm1 Hp1 Hm2 pt2 va2 u) Hu). }
  assert (∀ b u, b ∈ [a] → leaf_v s role pt b u → u = v) as Hone.
  { intros b u ->%list_elem_of_singleton [_ Hu]. destruct Hl as [_ Hl']. congruence. }
  exists (pa :: fl), (l1 ++ l2). split.
  - by apply (swap_ready_ext p s1').
  - exact Hmm2.
  - intros pt2 va2 Hu. rewrite Hv2 // (drop_views _ _ _ _ _ _ _ _ _ Hmm Hl Hd) //.
    by rewrite (decide_ext (pt2 = pt ∧ va2 = a) (pt2 = pt ∧ va2 ∈ [a])) // list_elem_of_singleton.
  - intros pt2 va2 u Hu Hne. apply Hfw, (drop_fwd _ _ _ _ _ _ _ _ _ Hmm Hl Hd); [done|]. by rewrite list_elem_of_singleton in Hne.
  - intros j Hj Hne. rewrite Hperm in Hj. apply elem_of_cons in Hj as [->|]; [|done]. by destruct (Hne a v ltac:(left) Hl HV).
  - by right.
  - intros b u Hb Hu _. rewrite (Hone b u Hb Hu). left.
  - intros b u Hb Hu HuV. rewrite (Hone b u Hb Hu) in HuV. congruence.
  - intros j. right. rewrite /bitmap_at /s2 /s1' /= E3 //.
Qed.

Lemma uvmunmap1_spec p role pt a s fl lru :
  mm_inv s role fl lru → swap_ready p s → evictable role pt lru s a →
  wp (uvmunmap1 pt true a) (λ _ s', ∃ fl' lru', unmapped p role pt [a] s fl lru s' fl' lru') s.
Proof.
  intros Hmm Hsr (v & Hl & Hev). destruct (leaf_v_walk _ _ _ _ _ Hl) as (Hw & Hld & Hva).
  set (w := walk_pure (k_mem s) pt a) in *. rewrite /uvmunmap1. apply wp_bind.
  eapply wp_eq; [by apply walk_gen_ro|]. fold w. rewrite (proj2 (Z.eqb_neq _ _) Hw).
  apply wp_bind, wp_gets. rewrite Hld. destruct (tst v PTE_V) eqn:HV; cbn [negb].
  - destruct (Hev eq_refl) as [Hf Hin]. rewrite (proj2 (Z.eqb_neq _ _) Hf). cbn [when].
    pose proof (unmap_frame p role pt a s fl lru v Hmm Hsr Hl HV Hin) as Hwp. fold w in Hwp.
    destruct Hwp as ([] & s' & E & HQ). exists tt, s'. split; [|done]. rewrite -E /bind.
    by destruct (lru_remove (PTE2PA v) s) as [[] ?| | |].
  - destruct (tst v PTE_S) eqn:HS; last first.
    { apply wp_ret. exists fl, lru. by apply (unmap_absent p role pt a s fl lru v). }
    cbn [when]. destruct (mi_slot _ _ _ _ Hmm pt a v Hl HV HS) as [Hidx _].
    rewrite u32_id; [change (SWAPMAX / 4) with 7000 in Hidx; lia|]. set (idx := Z.shiftr v 10) in *.
    apply wp_bind. eapply wp_eq; [apply free_slot_eq; rewrite (sr_locks _ _ Hsr); apply not_elem_of_nil|].
    apply wp_modify. set (s' := set_mem _ _).
    assert (∀ j, bitmap_at s' j = if decide (j = idx) then 0 else bitmap_at s j) as Hb.
    { intros j. rewrite /bitmap_at /s'. cbn [k_bitmap set_mem set_bitmap]. case_decide; subst; [by rewrite lookup_insert_eq|].
      by rewrite lookup_insert_ne; [congruence|]. }
    exists fl, lru. apply (dropped_unmapped p role pt a s s' fl lru lru v); [done| |done| |done| |].
    + by apply (swap_ready_ext p s).
    + split; [done| |done|done| |done|by rewrite HV].
      * apply (lru_ok_ext s); [done|done|apply Hmm].
      * intros j. rewrite Hb. case_decide; [right|left]; by subst.
    + intros _. by rewrite Hb decide_True.
    + intros j. rewrite Hb. case_decide; auto.
Qed.

Lemma unmapped_nil p role pt s fl lru : mm_inv s role fl lru → swap_ready p s → unmapped p role pt [] s fl lru s fl lru.
Proof.
  intros Hmm Hsr. split; auto.
  - intros pt2 va2 _. rewrite decide_False //. by intros [_ ?%elem_of_nil].
  - by intros a v ?%elem_of_nil.
  - by intros a v ?%elem_of_nil.
Qed.

(** Two pages have two frames. *)
Lemma frames_differ role pt s fl lru a b v w :
  mm_inv s role fl lru → leaf_v s role pt a v → leaf_v s role pt b w → tst v PTE_V = true → tst w PTE_V = true →
  PTE2PA w / PGSIZE ∈ lru → PTE2PA w / PGSIZE = PTE2PA v / PGSIZE → a = b.
Proof.
  intros Hmm Ha Hb HV HW Hin E. assert (∀ u, PTE2PA u / PGSIZE * PGSIZE = PTE2PA u) as Hal.
  { intros u. pose proof (PTE2PA_aligned u). unfold PGSIZE in *. dlia. }
  destruct (mi_lru_uniq _ _ _ _ Hmm pt b w _ Hb HW Hin) as [_ ->]; [by rewrite Hal|].
  destruct (mi_lru_uniq _ _ _ _ Hmm pt a v _ Ha HV Hin) as [_ ->]; [by rewrite E Hal|done].
Qed.

Lemma unmapped_cons p role pt a A s fl lru s1 fl1 lru1 s2 fl2 lru2 :
  a ∉ A → (∀ b, b ∈ A → ∃ v, leaf_v s role pt b v) →
  unmapped p role pt [a] s fl lru s1 fl1 lru1 → unmapped p role pt A s1 fl1 lru1 s2 fl2 lru2 →
  unmapped p role pt (a :: A) s fl lru s2 fl2 lru2.
Proof.
  intros Ha Hall [A1 A2 A3 A4 A5 A6 A7 A8 A9] [B1 B2 B3 B4 B5 B6 B7 B8 B9].
  assert (∀ b v, b ∈ A → leaf_v s role pt b v → leaf_v s1 role pt b v) as Hfw.
  { intros b v Hb Hl. apply A4; [done|]. intros [_ ->%list_elem_of_singleton]. done. }
  split; [done|done|..].
  - intros pt2 va2 Hu. rewrite B3 // A3 //.
    destruct (decide (pt2 = pt ∧ va2 ∈ A)) as [[E1 E2]|E]; [rewrite decide_True //; split; [done|by right]|].
    rewrite (decide_ext (pt2 = pt ∧ va2 ∈ [a]) (pt2 = pt ∧ va2 ∈ a :: A)) //. rewrite list_elem_of_singleton elem_of_cons. naive_solver.
  - intros pt2 va2 w Hw Hne. apply B4; [apply A4; [done|]|]; intros [E1 E2]; apply Hne; (split; [done|]).
    + apply list_elem_of_singleton in E2. rewrite E2. left.
    + by right.
  - intros j Hj Hne. apply B5; [apply A5; [done|]|].
    + intros b v ->%list_elem_of_singleton. apply Hne. left.
    + intros b w Hb Hw HW. destruct (Hall b Hb) as [v Hv]. pose proof (Hfw b v Hb Hv) as Hv1.
      assert (w = v) as -> by (destruct Hw as [_ Hw], Hv1 as [_ Hv1]; congruence). apply (Hne b v); [by right|done|done].
  - set_solver.
  - intros b v [->|Hb]%elem_of_cons Hl HV; [apply B6, (A7 a v); [left|done|done]|]. apply (B7 b v); auto.
  - intros b v [->|Hb]%elem_of_cons Hl HV HS; [|by apply (B8 b v); auto].
    pose proof (A8 a v ltac:(left) Hl HV HS). destruct (B9 (Z.shiftr v 10)); congruence.
  - intros j. destruct (B9 j) as [E|E]; [by left|rewrite E; apply A9].
Qed.

Lemma uvmunmap_list p role pt A : ∀ s fl lru,
  NoDup A → mm_inv s role fl lru → swap_ready p s → (∀ a, a ∈ A → evictable role pt lru s a) →
  wp (forM A (uvmunmap1 pt true)) (λ _ s', ∃ fl' lru', unmapped p role pt A s fl lru s' fl' lru') s.
Proof.
  induction A as [|a A IH]; intros s fl lru Hnd Hmm Hsr Hev; cbn [forM].
  { apply wp_ret. exists fl, lru. by apply unmapped_nil. }
  apply NoDup_cons in Hnd as [Ha Hnd]. apply wp_bind.
  wp_use (uvmunmap1_spec p role pt a s fl lru Hmm Hsr); [apply Hev; left|].
  intros [] s1 (fl1 & lru1 & U1). pose proof U1 as [A1 A2 A3 A4 A5 A6 A7 A8 A9].
  wp_use (IH s1 fl1 lru1 Hnd A2 A1).
  - intros b Hb. destruct (Hev b ltac:(by right)) as (v & Hl & Hv). exists v. split.
    { apply A4; [done|]. intros [_ ->%list_elem_of_singleton]. done. }
    intros HV. destruct (Hv HV) as [Hf Hin]. split; [done|]. apply A5; [done|].
    intros c w ->%list_elem_of_singleton Hw HW E. apply Ha. by rewrite (frames_differ role pt s fl lru a b w v).
  - intros [] s2 (fl2 & lru2 & U2). exists fl2, lru2. apply (unmapped_cons p role pt a A s fl lru s1 fl1 lru1); [done| |done|done].
    intros b Hb. destruct (Hev b ltac:(by right)) as (v & Hl & _). by exists v.
Qed.

(** The addresses of [n] pages from [va]. *)
Definition pages_from (va n : Z) : list Z := (λ i, va + i * PGSIZE) <$> seqZ 0 n.
Lemma page_range_from va n : 0 ≤ n → page_range va (va + n * PGSIZE) = pages_from va n.
Proof.
  intros Hn. rewrite /page_range /pages_from. do 2 f_equal. symmetry. unfold PGSIZE.
  apply (Z.div_unique_pos _ _ _ 4095); lia.
Qed.
Lemma pages_from_NoDup va n : NoDup (pages_from va n).
Proof. apply NoDup_fmap_2, NoDup_seqZ. intros i j. unfold PGSIZE. lia. Qed.

Lemma uvmunmap_spec s role fl lru p pt va n :
  mm_inv s role fl lru → swap_ready p s → va mod PGSIZE = 0 → 0 ≤ va → 0 ≤ n → va + n * PGSIZE ≤ MAXVA →
  (∀ i, 0 ≤ i < n → evictable role pt lru s (va + i * PGSIZE)) →
  wp (uvmunmap pt va n true) (λ _ s', ∃ fl' lru', unmapped p role pt (pages_from va n) s fl lru s' fl' lru') s.
Proof.
  intros Hmm Hsr Hal Hva Hn Hmax Hev. rewrite /uvmunmap (proj2 (Z.eqb_eq _ _) Hal). cbn [negb].
  rewrite u64_id; [change MAXVA with 274877906944 in Hmax; unfold PGSIZE in *; lia|]. rewrite page_range_from //.
  apply uvmunmap_list; [apply pages_from_NoDup|done|done|].
  intros a (i & -> & Hi%elem_of_seqZ)%list_elem_of_fmap. apply Hev. lia.
Qed.

Lemma uvmdealloc_spec s role fl lru p pt oldsz newsz (va := PGROUNDUP newsz) (n := (PGROUNDUP oldsz - va) / PGSIZE) :
  mm_inv s role fl lru → swap_ready p s → 0 ≤ newsz < oldsz → oldsz ≤ MAXVA →
  (∀ i, 0 ≤ i < n → evictable role pt lru s (va + i * PGSIZE)) →
  wp (uvmdealloc pt oldsz newsz) (λ r s', r = newsz ∧ ∃ fl' lru', unmapped p role pt (pages_from va n) s fl lru s' fl' lru') s.
Proof.
  intros Hmm Hsr Hsz Hmax Hev. change MAXVA with 274877906944 in Hmax.
  assert (va mod PGSIZE = 0 ∧ newsz ≤ va < newsz + PGSIZE) as [Hal Hva].
  { unfold va. rewrite PGROUNDUP_eq; [unfold PGSIZE; lia|]. unfold PGSIZE. dlia. }
  assert (PGROUNDUP oldsz mod PGSIZE = 0 ∧ oldsz ≤ PGROUNDUP oldsz < oldsz + PGSIZE) as [Hal2 Hold].
  { rewrite PGROUNDUP_eq; [unfold PGSIZE; lia|]. unfold PGSIZE. dlia. }
  assert (va ≤ PGROUNDUP oldsz ≤ 274877906944) as Hle by (unfold PGSIZE in *; dlia).
  assert (PGROUNDUP oldsz = va + n * PGSIZE ∧ 0 ≤ n) as [En Hn] by (unfold n, PGSIZE in *; dlia).
  rewrite /uvmdealloc (proj2 (Z.leb_gt oldsz newsz)); [lia|]. fold va. apply wp_bind, wp_when; intros Hlt.
  - apply Z.ltb_lt in Hlt. fold n. rewrite s32_id; [unfold PGSIZE in *; lia|].
    wp_use (uvmunmap_spec s role fl lru p pt va n Hmm Hsr Hal); [lia|lia|change MAXVA with 274877906944; lia|done|].
    intros [] s' U. by apply wp_ret.
  - apply Z.ltb_ge in Hlt. apply wp_ret. split; [done|]. exists fl, lru. assert (n = 0) as -> by (unfold PGSIZE in *; lia).
    by apply unmapped_nil.
Qed.

(** C16: uvmdealloc() takes exactly the pages above the new size away, whether they
    are in memory, in the swap area or absent: afterwards the process sees nothing
    there, their frames are on the free list and off the LRU list, their swap
    slots are free, and every other page of every address space has the contents
    and permissions it had; it returns the new size. *)
Theorem uvmdealloc_frees s role fl lru p pt oldsz newsz (va := PGROUNDUP newsz) (n := (PGROUNDUP oldsz - va) / PGSIZE) :
  mm_inv s role fl lru → swap_ready p s → 0 ≤ newsz < oldsz → oldsz ≤ MAXVA →
  (∀ i, 0 ≤ i < n → evictable role pt lru s (va + i * PGSIZE)) →
  wp (uvmdealloc pt oldsz newsz) (λ r s', r = newsz ∧ ∃ fl' lru', unmapped p role pt (pages_from va n) s fl lru s' fl' lru') s.
Proof. exact (uvmdealloc_spec s role fl lru p pt oldsz newsz). Qed.
End unmap.

(** Shrinking the process of the small machine to nothing: two pages in memory
    and one in the swap area. *)
Lemma uvmdealloc_frees_witness :
  wp (uvmdealloc root 12288 0) (λ r s', r = 0 ∧
    ∃ fl' lru', unmapped 0 role0 root (pages_from 0 3) machine [] lru0 s' fl' lru') machine.
Proof.
  apply (uvmdealloc_frees machine role0 [] lru0 0 root 12288 0); [exact machine_mm|exact machine_ready|done|done|].
  intros i Hi. assert (i = 0 ∨ i = 1 ∨ i = 2) as [E|[E|E]] by (change (0 ≤ i < 3) in Hi; lia).
  - rewrite E. exists pte0. split; [by vm_compute|]. intros _. split; [done|].
    by apply (bool_decide_unpack (PTE2PA pte0 / PGSIZE ∈ lru0)); vm_compute.
  - rewrite E. exists pte1. split; [by vm_compute|]. intros _. split; [done|].
    by apply (bool_decide_unpack (PTE2PA pte1 / PGSIZE ∈ lru0)); vm_compute.
  - rewrite E. exists pte2. split; by vm_compute.
Defined.
