(* ===== verification/Grow.v ===== *)
(** Adding pages to an address space: walk() with allocation and mappages() of
    kernel/vm.c, on a user page.  Page-table pages and user pages come from
    kalloc(), which may evict other pages on the way. *)
From S2P Require Import Prelude Riscv Mem Ring State Sched Bio Walk Swap Kalloc Vm Mm Uvm Machine Unmap.

(** ** A new page-table page *)

(** The entry of [va] in a table of level [lvl], and the table below it. *)
Definition child_role (r : ptrole) (i : Z) : ptrole := let '(root, lvl, pre) := r in (root, lvl - 1, pre * 512 + i).

Lemma zero_page_ld64 m pg i : rd_bytes m pg 4096 = replicate 4096 0 → 0 ≤ i < 512 → ld64 m (pg + 8 * i) = 0.
Proof.
  intros Hz Hi. assert (∀ x, pg ≤ x < pg + 4096 → ld8 m x = 0) as H8.
  { intros x Hx. assert (rd_bytes m pg 4096 !! Z.to_nat (x - pg) = Some 0) as E.
    { rewrite Hz. apply lookup_replicate_2. lia. }
    clear Hz.
    rewrite rd_bytes_lookup in E; [lia|]. injection E as E. rewrite -E. f_equal. lia. }
  clear Hz. rewrite /ld64. cbn [ld_le]. rewrite !H8; [lia..|done].
Qed.

Lemma pages_apart P Q : P mod PGSIZE = 0 → Q mod PGSIZE = 0 → P ≠ Q → P + PGSIZE ≤ Q ∨ Q + PGSIZE ≤ P.
Proof. unfold PGSIZE. intros. dlia. Qed.

Section newdir.
Context (m : gmap Z Z) (role : gmap Z ptrole) (Hpt : pt_ok m role).
Context (P root lvl pre i pg : Z).
Context (HP : role !! P = Some (root, lvl, pre)) (Hlvl : 1 ≤ lvl ≤ 2) (Hi : 0 ≤ i < 512).
Context (Hinv : tst (ld64 m (P + 8 * i)) PTE_V = false).
Context (Hpg : pg mod PGSIZE = 0 ∧ 0 < pg < 2 ^ 56) (Hnone : role !! pg = None).
Context (Hzero : ∀ j, 0 ≤ j < 512 → ld64 m (pg + 8 * j) = 0).

Definition dir_pte : Z := Z.lor (PA2PTE pg) PTE_V.
Definition dir_mem : gmap Z Z := st64 m (P + 8 * i) dir_pte.
Definition dir_roles : gmap Z ptrole := <[pg := (root, lvl - 1, pre * 512 + i)]> role.

Lemma dir_pte_spec : 0 ≤ dir_pte < 2 ^ 64 ∧ tst dir_pte PTE_V = true ∧ PTE2PA dir_pte = pg.
Proof using All.
  destruct (PTE_pack pg PTE_V dir_pte) as (B1 & B2 & B3); [by destruct Hpg; lia|by destruct Hpg|done|done|].
  split; [lia|]. split; [|done]. rewrite /PTE_V tst_flags; [lia|]. rewrite B3. done.
Qed.

Lemma dir_ld8 x : ¬ P + 8 * i ≤ x < P + 8 * i + 8 → ld8 dir_mem x = ld8 m x.
Proof. intros Hx. apply ld8_st64_ne. lia. Qed.
Lemma dir_page_eq Q x j : role !! Q = Some x → 0 ≤ j < 512 → ¬ (Q = P ∧ j = i) → ld64 dir_mem (Q + 8 * j) = ld64 m (Q + 8 * j).
Proof using All.
  intros HQ Hj Hne. apply ld_st64_ne. pose proof (pt_page _ _ Hpt _ _ HP) as [A1 _]. pose proof (pt_page _ _ Hpt _ _ HQ) as [A2 _].
  destruct (decide (Q = P)) as [->|Hn]; [assert (j ≠ i) by naive_solver; lia|].
  destruct (pages_apart Q P A2 A1 Hn); unfold PGSIZE in *; lia.
Qed.
Lemma dir_new_zero j : 0 ≤ j < 512 → ld64 dir_mem (pg + 8 * j) = 0.
Proof using All.
  intros Hj. rewrite -(Hzero j Hj). apply ld_st64_ne.
  pose proof (pt_page _ _ Hpt _ _ HP) as [A1 _]. assert (P ≠ pg) as Hn by (intros E; pose proof Hnone as N; by rewrite -E HP in N). destruct Hpg as [A2 _].
  destruct (pages_apart P pg A1 A2 Hn); unfold PGSIZE in *; lia.
Qed.
Lemma dir_entry : ld64 dir_mem (P + 8 * i) = dir_pte.
Proof using All. apply ld_st64_eq. apply dir_pte_spec. Qed.

Lemma dir_roles_old Q x : role !! Q = Some x → dir_roles !! Q = Some x.
Proof using All. intros HQ. rewrite /dir_roles lookup_insert_ne //. congruence. Qed.
Lemma dir_roots r : is_root dir_roles r ↔ is_root role r.
Proof using All.
  rewrite /is_root. split; [|apply dir_roles_old]. rewrite /dir_roles.
  intros [[-> E]|[_ ?]]%lookup_insert_Some; [|done]. injection E as ???. lia.
Qed.

Lemma dir_pt_ok : pt_ok dir_mem dir_roles.
Proof using All.
  destruct Hpt as [H1 H2]. split.
  - intros Q x. rewrite /dir_roles. intros [[<- _]|[_ HQ]]%lookup_insert_Some; [by destruct Hpg; split; [|lia]|exact (H1 Q x HQ)].
  - intros Q r l pr j. rewrite {1}/dir_roles. intros [[<- E]|[Hne HQ]]%lookup_insert_Some Hl Hj HV.
    + rewrite dir_new_zero // in HV.
    + destruct (decide (Q = P ∧ j = i)) as [[-> ->]|Hn].
      * rewrite dir_entry. destruct dir_pte_spec as (_ & _ & ->). rewrite HP in HQ. injection HQ as <- <- <-.
        by rewrite /dir_roles lookup_insert_eq.
      * rewrite (dir_page_eq Q (r, l, pr)) // in HV |- *. apply dir_roles_old. by apply (H2 Q r l pr j).
Qed.

(** Walks find what they found, or a fresh entry. *)
Lemma dir_pte_of pt va : is_root role pt →
  pte_of dir_mem pt va = pte_of m pt va ∨ (pte_of m pt va = None ∧ pte_of dir_mem pt va = Some 0).
Proof using All.
  intros Hr. pose proof (PX_range 2 va ltac:(lia)) as X2. pose proof (PX_range 1 va ltac:(lia)) as X1. pose proof (PX_range 0 va ltac:(lia)) as X0.
  rewrite /pte_of /walk_pure. destruct (decide (pt = P ∧ PX 2 va = i)) as [[-> E2]|N2].
  - rewrite E2 dir_entry Hinv. destruct dir_pte_spec as (_ & -> & ->). rewrite dir_new_zero //. by left.
  - rewrite (dir_page_eq pt (pt, 2, 0)) //. destruct (tst (ld64 m (pt + 8 * PX 2 va)) PTE_V) eqn:V2; [|by left].
    set (Q := PTE2PA (ld64 m (pt + 8 * PX 2 va))) in *.
    assert (role !! Q = Some (pt, 1, PX 2 va)) as HQ by (apply (pt_child _ _ Hpt pt pt 2 0); [done|lia|done|done]).
    destruct (decide (Q = P ∧ PX 1 va = i)) as [[EQ E1]|N1].
    + rewrite EQ E1 dir_entry Hinv. destruct dir_pte_spec as (_ & -> & ->). right. split; [done|].
      rewrite (proj2 (Z.eqb_neq (pg + 8 * PX 0 va) 0)); [destruct Hpg; lia|]. by rewrite dir_new_zero.
    + rewrite (dir_page_eq Q (pt, 1, PX 2 va)) //. destruct (tst (ld64 m (Q + 8 * PX 1 va)) PTE_V) eqn:V1; [|by left].
      set (L := PTE2PA (ld64 m (Q + 8 * PX 1 va))) in *.
      assert (role !! L = Some (pt, 0, PX 2 va * 512 + PX 1 va)) as HL by (apply (pt_child _ _ Hpt Q pt 1 (PX 2 va)); [done|lia|done|done]).
      destruct (L + 8 * PX 0 va =? 0); [by left|]. left. f_equal. apply (dir_page_eq L (pt, 0, PX 2 va * 512 + PX 1 va)); [done|done|].
      intros [EL _]. pose proof HP as HP'. rewrite -EL HL in HP'. injection HP' as ???. lia.
Qed.
Lemma dir_agree_data : agree_data role m dir_mem.
Proof using All.
  intros Q x HQm HQ Hx. apply dir_ld8. pose proof (pt_page _ _ Hpt _ _ HP) as [A1 _]. assert (Q ≠ P) as Hn by (intros E; by rewrite E HP in HQ).
  destruct (pages_apart Q P HQm A1 Hn); unfold PGSIZE in *; lia.
Qed.
End newdir.

Section grow.
Context `{Image}.

Lemma ram_small pa : ram_page pa → pa mod PGSIZE = 0 ∧ 0 < pa < 2 ^ 56.
Proof.
  intros [Ha Hr]. split; [done|]. pose proof img_order as (? & ? & ?). unfold KERNBASE, PHYSTOP, KERNBASE in *. lia.
Qed.

(** The new page-table page joins the tree; what the page tables say stays. *)
Lemma new_dir_mm s role fl lru P root lvl pre i pg
    (s' := set_mem (dir_mem (k_mem s) P i pg) s) (role' := dir_roles role root lvl pre i pg) :
  mm_inv s role fl lru → private s role fl lru pg → role !! P = Some (root, lvl, pre) → 1 ≤ lvl ≤ 2 → 0 ≤ i < 512 →
  tst (ld64 (k_mem s) (P + 8 * i)) PTE_V = false → (∀ j, 0 ≤ j < 512 → ld64 (k_mem s) (pg + 8 * j) = 0) →
  pt_ok (k_mem s') role' ∧ mm_inv s' role' fl lru ∧ same_views role s s' ∧
  (∀ pt va v, leaf_v s' role' pt va v → tst v PTE_V = true ∨ tst v PTE_S = true → leaf_v s role pt va v) ∧
  (∀ q, private s role fl lru q → q ≠ pg → private s' role' fl lru q ∧ rd_bytes (k_mem s') q 4096 = rd_bytes (k_mem s) q 4096).
Proof.
  intros Hmm Hp HP Hlvl Hi Hinv Hzero. pose proof (ram_small pg (pv_ram _ _ _ _ _ Hp)) as Hpg.
  pose proof (pv_role _ _ _ _ _ Hp) as Hnone. pose proof (mi_pt _ _ _ _ Hmm) as Hpt.
  pose proof (dir_pt_ok _ role Hpt P root lvl pre i pg HP Hlvl Hi Hinv Hpg Hnone Hzero) as Hpt'.
  pose proof (dir_pte_of _ role Hpt P root lvl pre i pg HP Hlvl Hi Hinv Hpg Hnone Hzero) as Hpte.
  pose proof (dir_roots (k_mem s) role Hpt P root lvl pre i pg HP Hlvl Hi Hinv Hpg Hnone Hzero) as Hroots.
  pose proof (dir_agree_data (k_mem s) role Hpt P root lvl pre i pg HP Hlvl Hi Hinv Hpg Hnone Hzero) as Hdat.
  change (dir_mem (k_mem s) P i pg) with (k_mem s') in Hpt', Hpte, Hdat. fold role' in Hpt', Hroots.
  assert (∀ pt va, upage role' pt va ↔ upage role pt va) as Hup by (intros pt va; by rewrite /upage Hroots).
  assert (∀ pt va v, leaf_v s' role' pt va v → tst v PTE_V = true ∨ tst v PTE_S = true → leaf_v s role pt va v) as Hback.
  { intros pt va v [Hu Hl] Hv. apply Hup in Hu. split; [done|].
    destruct (Hpte pt va (proj1 Hu)) as [E|[_ E]]; rewrite E in Hl; [done|]. injection Hl as <-. by destruct Hv. }
  assert (∀ pt va v, leaf_v s role pt va v → leaf_v s' role' pt va v) as Hfwd.
  { intros pt va v [Hu Hl]. split; [by apply Hup|]. destruct (Hpte pt va (proj1 Hu)) as [E|[E _]]; congruence. }
  assert (∀ q, role !! q = None → q ≠ pg → role' !! q = None) as Hrole.
  { intros q Hq Hne. rewrite /role' /dir_roles lookup_insert_ne //. congruence. }
  destruct (Hmm) as [I1 I2 I3 [I4 I4'] I5 I6 I7 I8 I9 I10]. split; [done|]. split; [|split; [|split; [done|]]].
  - split; [done|by apply (lru_ok_ext s)| | | | | | | |].
    + apply (chain_ext (k_mem s)); [|done]. intros pa Hpa. destruct (I4' pa Hpa) as ([Hm _] & Hr & _). by apply (agree_data_ld64 role).
    + split; [done|]. intros pa Hpa. destruct (I4' pa Hpa) as (R1 & R2 & R3). split; [done|]. split; [|done].
      apply Hrole; [done|]. intros ->. by apply (pv_fl _ _ _ _ _ Hp).
    + intros j Hj. destruct (I5 j Hj) as [R1 R2]. split; [done|]. apply Hrole; [done|]. intros E.
      apply (pv_lru _ _ _ _ _ Hp). by rewrite -E Z.div_mul.
    + intros j Hj. destruct (I6 j Hj) as (v & Hl & HV). exists v. split; [by apply Hfwd|done].
    + intros pt va v j Hl HV. apply (I7 pt va v j); [apply Hback; [done|by left]|done].
    + intros pt va v Hl HV. assert (leaf_v s role pt va v) as Hl' by (apply Hback; [done|by left]).
      destruct (I8 pt va v Hl' HV) as [B1 B2]. split; [|done]. apply Hrole; [done|]. by apply (pv_leaf _ _ _ _ _ Hp pt va v).
    + intros pt va v Hl HV HS. apply (I9 pt va v); [apply Hback; [done|by right]|done|done].
    + intros pt va v pt2 va2 v2 Hl HV HS Hl2 HV2 HS2.
      apply (I10 pt va v pt2 va2 v2); [apply Hback; [done|by right]|done|done|apply Hback; [done|by right]|done|done].
  - intros pt va Hu. rewrite /view. destruct (Hpte pt va (proj1 Hu)) as [->|[-> ->]]; [|done].
    destruct (pte_of (k_mem s) pt va) as [v|] eqn:E; [|done]. destruct (tst v PTE_V) eqn:EV; [|done].
    do 2 f_equal. apply (agree_data_page role); [done|apply PTE2PA_aligned|]. by apply (I8 pt va v).
  - intros q [Q1 Q2 Q3 Q4 Q5] Hne. split.
    + split; [done|by apply Hrole|done|done|]. intros pt va v Hl HV. apply (Q5 pt va v); [apply Hback; [done|by left]|done].
    + apply (agree_data_page role); [done|apply Q1|done].
Qed.

(** The tree grew, pages may have been evicted, and nothing else happened. *)
Record enlarged (p : nat) (role : gmap Z ptrole) (s : kstate) (fl lru : list Z)
    (role' : gmap Z ptrole) (s' : kstate) (fl' lru' : list Z) : Prop := {
  en_ready : swap_ready p s';
  en_woken : procs_woken s s';
  en_mm : mm_inv s' role' fl' lru';
  en_role P x : role !! P = Some x → role' !! P = Some x;
  en_roots r : is_root role' r ↔ is_root role r;
  en_views : same_views role s s';
  en_valid pt va v' : leaf_v s' role' pt va v' → tst v' PTE_V = true →
    ∃ v, leaf_v s role pt va v ∧ tst v PTE_V = true ∧ PTE2PA v = PTE2PA v';
  en_lru pt va v' : leaf_v s' role' pt va v' → tst v' PTE_V = true → PTE2PA v' / PGSIZE ∈ lru → PTE2PA v' / PGSIZE ∈ lru';
  en_dirs P root lvl pre i : role !! P = Some (root, lvl, pre) → 0 < lvl → 0 ≤ i < 512 →
    tst (ld64 (k_mem s) (P + 8 * i)) PTE_V = true → ld64 (k_mem s') (P + 8 * i) = ld64 (k_mem s) (P + 8 * i);
  en_private q : private s role fl lru q → private s' role' fl' lru' q
}.
(** Pages in private use keep their contents. *)
Definition kept (role : gmap Z ptrole) (s : kstate) (fl lru : list Z) (s' : kstate) : Prop :=
  ∀ q, private s role fl lru q → rd_bytes (k_mem s') q 4096 = rd_bytes (k_mem s) q 4096.

Lemma enlarged_refl p role s fl lru : mm_inv s role fl lru → swap_ready p s → enlarged p role s fl lru role s fl lru.
Proof.
  intros Hmm Hsr. split; [done|intros i; apply woken_refl|done|done|done|by intros pt va| |auto|auto|auto]. intros pt va v Hl HV. by exists v.
Qed.
Lemma enlarged_trans p r1 s1 f1 l1 r2 s2 f2 l2 r3 s3 f3 l3 :
  enlarged p r1 s1 f1 l1 r2 s2 f2 l2 → enlarged p r2 s2 f2 l2 r3 s3 f3 l3 → enlarged p r1 s1 f1 l1 r3 s3 f3 l3.
Proof.
  intros [A1 A2 A3 A4 A5 A6 A7 A8 A9 A10] [B1 B2 B3 B4 B5 B6 B7 B8 B9 B10]. split; [done| |done|auto|..].
  - exact (procs_woken_trans _ _ _ A2 B2).
  - intros r. by rewrite B5 A5.
  - intros pt va Hu. rewrite B6; [|by apply A6]. by rewrite /upage A5.
  - intros pt va v Hl HV. destruct (B7 pt va v Hl HV) as (w & Hw & HW & E).
    destruct (A7 pt va w Hw HW) as (u & Hu & HU & E'). exists u. split_and!; [done..|congruence].
  - intros pt va v Hl HV Hin. apply (B8 pt va v); [done|done|].
    destruct (B7 pt va v Hl HV) as (w & Hw & HW & E). rewrite -E. apply (A8 pt va w); [done|done|]. by rewrite E.
  - intros P root lvl pre i HP Hl Hi HV. rewrite -(A9 P root lvl pre i HP Hl Hi HV). apply (B9 P root lvl pre); auto.
    by rewrite (A9 P root lvl pre i HP Hl Hi HV).
  - auto.
Qed.
Lemma kept_trans p r1 s1 f1 l1 r2 s2 f2 l2 s3 :
  enlarged p r1 s1 f1 l1 r2 s2 f2 l2 → kept r1 s1 f1 l1 s2 → kept r2 s2 f2 l2 s3 → kept r1 s1 f1 l1 s3.
Proof. intros E K1 K2 q Hq. rewrite (K2 q (en_private _ _ _ _ _ _ _ _ _ E q Hq)). by apply K1. Qed.

(** ** kalloc() *)

(** The page kalloc() returns is in no one else's private use. *)
Lemma source_fresh s role fl lru fl' lru' pa q :
  page_source s fl lru fl' lru' pa → private s role fl lru q → q ≠ pa ∧ q ∉ fl' ∧ q / PGSIZE ∉ lru'.
Proof.
  intros [[-> ->]|(-> & -> & _ & Hp)] [_ _ Q3 Q4 _].
  - rewrite not_elem_of_cons in Q3. naive_solver.
  - assert (∀ j, j ∈ lru' → j ∈ lru) as Hs by (intros j Hj; rewrite Hp; by right).
    split_and!; [|apply not_elem_of_nil|auto]. intros ->. apply Q4. rewrite Hp. left.
Qed.
Lemma kalloc_enlarged s role fl lru p :
  mm_inv s role fl lru → swap_ready p s →
  wp kalloc (λ pa s', if pa =? 0 then enlarged p role s fl lru role s' fl lru ∧ fl = []
    else ∃ fl' lru', (fl = [] ∨ fl = pa :: fl') ∧ enlarged p role s fl lru role s' fl' lru' ∧ kept role s fl lru s' ∧ private s' role fl' lru' pa ∧
      agree_dirs role (k_mem s) (k_mem s') ∧ ∀ q, private s role fl lru q → q ≠ pa) s.
Proof.
  intros Hmm Hsr. wp_use (kalloc_spec s role fl lru p Hmm Hsr). intros pa s' ([A1 A2 [S1 S2 S3 S4] A4] & Hres).
  assert (∀ P root lvl pre i, role !! P = Some (root, lvl, pre) → 0 < lvl → 0 ≤ i < 512 →
    tst (ld64 (k_mem s) (P + 8 * i)) PTE_V = true → ld64 (k_mem s') (P + 8 * i) = ld64 (k_mem s) (P + 8 * i)) as Hd.
  { intros P root lvl pre i HP Hl Hi _. exact (agree_dirs_ld64 role _ _ P root lvl pre i S4 HP Hl Hi). }
  destruct (pa =? 0).
  - destruct Hres as (-> & _ & Hmm'). split; [|done]. split; [done..|auto|auto|]. intros q [Q1 Q2 Q3 Q4 Q5]. split; [done..|].
    intros pt va v Hl HV. destruct (S3 pt va v Hl HV) as (w & Hw & HW & <-). by apply (Q5 pt va w).
  - destruct Hres as (fl' & lru' & Hsrc & Hmm' & Hp & _ & Hdat). exists fl', lru'.
    assert (∀ q, private s role fl lru q → private s' role fl' lru' q) as Hpriv.
    { intros q Hq. destruct (source_fresh _ _ _ _ _ _ _ _ Hsrc Hq) as (N1 & N2 & N3). destruct Hq as [Q1 Q2 Q3 Q4 Q5]. split; [done..|].
      intros pt va v Hl HV. destruct (S3 pt va v Hl HV) as (w & Hw & HW & <-). by apply (Q5 pt va w). }
    split; [destruct Hsrc as [[-> _]|[-> _]]; auto|]. split; [|split; [|split; [exact Hp|split; [exact S4|]]]].
    + split; [done..| |auto|auto]. intros pt va v Hl HV Hin. destruct Hsrc as [[_ ->]|(_ & _ & _ & Hperm)]; [done|].
      rewrite Hperm in Hin. apply elem_of_cons in Hin as [E|]; [|done]. exfalso. apply (pv_leaf _ _ _ _ _ Hp pt va v Hl HV).
      pose proof (PTE2PA_aligned v). destruct (pv_ram _ _ _ _ _ Hp) as [Hal _]. unfold PGSIZE in *. dlia.
    + intros q Hq. apply Hdat; [apply Hq|apply Hq|]. by apply (source_fresh _ _ _ _ _ _ _ _ Hsrc Hq).
    + intros q Hq. by apply (source_fresh _ _ _ _ _ _ _ _ Hsrc Hq).
Qed.

(** ** One level of walk() *)

(** The page [pg], cleared, becomes the table of entry [i] of [P]. *)
Lemma dir_enlarged p s role fl lru s1 fl1 lru1 P root lvl pre i pg
    (s2 := set_mem (memset (k_mem s1) pg 0 PGSIZE) s1)
    (s3 := set_mem (dir_mem (k_mem s2) P i pg) s2) (role' := dir_roles role root lvl pre i pg) :
  enlarged p role s fl lru role s1 fl1 lru1 → kept role s fl lru s1 → private s1 role fl1 lru1 pg →
  agree_dirs role (k_mem s) (k_mem s1) → (∀ q, private s role fl lru q → q ≠ pg) →
  role !! P = Some (root, lvl, pre) → 1 ≤ lvl ≤ 2 → 0 ≤ i < 512 → tst (ld64 (k_mem s) (P + 8 * i)) PTE_V = false →
  enlarged p role s fl lru role' s3 fl1 lru1 ∧ kept role s fl lru s3 ∧
  tst (ld64 (k_mem s3) (P + 8 * i)) PTE_V = true ∧ PTE2PA (ld64 (k_mem s3) (P + 8 * i)) = pg.
Proof.
  intros [E1 E2 E3 E4 E5 E6 E7 E8 E9 E10] Hk Hp Hd Hfresh HP Hlvl Hi Hinv.
  assert (tst (ld64 (k_mem s1) (P + 8 * i)) PTE_V = false) as Hinv1.
  { by rewrite (agree_dirs_ld64 role (k_mem s) (k_mem s1) P root lvl pre i Hd HP ltac:(lia) Hi). }
  pose proof (memset_other (k_mem s1) pg 0) as Hm. pose proof (private_agree s1 role fl1 lru1 pg _ E3 Hp Hm) as Hag.
  pose proof (private_mm s1 role fl1 lru1 pg _ E3 Hp Hm) as Hmm2. pose proof (private_private s1 role fl1 lru1 pg _ E3 Hp Hm) as Hp2.
  pose proof (private_views s1 role fl1 lru1 pg _ E3 Hp Hm) as Hv2. pose proof (private_leaf s1 role fl1 lru1 pg _ E3 Hp Hm) as Hl2.
  pose proof (other_page s1 role fl1 lru1 pg _ E3 Hp Hm) as Ho2.
  assert (∀ j, 0 ≤ j < 512 → ld64 (k_mem s2) (pg + 8 * j) = 0) as Hz.
  { intros j Hj. apply zero_page_ld64; [|done]. exact (rd_memset (k_mem s1) pg 0). }
  assert (agree_dirs role (k_mem s) (k_mem s2)) as Hd2.
  { intros Q r l pr x HQ Hl Hx. rewrite -(Hd Q r l pr x HQ Hl Hx). exact (agree_pt_dirs _ _ _ Hag Q r l pr x HQ Hl Hx). }
  assert (tst (ld64 (k_mem s2) (P + 8 * i)) PTE_V = false) as Hinv2.
  { by rewrite (agree_dirs_ld64 role (k_mem s) (k_mem s2) P root lvl pre i Hd2 HP ltac:(lia) Hi). }
  destruct (new_dir_mm s2 role fl1 lru1 P root lvl pre i pg Hmm2 Hp2 HP Hlvl Hi Hinv2 Hz) as (G1 & G2 & G3 & G4 & G5).
  pose proof (ram_small pg (pv_ram _ _ _ _ _ Hp)) as Hpg. pose proof (pv_role _ _ _ _ _ Hp) as Hnone.
  pose proof (dir_roots (k_mem s2) role (mi_pt _ _ _ _ Hmm2) P root lvl pre i pg HP Hlvl Hi Hinv2 Hpg Hnone Hz) as Hroots.
  pose proof (dir_page_eq (k_mem s2) role (mi_pt _ _ _ _ Hmm2) P root lvl pre i pg HP Hlvl Hi Hinv2 Hpg Hnone Hz) as Hpe.
  pose proof (dir_entry (k_mem s2) role (mi_pt _ _ _ _ Hmm2) P root lvl pre i pg HP Hlvl Hi Hinv2 Hpg Hnone Hz) as Hent.
  destruct (dir_pte_spec (k_mem s2) role (mi_pt _ _ _ _ Hmm2) P root lvl pre i pg HP Hlvl Hi Hinv2 Hpg Hnone Hz) as (_ & HeV & HeP).
  fold s3 role' in G1, G2, G3, G4, G5. fold role' in Hroots.
  assert (swap_ready p s3) as Hready by (by apply (swap_ready_ext p s1)).
  fold s2 in Hmm2, Hp2, Hv2, Hl2. change (memset (k_mem s1) pg 0 PGSIZE) with (k_mem s2) in Ho2.
  change (dir_mem (k_mem s2) P i pg) with (k_mem s3) in Hpe, Hent.
  assert (∀ pt va v, leaf_v s3 role' pt va v → tst v PTE_V = true → leaf_v s1 role pt va v) as Hback.
  { intros pt va v Hl HV. apply Hl2. apply G4; [done|by left]. }
  assert (∀ q, private s role fl lru q → private s2 role fl1 lru1 q) as Hpr2.
  { intros q [Q1 Q2 Q3 Q4 Q5]%E10. split; [done..|]. intros pt va v Hl%Hl2. by apply (Q5 pt va v). }
  split; [|split; [|rewrite Hent; exact (conj HeV HeP)]].
  - split; [done|done|exact G2| |exact Hroots| | | | |].
    + intros Q x HQ. rewrite /role' /dir_roles lookup_insert_ne; [congruence|done].
    + exact (same_views_trans _ _ _ _ (same_views_trans _ _ _ _ E6 Hv2) G3).
    + intros pt va v Hl HV. exact (E7 pt va v (Hback pt va v Hl HV) HV).
    + intros pt va v Hl HV. exact (E8 pt va v (Hback pt va v Hl HV) HV).
    + intros Q r l pr j HQ Hl Hj HV. rewrite (Hpe Q (r, l, pr) j HQ Hj).
      * intros [-> ->]. congruence.
      * exact (agree_dirs_ld64 role _ _ Q r l pr j Hd2 HQ Hl Hj).
    + intros q Hq. apply G5; auto.
  - intros q Hq. destruct (G5 q (Hpr2 q Hq) (Hfresh q Hq)) as [_ ->]. rewrite -(Hk q Hq).
    apply Ho2; [apply Hq|by apply Hfresh].
Qed.

(** One round of the loop of walk(): down to the table below, which is made if
    it is not there, unless memory runs out. *)
Lemma walk_level p s role fl lru P pt lvl pre va levels Q :
  mm_inv s role fl lru → swap_ready p s → role !! P = Some (pt, lvl, pre) → 1 ≤ lvl ≤ 2 →
  (∀ s', enlarged p role s fl lru role s' fl lru → fl = [] → Q None s') →
  (∀ role' s' fl' lru' (e := ld64 (k_mem s') (P + 8 * PX lvl va)), enlarged p role s fl lru role' s' fl' lru' → kept role s fl lru s' → (length fl ≤ S (length fl'))%nat →
    tst e PTE_V = true → role' !! PTE2PA e = Some (pt, lvl - 1, pre * 512 + PX lvl va) →
    wp (walk_levels kalloc levels (PTE2PA e) va true) Q s') →
  wp (walk_levels kalloc (lvl :: levels) P va true) Q s.
Proof.
  intros Hmm Hsr HP Hlvl Hno Hyes. cbn [walk_levels]. pose proof (PX_range lvl va ltac:(lia)) as HX. set (i := PX lvl va) in *.
  apply wp_bind, wp_gets. destruct (tst (ld64 (k_mem s) (P + 8 * i)) PTE_V) eqn:HV.
  { apply (Hyes role s fl lru); [by apply enlarged_refl|by intros q|lia|done|]. apply (pt_child _ _ (mi_pt _ _ _ _ Hmm) P); [done|lia|done|done]. }
  cbn [negb]. apply wp_bind. wp_use (kalloc_enlarged s role fl lru p Hmm Hsr). intros pg s1 Hres.
  destruct (pg =? 0); [by destruct Hres; apply wp_ret, Hno|]. destruct Hres as (fl1 & lru1 & Hlen & En & Hk & Hp & Hd & Hfresh).
  apply wp_bind, wp_modify, wp_bind, wp_modify.
  destruct (dir_enlarged p s role fl lru s1 fl1 lru1 P pt lvl pre i pg En Hk Hp Hd Hfresh HP Hlvl HX HV) as (En3 & Hk3 & HeV & HeP).
  set (s3 := set_mem _ _) in En3, Hk3, HeV, HeP |- *. rewrite -HeP. apply (Hyes _ s3 fl1 lru1 En3 Hk3); [|exact HeV|].
  { destruct Hlen as [-> | ->]; cbn; lia. }
  fold i.
  by rewrite HeP lookup_insert_eq.
Qed.

(** ** walk() with allocation *)

(** It returns the address of the entry of [va], making the page-table pages on
    the way, or 0 when there is no memory. *)
Lemma walk_alloc p s role fl lru pt va :
  mm_inv s role fl lru → swap_ready p s → is_root role pt → va < MAXVA →
  wp (walk pt va true) (λ w s', ∃ role' fl' lru', enlarged p role s fl lru role' s' fl' lru' ∧
    if w =? 0 then (length fl ≤ 1)%nat
    else (length fl ≤ length fl' + 2)%nat ∧ kept role s fl lru s' ∧ walk_pure (k_mem s') pt va = w) s.
Proof.
  intros Hmm Hsr Hr Hva. rewrite /walk /walk_gen (proj2 (Z.leb_gt _ _)) //. apply wp_bind.
  apply (walk_level p s role fl lru pt pt 2 0 va [1]); [done|done|done|lia|..].
  { intros s' En Hfl. apply wp_ret. exists role, fl, lru. split; [exact En|]. cbn [Z.eqb]. rewrite Hfl. cbn. lia. }
  intros r1 s1 f1 l1 e2 En Hk Hf1 HV2 HC. set (C := PTE2PA e2) in *.
  apply (walk_level p s1 r1 f1 l1 C pt 1 (PX 2 va) va []); [apply En|apply En|exact HC|lia|..].
  { intros s' En2 Hfl. apply wp_ret. exists r1, f1, l1. split; [exact (enlarged_trans _ _ _ _ _ _ _ _ _ _ _ _ _ En En2)|].
    cbn [Z.eqb]. rewrite Hfl in Hf1. cbn in Hf1. lia. }
  intros r2 s2 f2 l2 e1 En2 Hk2 Hf2 HV1 HL. cbn [walk_levels]. apply wp_ret, wp_ret. exists r2, f2, l2.
  split; [exact (enlarged_trans _ _ _ _ _ _ _ _ _ _ _ _ _ En En2)|]. 
  assert (PTE2PA e1 + 8 * PX 0 va ≠ 0) as Hne.
  { pose proof (PX_range 0 va ltac:(lia)). pose proof (pt_page _ _ (mi_pt _ _ _ _ (en_mm _ _ _ _ _ _ _ _ _ En2)) _ _ HL). lia. }
  rewrite (proj2 (Z.eqb_neq _ _) Hne). split; [lia|]. split; [exact (kept_trans _ _ _ _ _ _ _ _ _ _ En Hk Hk2)|].
  assert (ld64 (k_mem s2) (pt + 8 * PX 2 va) = e2) as E2.
  { apply (en_dirs _ _ _ _ _ _ _ _ _ En2 pt pt 2 0); [by apply (en_role _ _ _ _ _ _ _ _ _ En)|lia|by apply PX_range|done]. }
  rewrite /walk_pure E2 HV2. fold C e1. by rewrite HV1.
Qed.

(** ** What growing an address space does *)

(** The pages [A] of [pt] appeared, with the contents [bytes] and the permissions
    of [perm]; no other page of any address space changed. *)
Record grown (p : nat) (pt perm : Z) (bytes : list Z) (A : list Z) (role : gmap Z ptrole) (s : kstate) (lru : list Z)
    (role' : gmap Z ptrole) (s' : kstate) (fl' lru' : list Z) : Prop := {
  gr_ready : swap_ready p s';
  gr_woken : procs_woken s s';
  gr_mm : mm_inv s' role' fl' lru';
  gr_role P x : role !! P = Some x → role' !! P = Some x;
  gr_roots r : is_root role' r ↔ is_root role r;
  gr_views pt2 va2 : upage role pt2 va2 →
    view s' pt2 va2 = if decide (pt2 = pt ∧ va2 ∈ A) then Some (Z.land perm vmask, bytes) else view s pt2 va2;
  gr_valid pt2 va2 v' : leaf_v s' role' pt2 va2 v' → tst v' PTE_V = true → ¬ (pt2 = pt ∧ va2 ∈ A) →
    ∃ v, leaf_v s role pt2 va2 v ∧ tst v PTE_V = true ∧ PTE2PA v = PTE2PA v';
  gr_lru pt2 va2 v' : leaf_v s' role' pt2 va2 v' → tst v' PTE_V = true →
    (pt2 = pt ∧ va2 ∈ A) ∨ PTE2PA v' / PGSIZE ∈ lru → PTE2PA v' / PGSIZE ∈ lru'
}.

Lemma enlarged_grown p pt perm bytes role s fl lru role' s' fl' lru' :
  enlarged p role s fl lru role' s' fl' lru' → grown p pt perm bytes [] role s lru role' s' fl' lru'.
Proof.
  intros [E1 E2 E3 E4 E5 E6 E7 E8 E9 E10]. split; [done..| | |].
  - intros pt2 va2 Hu. rewrite decide_False; [by intros [_ ?%elem_of_nil]|by apply E6].
  - intros pt2 va2 v Hl HV _. by apply E7.
  - intros pt2 va2 v Hl HV [[_ []%elem_of_nil]|Hin]. by apply (E8 pt2 va2).
Qed.
Lemma kfree_grown p pt perm bytes role s fl lru pa :
  mm_inv s role fl lru → swap_ready p s → private s role fl lru pa →
  wp (kfree pa) (λ _ s', grown p pt perm bytes [] role s lru role s' (pa :: fl) lru) s.
Proof.
  intros Hmm Hsr Hp. wp_use (kfree_spec s role fl lru pa p Hmm Hsr Hp). intros [] s' ([A1 A2 [_ _ A3 _] A4] & Hmm').
  split; [done..| | |].
  - intros pt2 va2 Hu. rewrite decide_False; [by intros [_ ?%elem_of_nil]|by apply A4].
  - intros pt2 va2 v Hl HV _. by apply A3.
  - by intros pt2 va2 v Hl HV [[_ []%elem_of_nil]|Hin].
Qed.
Lemma space_grown_trans p pt perm bytes A1 A2 r1 s1 l1 r2 s2 f2 l2 r3 s3 f3 l3 :
  grown p pt perm bytes A1 r1 s1 l1 r2 s2 f2 l2 → grown p pt perm bytes A2 r2 s2 l2 r3 s3 f3 l3 →
  grown p pt perm bytes (A1 ++ A2) r1 s1 l1 r3 s3 f3 l3.
Proof.
  intros [G1 G2 G3 G4 G5 G6 G7 G8] [H1 H2 H3 H4 H5 H6 H7 H8]. split; [done| |done|auto|..].
  - exact (procs_woken_trans _ _ _ G2 H2).
  - intros r. by rewrite H5 G5.
  - intros pt2 va2 Hu. rewrite H6; [by rewrite /upage G5|]. rewrite G6 //.
    destruct (decide (pt2 = pt ∧ va2 ∈ A2)) as [[E1 E2]|N2]; [rewrite decide_True //; split; [done|]; apply elem_of_app; by right|].
    rewrite (decide_ext (pt2 = pt ∧ va2 ∈ A1) (pt2 = pt ∧ va2 ∈ A1 ++ A2)) //. rewrite elem_of_app. clear - N2. tauto.
  - intros pt2 va2 v Hl HV Hn. rewrite elem_of_app in Hn. destruct (H7 pt2 va2 v Hl HV) as (w & Hw & HW & E); [clear - Hn; tauto|].
    destruct (G7 pt2 va2 w Hw HW) as (u & Hu & HU & E'); [clear - Hn; tauto|]. exists u. split_and!; [done..|congruence].
  - intros pt2 va2 v Hl HV Hin. apply (H8 pt2 va2 v Hl HV). rewrite elem_of_app in Hin.
    destruct (decide (pt2 = pt ∧ va2 ∈ A2)) as [|N2]; [by left|right].
    destruct (H7 pt2 va2 v Hl HV N2) as (w & Hw & HW & E). rewrite -E. apply (G8 pt2 va2 w Hw HW). rewrite E. clear - Hin N2. tauto.
Qed.

(** ** mappages() of a page *)

Lemma view_none s role pt va : upage role pt va → view s pt va = None → walk_pure (k_mem s) pt va ≠ 0 →
  ∃ v, leaf_v s role pt va v ∧ ld64 (k_mem s) (walk_pure (k_mem s) pt va) = v ∧ tst v PTE_V = false ∧ tst v PTE_S = false.
Proof.
  intros Hu Hv Hw. rewrite /leaf_v /view /pte_of in Hv |- *. rewrite (proj2 (Z.eqb_neq _ _) Hw) in Hv |- *.
  eexists. split; [by split|]. split; [done|]. destruct (tst _ PTE_V); [done|]. by destruct (tst _ PTE_S).
Qed.
Lemma mapped_pte pa perm (v' := Z.lor (Z.lor (PA2PTE pa) perm) PTE_V) : ram_page pa → 0 ≤ perm < 1024 →
  0 ≤ v' < 2 ^ 64 ∧ tst v' PTE_V = true ∧ PTE2PA v' = pa ∧ Z.land v' vmask = Z.land perm vmask.
Proof.
  intros Hr Hperm. destruct (ram_small pa Hr) as [Hal Hpa].
  assert (0 ≤ Z.lor perm PTE_V < 1024) as Hf by (apply (lor_range _ _ 10); [lia|done|by vm_compute]).
  destruct (PTE_pack pa (Z.lor perm PTE_V) v') as (B1 & B2 & B3); [lia|done|done|by rewrite /v' Z.lor_assoc|].
  split; [lia|]. split; [|split; [done|]].
  - rewrite /PTE_V tst_flags; [lia|]. rewrite B3 Z.lor_spec /PTE_V. by rewrite orb_true_r.
  - rewrite land_vmask_flags B3 Z.land_lor_distr_l. change (Z.land PTE_V vmask) with 0. by rewrite Z.lor_0_r.
Qed.

(** The entry is written and the page linked: the page belongs to the process. *)
Lemma attached_grown p pt va perm bytes pa v role s fl lru s' (v' := Z.lor (Z.lor (PA2PTE pa) perm) PTE_V) :
  mm_inv s role fl lru → private s role fl lru pa → leaf_v s role pt va v → tst v PTE_V = false →
  ram_page pa → 0 ≤ perm < 1024 → rd_bytes (k_mem s) pa 4096 = bytes →
  attached s s' lru pa pt va v v' → swap_ready p s' → k_procs s' = k_procs s →
  grown p pt perm bytes [va] role s lru role s' fl (lru ++ [pa / PGSIZE]).
Proof.
  intros Hmm Hp Hl HV Hr Hperm Hz Hat Hsr Hpr. destruct (mapped_pte pa perm Hr Hperm) as (_ & HV' & Epa & Em).
  pose proof (attach_leaf s s' role fl lru pa pt va v v' Hmm Hp Hl HV Hat) as Hback.
  split; [done|intros i; rewrite /proc_at Hpr; apply woken_refl| |done|done|..].
  - exact (attach_mm s s' role fl lru pa pt va v v' Hmm Hp Hl HV Hat).
  - intros pt2 va2 Hu. case_decide as E.
    + destruct E as [-> ->%list_elem_of_singleton].
      rewrite (attach_view s s' role fl lru pa pt va v v' Hmm Hp Hl HV Hat). fold v' in Em. by rewrite Em Hz.
    + apply (attach_views s s' role fl lru pa pt va v v' Hmm Hp Hl HV Hat); [done|].
      intros [-> ->]. apply E. split; [done|]. by apply list_elem_of_singleton.
  - intros pt2 va2 w Hw HW Hn. destruct (Hback pt2 va2 w Hw) as [(-> & -> & _)|[_ Hw']]; [|by exists w].
    exfalso. apply Hn. split; [done|]. by apply list_elem_of_singleton.
  - intros pt2 va2 w Hw HW Hin. apply elem_of_app. destruct (Hback pt2 va2 w Hw) as [(-> & -> & ->)|[Hne Hw']].
    + right. fold v' in Epa. rewrite Epa. by apply list_elem_of_singleton.
    + left. destruct Hin as [[-> ->%list_elem_of_singleton]|Hin]; [by destruct Hne|done].
Qed.

(** mappages() of one page: without memory for the page-table pages it fails,
    otherwise the entry is written and [Q] is left for the rest. *)
Lemma mappages_entry p s role fl lru pt va pa perm Q :
  mm_inv s role fl lru → swap_ready p s → upage role pt va → view s pt va = None → private s role fl lru pa → 0 ≤ perm < 1024 →
  (∀ role1 s1 fl1 lru1, enlarged p role s fl lru role1 s1 fl1 lru1 → (length fl ≤ 1)%nat → Q (-1) s1) →
  (∀ role1 s1 fl1 lru1 v (v' := Z.lor (Z.lor (PA2PTE pa) perm) PTE_V),
    enlarged p role s fl lru role1 s1 fl1 lru1 → (length fl ≤ length fl1 + 2)%nat → kept role s fl lru s1 →
    leaf_v s1 role1 pt va v → tst v PTE_V = false →
    wp (when (tst perm PTE_U) (register pt va pa);; ret 0) Q (set_mem (st64 (k_mem s1) (walk_pure (k_mem s1) pt va) v') s1)) →
  wp (mappages pt va PGSIZE pa perm) Q s.
Proof.
  intros Hmm Hsr Hu Hv Hp Hperm Hno Hyes. destruct (Hu) as (Hr & Hva & Hal). rewrite /mappages (proj2 (Z.eqb_eq _ _) Hal).
  change (PGSIZE mod PGSIZE =? 0) with true. change (PGSIZE =? 0) with false. cbn [negb].
  change (Z.to_nat (PGSIZE / PGSIZE - 1)) with 0%nat. apply wp_bind. cbn [mappages_loop]. apply wp_bind.
  wp_use (walk_alloc p s role fl lru pt va Hmm Hsr Hr); [lia|]. intros w s1 (role1 & fl1 & lru1 & En & Hw).
  destruct (Z.eqb_spec w 0) as [_|Hne]; [apply wp_ret, wp_ret; exact (Hno role1 s1 fl1 lru1 En Hw)|].
  destruct Hw as (Hlen & Hk & E). subst w.
  assert (upage role1 pt va) as Hu1 by (by rewrite /upage (en_roots _ _ _ _ _ _ _ _ _ En)).
  destruct (view_none s1 role1 pt va Hu1) as (v & Hl & Hld & HV & _); [by rewrite (en_views _ _ _ _ _ _ _ _ _ En)|done|].
  apply wp_bind, wp_gets. rewrite Hld HV. apply wp_bind, wp_modify. cbn [mappages_loop]. apply wp_ret.
  exact (Hyes role1 s1 fl1 lru1 v En Hlen Hk Hl HV).
Qed.

(** Linking the page makes it the process's: [s2] is the state with the entry
    written. *)
Lemma register_attached p s role fl lru pt va pa perm v (v' := Z.lor (Z.lor (PA2PTE pa) perm) PTE_V)
    (s2 := set_mem (st64 (k_mem s) (walk_pure (k_mem s) pt va) v') s) :
  mm_inv s role fl lru → swap_ready p s → private s role fl lru pa → leaf_v s role pt va v → 0 ≤ perm < 1024 →
  wp (register pt va pa) (λ _ s3, attached s s3 lru pa pt va v v' ∧ swap_ready p s3 ∧ k_procs s3 = k_procs s ∧
    k_mem s3 = k_mem s2 ∧ k_freelist s3 = k_freelist s ∧ k_bitmap s3 = k_bitmap s ∧
    ∀ j, j ≠ pa / PGSIZE → pg_pagetable (page_at s3 j) = pg_pagetable (page_at s j) ∧ pg_vaddr (page_at s3 j) = pg_vaddr (page_at s j)) s2.
Proof.
  intros Hmm Hsr Hp Hl Hperm. destruct (mapped_pte pa perm (pv_ram _ _ _ _ _ Hp) Hperm) as (B1 & B2 & B3 & _). fold v' in B1, B2, B3.
  wp_use (register_spec s2 lru pt va pa); [by apply (lru_ok_ext s); [..|apply Hmm]| |apply Hp|].
  { change (k_locks s2) with (k_locks s). rewrite (sr_locks _ _ Hsr). apply not_elem_of_nil. }
  intros [] s3 (R1 & R2 & R3 & R4 & R5 & R6 & R7 & R8 & R9 & R10 & R11). split_and!; [|by apply (swap_ready_ext p s); rewrite ?R4 ?R5 ?R6 ?R7 ?R8|done..].
  split; [exact R1|exact R9|exact R10|exact R11|exact R2| |exact R5|done]. intros j. left. by rewrite /bitmap_at R3.
Qed.

(** A user page. *)
Lemma mappages_page p s role fl lru pt va pa perm bytes :
  mm_inv s role fl lru → swap_ready p s → upage role pt va → view s pt va = None →
  private s role fl lru pa → rd_bytes (k_mem s) pa 4096 = bytes →
  0 ≤ perm < 1024 → tst perm PTE_U = true →
  wp (mappages pt va PGSIZE pa perm) (λ r s', ∃ role' fl' lru',
    if r =? 0 then grown p pt perm bytes [va] role s lru role' s' fl' lru' ∧ (length fl ≤ length fl' + 2)%nat
    else enlarged p role s fl lru role' s' fl' lru' ∧ (length fl ≤ 1)%nat) s.
Proof.
  intros Hmm Hsr Hu Hv Hp Hz Hperm HU. apply (mappages_entry p s role fl lru pt va pa perm); [done..| |].
  - intros role1 s1 fl1 lru1 En Hlen. exists role1, fl1, lru1. by split.
  - intros role1 s1 fl1 lru1 v v' En Hlen Hk Hl HV. rewrite HU. cbn [when]. apply wp_bind.
    pose proof (en_private _ _ _ _ _ _ _ _ _ En pa Hp) as Hp1.
    wp_use (register_attached p s1 role1 fl1 lru1 pt va pa perm v); [apply En|apply En|done|done|done|].
    intros [] s3 (Hat & Hr3 & Hpr3 & _). apply wp_ret. exists role1, fl1, (lru1 ++ [pa / PGSIZE]). cbn [Z.eqb]. split; [|done].
    apply (space_grown_trans p pt perm bytes [] [va] role s lru role1 s1 fl1 lru1); [exact (enlarged_grown _ _ _ _ _ _ _ _ _ _ _ _ En)|].
    apply (attached_grown p pt va perm bytes pa v role1 s1 fl1 lru1 s3); [apply En|done|done|done|apply Hp|done| |done|done|done].
    by rewrite (Hk pa Hp).
Qed.
End grow.
