(* ===== verification/Uvmalloc.v ===== *)
(** uvmalloc() of kernel/vm.c: growing an address space by zeroed pages, and
    taking them away again when memory runs out. *)
From S2P Require Import Prelude Riscv Mem Ring State Sched Bio Walk Swap Kalloc Vm Mm Uvm Machine Unmap Grow.

Section uvmalloc.
Context `{Image}.

(** ** uvmalloc() *)

Lemma some_fst {A B} (a c : A) (b d : B) : Some (a, b) = Some (c, d) → a = c.
Proof. by intros [= -> _]. Qed.
Lemma view_perm s pt va perm bytes : view s pt va = Some (perm, bytes) → ∃ v, pte_of (k_mem s) pt va = Some v ∧ Z.land v vmask = perm.
Proof.
  rewrite /view. destruct (pte_of (k_mem s) pt va) as [v|]; [|done]. intros Hv. exists v. split; [done|].
  destruct (tst v PTE_V); [by apply some_fst in Hv|]. destruct (tst v PTE_S); [by apply some_fst in Hv|done].
Qed.
(** Every page that appeared can be taken away again. *)
Lemma grown_evictable p pt perm bytes A role s lru role' s' fl' lru' a :
  grown p pt perm bytes A role s lru role' s' fl' lru' → upage role pt a → a ∈ A → tst perm PTE_U = true → evictable role' pt lru' s' a.
Proof.
  intros [G1 G2 G3 G4 G5 G6 G7 G8] Hu Ha HU. pose proof (G6 pt a Hu) as Hv. rewrite decide_True // in Hv.
  destruct (view_perm _ _ _ _ _ Hv) as (v & Hp & Hm). clear Hv.
  assert (leaf_v s' role' pt a v) as Hl by (split; [by rewrite /upage G5|done]). exists v. split; [done|]. intros HV.
  split; [|apply (G8 pt a v Hl HV); by left]. intros Ef. rewrite land_vmask_flags Ef in Hm.
  assert (Z.testbit (Z.land perm vmask) 4 = true) as Hb.
  { rewrite Z.land_spec. change PTE_U with (2 ^ 4) in HU. rewrite tst_bit // in HU. by rewrite HU. }
  rewrite -Hm in Hb. by vm_compute in Hb.
Qed.

(** The address space is what it was; the tree may have grown. *)
Record refused (p : nat) (role : gmap Z ptrole) (s : kstate) (role' : gmap Z ptrole) (s' : kstate) (fl' lru' : list Z) : Prop := {
  rf_ready : swap_ready p s';
  rf_mm : mm_inv s' role' fl' lru';
  rf_role P x : role !! P = Some x → role' !! P = Some x;
  rf_roots r : is_root role' r ↔ is_root role r;
  rf_views : same_views role s s'
}.

Lemma pages_from_cons va n : 0 < n → pages_from va n = va :: pages_from (va + PGSIZE) (n - 1).
Proof.
  intros Hn. rewrite /pages_from seqZ_cons // fmap_cons. f_equal; [lia|]. change (Z.succ 0) with (1 + 0).
  rewrite -fmap_add_seqZ -list_fmap_compose. replace (Z.pred n) with (n - 1) by lia. apply list_fmap_ext. intros i x _. unfold compose. lia.
Qed.
Lemma pages_from_snoc va n : 0 ≤ n → pages_from va (n + 1) = pages_from va n ++ [va + n * PGSIZE].
Proof. intros Hn. rewrite /pages_from seqZ_app; [lia..|]. by rewrite fmap_app Z.add_0_l. Qed.
Lemma elem_of_pages_from a va n : a ∈ pages_from va n ↔ ∃ i, 0 ≤ i < n ∧ a = va + i * PGSIZE.
Proof.
  rewrite /pages_from list_elem_of_fmap. split.
  - intros (i & -> & Hi%elem_of_seqZ). exists i. lia.
  - intros (i & Hi & ->). exists i. split; [done|]. apply elem_of_seqZ. lia.
Qed.

Section alloc.
Context (p : nat) (pt old n xperm : Z) (role : gmap Z ptrole) (s : kstate) (fl lru : list Z).
Context (Hal : old mod PGSIZE = 0) (Hold : 0 ≤ old) (Hn : 0 ≤ n) (Hmax : old + n * PGSIZE ≤ MAXVA) (Hr : is_root role pt).
Context (Hx : 0 ≤ xperm < 1024).
Context (Habs : ∀ i, 0 ≤ i < n → view s pt (old + i * PGSIZE) = None).
Let perm := Z.lor (Z.lor PTE_R PTE_U) xperm.
Let zeros := replicate 4096 0.

Lemma perm_ok : 0 ≤ perm < 1024 ∧ tst perm PTE_U = true.
Proof using Hx.
  split; [apply (lor_range _ _ 10); [lia|by vm_compute|done]|]. change PTE_U with (2 ^ 4). rewrite tst_bit // /perm !Z.lor_spec.
  change (Z.testbit (2 ^ 4) 4) with true. by rewrite orb_true_r.
Qed.
Lemma page_upage i : 0 ≤ i < n → upage role pt (old + i * PGSIZE).
Proof using All. intros Hi. split; [done|]. unfold PGSIZE in *. split; [lia|dlia]. Qed.

(** The pages mapped so far are taken away again. *)
Lemma roll_back k role1 s1 fl1 lru1 : 0 ≤ k ≤ n → grown p pt perm zeros (pages_from old k) role s lru role1 s1 fl1 lru1 →
  wp (uvmdealloc pt (old + k * PGSIZE) old) (λ _ s', ∃ fl' lru', refused p role s role1 s' fl' lru') s1.
Proof using All.
  intros Hk G. pose proof G as [G1 G2 G3 G4 G5 G6 G7 G8]. destruct (decide (k = 0)) as [->|Hk0].
  - rewrite /uvmdealloc (proj2 (Z.leb_le _ _)); [lia|]. apply wp_ret. exists fl1, lru1. split; [done..|].
    intros pt2 va2 Hu. rewrite G6 // decide_False //. intros [_ (i & Hi & _)%elem_of_pages_from]. lia.
  - assert (PGROUNDUP old = old) as E1.
    { rewrite PGROUNDUP_eq; [change MAXVA with 274877906944 in Hmax; unfold PGSIZE in *; lia|]. unfold PGSIZE in *. dlia. }
    assert (PGROUNDUP (old + k * PGSIZE) = old + k * PGSIZE) as E2.
    { rewrite PGROUNDUP_eq; [change MAXVA with 274877906944 in Hmax; unfold PGSIZE in *; lia|]. unfold PGSIZE in *. dlia. }
    wp_use (uvmdealloc_spec s1 role1 fl1 lru1 p pt (old + k * PGSIZE) old G3 G1); [unfold PGSIZE in *; lia|unfold PGSIZE in *; lia| |].
    + rewrite E1 E2. intros i Hi. assert (0 ≤ i < k) as Hik by (unfold PGSIZE in *; dlia).
      apply (grown_evictable p pt perm zeros _ role s lru role1 s1 fl1 lru1 _ G); [apply page_upage; lia| |apply perm_ok].
      apply elem_of_pages_from. by exists i.
    + intros _ s' (_ & fl' & lru' & [U1 U2 U3 U4 U5 U6 U7 U8 U9]). exists fl', lru'. split; [done..|].
      rewrite E1 E2 in U3. intros pt2 va2 Hu. rewrite U3; [by rewrite /upage G5|]. rewrite G6 //.
      replace ((old + k * PGSIZE - old) / PGSIZE) with k by (unfold PGSIZE; dlia).
      destruct (decide (pt2 = pt ∧ va2 ∈ pages_from old k)) as [[E3 E4]|]; [|done].
      apply elem_of_pages_from in E4 as (i & Hi & E4). rewrite E3 E4. symmetry. apply Habs. lia.
Qed.

Lemma uvmalloc_pages j : ∀ k role1 s1 fl1 lru1, 0 ≤ k → n - k = Z.of_nat j →
  grown p pt perm zeros (pages_from old k) role s lru role1 s1 fl1 lru1 →
  wp (uvmalloc_loop (pages_from (old + k * PGSIZE) (n - k)) pt old xperm) (λ ok s', ∃ role' fl' lru',
    if ok then grown p pt perm zeros (pages_from old n) role s lru role' s' fl' lru'
    else refused p role s role' s' fl' lru') s1.
Proof using All.
  induction j as [|j IH]; intros k role1 s1 fl1 lru1 Hk Hj G.
  { replace (n - k) with 0 by lia. apply wp_ret. exists role1, fl1, lru1. by replace n with k by lia. }
  rewrite pages_from_cons; [lia|]. cbn [uvmalloc_loop]. fold perm. set (a := old + k * PGSIZE) in *. apply wp_bind.
  wp_use (kalloc_enlarged s1 role1 fl1 lru1 p); [apply G|apply G|]. intros mem s2 Hres. destruct (mem =? 0).
  { destruct Hres as [Hres _].
    pose proof (space_grown_trans _ _ _ _ _ _ _ _ _ _ _ _ _ _ _ _ _ G (enlarged_grown p pt perm zeros _ _ _ _ _ _ _ _ Hres)) as G2.
    rewrite app_nil_r in G2. apply wp_bind. wp_use (roll_back k role1 s2 fl1 lru1 ltac:(lia) G2).
    intros r s' (fl' & lru' & R). apply wp_ret. exists role1, fl', lru'. exact R. }
  destruct Hres as (fl2 & lru2 & _ & En & _ & Hp & _ & _).
  pose proof (space_grown_trans _ _ _ _ _ _ _ _ _ _ _ _ _ _ _ _ _ G (enlarged_grown p pt perm zeros _ _ _ _ _ _ _ _ En)) as G2.
  rewrite app_nil_r in G2. apply wp_bind, wp_modify. set (s3 := set_mem _ s2).
  destruct (fill_page s2 s2 role1 fl2 lru2 mem p 0) as (F1 & F2 & F3 & F4);
    [apply En|done|split; [apply En|intros i; apply woken_refl|apply same_slots_refl|apply same_views_refl]|lia|].
  change (set_mem (memset (k_mem s2) mem 0 PGSIZE) s2) with s3 in F1, F2, F3, F4. destruct F3 as [A1 A2 [_ _ A3 _] A4].
  assert (grown p pt perm zeros [] role1 s2 lru2 role1 s3 fl2 lru2) as G3.
  { split; [done..| | |].
    - intros pt2 va2 Hu. rewrite decide_False; [by intros [_ ?%elem_of_nil]|by apply A4].
    - intros pt2 va2 v Hl HV _. by apply A3.
    - by intros pt2 va2 v Hl HV [[_ []%elem_of_nil]|Hin]. }
  pose proof (space_grown_trans _ _ _ _ _ _ _ _ _ _ _ _ _ _ _ _ _ G2 G3) as G4. rewrite app_nil_r in G4. clear G2 G3 A1 A2 A3 A4.
  assert (upage role pt a) as Hu by (apply page_upage; lia).
  assert (upage role1 pt a) as Hu1 by (rewrite /upage (gr_roots _ _ _ _ _ _ _ _ _ _ _ _ G4); exact Hu).
  assert (view s3 pt a = None) as Hv.
  { clear F4. pose proof (gr_views _ _ _ _ _ _ _ _ _ _ _ _ G4 pt a Hu) as E. rewrite decide_False in E.
    - intros [_ (i & Hi & E')%elem_of_pages_from]. unfold a, PGSIZE in E'. lia.
    - rewrite E. apply Habs. lia. }
  destruct perm_ok as [Hp1 Hp2]. apply wp_bind.
  wp_use (mappages_page p s3 role1 fl2 lru2 pt a mem perm zeros F1 ltac:(apply G4) Hu1 Hv F2 F4 Hp1 Hp2).
  clear F4. intros r s4 (role4 & fl4 & lru4 & Hres). destruct (r =? 0); destruct Hres as [Hres _]; cbn [negb].
  - pose proof (space_grown_trans _ _ _ _ _ _ _ _ _ _ _ _ _ _ _ _ _ G4 Hres) as G5.
    rewrite -(pages_from_snoc old k Hk) in G5.
    replace (a + PGSIZE) with (old + (k + 1) * PGSIZE) by (unfold a; lia). replace (n - k - 1) with (n - (k + 1)) by lia.
    clear Hres. apply (IH (k + 1) role4 s4 fl4 lru4); [clear - Hk; lia|clear - Hj; lia|exact G5].
  - pose proof (space_grown_trans _ _ _ _ _ _ _ _ _ _ _ _ _ _ _ _ _ G4 (enlarged_grown p pt perm zeros _ _ _ _ _ _ _ _ Hres)) as G5.
    rewrite app_nil_r in G5. apply wp_bind.
    wp_use (kfree_grown p pt perm zeros role4 s4 fl4 lru4 mem); [apply Hres|apply Hres|by apply Hres|]. intros [] s5 G6.
    pose proof (space_grown_trans _ _ _ _ _ _ _ _ _ _ _ _ _ _ _ _ _ G5 G6) as G7. rewrite app_nil_r in G7. apply wp_bind.
    wp_use (roll_back k role4 s5 (mem :: fl4) lru4 ltac:(lia) G7).
    intros _ s' (fl' & lru' & R). apply wp_ret. exists role4, fl', lru'. exact R.
Qed.
End alloc.

End uvmalloc.

