(* ===== verification/Uvmcopy.v ===== *)
(** uvmcopy() of kernel/vm.c: the address space of a child, with enough free
    memory.  (What happens when the copy has to evict pages is shown in
    Findings.v.) *)
From S2P Require Import Prelude Riscv Mem Ring State Sched Bio Walk Swap Kalloc Vm Mm Uvm Machine Unmap Grow Uvmalloc.

Section uvmcopy.
Context `{Image}.

(** ** Pages added to an address space *)

Definition over {A} (x y : option A) : option A := match x with Some _ => x | None => y end.

(** The pages for which [F] is defined appeared in [pt]; no other page of any
    address space changed. *)
Record extended (p : nat) (pt : Z) (F : Z → option (Z * list Z)) (role : gmap Z ptrole) (s : kstate)
    (role' : gmap Z ptrole) (s' : kstate) (fl' lru' : list Z) : Prop := {
  ex_ready : swap_ready p s';
  ex_woken : procs_woken s s';
  ex_mm : mm_inv s' role' fl' lru';
  ex_role P x : role !! P = Some x → role' !! P = Some x;
  ex_roots r : is_root role' r ↔ is_root role r;
  ex_views pt2 va2 : upage role pt2 va2 → view s' pt2 va2 = over (if decide (pt2 = pt) then F va2 else None) (view s pt2 va2)
}.
Definition nothing : Z → option (Z * list Z) := λ _, None.
Definition only (va : Z) (x : Z * list Z) : Z → option (Z * list Z) := λ a, if decide (a = va) then Some x else None.

Lemma extended_trans p pt F G r1 s1 r2 s2 f2 l2 r3 s3 f3 l3 :
  extended p pt F r1 s1 r2 s2 f2 l2 → extended p pt G r2 s2 r3 s3 f3 l3 → extended p pt (λ a, over (G a) (F a)) r1 s1 r3 s3 f3 l3.
Proof.
  intros [A1 A2 A3 A4 A5 A6] [B1 B2 B3 B4 B5 B6]. split; [done|exact (procs_woken_trans _ _ _ A2 B2)|done|auto| |].
  - intros r. by rewrite B5 A5.
  - intros pt2 va2 Hu. rewrite B6; [by rewrite /upage A5|]. rewrite A6 //. case_decide; [|done]. by destruct (G va2).
Qed.
Lemma extended_ext p pt F G role s role' s' fl' lru' : (∀ a, F a = G a) → extended p pt F role s role' s' fl' lru' →
  extended p pt G role s role' s' fl' lru'.
Proof. intros E [A1 A2 A3 A4 A5 A6]. split; [done..|]. intros pt2 va2 Hu. rewrite A6 //. by rewrite E. Qed.
Lemma extended_same p pt role s s' fl' lru' : swap_ready p s' → procs_woken s s' → mm_inv s' role fl' lru' → same_views role s s' →
  extended p pt nothing role s role s' fl' lru'.
Proof.
  intros A1 A2 A3 A4. split; [done..|]. intros pt2 va2 Hu. rewrite A4 //. by case_decide.
Qed.
Lemma grown_extended p pt perm bytes va role s lru role' s' fl' lru' :
  grown p pt perm bytes [va] role s lru role' s' fl' lru' → extended p pt (only va (Z.land perm vmask, bytes)) role s role' s' fl' lru'.
Proof.
  intros [G1 G2 G3 G4 G5 G6 _ _]. split; [done..|]. intros pt2 va2 Hu. rewrite G6 // /only. case_decide as E.
  - destruct E as [-> ->%list_elem_of_singleton]. by rewrite !decide_True.
  - destruct (decide (pt2 = pt)) as [->|]; [|done]. rewrite decide_False; [|done].
    intros ->. apply E. split; [done|]. by apply list_elem_of_singleton.
Qed.
Lemma enlarged_extended p pt role s fl lru role' s' fl' lru' :
  enlarged p role s fl lru role' s' fl' lru' → extended p pt nothing role s role' s' fl' lru'.
Proof.
  intros [E1 E2 E3 E4 E5 E6 _ _ _ _]. split; [done..|]. intros pt2 va2 Hu. rewrite E6 //. by case_decide.
Qed.

(** ** A page that the process may not access *)

(** The page is mapped but not linked into the LRU list: it stays in memory. *)
Lemma mm_forget s s' role fl lru i :
  mm_inv s' role fl (lru ++ [i]) → k_mem s = k_mem s' → k_freelist s = k_freelist s' → k_bitmap s = k_bitmap s' → lru_ok s lru →
  (∀ j, j ∈ lru → pg_pagetable (page_at s j) = pg_pagetable (page_at s' j) ∧ pg_vaddr (page_at s j) = pg_vaddr (page_at s' j)) →
  mm_inv s role fl lru.
Proof.
  intros [I1 I2 I3 [I4 I4'] I5 I6 I7 I8 I9 I10] Em Ef Eb Hlru Hpg.
  assert (∀ j, j ∈ lru → j ∈ lru ++ [i]) as Hin by (intros j Hj; apply elem_of_app; by left).
  split; rewrite /leaf_v /bitmap_at ?Em ?Ef ?Eb; [done..| | | | |done|done|done].
  - split; [done|]. intros pa Hpa. destruct (I4' pa Hpa) as (R1 & R2 & R3). split_and!; [done..|]. intros Hj. by apply R3, Hin.
  - intros j Hj. by apply I5, Hin.
  - intros j Hj. destruct (Hpg j Hj) as [-> ->]. by apply I6, Hin.
  - intros pt va v j Hl HV Hj E. destruct (Hpg j Hj) as [-> ->]. apply (I7 pt va v j); auto.
Qed.

Lemma mappages_silent p s role fl lru pt va pa perm bytes :
  mm_inv s role fl lru → swap_ready p s → upage role pt va → view s pt va = None →
  private s role fl lru pa → rd_bytes (k_mem s) pa 4096 = bytes → 0 ≤ perm < 1024 → tst perm PTE_U = false →
  wp (mappages pt va PGSIZE pa perm) (λ r s', ∃ role' fl' lru',
    if r =? 0 then extended p pt (only va (Z.land perm vmask, bytes)) role s role' s' fl' lru' ∧ (length fl ≤ length fl' + 2)%nat
    else enlarged p role s fl lru role' s' fl' lru' ∧ (length fl ≤ 1)%nat) s.
Proof.
  intros Hmm Hsr Hu Hv Hp Hz Hperm HU. apply (mappages_entry p s role fl lru pt va pa perm); [done..| |].
  - intros role1 s1 fl1 lru1 En Hlen. exists role1, fl1, lru1. by split.
  - intros role1 s1 fl1 lru1 v v' En Hlen Hk Hl HV. rewrite HU. cbn [when]. apply wp_bind, wp_ret, wp_ret.
    exists role1, fl1, lru1. cbn [Z.eqb]. split; [|done]. set (s2 := set_mem _ s1).
    pose proof (en_private _ _ _ _ _ _ _ _ _ En pa Hp) as Hp1. pose proof (en_mm _ _ _ _ _ _ _ _ _ En) as Hmm1.
    destruct (register_attached p s1 role1 fl1 lru1 pt va pa perm v Hmm1 (en_ready _ _ _ _ _ _ _ _ _ En) Hp1 Hl Hperm)
      as ([] & s3 & _ & Hat & Hr3 & Hpr3 & Em & Ef & Eb & Hpg).
    assert (grown p pt perm bytes [va] role1 s1 lru1 role1 s3 fl1 (lru1 ++ [pa / PGSIZE])) as G.
    { apply (attached_grown p pt va perm bytes pa v role1 s1 fl1 lru1 s3); [done..|apply Hp|done| |done|done|done]. by rewrite (Hk pa Hp). }
    apply (extended_ext p pt (λ a, over (only va (Z.land perm vmask, bytes) a) (nothing a))); [intros a; by destruct (only _ _ _)|].
    apply (extended_trans p pt nothing _ role s role1 s1 fl1 lru1); [exact (enlarged_extended _ _ _ _ _ _ _ _ _ _ En)|].
    apply grown_extended in G as [X1 X2 X3 X4 X5 X6]. split; [by apply (swap_ready_ext p s1); [..|apply En]|intros i; apply woken_refl| |done|done|].
    + apply (mm_forget s2 s3 role1 fl1 lru1 (pa / PGSIZE)); [done..|by apply (lru_ok_ext s1); [..|apply Hmm1]|].
      intros j Hj. destruct (Hpg j) as [-> ->]; [|done]. intros ->. by apply (pv_lru _ _ _ _ _ Hp1).
    + intros pt2 va2 Hu2. rewrite -X6 //. apply view_io; [by rewrite Em|]. intros k. by rewrite /slot_bytes /block_at (at_disk _ _ _ _ _ _ _ _ Hat).
Qed.

(** mappages() of a page with any permissions, with two free pages. *)
Lemma mappages_any p s role fl lru pt va pa perm bytes :
  mm_inv s role fl lru → swap_ready p s → upage role pt va → view s pt va = None →
  private s role fl lru pa → rd_bytes (k_mem s) pa 4096 = bytes → 0 ≤ perm < 1024 → (2 ≤ length fl)%nat →
  wp (mappages pt va PGSIZE pa perm) (λ r s', r = 0 ∧ ∃ role' fl' lru',
    extended p pt (only va (Z.land perm vmask, bytes)) role s role' s' fl' lru' ∧ (length fl ≤ length fl' + 2)%nat) s.
Proof.
  intros Hmm Hsr Hu Hv Hp Hz Hperm Hlen. destruct (tst perm PTE_U) eqn:HU.
  - wp_use (mappages_page p s role fl lru pt va pa perm bytes Hmm Hsr Hu Hv Hp Hz Hperm HU).
    intros r s' (role' & fl' & lru' & Hr). destruct (Z.eqb_spec r 0) as [->|_]; [|lia]. destruct Hr as [G Hl]. split; [done|].
    exists role', fl', lru'. split; [|done]. exact (grown_extended _ _ _ _ _ _ _ _ _ _ _ _ G).
  - wp_use (mappages_silent p s role fl lru pt va pa perm bytes Hmm Hsr Hu Hv Hp Hz Hperm HU).
    intros r s' (role' & fl' & lru' & Hr). destruct (Z.eqb_spec r 0) as [->|_]; [|lia]. split; [done|]. by exists role', fl', lru'.
Qed.

(** ** Copying a page *)

(** kalloc() with free memory takes a page off the list and touches no other. *)
Lemma kalloc_free p s role fl lru pt : mm_inv s role fl lru → swap_ready p s → fl ≠ [] →
  wp kalloc (λ pa s', pa ≠ 0 ∧ ∃ fl', fl = pa :: fl' ∧ extended p pt nothing role s role s' fl' lru ∧ private s' role fl' lru pa ∧
    same_slots role s s' ∧
    ∀ P, P mod PGSIZE = 0 → role !! P = None → P ≠ pa → rd_bytes (k_mem s') P 4096 = rd_bytes (k_mem s) P 4096) s.
Proof.
  intros Hmm Hsr Hne. wp_use (kalloc_spec s role fl lru p Hmm Hsr). intros pa s' ([A1 A2 A3 A4] & Hres).
  destruct (Z.eqb_spec pa 0) as [_|Hpa]; [by destruct Hres|]. split; [done|].
  destruct Hres as (fl' & lru' & [[Ef ->]|(Ef & _)] & Hmm' & Hp & _ & Hdat); [|done]. exists fl'. split; [done|].
  split; [by apply extended_same|done].
Qed.

Lemma uvmcopy_child_spec p s role fl lru new i pa flags :
  mm_inv s role fl lru → swap_ready p s → upage role new i → view s new i = None →
  pa mod PGSIZE = 0 → role !! pa = None → pa ∉ fl → 0 ≤ flags < 1024 → (3 ≤ length fl)%nat →
  wp (uvmcopy_child new i pa flags) (λ ok s', ok = true ∧ ∃ role' fl' lru',
    extended p new (only i (Z.land flags vmask, rd_bytes (k_mem s) pa 4096)) role s role' s' fl' lru' ∧
    (length fl ≤ length fl' + 3)%nat) s.
Proof.
  intros Hmm Hsr Hu Hv Hal Hrole Hfl Hf Hlen. rewrite /uvmcopy_child. apply wp_bind.
  wp_use (kalloc_free p s role fl lru new Hmm Hsr); [by intros ->; cbn in Hlen; lia|].
  intros mem s1 (Hne & fl1 & -> & X1 & Hp & _ & Hdat). rewrite (proj2 (Z.eqb_neq _ _) Hne). apply wp_bind, wp_modify.
  set (m2 := memmove _ _ _ _). pose proof X1 as [R1 R2 Hmm1 R4 R5 R6].
  assert (∀ x, ¬ (mem ≤ x < mem + PGSIZE) → ld8 m2 x = ld8 (k_mem s1) x) as Hm.
  { intros x Hx. rewrite /m2 ld8_memmove; [unfold PGSIZE; lia|]. by rewrite decide_False. }
  assert (rd_bytes m2 mem 4096 = rd_bytes (k_mem s) pa 4096) as Hrd.
  { rewrite -(Hdat pa Hal Hrole); [intros ->; apply Hfl; left|]. exact (rd_bytes_memmove (k_mem s1) mem pa PGSIZE ltac:(unfold PGSIZE; lia)). }
  clearbody m2. pose proof (private_mm s1 role fl1 lru mem m2 Hmm1 Hp Hm) as Hmm2.
  pose proof (private_private s1 role fl1 lru mem m2 Hmm1 Hp Hm) as Hp2. pose proof (private_views s1 role fl1 lru mem m2 Hmm1 Hp Hm) as Hv2.
  set (s2 := set_mem m2 s1). fold s2 in Hmm2, Hp2, Hv2. cbn in Hlen.
  assert (swap_ready p s2) as Hr2 by by apply (swap_ready_ext p s1).
  assert (extended p new nothing role s1 role s2 fl1 lru) as X2 by (by apply extended_same; [..|intros j; apply woken_refl| |]).
  apply wp_bind. wp_use (mappages_any p s2 role fl1 lru new i mem flags (rd_bytes (k_mem s) pa 4096) Hmm2 Hr2 Hu); [|done|done|done|lia|].
  { rewrite (Hv2 new i Hu) (R6 new i Hu) Hv. by destruct (decide _). }
  intros r s3 (-> & role3 & fl3 & lru3 & X3 & Hlen3). cbn [Z.eqb negb]. apply wp_ret. split; [done|]. exists role3, fl3, lru3.
  split; [|cbn; lia].
  pose proof (extended_trans _ _ _ _ _ _ _ _ _ _ _ _ _ _ (extended_trans _ _ _ _ _ _ _ _ _ _ _ _ _ _ X1 X2) X3) as X.
  revert X. apply extended_ext. intros a. by destruct (only _ _ _).
Qed.

Lemma restored_range v extra : extra = 0 ∨ extra = PTE_A → 0 ≤ restored_flags v extra < 1024.
Proof.
  intros He. apply (lor_range _ _ 10); [lia| |destruct He as [-> | ->]; by vm_compute].
  apply (flags_set_range _ 0); [lia|]. by apply (flags_clear_range _ 9); [..|apply PTE_FLAGS_range].
Qed.
Lemma view_some s role pt va x : upage role pt va → view s pt va = Some x →
  ∃ v, leaf_v s role pt va v ∧ (tst v PTE_V = true ∧ x = (Z.land v vmask, rd_bytes (k_mem s) (PTE2PA v) 4096) ∨
    tst v PTE_V = false ∧ tst v PTE_S = true).
Proof.
  intros Hu. rewrite /leaf_v /view. destruct (pte_of (k_mem s) pt va) as [v|]; [|done]. intros E. exists v. split; [done|].
  destruct (tst v PTE_V); [left; split; [reflexivity|]; apply (inj Some) in E; symmetry; exact E|right]. by destruct (tst v PTE_S).
Qed.

(** One page of the parent, whether it is in memory or in the swap area. *)
Lemma uvmcopy1_spec p s role fl lru old new i x :
  mm_inv s role fl lru → swap_ready p s → upage role old i → upage role new i → view s old i = Some x → view s new i = None →
  (4 ≤ length fl)%nat →
  wp (uvmcopy1 old new i) (λ ok s', ok = true ∧ ∃ role' fl' lru',
    extended p new (only i x) role s role' s' fl' lru' ∧ (length fl ≤ length fl' + 4)%nat) s.
Proof.
  intros Hmm Hsr Hu Hu' Hv Hv' Hlen. destruct (view_some s role old i x Hu Hv) as (v & Hl & Hcase).
  destruct (leaf_v_walk _ _ _ _ _ Hl) as (Hw & Hld & Hva). rewrite /uvmcopy1. apply wp_bind.
  eapply wp_eq; [by apply walk_gen_ro|]. rewrite (proj2 (Z.eqb_neq _ _) Hw). apply wp_bind, wp_gets. rewrite Hld.
  destruct Hcase as [[HV ->]|[HV HS]]; rewrite HV; cbn [negb].
  - destruct (mi_leaf _ _ _ _ Hmm old i v Hl HV) as [Hno Hfl]. rewrite (land_vmask_flags v).
    wp_use (uvmcopy_child_spec p s role fl lru new i (PTE2PA v) (PTE_FLAGS v)); [done..|apply PTE2PA_aligned|done|done|apply PTE_FLAGS_range|lia|].
    intros ok s' (-> & role' & fl' & lru' & X & Hl'). split; [done|]. exists role', fl', lru'. split; [done|lia].
  - rewrite HS. apply wp_bind. wp_use (kalloc_free p s role fl lru new Hmm Hsr); [by intros ->; cbn in Hlen; lia|].
    intros pa s1 (Hne & fl1 & -> & X1 & Hp & Hsl & _). rewrite (proj2 (Z.eqb_neq _ _) Hne). pose proof X1 as [R1 R2 Hmm1 R4 R5 R6].
    destruct (ss_leaf _ _ _ Hsl _ _ _ Hl HV) as (v1 & Hl1 & (S1 & S2 & S3 & S4)). rewrite -(ss_walk _ _ _ Hsl); [apply Hu|]. apply wp_bind.
    wp_use (swap_in_spec s1 role fl1 lru p old i v1 pa PTE_A Hmm1 R1 Hp Hl1); [congruence|congruence|by right|].
    intros flags s2 (Ef & (Q1 & Q2 & Q3) & Hmm2 & Hl2 & HP2 & HV2 & _). cbn in Hlen.
    assert (extended p new nothing role s1 role s2 fl1 (lru ++ [pa / PGSIZE])) as X2 by (by apply extended_same).
    assert (view s2 old i = Some x) as Hv2.
    { rewrite (Q3 old i Hu) (R6 old i Hu) Hv. by destruct (decide _). }
    assert (x = (Z.land flags vmask, rd_bytes (k_mem s2) pa 4096)) as Ex.
    { rewrite /view (proj2 Hl2) HV2 HP2 in Hv2. apply (inj Some) in Hv2. rewrite -Hv2. rewrite land_vmask_flags.
      destruct (PTE_pack pa flags (Z.lor (PA2PTE pa) flags)) as (_ & _ & ->); [destruct (ram_small pa (pv_ram _ _ _ _ _ Hp)); lia|apply Hp| |reflexivity|reflexivity].
      rewrite Ef. by apply restored_range; right. }
    destruct (mi_leaf _ _ _ _ Hmm2 old i _ Hl2 HV2) as [Hno Hfl]. rewrite HP2 in Hno, Hfl. rewrite Ex.
    wp_use (uvmcopy_child_spec p s2 role fl1 (lru ++ [pa / PGSIZE]) new i pa flags);
      [exact Hmm2|exact Q1|exact Hu'| |apply Hp|exact Hno|exact Hfl|rewrite Ef; by apply restored_range; right|lia|].
    { rewrite (Q3 new i Hu') (R6 new i Hu') Hv'. by destruct (decide _). }
    intros ok s3 (-> & role3 & fl3 & lru3 & X3 & Hl3). split; [reflexivity|]. exists role3, fl3, lru3. split; [|cbn; lia].
    pose proof (extended_trans _ _ _ _ _ _ _ _ _ _ _ _ _ _ (extended_trans _ _ _ _ _ _ _ _ _ _ _ _ _ _ X1 X2) X3) as X.
    revert X. apply extended_ext. intros a. by destruct (only _ _ _).
Qed.

(** ** The whole address space *)

Section copy.
Context (p : nat) (old new n : Z) (role : gmap Z ptrole) (s : kstate) (fl : list Z).
Context (Hold : is_root role old) (Hnew : is_root role new) (Hdiff : old ≠ new) (Hn : 0 ≤ n) (Hmax : n * PGSIZE ≤ MAXVA).
Context (Hsrc : ∀ i, 0 ≤ i < n → view s old (i * PGSIZE) ≠ None).
Context (Hdst : ∀ i, 0 ≤ i < n → view s new (i * PGSIZE) = None).
Context (Hfree : 4 * n ≤ Z.of_nat (length fl)).

Definition copied (k a : Z) : option (Z * list Z) := if decide (a ∈ pages_from 0 k) then view s old a else None.

Lemma copied_step k : 0 ≤ k → ∀ a, over (if decide (a = k * PGSIZE) then view s old a else None) (copied k a) = copied (k + 1) a.
Proof.
  intros Hk a. rewrite /copied. destruct (decide (a = k * PGSIZE)) as [->|Hne].
  - rewrite (decide_True (P := _ ∈ pages_from 0 (k + 1))); [apply elem_of_pages_from; exists k; lia|].
    rewrite decide_False; [intros (i & Hi & E)%elem_of_pages_from; unfold PGSIZE in E; lia|]. by destruct (view _ _ _).
  - cbn [over]. rewrite (decide_ext (a ∈ pages_from 0 k) (a ∈ pages_from 0 (k + 1))) //. rewrite !elem_of_pages_from. split.
    + intros (i & Hi & ->). exists i. lia.
    + intros (i & Hi & ->). exists i. split; [|done]. assert (i ≠ k) by (intros ->; apply Hne; lia). lia.
Qed.
Lemma copy_page i : 0 ≤ i < n → upage role old (i * PGSIZE) ∧ upage role new (i * PGSIZE).
Proof using All. intros Hi. rewrite /upage. unfold PGSIZE in *. split; (split; [done|]); (split; [lia|dlia]). Qed.

Lemma uvmcopy_pages j : ∀ k role1 s1 fl1 lru1, 0 ≤ k → n - k = Z.of_nat j → 4 * (n - k) ≤ Z.of_nat (length fl1) →
  extended p new (copied k) role s role1 s1 fl1 lru1 →
  wp (uvmcopy_loop (pages_from (k * PGSIZE) (n - k)) old new) (λ r s', r = 0 ∧ ∃ role' fl' lru',
    extended p new (copied n) role s role' s' fl' lru') s1.
Proof using All.
  induction j as [|j IH]; intros k role1 s1 fl1 lru1 Hk Hj Hlen X.
  { replace (n - k) with 0 by lia. apply wp_ret. split; [done|]. exists role1, fl1, lru1. by replace n with k by lia. }
  rewrite pages_from_cons; [lia|]. cbn [uvmcopy_loop]. destruct (copy_page k ltac:(lia)) as [Hu1 Hu2]. pose proof X as [R1 R2 Hmm R4 R5 R6].
  assert (∀ pt va, upage role pt va → upage role1 pt va) as Hup by (intros pt va Hu; by rewrite /upage R5).
  destruct (view s old (k * PGSIZE)) as [x|] eqn:Ex; [|by destruct (Hsrc k ltac:(lia))].
  assert (view s1 old (k * PGSIZE) = Some x) as Hv1 by (rewrite (R6 _ _ Hu1) decide_False; [exact Hdiff|exact Ex]).
  assert (view s1 new (k * PGSIZE) = None) as Hv2.
  { rewrite (R6 _ _ Hu2) decide_True; [reflexivity|]. rewrite /copied decide_False; [|apply Hdst; lia].
    intros (i & Hi & E)%elem_of_pages_from. unfold PGSIZE in E. lia. }
  apply wp_bind. wp_use (uvmcopy1_spec p s1 role1 fl1 lru1 old new (k * PGSIZE) x Hmm R1 (Hup _ _ Hu1) (Hup _ _ Hu2) Hv1 Hv2); [lia|].
  intros ok s2 (-> & role2 & fl2 & lru2 & X2 & Hl2).
  replace (k * PGSIZE + PGSIZE) with ((k + 1) * PGSIZE) by lia. replace (n - k - 1) with (n - (k + 1)) by lia.
  apply (IH (k + 1) role2 s2 fl2 lru2); [lia|lia|lia|].
  pose proof (extended_trans _ _ _ _ _ _ _ _ _ _ _ _ _ _ X X2) as X3. revert X3. apply extended_ext. intros a.
  rewrite -(copied_step k Hk a). f_equal. rewrite /only. destruct (decide (a = k * PGSIZE)) as [E|]; [by rewrite E Ex|reflexivity].
Qed.
End copy.

(** C15: fork() gives the child the memory of its parent.  With four free pages for
    each page of the parent, uvmcopy() returns 0; then every page of the child
    has the contents and permissions of the parent's, whether that was in memory
    or in the swap area, and no other page of any address space has changed, the
    parent's included. *)
Theorem uvmcopy_copies s role fl lru p old new sz (n := (sz + PGSIZE - 1) / PGSIZE) :
  mm_inv s role fl lru → swap_ready p s → is_root role old → is_root role new → old ≠ new → 0 ≤ sz ≤ MAXVA →
  (∀ i, 0 ≤ i < n → view s old (i * PGSIZE) ≠ None) → (∀ i, 0 ≤ i < n → view s new (i * PGSIZE) = None) →
  4 * n ≤ Z.of_nat (length fl) →
  wp (uvmcopy old new sz) (λ r s', r = 0 ∧ ∃ role' fl' lru', mm_inv s' role' fl' lru' ∧ swap_ready p s' ∧
    (∀ P x, role !! P = Some x → role' !! P = Some x) ∧
    ∀ pt va, upage role pt va →
      view s' pt va = if decide (pt = new ∧ va ∈ pages_from 0 n) then view s old va else view s pt va) s.
Proof.
  intros Hmm Hsr Hold Hnew Hdiff Hsz Hsrc Hdst Hfree. change MAXVA with 274877906944 in Hsz.
  assert (0 ≤ n ∧ n * PGSIZE ≤ 274877906944) as [Hn Hend] by (unfold n, PGSIZE; dlia).
  rewrite /uvmcopy. assert (page_range 0 sz = pages_from 0 n) as -> by (by rewrite /page_range Z.sub_0_r).
  pose proof (uvmcopy_pages p old new n role s fl Hold Hnew Hdiff Hn Hend Hsrc Hdst Hfree (Z.to_nat n) 0 role s fl lru) as Hwp.
  rewrite Z.mul_0_l Z.sub_0_r in Hwp. wp_use Hwp; [lia|lia|lia| |].
  - apply (extended_ext p new nothing); [intros a; rewrite /copied; destruct (decide (a ∈ pages_from 0 0)) as [Hin|]; [by apply elem_of_nil in Hin|done]|].
    apply extended_same; [done|intros i; apply woken_refl|done|by intros pt va].
  - intros r s' (-> & role' & fl' & lru' & [R1 R2 R3 R4 R5 R6]). split; [done|]. exists role', fl', lru'. split_and!; [done..|].
    intros pt va Hu. rewrite (R6 pt va Hu) /copied. destruct (decide (pt = new)) as [->|Hne].
    + destruct (decide (va ∈ pages_from 0 n)) as [Hin|Hout]; [|by rewrite decide_False; [naive_solver|]].
      rewrite decide_True; [done|]. apply elem_of_pages_from in Hin as (i & Hi & ->).
      pose proof (Hsrc i Hi) as Hs. rewrite Z.add_0_l. by destruct (view s old (i * PGSIZE)).
    + cbn [over]. rewrite decide_False; [naive_solver|done].
Qed.
End uvmcopy.

(** ** A machine with a process of one page, an empty child and four free pages *)

Definition C : Z := PHYSTOP - 9 * PGSIZE.
Definition parent : Z := C.
Definition pdir1 : Z := C + PGSIZE.
Definition pdir0 : Z := C + 2 * PGSIZE.
Definition pframe : Z := C + 3 * PGSIZE.
Definition child : Z := C + 4 * PGSIZE.
Definition free_pages : list Z := [C + 5 * PGSIZE; C + 6 * PGSIZE; C + 7 * PGSIZE; C + 8 * PGSIZE].

#[local] Instance fork_image : Image.
Proof.
  refine {| img_etext := KERNBASE + 2 * PGSIZE; img_end := C; img_trampoline := KERNBASE + PGSIZE |};
    try (vm_compute; reflexivity); try (vm_compute; intuition congruence).
Defined.

Definition ppte : Z := Z.lor (PA2PTE pframe) (Z.lor rw_user PTE_V).
Definition fork_mem : gmap Z Z :=
  st64 (st64 (st64 (st64 (st64 (st64 (st64 (st8 ∅ pframe 77)
    parent (Z.lor (PA2PTE pdir1) PTE_V)) pdir1 (Z.lor (PA2PTE pdir0) PTE_V)) pdir0 ppte)
    (C + 5 * PGSIZE) (C + 6 * PGSIZE)) (C + 6 * PGSIZE) (C + 7 * PGSIZE)) (C + 7 * PGSIZE) (C + 8 * PGSIZE)) (C + 8 * PGSIZE) 0.
Definition fork_role : gmap Z ptrole :=
  <[parent := (parent, 2, 0)]> (<[pdir1 := (parent, 1, 0)]> (<[pdir0 := (parent, 0, 0)]> (<[child := (child, 2, 0)]> ∅))).
Definition ip : Z := pframe / PGSIZE.
Definition fork_machine : kstate :=
  set_bufs boot_bufs (set_freelist (C + 5 * PGSIZE) (set_cur (Some 0%nat) (set_procs {[ 0%nat := proc_a ]}
    (set_lru_head (Some ip) (set_pages {[ ip := Page (Some ip) (Some ip) parent 0 ]} (set_mem fork_mem kstate0)))))).

Lemma fork_ready : swap_ready 0 fork_machine.
Proof. destruct (boot_bc fork_machine) as [H1 H2]; [reflexivity|intros n; reflexivity|by split]. Qed.

Lemma fork_zero P n : forallb (λ i, ld64 fork_mem (P + 8 * i) =? 0) (seqZ n (512 - n)) = true → ∀ i, n ≤ i < 512 → ld64 fork_mem (P + 8 * i) = 0.
Proof. intros Hf i Hi. rewrite forallb_forall in Hf. apply Z.eqb_eq, Hf, list_elem_of_In, elem_of_seqZ. lia. Qed.
Lemma parent_zero i : 1 ≤ i < 512 → ld64 fork_mem (parent + 8 * i) = 0.
Proof. apply fork_zero. vm_compute. reflexivity. Qed.
Lemma pdir1_zero i : 1 ≤ i < 512 → ld64 fork_mem (pdir1 + 8 * i) = 0.
Proof. apply fork_zero. vm_compute. reflexivity. Qed.
Lemma pdir0_zero i : 1 ≤ i < 512 → ld64 fork_mem (pdir0 + 8 * i) = 0.
Proof. apply fork_zero. vm_compute. reflexivity. Qed.
Lemma child_zero i : 0 ≤ i < 512 → ld64 fork_mem (child + 8 * i) = 0.
Proof. apply fork_zero. vm_compute. reflexivity. Qed.

Lemma fork_role_cases P x : fork_role !! P = Some x →
  (P = parent ∧ x = (parent, 2, 0)) ∨ (P = pdir1 ∧ x = (parent, 1, 0)) ∨ (P = pdir0 ∧ x = (parent, 0, 0)) ∨ (P = child ∧ x = (child, 2, 0)).
Proof.
  rewrite /fork_role. intros E. repeat (apply lookup_insert_Some in E as [[<- <-]|[_ E]]; [by auto|]). by rewrite lookup_empty in E.
Qed.
Lemma fork_pt : pt_ok fork_mem fork_role.
Proof.
  split.
  - intros P x [[-> _]|[[-> _]|[[-> _]|[-> _]]]]%fork_role_cases; by vm_compute.
  - intros P r lvl pre i HP Hl Hi HV.
    apply fork_role_cases in HP as [[-> [= -> -> ->]]|[[-> [= -> -> ->]]|[[-> [= -> -> ->]]|[-> [= -> -> ->]]]]]; [| |lia|].
    + destruct (decide (i = 0)) as [->|]; [by vm_compute|]. rewrite parent_zero in HV; [lia|done].
    + destruct (decide (i = 0)) as [->|]; [by vm_compute|]. rewrite pdir1_zero in HV; [lia|done].
    + rewrite child_zero in HV; [lia|done].
Qed.
Lemma fork_leaf pt va v : leaf_v fork_machine fork_role pt va v → tst v PTE_V = true ∨ tst v PTE_S = true →
  pt = parent ∧ va = 0 ∧ v = ppte.
Proof.
  intros [(Hr & Hva & Hal) Hp] Hv. rewrite /pte_of /walk_pure in Hp. change (k_mem fork_machine) with fork_mem in Hp.
  pose proof (PX_range 2 va ltac:(lia)). pose proof (PX_range 1 va ltac:(lia)). pose proof (PX_range 0 va ltac:(lia)).
  apply fork_role_cases in Hr as [[-> _]|[[-> E]|[[-> E]|[-> _]]]]; [|by vm_compute in E..|by rewrite child_zero in Hp].
  split; [done|]. destruct (decide (PX 2 va = 0)) as [E2|N2]; [rewrite E2 in Hp|rewrite parent_zero in Hp; [lia|done]].
  rewrite (_ : ld64 fork_mem (parent + 8 * 0) = Z.lor (PA2PTE pdir1) PTE_V) in Hp; [by vm_compute|].
  rewrite (_ : tst _ PTE_V = true) in Hp; [by vm_compute|]. rewrite (_ : PTE2PA _ = pdir1) in Hp; [by vm_compute|].
  destruct (decide (PX 1 va = 0)) as [E1|N1]; [rewrite E1 in Hp|rewrite pdir1_zero in Hp; [lia|done]].
  rewrite (_ : ld64 fork_mem (pdir1 + 8 * 0) = Z.lor (PA2PTE pdir0) PTE_V) in Hp; [by vm_compute|].
  rewrite (_ : tst _ PTE_V = true) in Hp; [by vm_compute|]. rewrite (_ : PTE2PA _ = pdir0) in Hp; [by vm_compute|].
  destruct (Z.eqb_spec (pdir0 + 8 * PX 0 va) 0) as [|_]; [done|]. injection Hp as <-.
  rewrite (PX_split va) // E2 E1. destruct (decide (PX 0 va = 0)) as [->|]; [by vm_compute|].
  rewrite pdir0_zero in Hv; [lia|]. by destruct Hv.
Qed.
Lemma fork_mm : mm_inv fork_machine fork_role free_pages [ip].
Proof.
  assert (∀ pt va v, leaf_v fork_machine fork_role pt va v → tst v PTE_V = true → pt = parent ∧ va = 0 ∧ v = ppte) as HlV.
  { intros pt va v Hl HV. apply (fork_leaf pt va v Hl). by left. }
  assert (∀ pt va v, leaf_v fork_machine fork_role pt va v → tst v PTE_V = false → tst v PTE_S = true → False) as HlS.
  { intros pt va v Hl HV HS. destruct (fork_leaf pt va v Hl (or_intror HS)) as (_ & _ & ->). by vm_compute in HV. }
  split.
  - exact fork_pt.
  - split; [|done|].
    + split; [by apply (bool_decide_unpack (NoDup [ip])); vm_compute|]. repeat constructor.
    + intros i Hi. rewrite /pnx /page_at. change (k_pages fork_machine) with ({[ ip := Page (Some ip) (Some ip) parent 0 ]} : gmap Z page).
      rewrite lookup_singleton_ne //. intros E. apply Hi. rewrite -E. left.
  - by vm_compute.
  - split; [by apply (bool_decide_unpack _); vm_compute|]. intros pa Hpa.
    rewrite /free_pages !elem_of_cons elem_of_nil in Hpa. destruct Hpa as [->|[->|[->|[->|[]]]]];
      (split; [by vm_compute|]; split; [by vm_compute|by apply (bool_decide_unpack _); vm_compute]).
  - intros i Hi%list_elem_of_singleton. rewrite Hi. by vm_compute.
  - intros i Hi%list_elem_of_singleton. rewrite Hi. exists ppte. by vm_compute.
  - intros pt va v i Hl HV Hi%list_elem_of_singleton E. rewrite Hi. apply HlV in Hl as (-> & -> & ->); done.
  - intros pt va v Hl HV. apply HlV in Hl as (-> & -> & ->); [|done]. split; [done|]. by apply (bool_decide_unpack _); vm_compute.
  - intros pt va v Hl HV HS. by destruct (HlS pt va v Hl HV HS).
  - intros pt va v pt' va' v' Hl HV HS. by destruct (HlS pt va v Hl HV HS).
Qed.

Lemma uvmcopy_copies_witness :
  wp (uvmcopy parent child 4096) (λ r s', r = 0 ∧ ∃ role' fl' lru', mm_inv s' role' fl' lru' ∧ swap_ready 0 s' ∧
    (∀ P x, fork_role !! P = Some x → role' !! P = Some x) ∧
    ∀ pt va, upage fork_role pt va →
      view s' pt va = if decide (pt = child ∧ va ∈ pages_from 0 1) then view fork_machine parent va else view fork_machine pt va) fork_machine.
Proof.
  apply (uvmcopy_copies fork_machine fork_role free_pages [ip] 0 parent child 4096);
    [exact fork_mm|exact fork_ready|done|done|done|done| | |done].
  - intros i Hi. assert (i = 0) as -> by (change (0 ≤ i < 1) in Hi; lia). by vm_compute.
  - intros i Hi. assert (i = 0) as -> by (change (0 ≤ i < 1) in Hi; lia). by vm_compute.
Defined.
