(* ===== verification/Ipc.v ===== *)
(** Communication between processes: pipes as queues, and sleep() with
    wakeup(), with instances on the small machine of Machine.v. *)
From S2P Require Import Prelude Riscv Mem Ring Bytes State Sched Bio Walk Swap Printf Console Kalloc Vm Mm Uvm.
From S2P Require Import Log Fs Window File Machine.

(** A pipe is a first-in first-out queue on the writing side: while there is
    room, pipewrite() returns the number of bytes it could read from the user's
    buffer, exactly these bytes are appended to the queue in order, nothing else
    is changed, and no reader is left asleep. *)
Theorem pipewrite_appends pi pr addr n s :
  pipe_rest pi pr s → pi_readopen (pipe_at s pi) = true → 0 ≤ n →
  n ≤ PIPESIZE - Z.of_nat (length (pipe_bytes (pipe_at s pi))) →
  wp (pipewrite pi addr n) (λ r s', let bs := user_read (Z.to_nat n) (k_mem s) (p_pagetable (proc_at s pr)) addr 0 in
    r = Z.of_nat (length bs) ∧ pipe_rest pi pr s' ∧ k_mem s' = k_mem s ∧ awake (ch_nread pi) pr s' ∧
    (∀ j, j ≠ pi → pipe_at s' j = pipe_at s j) ∧
    pipe_bytes (pipe_at s' pi) = pipe_bytes (pipe_at s pi) ++ bs) s.
Proof.
  intros Hr Ho Hn Hroom. pose proof (pipewrite_spec pi pr addr n s Hr Ho Hn) as H. cbv zeta in H.
  rewrite decide_True in H; [by left|]. destruct H as (s' & E & R1 & R2 & R3 & R4 & _ & _ & _ & R5).
  eapply wp_eq; [exact E|]. by split_and!.
Qed.

(** A full pipe blocks the writer and loses nothing: pipewrite() of more
    readable bytes than fit appends exactly as many as fit, and the writer then
    sleeps on &pi->nwrite, having released the pipe's lock. *)
Theorem pipewrite_full pi pr addr n s :
  pipe_rest pi pr s → pi_readopen (pipe_at s pi) = true → 0 ≤ n →
  let bs := user_read (Z.to_nat n) (k_mem s) (p_pagetable (proc_at s pr)) addr 0 in
  let room := PIPESIZE - Z.of_nat (length (pipe_bytes (pipe_at s pi))) in
  room < n → room ≤ Z.of_nat (length bs) →
  ∃ s', pipewrite pi addr n s = Block s' ∧ asleep (ch_nwrite pi) pr s' ∧ k_mem s' = k_mem s ∧
    pipe_ok (pipe_at s' pi) ∧
    pipe_bytes (pipe_at s' pi) = pipe_bytes (pipe_at s pi) ++ take (Z.to_nat room) bs.
Proof.
  intros Hr Ho Hn bs room H1 H2. pose proof (pipewrite_spec pi pr addr n s Hr Ho Hn) as H. cbv zeta in H.
  rewrite decide_False in H; [|exact H]. fold bs room. lia.
Qed.

(** C14: a round trip through a pipe: what is written from a user buffer into an
    empty pipe, up to its capacity, is read back into another buffer, byte for
    byte and in order; both calls return the full count and the pipe is empty
    again. *)
Theorem pipe_roundtrip role pi pr s src dst psrc pdst n :
  pipe_rest pi pr s → pi_readopen (pipe_at s pi) = true → pipe_bytes (pipe_at s pi) = [] → 0 < n ≤ PIPESIZE →
  buffer_at role false (k_mem s) (p_pagetable (proc_at s pr)) src psrc n →
  buffer_at role true (k_mem s) (p_pagetable (proc_at s pr)) dst pdst n →
  wp (w ← pipewrite pi src n; r ← piperead pi dst n; ret (w, r)) (λ wr s', wr = (n, n) ∧
    rd_bytes (k_mem s') pdst (Z.to_nat n) = rd_bytes (k_mem s) psrc (Z.to_nat n) ∧ pipe_bytes (pipe_at s' pi) = []) s.
Proof.
  intros Hr Hro He Hn Hs Hd. pose proof (pipewrite_spec pi pr src n s Hr Hro) as HW. cbv zeta in HW.
  rewrite (user_read_buffer role _ src psrc) in HW; [by rewrite Z.add_0_l Z2Nat.id; [lia|]|done|].
  rewrite He app_nil_l length_rd_bytes Z.add_0_r Z2Nat.id in HW; [lia|]. cbn [length] in HW.
  set (bs := rd_bytes (k_mem s) psrc (Z.to_nat n)) in *.
  assert (length bs = Z.to_nat n) as Hl by apply length_rd_bytes.
  rewrite decide_True in HW; [left; unfold PIPESIZE in *; lia|].
  destruct HW as (s1 & E1 & Hr1 & Hm1 & _ & _ & Hpt & _ & Hwo & Hb1); [lia|].
  apply wp_bind. eapply wp_eq; [exact E1|]. apply wp_bind.
  destruct (piperead_spec pi pr dst n s1 n (wr_bytes (k_mem s1) (pdst + 0) bs) false) as (s2 & E2 & _ & Hm2 & _ & _ & Hb2); [done|lia| | |].
  - intros _ E. rewrite Hb1 in E. rewrite E in Hl. cbn in Hl. lia.
  - rewrite Hb1 take_ge; [lia|]. rewrite (deliver_buffer role _ dst pdst n); [by rewrite Hm1 Hpt|lia|lia|].
    by rewrite Hl Z2Nat.id; [lia|].
  - eapply wp_eq; [exact E2|]. apply wp_ret. split; [done|]. split.
    + rewrite Hm2 Z.add_0_r -Hl. apply rd_wr_bytes, rd_bytes_bytes.
    + rewrite Hb2 Hb1 drop_ge //. lia.
Qed.

(** The reading side: piperead() delivers the oldest bytes of the queue, in
    order, and removes them from it.  If the buffer cannot be stored to, the byte
    that was taken for it is gone from the queue as well. *)
Theorem piperead_takes pi pr addr n s c m' lost :
  pipe_rest pi pr s → 0 ≤ n → pipe_bytes (pipe_at s pi) ≠ [] →
  deliver (take (Z.to_nat n) (pipe_bytes (pipe_at s pi))) (k_mem s) (p_pagetable (proc_at s pr)) addr 0 = (c, m', lost) →
  wp (piperead pi addr n) (λ r s', r = c ∧ pipe_rest pi pr s' ∧ k_mem s' = m' ∧ awake (ch_nwrite pi) pr s' ∧
    pipe_bytes (pipe_at s' pi) = drop (Z.to_nat (c + if lost : bool then 1 else 0)) (pipe_bytes (pipe_at s pi))) s.
Proof.
  intros Hr Hn He HD. destruct (piperead_spec pi pr addr n s c m' lost Hr Hn (λ _, He) HD)
    as (s' & E & R1 & R2 & R3 & _ & R5). eapply wp_eq; [exact E|]. by split_and!.
Qed.

(** Writing to a pipe that nobody can read returns -1 and changes nothing. *)
Theorem pipewrite_no_reader pi pr addr n s :
  k_locks s = [] → k_cur s = Some pr → pi_readopen (pipe_at s pi) = false → 0 < n →
  pipewrite pi addr n s = Ok (-1) s.
Proof.
  intros Hl Hc Hro Hn. rewrite /pipewrite /myproc {1}/bind {1}/bind /gets Hc /=.
  rewrite {1}/bind acquire_eq; [rewrite Hl; apply not_elem_of_nil|]. rewrite Hl.
  destruct (Z.to_nat n) as [|k] eqn:E; [lia|]. cbn [pipewrite_loop]. rewrite /bind /get_pipe /gets.
  change (pipe_at (set_locks _ s) pi) with (pipe_at s pi). rewrite Hro. cbn [negb]. rewrite {1}/ret.
  erewrite (release_eq _ []); [|done|apply not_elem_of_nil]. rewrite /ret. f_equal. by destruct s; cbn in *; subst.
Qed.


(** ** On the small machine *)

(** A pipe in page [PP], empty and open at both ends. *)
Definition PP : Z := tframe.
Definition pmachine : kstate := set_pipes {[ PP := Pipe ∅ 0 0 true true ]} machine.
Lemma pmachine_rest : pipe_rest PP 0 pmachine.
Proof. repeat split; by vm_compute. Qed.

Lemma user_range w addr pa n : forallb (λ j, bool_decide (user_pa w mem0 root (u64 (addr + j)) = Some (pa + j))) (seqZ 0 n) = true →
  ∀ j, 0 ≤ j < n → user_pa w mem0 root (u64 (addr + j)) = Some (pa + j).
Proof.
  intros Hf j Hj. rewrite forallb_forall in Hf. eapply bool_decide_eq_true, Hf, list_elem_of_In, elem_of_seqZ. lia.
Qed.
Lemma buffer_a : buffer_at role0 false mem0 root 0 frame_a 8.
Proof.
  split; [exact machine_pt|]. split; [by vm_compute|]. split; [apply user_range; by vm_compute|].
  intros P x [[-> _]|[[-> _]|[-> _]]]%role_cases; right; by vm_compute.
Qed.
Lemma buffer_b : buffer_at role0 true mem0 root 4096 frame_b 8.
Proof.
  split; [exact machine_pt|]. split; [by vm_compute|]. split; [apply user_range; by vm_compute|].
  intros P x [[-> _]|[[-> _]|[-> _]]]%role_cases; right; by vm_compute.
Qed.

Lemma pipe_roundtrip_witness :
  wp (w ← pipewrite PP 0 8; r ← piperead PP 4096 8; ret (w, r)) (λ wr s', wr = (8, 8) ∧
    rd_bytes (k_mem s') frame_b 8 = rd_bytes mem0 frame_a 8 ∧ pipe_bytes (pipe_at s' PP) = []) pmachine.
Proof.
  apply (pipe_roundtrip role0 PP 0 pmachine 0 4096 frame_a frame_b 8 pmachine_rest);
    [by vm_compute|by vm_compute|by vm_compute|exact buffer_a|exact buffer_b].
Defined.
Lemma pipewrite_appends_witness :
  wp (pipewrite PP 0 8) (λ r s', let bs := user_read 8 mem0 root 0 0 in
    r = Z.of_nat (length bs) ∧ pipe_rest PP 0 s' ∧ k_mem s' = mem0 ∧ awake (ch_nread PP) 0 s' ∧
    (∀ j, j ≠ PP → pipe_at s' j = pipe_at pmachine j) ∧
    pipe_bytes (pipe_at s' PP) = pipe_bytes (pipe_at pmachine PP) ++ bs) pmachine.
Proof. apply (pipewrite_appends PP 0 0 8 pmachine pmachine_rest); by vm_compute. Defined.

Lemma pipewrite_full_witness :
  ∃ s', pipewrite PP 0 600 pmachine = Block s' ∧ asleep (ch_nwrite PP) 0 s' ∧ k_mem s' = mem0 ∧
    pipe_ok (pipe_at s' PP) ∧
    pipe_bytes (pipe_at s' PP) = pipe_bytes (pipe_at pmachine PP) ++
      take (Z.to_nat (PIPESIZE - Z.of_nat (length (pipe_bytes (pipe_at pmachine PP))))) (user_read (Z.to_nat 600) mem0 root 0 0).
Proof. apply (pipewrite_full PP 0 0 600 pmachine pmachine_rest); by vm_compute. Defined.

(** The pipe with three bytes in it. *)
Definition qmachine : kstate := set_pipes {[ PP := Pipe {[ 511 := 65; 0 := 66; 1 := 67 ]} 511 514 true true ]} machine.
Lemma piperead_takes_witness :
  pipe_bytes (pipe_at qmachine PP) = [65; 66; 67] ∧
  wp (piperead PP 4096 2) (λ r s', r = 2 ∧ pipe_rest PP 0 s' ∧ k_mem s' = st8 (st8 mem0 frame_b 65) (frame_b + 1) 66 ∧
    awake (ch_nwrite PP) 0 s' ∧ pipe_bytes (pipe_at s' PP) = drop (Z.to_nat 2) (pipe_bytes (pipe_at qmachine PP))) qmachine.
Proof.
  split; [by vm_compute|].
  apply (piperead_takes PP 0 4096 2 qmachine 2 (st8 (st8 mem0 frame_b 65) (frame_b + 1) 66) false);
    [repeat split; by vm_compute|done|by vm_compute|by vm_compute].
Defined.

Lemma pipewrite_no_reader_witness :
  pipewrite PP 0 8 (upd_pipe PP (set_pi_readopen false) pmachine) = Ok (-1) (upd_pipe PP (set_pi_readopen false) pmachine).
Proof. apply (pipewrite_no_reader PP 0 0 8 (upd_pipe PP (set_pi_readopen false) pmachine)); by vm_compute. Defined.

