(* ===== verification/Umalloc.v ===== *)
(** The user memory allocator: user/umalloc.c.

    The free blocks form a circular list in order of address, which starts at
    the static header base; a block is a header of 16 bytes followed by its
    payload, and its size counts units of 16 bytes, the header included.

    The heap is described by the list of free blocks and the list of blocks in
    use.  Together they tile what sbrk() gave, no two free blocks are adjacent,
    and malloc() and free() move blocks between the two lists without touching
    the payload of any block in use. *)
From S2P Require Import Prelude Riscv Mem Ring.

(** The memory of the process, the static variable freep, and the size of the
    process. *)
Record heap := Heap { u_mem : gmap Z Z; u_freep : Z; u_brk : Z }.
Definition set_u_mem (m : gmap Z Z) (s : heap) : heap := Heap m (u_freep s) (u_brk s).
Definition set_u_freep (p : Z) (s : heap) : heap := Heap (u_mem s) p (u_brk s).
Definition set_u_brk (b : Z) (s : heap) : heap := Heap (u_mem s) (u_freep s) b.

(** union header *)
Definition HEADER : Z := 16.
Definition s_ptr (m : gmap Z Z) (h : Z) : Z := ld64 m h.
Definition s_size (m : gmap Z Z) (h : Z) : Z := ld32 m (h + 8).
Definition put_ptr (m : gmap Z Z) (h v : Z) : gmap Z Z := st64 m h v.
Definition put_size (m : gmap Z Z) (h v : Z) : gmap Z Z := st32 m (h + 8) v.

Notation U A := (M heap A).
Definition get_ptr (h : Z) : U Z := gets (λ s, s_ptr (u_mem s) h).
Definition get_size (h : Z) : U Z := gets (λ s, s_size (u_mem s) h).
Definition set_ptr (h v : Z) : U unit := modify (λ s, set_u_mem (put_ptr (u_mem s) h v) s).
Definition set_size (h v : Z) : U unit := modify (λ s, set_u_mem (put_size (u_mem s) h v) s).

Section umalloc.
(** The address of the static header. *)
Variable base : Z.
(** Whether the kernel has the memory to grow a process of a size by a number
    of bytes. *)
Variable grant : Z → Z → bool.

(** The system call sbrk(), as sys_sbrk() and growproc() of the kernel answer
    it: the old size, or -1. *)
Definition sbrk (n : Z) : U Z :=
  sz ← gets u_brk;
  if 0 <? n then
    if grant sz n then modify (set_u_brk (sz + n));; ret sz else ret (u64 (-1))
  else
    let new := u64 (sz + n) in
    modify (set_u_brk (if sz <=? new then sz else new));;
    ret sz.

(** The blocks take 16 bytes or more each, so this many steps go around the
    free list more than twice. *)
Definition walk_fuel (s : heap) : nat := Z.to_nat (u_brk s / 8) + 4.

(** for(p = freep; !(bp > p && bp < p->s.ptr); p = p->s.ptr) *)
Fixpoint free_loop (fuel : nat) (bp p : Z) : U Z :=
  match fuel with
  | O => λ _, NoFuel
  | S f =>
      nx ← get_ptr p;
      if (p <? bp) && (bp <? nx) then ret p else
      if (nx <=? p) && ((p <? bp) || (bp <? nx)) then ret p else
      free_loop f bp nx
  end.

(** Joining the freed block to the block after it, and to the block before. *)
Definition join_upper (bp p : Z) : U unit :=
  sz ← get_size bp;
  nx ← get_ptr p;
  if bp + HEADER * sz =? nx then
    nsz ← get_size nx;
    set_size bp (u32 (sz + nsz));;
    nx ← get_ptr p;
    nnx ← get_ptr nx;
    set_ptr bp nnx
  else set_ptr bp nx.
Definition join_lower (bp p : Z) : U unit :=
  psz ← get_size p;
  if p + HEADER * psz =? bp then
    sz ← get_size bp;
    set_size p (u32 (psz + sz));;
    nx ← get_ptr bp;
    set_ptr p nx
  else set_ptr p bp.

Definition free (ap : Z) : U unit :=
  let bp := ap - HEADER in
  fuel ← gets walk_fuel;
  p ← gets u_freep;
  p ← free_loop fuel bp p;
  join_upper bp p;;
  join_lower bp p;;
  modify (set_u_freep p).

(** sbrk() takes an int. *)
Definition morecore (nu : Z) : U Z :=
  let nu := if nu <? 4096 then 4096 else nu in
  p ← sbrk (s32 (nu * HEADER));
  if p =? u64 (-1) then ret 0 else
  set_size p nu;;
  free (p + HEADER);;
  gets u_freep.

(** A block [p] that is large enough is unlinked, or its tail is cut off. *)
Definition take_block (nunits prevp p : Z) : U Z :=
  sz ← get_size p;
  p ← (if sz =? nunits then
         nx ← get_ptr p;
         set_ptr prevp nx;;
         ret p
       else
         set_size p (u32 (sz - nunits));;
         sz ← get_size p;
         let p := p + HEADER * sz in
         set_size p nunits;;
         ret p);
  modify (set_u_freep prevp);;
  ret (p + HEADER).

Fixpoint malloc_loop (fuel : nat) (nunits prevp p : Z) : U Z :=
  match fuel with
  | O => λ _, NoFuel
  | S f =>
      sz ← get_size p;
      if nunits <=? sz then take_block nunits prevp p else
      fp ← gets u_freep;
      if p =? fp then
        q ← morecore nunits;
        if q =? 0 then ret 0 else
        nx ← get_ptr q;
        malloc_loop f nunits q nx
      else
        nx ← get_ptr p;
        malloc_loop f nunits p nx
  end.

Definition malloc (nbytes : Z) : U Z :=
  let nunits := u32 ((nbytes + HEADER - 1) / HEADER + 1) in
  fuel ← gets walk_fuel;
  fp ← gets u_freep;
  (if fp =? 0 then
     modify (set_u_freep base);;
     set_ptr base base;;
     set_size base 0
   else ret tt);;
  prevp ← gets u_freep;
  p ← get_ptr prevp;
  malloc_loop fuel nunits prevp p.
End umalloc.

(** ** Headers in memory *)

Lemma ptr_eq m h v : 0 ≤ v < 2 ^ 64 → s_ptr (put_ptr m h v) h = v.
Proof. apply ld_st64_eq. Qed.
Lemma ptr_ne m h v x : h + 16 ≤ x ∨ x + 16 ≤ h → s_ptr (put_ptr m h v) x = s_ptr m x.
Proof. intros. apply ld_st64_ne. lia. Qed.
Lemma size_eq m h v : 0 ≤ v < 2 ^ 32 → s_size (put_size m h v) h = v.
Proof.
  intros. rewrite /s_size /put_size /ld32 /st32 ld_st_le_eq. by apply Z.mod_small.
Qed.
Lemma size_ne m h v x : h + 16 ≤ x ∨ x + 16 ≤ h → s_size (put_size m h v) x = s_size m x.
Proof. intros. apply (ld_st_le_ne 4 4). lia. Qed.
Lemma size_ptr m h v x : h = x ∨ h + 16 ≤ x ∨ x + 16 ≤ h → s_size (put_ptr m h v) x = s_size m x.
Proof. intros. apply (ld_st_le_ne 4 8). lia. Qed.
Lemma ptr_size m h v x : h = x ∨ h + 16 ≤ x ∨ x + 16 ≤ h → s_ptr (put_size m h v) x = s_ptr m x.
Proof. intros. apply (ld_st_le_ne 8 4). lia. Qed.

(** A change of headers: bytes outside the headers at [hs] stay. *)
Definition hdr_only (hs : list Z) (m m' : gmap Z Z) : Prop :=
  ∀ x, Forall (λ h, ¬ (h ≤ x < h + 16)) hs → ld8 m' x = ld8 m x.
Lemma put_ptr_only m h v : hdr_only [h] m (put_ptr m h v).
Proof. intros x [Hx _]%Forall_cons. apply ld8_st_le_ne. lia. Qed.
Lemma put_size_only m h v : hdr_only [h] m (put_size m h v).
Proof. intros x [Hx _]%Forall_cons. apply ld8_st_le_ne. lia. Qed.
Lemma hdr_only_trans hs m1 m2 m3 : hdr_only hs m1 m2 → hdr_only hs m2 m3 → hdr_only hs m1 m3.
Proof. intros H1 H2 x Hx. rewrite H2 // H1 //. Qed.
Lemma hdr_only_mono hs hs' m1 m2 : hs ⊆ hs' → hdr_only hs m1 m2 → hdr_only hs' m1 m2.
Proof. intros Hs H1 x Hx. apply H1. rewrite !Forall_forall in Hx |- *. auto. Qed.

(** ** Circular lists of headers *)

Definition link (m : gmap Z Z) (e : Z * Z) : Prop := s_ptr m e.1 = e.2.
Definition cyc (m : gmap Z Z) (l : list Z) : Prop :=
  match l with [] => True | a :: l' => Forall (link m) (path a l' a) end.

Lemma cyc_rotate m l1 l2 : cyc m (l1 ++ l2) → cyc m (l2 ++ l1).
Proof.
  destruct l1 as [|a l1], l2 as [|c l2]; simpl; rewrite ?app_nil_r //.
  rewrite !path_app !Forall_app. tauto.
Qed.
Lemma path_sources {A} `{EqDecision A} (a b : A) l : (path a l b).*1 = a :: l.
Proof. revert a; induction l; intros; simpl; f_equal; auto. Qed.
Lemma links_ext m m' a l b :
  (∀ x, x ∈ a :: l → s_ptr m' x = s_ptr m x) → Forall (link m) (path a l b) → Forall (link m') (path a l b).
Proof.
  intros Hx. rewrite !Forall_forall. intros Hl e He. rewrite /link Hx; [|by apply Hl].
  rewrite -(path_sources a b l). by apply list_elem_of_fmap_2.
Qed.
(** The links of a path split at a node. *)
Lemma path_cut {A} `{EqDecision A} (a b : A) l1 t l1' :
  a :: l1 = l1' ++ [t] → ∃ e, e.*1 = l1' ∧ ∀ l, path a (l1 ++ l) b = e ++ path t l b.
Proof.
  revert a l1'; induction l1 as [|c l1 IH]; intros a l1' H.
  - destruct l1' as [|? [|]]; simplify_eq/=. by exists [].
  - destruct l1' as [|x l1']; simpl in H; [done|]. injection H as -> H. destruct (IH c l1' H) as (e & He & Hp).
    exists ((x, c) :: e). split; [simpl; by f_equal|]. intros l. by rewrite /= Hp.
Qed.
Definition tail_links (m : gmap Z Z) (l : list Z) (b : Z) : Prop :=
  match l with [] => True | c :: l' => Forall (link m) (path c l' b) end.
Lemma links_cons m a l b :
  Forall (link m) (path a l b) ↔ s_ptr m a = default b (head l) ∧ tail_links m l b.
Proof. destruct l as [|c l]; rewrite /= Forall_cons ?Forall_nil; done. Qed.
Lemma tail_links_ext m m' l b :
  (∀ x, x ∈ l → s_ptr m' x = s_ptr m x) → tail_links m l b → tail_links m' l b.
Proof. destruct l as [|c l]; [done|]. apply links_ext. Qed.
Lemma path_targets {A} `{EqDecision A} (a b : A) l : (path a l b).*2 = l ++ [b].
Proof. revert a; induction l; intros; simpl; f_equal; auto. Qed.
Lemma cyc_in m l a : cyc m l → a ∈ l → s_ptr m a ∈ l.
Proof.
  intros Hc Ha. apply list_elem_of_split in Ha as (l1 & l2 & ->).
  apply cyc_rotate in Hc. apply links_cons in Hc as [-> _].
  destruct l2 as [|c l2]; simpl; [destruct l1; simpl; set_solver|set_solver].
Qed.
(** A node has one predecessor. *)
Lemma cyc_inj m l a b : cyc m l → NoDup l → a ∈ l → b ∈ l → s_ptr m a = s_ptr m b → a = b.
Proof.
  destruct l as [|c l]; [set_solver|]. intros Hc Hnd Ha Hb He.
  assert (∀ x, x ∈ c :: l → ∃ i, path c l c !! i = Some (x, s_ptr m x)) as Hix.
  { intros x Hx. rewrite -(path_sources c c l) in Hx. apply list_elem_of_fmap in Hx as ([x' y] & -> & Hx).
    apply list_elem_of_lookup in Hx as [i Hi]. exists i. rewrite Hi. simpl. f_equal. f_equal.
    rewrite /= Forall_lookup in Hc. symmetry. exact (Hc i _ Hi). }
  destruct (Hix a Ha) as [i Hi], (Hix b Hb) as [j Hj].
  assert (NoDup (path c l c).*2) as Hnd2.
  { rewrite path_targets. apply NoDup_cons in Hnd as [??]. apply NoDup_app. split_and!; [done| |apply NoDup_singleton].
    set_solver. }
  assert (i = j) as ->.
  { apply (NoDup_lookup (path c l c).*2 i j (s_ptr m a)); [done| |]; rewrite list_lookup_fmap.
    - rewrite Hi. reflexivity.
    - rewrite Hj He. reflexivity. }
  congruence.
Qed.

(** ** Pairwise relations, and blocks that tile the heap *)

Fixpoint pairwise {A} (R : A → A → Prop) (l : list A) : Prop :=
  match l with [] => True | x :: l' => Forall (R x) l' ∧ pairwise R l' end.
Lemma pairwise_app {A} (R : A → A → Prop) l1 l2 :
  pairwise R (l1 ++ l2) ↔ pairwise R l1 ∧ pairwise R l2 ∧ ∀ x y, x ∈ l1 → y ∈ l2 → R x y.
Proof.
  induction l1 as [|a l1 IH]; simpl; [set_solver|]. rewrite IH Forall_app !Forall_forall. set_solver.
Qed.
Lemma pairwise_perm {A} (R : A → A → Prop) l l' :
  (∀ x y, R x y → R y x) → l ≡ₚ l' → pairwise R l → pairwise R l'.
Proof.
  intros Hs Hp. induction Hp as [|x l l' Hp IH|x y l|l1 l2 l3 _ IH1 _ IH2]; simpl; auto.
  - intros [Hf Hl]. split; [by rewrite -Hp|auto].
  - rewrite !Forall_cons. intros [[Hyx ?] [??]]. auto.
Qed.

Definition apart (a b : Z * Z) : Prop := a.1 + 16 * a.2 ≤ b.1 ∨ b.1 + 16 * b.2 ≤ a.1.
Definition units (l : list (Z * Z)) : Z := foldr (λ b n, b.2 + n) 0 l.
Lemma units_app l1 l2 : units (l1 ++ l2) = units l1 + units l2.
Proof. induction l1 as [|a l1 IH]; simpl; lia. Qed.
Lemma units_perm l l' : l ≡ₚ l' → units l = units l'.
Proof. induction 1; simpl; lia. Qed.

(** The blocks of [L] are disjoint and fill the memory from [lo] to [hi]. *)
Record tiles (lo hi : Z) (L : list (Z * Z)) : Prop := {
  tl_apart : pairwise apart L;
  tl_range : Forall (λ b, lo ≤ b.1 ∧ 1 ≤ b.2 ∧ b.1 + 16 * b.2 ≤ hi) L;
  tl_units : 16 * units L = hi - lo
}.

Lemma apart_sym a b : apart a b → apart b a.
Proof. rewrite /apart. tauto. Qed.
Lemma tiles_perm lo hi L L' : L ≡ₚ L' → tiles lo hi L → tiles lo hi L'.
Proof.
  intros Hp [Ha Hr Hu]. split.
  - eapply pairwise_perm; [apply apart_sym|exact Hp|exact Ha].
  - by rewrite -Hp.
  - by rewrite -(units_perm _ _ Hp).
Qed.
Lemma tiles_range lo hi L b : tiles lo hi L → b ∈ L → lo ≤ b.1 ∧ 1 ≤ b.2 ∧ b.1 + 16 * b.2 ≤ hi.
Proof. intros [_ Hr _] Hb. rewrite Forall_forall in Hr. by apply Hr. Qed.
Lemma tiles_cons lo hi a L b : tiles lo hi (a :: L) → b ∈ L → apart a b.
Proof. intros [[Ha _] _ _] Hb. rewrite Forall_forall in Ha. by apply Ha. Qed.

Lemma tiles_merge lo hi a k1 k2 L :
  tiles lo hi ((a, k1) :: (a + 16 * k1, k2) :: L) → tiles lo hi ((a, k1 + k2) :: L).
Proof.
  intros [[Ha1 [Ha2 Hp]] Hr Hu]. rewrite !Forall_cons /= in Ha1 Hr.
  destruct Ha1 as [_ Ha1], Hr as (Hr1 & Hr2 & Hr). split; simpl in *; [|constructor; [simpl; lia|done]|lia].
  split; [|done]. rewrite !Forall_forall in Ha1 Ha2 Hr |- *. intros b Hb.
  specialize (Ha1 b Hb). specialize (Ha2 b Hb). specialize (Hr b Hb). unfold apart in *; cbn [fst snd] in *; lia.
Qed.
Lemma tiles_cut lo hi a k1 k2 L : 1 ≤ k1 → 1 ≤ k2 →
  tiles lo hi ((a, k1 + k2) :: L) → tiles lo hi ((a, k1) :: (a + 16 * k1, k2) :: L).
Proof.
  intros H1 H2 [[Ha Hp] Hr Hu]. rewrite Forall_cons /= in Hr. destruct Hr as [Hr1 Hr]. split; simpl in *.
  - rewrite Forall_cons. split_and!; [unfold apart; cbn [fst snd]; lia| | |done];
      rewrite !Forall_forall in Ha |- *; intros b Hb; specialize (Ha b Hb); unfold apart in *; cbn [fst snd] in *; lia.
  - repeat (constructor; [simpl; lia|]). done.
  - lia.
Qed.
Lemma tiles_grow lo hi k L : 1 ≤ k → lo ≤ hi → tiles lo hi L → tiles lo (hi + 16 * k) ((hi, k) :: L).
Proof.
  intros Hk Hlo [Hp Hr Hu]. split; simpl.
  - split; [|done]. eapply Forall_impl; [exact Hr|]. intros b Hb. unfold apart. cbn [fst snd] in *. lia.
  - constructor; [simpl; lia|]. eapply Forall_impl; [exact Hr|]. intros b Hb. cbn beta in *. lia.
  - lia.
Qed.

(** The first element with a property. *)
Lemma first_split {A} (P : A → Prop) `{∀ x, Decision (P x)} l :
  Forall (λ x, ¬ P x) l ∨ ∃ l1 x l2, l = l1 ++ x :: l2 ∧ Forall (λ x, ¬ P x) l1 ∧ P x.
Proof.
  induction l as [|a l IH]; [by left|]. destruct (decide (P a)) as [Ha|Ha].
  - right. by exists [], a, l.
  - destruct IH as [IH|(l1 & x & l2 & -> & H1 & H2)].
    + left. by constructor.
    + right. exists (a :: l1), x, l2. split_and!; [done|by constructor|done].
Qed.

(** ** The heap *)

Definition gap (a b : Z * Z) : Prop := a.1 + 16 * a.2 < b.1.
Definition sized (m : gmap Z Z) (L : list (Z * Z)) : Prop := Forall (λ b, s_size m b.1 = b.2) L.

Section heap.
Variables base lo : Z.
Hypothesis base_low : 0 < base ∧ base + 16 ≤ lo.

(** [fl] are the free blocks, [al] the blocks in use. *)
Record heap_ready (s : heap) (fl al : list (Z * Z)) : Prop := {
  hr_brk : lo ≤ u_brk s < 2 ^ 36;
  hr_freep : u_freep s ∈ base :: fl.*1;
  hr_cyc : cyc (u_mem s) (base :: fl.*1);
  hr_base : s_size (u_mem s) base = 0;
  hr_sizes : sized (u_mem s) (fl ++ al);
  hr_tiles : tiles lo (u_brk s) (fl ++ al);
  hr_sorted : pairwise gap fl
}.

(** Bytes of the payload of the blocks of [al] are the same. *)
Definition payload_kept (al : list (Z * Z)) (m m' : gmap Z Z) : Prop :=
  ∀ b x, b ∈ al → b.1 + 16 ≤ x < b.1 + 16 * b.2 → ld8 m' x = ld8 m x.

Lemma sized_perm m L L' : L ≡ₚ L' → sized m L → sized m L'.
Proof. rewrite /sized. by intros ->. Qed.
Lemma sized_ext m m' L : (∀ b, b ∈ L → s_size m' b.1 = s_size m b.1) → sized m L → sized m' L.
Proof. rewrite /sized !Forall_forall. intros He Hs b Hb. rewrite He //. by apply Hs. Qed.

(** Sizes and addresses fit their fields. *)
Lemma tiles_bounds hi L b : tiles lo hi L → hi < 2 ^ 36 → b ∈ L →
  lo ≤ b.1 < 2 ^ 36 ∧ 1 ≤ b.2 < 2 ^ 32.
Proof. intros Ht Hh Hb. destruct (tiles_range _ _ _ _ Ht Hb) as (?&?&?). lia. Qed.
Lemma tiles_addr_inj hi L a b : tiles lo hi L → a ∈ L → b ∈ L → a.1 = b.1 → a = b.
Proof.
  intros Ht Ha Hb He. destruct (decide (a = b)) as [|Hne]; [done|exfalso].
  apply elem_of_Permutation in Ha as [L' Hp]. apply (tiles_perm _ _ _ _ Hp) in Ht.
  rewrite Hp in Hb. apply elem_of_cons in Hb as [?|Hb]; [congruence|].
  pose proof (tiles_cons _ _ _ _ _ Ht Hb) as Hab. rewrite /apart in Hab.
  pose proof (tiles_range _ _ _ a Ht ltac:(left)). pose proof (tiles_range _ _ _ b Ht ltac:(by right)). lia.
Qed.
Lemma gap_NoDup fl : pairwise gap fl → Forall (λ b, lo ≤ b.1 ∧ 1 ≤ b.2) fl → NoDup (base :: fl.*1).
Proof.
  intros Hs Hr. apply NoDup_cons. split.
  - intros ([a n] & -> & Hb)%list_elem_of_fmap. rewrite Forall_forall in Hr. apply Hr in Hb. simpl in *. lia.
  - induction fl as [|a fl IH]; simpl; [constructor|]. destruct Hs as [Ha Hs].
    apply Forall_cons in Hr as [Hr1 Hr]. constructor; [|by apply IH].
    intros (b & He & Hb)%list_elem_of_fmap. rewrite Forall_forall in Ha. apply Ha in Hb. rewrite /gap in Hb. lia.
Qed.
(** Two blocks of the free list, in order of address. *)
Lemma sorted_split bp fl : pairwise gap fl → Forall (λ b, 1 ≤ b.2) fl → bp ∉ fl.*1 →
  ∃ l1 l2, fl = l1 ++ l2 ∧ Forall (λ b, b.1 < bp) l1 ∧ Forall (λ b, bp < b.1) l2.
Proof.
  intros Hs Hr Hn. destruct (first_split (λ b, bp < b.1) fl) as [Hf|(l1 & x & l2 & -> & H1 & Hx)].
  - exists fl, []. rewrite app_nil_r. split_and!; [done| |done]. rewrite !Forall_forall in Hf |- *.
    intros b Hb. specialize (Hf b Hb). assert (b.1 ≠ bp) by (intros <-; apply Hn; by apply list_elem_of_fmap_2). lia.
  - exists l1, (x :: l2). split_and!; [done| |].
    + rewrite !Forall_forall in H1 |- *. intros b Hb. specialize (H1 b Hb).
      assert (b.1 ≠ bp) by (intros <-; apply Hn; apply list_elem_of_fmap_2; set_solver). lia.
    + constructor; [done|]. apply pairwise_app in Hs as (_ & [Hxs _] & _).
      rewrite !Forall_forall in Hxs Hr |- *. intros b Hb. specialize (Hxs b Hb). specialize (Hr x ltac:(set_solver)).
      rewrite /gap in Hxs. lia.
Qed.

(** ** free() *)

(** Where the loop stops, and where it goes on. *)
Definition stops (m : gmap Z Z) (bp x : Z) : Prop :=
  let nx := s_ptr m x in x < bp < nx ∨ (nx ≤ x ∧ (x < bp ∨ bp < nx)).
Lemma free_loop_step f bp s p :
  (stops (u_mem s) bp p → free_loop (S f) bp p s = Ok p s) ∧
  (¬ stops (u_mem s) bp p → free_loop (S f) bp p s = free_loop f bp (s_ptr (u_mem s) p) s).
Proof.
  rewrite /stops /=. rewrite /get_ptr {1 2}/bind /=.
  case_match eqn:E1; [revert E1; rewrite andb_true_iff !Z.ltb_lt; split; [done|lia]|].
  revert E1. rewrite andb_false_iff !Z.ltb_ge.
  case_match eqn:E2; revert E2.
  - rewrite andb_true_iff orb_true_iff !Z.ltb_lt Z.leb_le. split; [done|lia].
  - rewrite andb_false_iff orb_false_iff !Z.ltb_ge Z.leb_gt. split; [lia|done].
Qed.
Lemma free_loop_walk f bp s seg p t :
  Forall (link (u_mem s)) (path p seg t) →
  (∀ x, x ∈ p :: seg → ¬ stops (u_mem s) bp x) → stops (u_mem s) bp t →
  free_loop (length seg + 2 + f) bp p s = Ok t s.
Proof.
  intros Hl Hn Ht. revert p Hl Hn; induction seg as [|c seg IH]; intros p Hl Hn;
    apply Forall_cons in Hl as [Hp Hl]; rewrite /link /= in Hp; cbn [length Nat.add];
    (rewrite (proj2 (free_loop_step _ _ _ _)); [apply Hn; left|]); rewrite Hp.
  - by apply free_loop_step.
  - apply IH; [done|]. intros x Hx. apply Hn. by right.
Qed.

Lemma path_increases (a b : Z) l x y : pairwise Z.lt (a :: l) → (x, y) ∈ path a l b →
  (x < y ∧ y ∈ l) ∨ y = b.
Proof.
  revert a; induction l as [|c l IH]; intros a Hs Hxy; simpl in Hxy.
  - apply list_elem_of_singleton in Hxy. simplify_eq. by right.
  - destruct Hs as [[Hac _]%Forall_cons Hs]. apply elem_of_cons in Hxy as [Hxy|Hxy]; simplify_eq.
    + left. split; [done|left].
    + destruct (IH c Hs Hxy) as [[??]|?]; [left; split; [done|by right]|by right].
Qed.
Lemma sorted_nodes fl : pairwise gap fl → Forall (λ b, lo ≤ b.1 ∧ 1 ≤ b.2) fl → pairwise Z.lt (base :: fl.*1).
Proof.
  intros Hs Hr. split.
  - rewrite Forall_fmap. eapply Forall_impl; [exact Hr|]. intros b [??]. simpl. lia.
  - induction fl as [|a fl IH]; [done|]. destruct Hs as [Ha Hs]. apply Forall_cons in Hr as [Hr1 Hr].
    split; [|by apply IH]. rewrite Forall_fmap. eapply Forall_impl; [exact Ha|].
    intros b Hb. rewrite /gap in Hb. simpl. lia.
Qed.

(** The node after which a block at [bp] belongs is the only one at which the
    loop stops. *)
Lemma stops_iff m bp l1 l2 l1' t :
  cyc m (base :: l1.*1 ++ l2.*1) → pairwise Z.lt (base :: l1.*1 ++ l2.*1) → base < bp →
  Forall (λ b : Z * Z, b.1 < bp) l1 → Forall (λ b : Z * Z, bp < b.1) l2 → base :: l1.*1 = l1' ++ [t] →
  ∀ x, x ∈ base :: l1.*1 ++ l2.*1 → stops m bp x ↔ x = t.
Proof.
  intros Hc Hs Hb H1 H2 Ht x Hx.
  assert (∀ y, y ∈ base :: l1.*1 → y < bp) as Hlow.
  { intros y [->|([? ?] & -> & Hy)%list_elem_of_fmap]%elem_of_cons; [done|].
    rewrite Forall_forall in H1. by apply H1 in Hy. }
  assert (∀ y, y ∈ l2.*1 → bp < y) as Hhigh.
  { intros y ([? ?] & -> & Hy)%list_elem_of_fmap. rewrite Forall_forall in H2. by apply H2 in Hy. }
  destruct (path_cut base base l1.*1 t l1' Ht) as (e & He & Hp).
  rewrite /cyc Hp Forall_app in Hc. destruct Hc as [Hce Hct].
  assert (t ∈ base :: l1.*1) as Ht' by (rewrite Ht; set_solver).
  assert (stops m bp t) as Hst.
  { apply links_cons in Hct as [Hpt _]. rewrite /stops Hpt. pose proof (Hlow t Ht').
    destruct l2 as [|c l2]; simpl.
    - right. split; [|by left]. apply elem_of_cons in Ht' as [->|Ht']; [lia|].
      destruct Hs as [Hs _]. rewrite Forall_forall in Hs. rewrite app_nil_r in Hs. apply Hs in Ht'. lia.
    - left. split; [done|]. apply Hhigh. left. }
  split; [|by intros ->]. intros Hsx. destruct (decide (x = t)) as [|Hxt]; [done|exfalso].
  assert (x ∈ l1' ∨ x ∈ l2.*1) as [Hx'|Hx'].
  { rewrite app_comm_cons Ht in Hx. set_solver. }
  - rewrite -He in Hx'. apply list_elem_of_fmap in Hx' as ([x' y] & -> & Hxy). simpl in *.
    rewrite Forall_forall in Hce. pose proof (Hce _ Hxy) as Hl. rewrite /link /= in Hl.
    assert (path base l1.*1 base = e ++ [(t, base)]) as Hpe by (rewrite -{1}(app_nil_r l1.*1) Hp; done).
    assert (y ∈ l1.*1) as Hy.
    { pose proof (path_targets base base l1.*1) as Htg. rewrite Hpe fmap_app in Htg. simpl in Htg.
      apply app_inj_tail in Htg as [<- _]. by apply (list_elem_of_fmap_2' snd _ (x', y)). }
    assert (x' < y) as Hlt.
    { destruct (path_increases base base l1.*1 x' y) as [[? _]| ->]; [|rewrite Hpe; set_solver|done|].
      - apply pairwise_app with (l1 := base :: l1.*1) in Hs. tauto.
      - exfalso. destruct Hs as [Hs _]. rewrite Forall_forall in Hs. specialize (Hs base ltac:(set_solver)). lia. }
    pose proof (Hlow y ltac:(by right)). rewrite /stops Hl in Hsx. lia.
  - pose proof (Hhigh x Hx'). destruct l2 as [|c l2]; [set_solver|].
    apply links_cons in Hct as [_ Hct]. simpl in Hct, Hx'. rewrite -(path_sources c.1 base l2.*1) in Hx'.
    apply list_elem_of_fmap in Hx' as ([x' y] & -> & Hxy). simpl in *.
    rewrite Forall_forall in Hct. pose proof (Hct _ Hxy) as Hl. rewrite /link /= in Hl.
    destruct (path_increases c.1 base l2.*1 x' y) as [[Hlt _]| ->]; [|done| |].
    + apply pairwise_app with (l1 := base :: l1.*1) in Hs. tauto.
    + rewrite /stops Hl in Hsx. lia.
    + rewrite /stops Hl in Hsx. lia.
Qed.

Lemma free_find f bp s l1 l2 l1' t :
  u_freep s ∈ base :: l1.*1 ++ l2.*1 → NoDup (base :: l1.*1 ++ l2.*1) →
  cyc (u_mem s) (base :: l1.*1 ++ l2.*1) → pairwise Z.lt (base :: l1.*1 ++ l2.*1) → base < bp →
  Forall (λ b : Z * Z, b.1 < bp) l1 → Forall (λ b : Z * Z, bp < b.1) l2 → base :: l1.*1 = l1' ++ [t] →
  (length (l1 ++ l2) + 2 ≤ f)%nat → free_loop f bp (u_freep s) s = Ok t s.
Proof.
  intros Hfp Hnd Hc Hs Hb H1 H2 Ht Hf.
  pose proof (stops_iff _ _ _ _ _ _ Hc Hs Hb H1 H2 Ht) as Hstop.
  set (N := base :: l1.*1 ++ l2.*1) in *.
  assert (t ∈ N) as HtN by (rewrite /N app_comm_cons Ht; set_solver).
  assert (length N = S (length (l1 ++ l2))) as HlN by (rewrite /N /= !length_app !length_fmap; done).
  destruct (decide (u_freep s = t)) as [->|Hne].
  { destruct f as [|f]; [lia|]. apply free_loop_step. by apply Hstop. }
  apply list_elem_of_split in Hfp as (A & B & HN). rewrite HN in Hc. apply cyc_rotate in Hc. simpl in Hc.
  assert (t ∈ B ++ A) as Ht' by (rewrite HN in HtN; set_solver).
  apply list_elem_of_split in Ht' as (seg & C & Hseg). rewrite Hseg path_app Forall_app in Hc.
  destruct Hc as [Hc _].
  assert (length (seg ++ t :: C) = length (B ++ A)) as Hle by by rewrite Hseg.
  assert (length N = S (length (B ++ A))) as HlN2 by (rewrite HN !length_app /=; lia).
  rewrite length_app /= in Hle.
  replace f with (length seg + 2 + (f - length seg - 2))%nat by lia.
  apply free_loop_walk; [done| |by apply Hstop].
  intros x Hx. rewrite Hstop.
  - rewrite HN. apply elem_of_app. apply elem_of_cons in Hx as [->|Hx]; [right; left|].
    assert (x ∈ B ++ A) as Hx' by (rewrite Hseg; set_solver). set_solver.
  - intros ->. assert (NoDup (u_freep s :: seg ++ t :: C)) as Hnd'.
    { rewrite -Hseg. rewrite HN in Hnd. assert (u_freep s :: B ++ A ≡ₚ A ++ u_freep s :: B) as -> by solve_Permutation. exact Hnd. }
    apply NoDup_cons in Hnd' as [Hn1 Hn2]. apply elem_of_cons in Hx as [?|Hx]; [congruence|].
    apply NoDup_app in Hn2 as (_ & Hn2 & _). apply (Hn2 t Hx). left.
Qed.

(** Headers other than the one at [h] are the same. *)
Definition other_hdrs (h : Z) (m m' : gmap Z Z) : Prop :=
  ∀ x, h + 16 ≤ x ∨ x + 16 ≤ h → s_ptr m' x = s_ptr m x ∧ s_size m' x = s_size m x.
Lemma tiles_hdr hi b L c : tiles lo hi (b :: L) → c ∈ L → b.1 + 16 ≤ c.1 ∨ c.1 + 16 ≤ b.1.
Proof.
  intros Ht Hc. pose proof (tiles_cons _ _ _ _ _ Ht Hc) as Ha. rewrite /apart in Ha.
  pose proof (tiles_range _ _ _ b Ht ltac:(left)). pose proof (tiles_range _ _ _ c Ht ltac:(by right)). lia.
Qed.

Lemma join_upper_spec s t bp n l1 l2 al (m := u_mem s) (hi := u_brk s) :
  hi < 2 ^ 36 → tiles lo hi ((bp, n) :: l1 ++ l2 ++ al) → Forall (λ b, bp < b.1) l2 → pairwise gap l2 →
  s_size m bp = n → sized m l2 → t + 16 ≤ bp → Forall (link m) (path t l2.*1 base) →
  ∃ n' l2' m1, join_upper bp t s = Ok tt (set_u_mem m1 s) ∧ hdr_only [bp] m m1 ∧ other_hdrs bp m m1 ∧
    s_size m1 bp = n' ∧ s_ptr m1 bp = default base (head l2'.*1) ∧ n ≤ n' ∧ l2' `suffix_of` l2 ∧
    tiles lo hi ((bp, n') :: l1 ++ l2' ++ al) ∧ tail_links m l2'.*1 base ∧ Forall (gap (bp, n')) l2'.
Proof.
  intros Hhi Ht Hlt Hs Hn Hsz Htb [Hnx Htl]%links_cons.
  assert (lo ≤ bp < 2 ^ 36 ∧ 1 ≤ n < 2 ^ 32) as [Hbp Hn1] by (apply (tiles_bounds _ _ (bp, n) Ht Hhi); left).
  assert (∀ c, c ∈ l2 → bp + 16 * n ≤ c.1) as Hup.
  { intros c Hc. pose proof (tiles_cons _ _ _ _ c Ht ltac:(set_solver)) as Ha. rewrite /apart /= in Ha.
    pose proof (tiles_range _ _ _ c Ht ltac:(set_solver)). rewrite Forall_forall in Hlt. apply Hlt in Hc. lia. }
  rewrite /join_upper. destruct (decide (bp + 16 * n = default base (head l2.*1))) as [He|He].
  - destruct l2 as [|[c k] l2]; [simpl in He; lia|]. simpl in He, Hnx, Htl. rewrite -He in Hnx. subst c.
    apply Forall_cons in Hsz as [Hk Hsz]. simpl in Hk. apply links_cons in Htl as [Hnnx Htl].
    assert (tiles lo hi ((bp, n + k) :: l1 ++ l2 ++ al)) as Ht'.
    { apply tiles_merge. eapply tiles_perm; [|exact Ht]. constructor. symmetry. apply (Permutation_middle l1 (l2 ++ al)). }
    pose proof (tiles_bounds _ _ (bp, n + k) Ht' Hhi ltac:(left)) as [_ Hk1]. simpl in Hk1.
    pose proof (tiles_bounds _ _ (bp + 16 * n, k) Ht Hhi ltac:(set_solver)) as [_ Hk2]. simpl in Hk2.
    exists (n + k), l2, (put_ptr (put_size m bp (n + k)) bp (default base (head l2.*1))).
    assert (0 ≤ default base (head l2.*1) < 2 ^ 64) as Hd.
    { destruct l2 as [|c l2]; simpl; [lia|].
      pose proof (tiles_bounds _ _ c Ht Hhi ltac:(set_solver)). lia. }
    split_and!.
    + rewrite /get_size /get_ptr /set_size /set_ptr /bind /= -/m Hn Hnx /HEADER Z.eqb_refl /= -/m Hk.
      rewrite u32_id; [lia|]. rewrite (ptr_size _ _ _ t); [lia|]. rewrite Hnx ptr_size; [lia|]. by rewrite Hnnx.
    + eapply hdr_only_trans; [apply put_size_only|apply put_ptr_only].
    + intros x Hx. rewrite ptr_ne; [lia|]. rewrite ptr_size; [lia|]. rewrite size_ptr; [lia|].
      rewrite size_ne; [lia|]. done.
    + rewrite size_ptr; [lia|]. apply size_eq. lia.
    + by apply ptr_eq.
    + lia.
    + by exists [(bp + 16 * n, k)].
    + done.
    + done.
    + destruct Hs as [Hg _]. eapply Forall_impl; [exact Hg|]. intros b Hb. rewrite /gap /= in Hb |- *. lia.
  - exists n, l2, (put_ptr m bp (default base (head l2.*1))).
    assert (0 ≤ default base (head l2.*1) < 2 ^ 64) as Hd.
    { destruct l2 as [|c l2]; simpl; [lia|].
      pose proof (tiles_bounds _ _ c Ht Hhi ltac:(set_solver)). lia. }
    split_and!.
    + rewrite /get_size /get_ptr /set_ptr /bind /= -/m Hn Hnx /HEADER. by rewrite (proj2 (Z.eqb_neq _ _) He).
    + apply put_ptr_only.
    + intros x Hx. rewrite ptr_ne; [lia|]. rewrite size_ptr; [lia|]. done.
    + by rewrite size_ptr; [lia|].
    + by apply ptr_eq.
    + lia.
    + done.
    + done.
    + done.
    + destruct l2 as [|c l2]; [constructor|]. simpl in He. pose proof (Hup c ltac:(left)).
      destruct Hs as [Hg _]. constructor; [rewrite /gap /=; lia|]. eapply Forall_impl; [exact Hg|].
      pose proof (tiles_range _ _ _ c Ht ltac:(set_solver)). intros b Hb. rewrite /gap /= in Hb |- *. lia.
Qed.

(** The nodes before the last one lie below it. *)
Lemma before_last l1 l1' t : pairwise gap l1 → Forall (λ b, lo ≤ b.1 ∧ 1 ≤ b.2) l1 →
  base :: l1.*1 = l1' ++ [t] → ∀ x, x ∈ l1' → x + 16 ≤ t.
Proof.
  intros Hs Hr Ht x Hx. destruct l1 as [|b l1 _] using rev_ind.
  { destruct l1' as [|? [|]]; simplify_eq/=. set_solver. }
  rewrite fmap_app app_comm_cons in Ht. apply app_inj_tail in Ht as [<- <-].
  apply Forall_app in Hr as [Hr [Hrb _]%Forall_cons]. apply pairwise_app in Hs as (_ & _ & Hg).
  apply elem_of_cons in Hx as [->|Hx]; [lia|]. apply list_elem_of_fmap in Hx as (c & -> & Hc).
  specialize (Hg c b Hc ltac:(left)). rewrite Forall_forall in Hr. apply Hr in Hc. rewrite /gap in Hg. lia.
Qed.

Lemma join_lower_spec s t bp n l1 l2 al l1' e (m := u_mem s) (hi := u_brk s) :
  hi < 2 ^ 36 → tiles lo hi ((bp, n) :: l1 ++ l2 ++ al) → Forall (λ b, b.1 < bp) l1 →
  pairwise gap l1 → Forall (gap (bp, n)) l2 → pairwise gap l2 →
  base :: l1.*1 = l1' ++ [t] → e.*1 = l1' → (∀ l, path base (l1.*1 ++ l) base = e ++ path t l base) →
  s_size m base = 0 → s_size m bp = n → sized m l1 → sized m l2 →
  s_ptr m bp = default base (head l2.*1) → tail_links m l2.*1 base → Forall (link m) e →
  ∃ fl m2, join_lower bp t s = Ok tt (set_u_mem m2 s) ∧ hdr_only [t] m m2 ∧ other_hdrs t m m2 ∧
    t ∈ base :: fl.*1 ∧ cyc m2 (base :: fl.*1) ∧ pairwise gap fl ∧ tiles lo hi (fl ++ al) ∧
    s_size m2 base = 0 ∧ sized m2 fl ∧ (∃ b, b ∈ fl ∧ n ≤ b.2) ∧ (length fl ≤ S (length l1 + length l2))%nat.
Proof.
  intros Hhi Ht H1 Hs1 Hg2 Hs2 Ht1 He Hp Hb Hn Hz1 Hz2 Hpb Htl Hle.
  assert (Forall (λ b, lo ≤ b.1 ∧ 1 ≤ b.2) l1) as Hr1.
  { apply Forall_forall. intros b Hb'. pose proof (tiles_range _ _ _ b Ht ltac:(set_solver)). lia. }
  pose proof (before_last _ _ _ Hs1 Hr1 Ht1) as Hbl.
  assert (lo ≤ bp < 2 ^ 36 ∧ 1 ≤ n < 2 ^ 32) as [Hbp Hn1] by (apply (tiles_bounds _ _ (bp, n) Ht Hhi); left).
  assert (∀ c, c ∈ l1 → c.1 + 16 * c.2 ≤ bp) as Hbelow.
  { intros c Hc. pose proof (tiles_cons _ _ _ _ c Ht ltac:(set_solver)) as Ha. rewrite /apart /= in Ha.
    rewrite Forall_forall in H1. specialize (H1 c Hc). lia. }
  assert (∀ c, c ∈ l2 → bp + 16 ≤ c.1) as Habove.
  { intros c Hc. rewrite Forall_forall in Hg2. apply Hg2 in Hc. rewrite /gap /= in Hc. lia. }
  assert (0 ≤ default base (head l2.*1) < 2 ^ 64) as Hd.
  { destruct l2 as [|c l2]; simpl; [lia|]. pose proof (tiles_bounds _ _ c Ht Hhi ltac:(set_solver)). lia. }
  assert (∀ m2, other_hdrs t m m2 → Forall (link m2) e) as Hle2.
  { intros m2 Ho. rewrite !Forall_forall in Hle |- *. intros [x y] Hx. rewrite /link /=.
    destruct (Ho x) as [-> _]; [right; apply Hbl; rewrite -He; by apply (list_elem_of_fmap_2' fst _ (x, y))|].
    by apply (Hle (x, y)). }
  assert (∀ m2, other_hdrs t m m2 → t + 16 ≤ bp → tail_links m2 l2.*1 base ∧ sized m2 l2) as Ho2.
  { intros m2 Ho Htb. split.
    - eapply tail_links_ext; [|exact Htl]. intros x (c & -> & Hc)%list_elem_of_fmap. apply Ho. apply Habove in Hc. lia.
    - eapply sized_ext; [|exact Hz2]. intros c Hc. apply Ho. apply Habove in Hc. lia. }
  assert (t = base ∧ l1 = [] ∨ ∃ l1a k, l1 = l1a ++ [(t, k)] ∧ base :: l1a.*1 = l1') as Hlast.
  { destruct l1 as [|[t' k] l1 _] using rev_ind.
    - destruct l1' as [|? [|]]; simplify_eq/=. by left.
    - right. rewrite fmap_app app_comm_cons in Ht1. apply app_inj_tail in Ht1 as [<- <-]. by exists l1, k. }
  assert (t + 16 ≤ bp) as Htb.
  { destruct Hlast as [[-> _]|(l1a & k & -> & _)]; [lia|]. pose proof (Hbelow (t, k) ltac:(set_solver)).
    rewrite Forall_forall in Hr1. specialize (Hr1 (t, k) ltac:(set_solver)). simpl in *. lia. }
  rewrite /join_lower. destruct (decide (t + 16 * s_size m t = bp)) as [Hj|Hj].
  - destruct Hlast as [[-> _]|(l1a & k & -> & <-)]; [lia|]. apply Forall_app in Hz1 as [Hz1 [Hk _]%Forall_cons].
    simpl in Hk. rewrite Hk in Hj.
    assert (tiles lo hi ((t, k + n) :: l1a ++ l2 ++ al)) as Ht'.
    { apply tiles_merge. rewrite Hj. eapply tiles_perm; [|exact Ht]. rewrite -!app_assoc. simpl. solve_Permutation. }
    pose proof (tiles_bounds _ _ (t, k + n) Ht' Hhi ltac:(left)) as [_ Hk1]. simpl in Hk1.
    set (m2 := put_ptr (put_size m t (k + n)) t (default base (head l2.*1))).
    assert (other_hdrs t m m2) as Ho.
    { intros x Hx. rewrite /m2 ptr_ne; [lia|]. rewrite ptr_size; [lia|]. rewrite size_ptr; [lia|].
      by rewrite size_ne; [lia|]. }
    destruct (Ho2 m2 Ho Htb) as [Htl2 Hz2']. exists (l1a ++ (t, k + n) :: l2), m2. split_and!.
    + rewrite /get_size /get_ptr /set_size /set_ptr /bind /= -/m Hk /HEADER Hj Z.eqb_refl /= -/m Hn.
      rewrite u32_id; [lia|]. rewrite ptr_size; [lia|]. by rewrite Hpb.
    + eapply hdr_only_trans; [apply put_size_only|apply put_ptr_only].
    + done.
    + right. rewrite fmap_app. set_solver.
    + rewrite /cyc. assert ((l1a ++ (t, k + n) :: l2).*1 = (l1a ++ [(t, k)]).*1 ++ l2.*1) as ->
        by by rewrite !fmap_app -app_assoc.
      rewrite Hp Forall_app. split; [by apply Hle2|]. apply links_cons. split; [by apply ptr_eq|done].
    + apply pairwise_app in Hs1 as (Hs1 & _ & Hg1). apply pairwise_app. split_and!; [done| |].
      * split; [|done]. eapply Forall_impl; [exact Hg2|]. intros b Hb'. rewrite /gap /= in Hb' |- *. lia.
      * intros x y Hx Hy. specialize (Hg1 x (t, k) Hx ltac:(left)). rewrite /gap /= in Hg1.
        apply elem_of_cons in Hy as [->|Hy]; [done|]. apply Habove in Hy. rewrite /gap. lia.
    + eapply tiles_perm; [|exact Ht']. rewrite -!app_assoc /=. solve_Permutation.
    + rewrite (proj2 (Ho base _)) //. right. apply Hbl. left.
    + apply Forall_app. split; [|constructor; [|done]].
      * eapply sized_ext; [|exact Hz1]. intros c Hc. apply Ho. right. apply Hbl. right. by apply list_elem_of_fmap_2.
      * simpl. rewrite /m2 size_ptr; [lia|]. apply size_eq. lia.
    + exists (t, k + n). split; [set_solver|]. simpl. apply Forall_app in Hr1 as [_ [Hk2 _]%Forall_cons]. simpl in *. lia.
    + rewrite !length_app /=. lia.
  - set (m2 := put_ptr m t bp).
    assert (other_hdrs t m m2) as Ho.
    { intros x Hx. rewrite /m2 ptr_ne; [lia|]. by rewrite size_ptr; [lia|]. }
    destruct (Ho2 m2 Ho Htb) as [Htl2 Hz2']. exists (l1 ++ (bp, n) :: l2), m2.
    assert (∀ x, s_size m2 x = s_size m x ∨ ¬ (x = t ∨ t + 16 ≤ x ∨ x + 16 ≤ t)) as Hsz.
    { intros x. destruct (decide (x = t ∨ t + 16 ≤ x ∨ x + 16 ≤ t)) as [Hx|]; [|by right].
      left. rewrite /m2 size_ptr //. lia. }
    split_and!.
    + rewrite /get_size /set_ptr /bind /= -/m /HEADER. by rewrite (proj2 (Z.eqb_neq _ _) Hj).
    + apply put_ptr_only.
    + done.
    + rewrite fmap_app app_comm_cons Ht1. set_solver.
    + rewrite /cyc fmap_app Hp Forall_app. split; [by apply Hle2|]. constructor; [rewrite /link; apply ptr_eq; simpl; lia|].
      apply links_cons. split; [|done]. cbn [fst]. rewrite /m2 ptr_ne; [lia|done].
    + apply pairwise_app. split_and!; [done|by split|]. intros x y Hx Hy.
      assert (gap x (bp, n)) as Hgx.
      { destruct Hlast as [[_ ->]|(l1a & k & -> & _)]; [set_solver|]. pose proof (Hbelow x Hx).
        rewrite /gap /=. apply pairwise_app in Hs1 as (_ & _ & Hg1). apply elem_of_app in Hx as [Hx|Hx].
        - specialize (Hg1 x (t, k) Hx ltac:(left)). rewrite /gap /= in Hg1. lia.
        - apply list_elem_of_singleton in Hx as ->. simpl in *. apply Forall_app in Hz1 as [_ [Hk _]%Forall_cons].
          simpl in Hk. rewrite Hk in Hj. lia. }
      apply elem_of_cons in Hy as [->|Hy]; [done|]. apply Habove in Hy. rewrite /gap /= in Hgx |- *. lia.
    + eapply tiles_perm; [|exact Ht]. rewrite -!app_assoc /=. apply Permutation_middle.
    + destruct (Hsz base) as [-> | Hx]; [done|]. exfalso. apply Hx.
      destruct Hlast as [[-> _]|(l1a & k & -> & _)]; [by left|right; right].
      rewrite Forall_forall in Hr1. specialize (Hr1 (t, k) ltac:(set_solver)). simpl in *. lia.
    + apply Forall_app. split; [|constructor; [|done]].
      * eapply sized_ext; [|exact Hz1]. intros c Hc. destruct (Hsz c.1) as [-> | Hx]; [done|]. exfalso. apply Hx.
        assert (c.1 ∈ base :: l1.*1) as Hc' by (right; by apply list_elem_of_fmap_2). rewrite Ht1 in Hc'.
        apply elem_of_app in Hc' as [Hc'|Hc']; [right; right; by apply Hbl|left; by apply list_elem_of_singleton].
      * simpl. destruct (Hsz bp) as [-> | Hx]; [done|]. lia.
    + exists (bp, n). split; [set_solver|simpl; lia].
    + rewrite length_app /=. lia.
Qed.

Lemma tiles_length hi L : lo ≤ hi → tiles lo hi L → Z.of_nat (length L) ≤ hi / 16.
Proof.
  intros Hh [_ Hr Hu]. assert (Z.of_nat (length L) ≤ units L) as Hl.
  { clear Hu. induction Hr as [|b L Hb Hr IH]; simpl; lia. }
  apply Z.div_le_lower_bound; lia.
Qed.
Lemma walk_fuel_enough s fl al : heap_ready s fl al → (2 * length fl + 4 ≤ walk_fuel s)%nat.
Proof.
  intros [Hb _ _ _ _ Ht _]. apply tiles_length in Ht; [|lia]. rewrite length_app in Ht. rewrite /walk_fuel.
  assert (2 * (u_brk s / 16) ≤ u_brk s / 8) by dlia. lia.
Qed.

Lemma free_spec s fl bp n al : heap_ready s fl ((bp, n) :: al) →
  ∃ fl' s', free (bp + 16) s = Ok tt s' ∧ heap_ready s' fl' al ∧ payload_kept al (u_mem s) (u_mem s') ∧
    u_brk s' = u_brk s ∧ (∃ b, b ∈ fl' ∧ n ≤ b.2) ∧ (length fl' ≤ S (length fl))%nat.
Proof.
  intros Hr. pose proof (walk_fuel_enough _ _ _ Hr) as Hf. destruct Hr as [Hbrk Hfp Hc Hb Hz Ht Hs].
  assert (tiles lo (u_brk s) ((bp, n) :: fl ++ al)) as Ht1.
  { eapply tiles_perm; [|exact Ht]. symmetry. apply Permutation_middle. }
  assert (lo ≤ bp) as Hbp by apply (tiles_range _ _ _ (bp, n) Ht1 ltac:(left)).
  assert (Forall (λ b, lo ≤ b.1 ∧ 1 ≤ b.2) fl) as Hr.
  { apply Forall_forall. intros b Hb'. pose proof (tiles_range _ _ _ b Ht ltac:(set_solver)). lia. }
  assert (bp ∉ fl.*1) as Hnin.
  { intros (b & -> & Hb')%list_elem_of_fmap. pose proof (tiles_hdr _ _ _ b Ht1 ltac:(set_solver)). simpl in *. lia. }
  destruct (sorted_split bp fl Hs) as (l1 & l2 & -> & H1 & H2); [|done|].
  { eapply Forall_impl; [exact Hr|]. by intros b []. }
  destruct (exists_last (l := base :: l1.*1)) as (l1' & t & Hl1); [done|].
  pose proof (gap_NoDup _ Hs Hr) as Hnd. pose proof (sorted_nodes _ Hs Hr) as Hsn.
  rewrite fmap_app in Hfp, Hc, Hnd, Hsn. rewrite -app_assoc in Ht1.
  apply pairwise_app in Hs as (Hs1 & Hs2 & _). apply Forall_app in Hr as [Hr1 Hr2].
  rewrite /sized -!app_assoc !Forall_app Forall_cons in Hz. destruct Hz as (Hz1 & Hz2 & Hn & Hza). simpl in Hn.
  destruct (path_cut base base l1.*1 t l1' Hl1) as (e & He & Hp).
  rewrite /cyc Hp Forall_app in Hc. destruct Hc as [Hce Hct].
  assert (t + 16 ≤ bp) as Htb.
  { assert (t ∈ base :: l1.*1) as Ht' by (rewrite Hl1; set_solver). apply elem_of_cons in Ht' as [->|Ht']; [lia|].
    apply list_elem_of_fmap in Ht' as (b & -> & Hb'). pose proof (tiles_hdr _ _ _ b Ht1 ltac:(set_solver)).
    rewrite Forall_forall in H1. specialize (H1 b Hb'). simpl in *. lia. }
  assert (free_loop (walk_fuel s) bp (u_freep s) s = Ok t s) as Hff.
  { apply (free_find _ _ _ l1 l2 l1' t); try done; [rewrite /cyc Hp Forall_app; by split|lia|lia]. }
  destruct (join_upper_spec s t bp n l1 l2 al) as (n' & l2' & m1 & Hu & Hm1 & Ho1 & Hn' & Hpb & Hnn & Hsuf & Ht2 & Htl & Hg2);
    [lia|done..|].
  destruct Hsuf as [pre ->]. apply pairwise_app in Hs2 as (_ & Hs2 & _).
  apply Forall_app in Hz2 as [_ Hz2]. apply Forall_app in H2 as [_ H2].
  assert (∀ c, c ∈ l1 ++ l2' ++ al → s_ptr m1 c.1 = s_ptr (u_mem s) c.1 ∧ s_size m1 c.1 = s_size (u_mem s) c.1) as Hoth.
  { intros c Hc. apply Ho1. pose proof (tiles_hdr _ _ _ c Ht2 Hc). simpl in *. lia. }
  destruct (join_lower_spec (set_u_mem m1 s) t bp n' l1 l2' al l1' e) as
    (fl & m2 & Hl & Hm2 & Ho2 & Hin & Hcy & Hs' & Ht3 & Hb2 & Hz3 & (b & Hbf & Hbn) & Hlen);
    [simpl; lia|done|done|done|done|done|done|done|done|..].
  { simpl. rewrite (proj2 (Ho1 base _)) //. lia. }
  { done. }
  { eapply sized_ext; [|exact Hz1]. intros c Hc. apply Hoth. set_solver. }
  { eapply sized_ext; [|exact Hz2]. intros c Hc. apply Hoth. set_solver. }
  { done. }
  { eapply tail_links_ext; [|exact Htl]. intros x (c & -> & Hc)%list_elem_of_fmap. apply Hoth. set_solver. }
  { rewrite !Forall_forall in Hce |- *. intros [x y] Hxy. rewrite /link /=.
    assert (x ∈ base :: l1.*1) as Hx.
    { rewrite Hl1. apply elem_of_app. left. rewrite -He. by apply (list_elem_of_fmap_2' fst _ (x, y)). }
    apply elem_of_cons in Hx as [->|Hx].
    - rewrite (proj1 (Ho1 base _)); [lia|]. by apply (Hce (base, y)).
    - apply list_elem_of_fmap in Hx as (c & -> & Hc). rewrite (proj1 (Hoth c _)); [set_solver|]. by apply (Hce (c.1, y)). }
  exists fl, (set_u_freep t (set_u_mem m2 s)).
  assert (∀ c, c ∈ al → t + 16 ≤ c.1 ∨ c.1 + 16 * c.2 ≤ t ∧ 1 ≤ c.2) as Hta.
  { intros c Hc. pose proof (tiles_range _ _ _ c Ht2 ltac:(set_solver)).
    assert (t ∈ base :: l1.*1) as Ht' by (rewrite Hl1; set_solver). apply elem_of_cons in Ht' as [->|Ht']; [lia|].
    apply list_elem_of_fmap in Ht' as (d & -> & Hd). pose proof (tiles_range _ _ _ d Ht2 ltac:(set_solver)).
    destruct Ht2 as [[_ Hpw] _ _]. apply pairwise_app in Hpw as (_ & _ & Hpw).
    specialize (Hpw d c Hd ltac:(set_solver)). rewrite /apart in Hpw. lia. }
  split_and!.
  - rewrite /free /HEADER Z.add_simpl_r /bind /=.
    by rewrite Hff Hu Hl.
  - split; simpl; try done. eapply Forall_app. split; [done|]. eapply sized_ext; [|exact Hza]. intros c Hc.
    rewrite (proj2 (Ho2 c.1 _)); [destruct (Hta c Hc); lia|]. apply Hoth. set_solver.
  - intros c x Hc Hx. simpl. rewrite Hm2.
    + constructor; [|constructor]. destruct (Hta c Hc); lia.
    + apply Hm1. constructor; [|constructor]. pose proof (tiles_cons _ _ _ _ c Ht2 ltac:(set_solver)) as Ha.
      rewrite /apart /= in Ha. pose proof (tiles_range _ _ _ (bp, n') Ht2 ltac:(left)). simpl in *. lia.
  - done.
  - exists b. split; [done|lia].
  - rewrite !length_app. lia.
Qed.

(** ** malloc() *)

(** Every node of the list lies outside the blocks. *)
Lemma node_apart s fl al x b : heap_ready s fl al → x ∈ base :: fl.*1 → b ∈ fl ++ al → x ≠ b.1 →
  x + 16 ≤ b.1 ∨ b.1 + 16 * b.2 ≤ x.
Proof.
  intros [_ _ _ _ _ Ht _] Hx Hb Hne. pose proof (tiles_range _ _ _ b Ht Hb).
  apply elem_of_cons in Hx as [->|Hx]; [lia|]. apply list_elem_of_fmap in Hx as (c & -> & Hc).
  apply elem_of_Permutation in Hb as [L Hp]. apply (tiles_perm _ _ _ _ Hp) in Ht.
  assert (c ∈ b :: L) as Hc' by (rewrite -Hp; set_solver). apply elem_of_cons in Hc' as [->|Hc']; [done|].
  pose proof (tiles_cons _ _ _ _ _ Ht Hc') as Ha. rewrite /apart in Ha.
  pose proof (tiles_range _ _ _ c Ht ltac:(by right)). lia.
Qed.

Lemma take_exact s fl al prevp q k : heap_ready s fl al → (q, k) ∈ fl → prevp ∈ base :: fl.*1 →
  s_ptr (u_mem s) prevp = q →
  let s' := set_u_freep prevp (set_u_mem (put_ptr (u_mem s) prevp (s_ptr (u_mem s) q)) s) in
  ∃ fl', heap_ready s' fl' ((q, k) :: al) ∧ payload_kept al (u_mem s) (u_mem s').
Proof.
  intros Hr Hq Hpv Hl s'. assert (∀ b, b ∈ fl ++ al → prevp = b.1 ∨ prevp + 16 ≤ b.1 ∨ b.1 + 16 * b.2 ≤ prevp) as Hap.
  { intros b Hb. destruct (decide (prevp = b.1)); [by left|right]. by apply (node_apart _ _ _ _ _ Hr). }
  destruct Hr as [Hbrk Hfp Hc Hb Hz Ht Hs].
  apply list_elem_of_split in Hq as (f1 & f2 & ->).
  assert (Forall (λ b, lo ≤ b.1 ∧ 1 ≤ b.2) (f1 ++ (q, k) :: f2)) as Hr.
  { apply Forall_forall. intros b Hb'. pose proof (tiles_range _ _ _ b Ht ltac:(set_solver)). lia. }
  pose proof (gap_NoDup _ Hs Hr) as Hnd.
  destruct (exists_last (l := base :: f1.*1)) as (n1 & t & Hn1); [done|].
  destruct (path_cut base base f1.*1 t n1 Hn1) as (e & He & Hp).
  pose proof Hc as Hc0. rewrite /cyc fmap_app fmap_cons Hp Forall_app Forall_cons in Hc.
  destruct Hc as (Hce & Htq & Hcq). rewrite /link /= in Htq. cbn [fst] in Hcq.
  assert (prevp = t) as ->.
  { eapply cyc_inj; [exact Hc0|done|done| |rewrite Hl; symmetry; exact Htq]. rewrite fmap_app app_comm_cons Hn1. set_solver. }
  apply links_cons in Hcq as [Hqn Htl]. rewrite /s' Hqn.
  assert (0 ≤ default base (head f2.*1) < 2 ^ 64) as Hd.
  { destruct f2 as [|c f2]; simpl; [lia|]. pose proof (tiles_bounds _ _ c Ht ltac:(lia) ltac:(set_solver)). lia. }
  assert (∀ x, x ∈ base :: (f1 ++ (q, k) :: f2).*1 → x ≠ t → t + 16 ≤ x ∨ x + 16 ≤ t) as Hap2.
  { intros x Hx Hne. apply elem_of_cons in Hx as [->|Hx].
    - assert (t ∈ base :: f1.*1) as Ht' by (rewrite Hn1; set_solver). apply elem_of_cons in Ht' as [->|Ht']; [done|].
      apply list_elem_of_fmap in Ht' as (c & -> & Hc'). pose proof (tiles_range _ _ _ c Ht ltac:(set_solver)). lia.
    - apply list_elem_of_fmap in Hx as (c & -> & Hc'). destruct (Hap c ltac:(set_solver)) as [?|[?|?]]; [congruence|lia|].
      pose proof (tiles_range _ _ _ c Ht ltac:(set_solver)). lia. }
  rewrite fmap_app app_comm_cons Hn1 -app_assoc in Hnd. apply NoDup_app in Hnd as (_ & Hnd1 & [Hnd2 Hnd3]%NoDup_cons).
  exists (f1 ++ f2). split; [split; simpl|].
  - done.
  - rewrite fmap_app app_comm_cons Hn1. set_solver.
  - rewrite fmap_app Hp Forall_app. split.
    + rewrite !Forall_forall in Hce |- *. intros [x y] Hx. rewrite /link /=.
      assert (x ∈ n1) as Hx1 by (rewrite -He; by apply (list_elem_of_fmap_2' fst _ (x, y))).
      rewrite ptr_ne; [|by apply (Hce (x, y))]. apply Hap2.
      * rewrite fmap_app app_comm_cons Hn1. set_solver.
      * intros ->. apply (Hnd1 _ Hx1). left.
    + apply links_cons. split; [by apply ptr_eq|]. eapply tail_links_ext; [|exact Htl].
      intros x Hx. apply ptr_ne, Hap2; [rewrite fmap_app; set_solver|]. intros ->. apply Hnd2. set_solver.
  - rewrite size_ptr; [|done]. destruct (decide (base = t)) as [->|]; [by left|right].
    apply Hap2; [left|done].
  - eapply sized_perm with (L := (f1 ++ (q, k) :: f2) ++ al); [rewrite -!app_assoc /=; solve_Permutation|].
    eapply sized_ext; [|exact Hz]. intros b Hb'. apply size_ptr.
    destruct (Hap b Hb') as [?|[?|?]]; [by left|by right; left|].
    pose proof (tiles_range _ _ _ b Ht Hb'). right; right. lia.
  - eapply tiles_perm; [|exact Ht]. rewrite -!app_assoc /=. solve_Permutation.
  - apply pairwise_app in Hs as (H1 & [_ H2] & H3). apply pairwise_app. split_and!; [done..|]. set_solver.
  - intros b x Hb' Hx. apply ld8_st_le_ne. destruct (Hap b ltac:(set_solver)) as [?|[?|?]]; lia.
Qed.

Lemma take_cut s fl al prevp q k1 k : heap_ready s fl al → (q, k1 + k) ∈ fl → prevp ∈ base :: fl.*1 → 1 ≤ k1 → 1 ≤ k →
  let s' := set_u_freep prevp (set_u_mem (put_size (put_size (u_mem s) q k1) (q + 16 * k1) k) s) in
  ∃ fl', heap_ready s' fl' ((q + 16 * k1, k) :: al) ∧ payload_kept al (u_mem s) (u_mem s').
Proof.
  intros Hr Hq Hpv Hk1 Hk s'.
  assert (∀ x, x ∈ base :: fl.*1 → x ≠ q → x + 16 ≤ q ∨ q + 16 * (k1 + k) ≤ x) as Hap.
  { intros x Hx Hne. apply (node_apart _ _ _ _ (q, k1 + k) Hr Hx); [set_solver|done]. }
  destruct Hr as [Hbrk Hfp Hc Hb Hz Ht Hs].
  assert (∀ x, x ∈ base :: fl.*1 → s_ptr (u_mem s') x = s_ptr (u_mem s) x) as Hptr.
  { intros x Hx. rewrite /s' /=. destruct (decide (x = q)) as [->|Hne].
    - rewrite !ptr_size; [lia|lia|done].
    - pose proof (Hap x Hx Hne). rewrite !ptr_size; [lia|lia|done]. }
  assert (∀ b, b ∈ fl ++ al → b = (q, k1 + k) ∨ b.1 + 16 * b.2 ≤ q ∨ q + 16 * (k1 + k) ≤ b.1) as Hapb.
  { intros b Hb'. destruct (decide (b.1 = q)) as [E|Hne].
    - left. eapply tiles_addr_inj; [exact Ht|done|set_solver|done].
    - right. assert ((q, k1 + k) ∈ fl ++ al) as Hq' by set_solver. apply elem_of_Permutation in Hq' as [L Hp].
      apply (tiles_perm _ _ _ _ Hp) in Ht. rewrite Hp in Hb'. apply elem_of_cons in Hb' as [->|Hb']; [done|].
      pose proof (tiles_cons _ _ _ _ _ Ht Hb') as Ha. rewrite /apart /= in Ha. lia. }
  pose proof (tiles_bounds _ _ (q, k1 + k) Ht ltac:(lia) ltac:(set_solver)) as [_ Hsz]. simpl in Hsz.
  apply list_elem_of_split in Hq as (f1 & f2 & ->).
  exists (f1 ++ (q, k1) :: f2). assert ((f1 ++ (q, k1) :: f2).*1 = (f1 ++ (q, k1 + k) :: f2).*1) as Hf by by rewrite !fmap_app.
  assert (tiles lo (u_brk s) ((q, k1) :: (q + 16 * k1, k) :: f1 ++ f2 ++ al)) as Ht2.
  { apply tiles_cut; [done..|]. eapply tiles_perm; [|exact Ht]. rewrite -!app_assoc /=. symmetry. apply Permutation_middle. }
  split; [split; simpl|].
  - done.
  - by rewrite Hf.
  - rewrite Hf. eapply links_ext; [|exact Hc]. intros x Hx. by apply Hptr.
  - pose proof (tiles_range _ _ _ (q, k1 + k) Ht ltac:(set_solver)). simpl in *. rewrite size_ne; [lia|].
    by rewrite size_ne; [lia|].
  - eapply sized_perm with (L := (q, k1) :: (q + 16 * k1, k) :: f1 ++ f2 ++ al); [rewrite -!app_assoc /=; solve_Permutation|].
    constructor; [simpl|constructor; [simpl|]].
    + rewrite size_ne; [lia|]. apply size_eq. lia.
    + apply size_eq. lia.
    + rewrite /sized -!app_assoc Forall_app Forall_cons Forall_app in Hz. destruct Hz as (Hz1 & _ & Hz2 & Hz3).
      apply sized_ext with (m := u_mem s).
      * intros b Hb'. pose proof (tiles_hdr _ _ _ b Ht2 ltac:(set_solver)).
        eapply tiles_perm in Ht2; [|apply perm_swap]. pose proof (tiles_hdr _ _ _ b Ht2 ltac:(set_solver)).
        simpl in *. rewrite size_ne; [lia|]. by rewrite size_ne; [lia|].
      * rewrite /sized !Forall_app. done.
  - eapply tiles_perm; [|exact Ht2]. rewrite -!app_assoc /=. solve_Permutation.
  - apply pairwise_app in Hs as (H1 & [H2 H2'] & H3). apply pairwise_app. split_and!; [done| |].
    + split; [|done]. eapply Forall_impl; [exact H2|]. intros b Hb'. rewrite /gap /= in Hb' |- *. lia.
    + intros x y Hx Hy. apply elem_of_cons in Hy as [->|Hy]; [|apply H3; set_solver].
      specialize (H3 x (q, k1 + k) Hx ltac:(left)). done.
  - intros b x Hb' Hx. rewrite /s' /=. pose proof (tiles_cons _ _ _ _ b Ht2 ltac:(set_solver)) as Ha.
    eapply tiles_perm in Ht2; [|apply perm_swap]. pose proof (tiles_cons _ _ _ _ b Ht2 ltac:(set_solver)) as Ha2.
    rewrite /apart /= in Ha Ha2. rewrite /put_size. rewrite !ld8_st_le_ne; [lia|lia|done].
Qed.

Lemma take_block_spec s fl al prevp q sz k : heap_ready s fl al → (q, sz) ∈ fl → prevp ∈ base :: fl.*1 →
  s_ptr (u_mem s) prevp = q → 1 ≤ k ≤ sz →
  ∃ h fl' s', take_block k prevp q s = Ok (h + 16) s' ∧ heap_ready s' fl' ((h, k) :: al) ∧
    payload_kept al (u_mem s) (u_mem s') ∧ u_brk s' = u_brk s.
Proof.
  intros Hr Hq Hpv Hl Hk. assert (s_size (u_mem s) q = sz) as Hsz.
  { destruct Hr as [_ _ _ _ Hz _ _]. rewrite /sized Forall_forall in Hz. apply (Hz (q, sz)). set_solver. }
  assert (sz < 2 ^ 32) as Hsz2.
  { destruct Hr as [? _ _ _ _ Ht _]. pose proof (tiles_bounds _ _ (q, sz) Ht ltac:(lia) ltac:(set_solver)). simpl in *. lia. }
  rewrite /take_block {1}/get_size {1}/bind /= Hsz. destruct (Z.eqb_spec sz k) as [->|Hne].
  - destruct (take_exact s fl al prevp q k Hr Hq Hpv Hl) as (fl' & H1 & H2).
    eexists q, fl', _. split; [reflexivity|]. done.
  - destruct (take_cut s fl al prevp q (sz - k) k) as (fl' & H1 & H2); [done| |done|lia|lia|].
    { by replace (sz - k + k) with sz by lia. }
    eexists (q + 16 * (sz - k)), fl', _. split_and!; [|exact H1|exact H2|done].
    rewrite /set_size /get_size /bind /=. rewrite u32_id; [lia|]. rewrite size_eq; [lia|]. done.
Qed.

Variable grant : Z → Z → bool.
Hypothesis grant_bound : ∀ sz n, grant sz n = true → sz + n < 2 ^ 36.

Lemma scan_found f k s seg pr q (m := u_mem s) : Forall (link m) (path pr seg q) →
  Forall (λ x, ¬ k ≤ s_size m x) seg → u_freep s ∉ seg → k ≤ s_size m q →
  ∃ pr', pr' ∈ pr :: seg ∧ s_ptr m pr' = q ∧
    malloc_loop grant (length seg + 1 + f) k pr (s_ptr m pr) s = take_block k pr' q s.
Proof.
  revert pr; induction seg as [|c seg IH]; intros pr Hl Hn Hfp Hk;
    apply Forall_cons in Hl as [Hp Hl]; rewrite /link /= in Hp.
  - exists pr. split_and!; [left|done|]. cbn [length Nat.add malloc_loop]. rewrite Hp /get_size {1}/bind /=.
    by rewrite (proj2 (Z.leb_le _ _) Hk).
  - apply Forall_cons in Hn as [Hc Hn]. apply not_elem_of_cons in Hfp as [Hfc Hfp].
    destruct (IH c Hl Hn Hfp Hk) as (pr' & Hpr & Hq & He). exists pr'. split_and!; [by right|done|].
    rewrite -He. cbn [length Nat.add malloc_loop]. rewrite Hp {1}/get_size {1}/bind /= -/m.
    rewrite (proj2 (Z.leb_gt _ _)); [lia|]. rewrite /bind /=. by rewrite (proj2 (Z.eqb_neq _ _)); [congruence|].
Qed.

(** What malloc() does when it has come around to freep. *)
Definition after_scan (f : nat) (k : Z) : U Z :=
  q ← morecore grant k;
  if q =? 0 then ret 0 else
  nx ← get_ptr q;
  malloc_loop grant f k q nx.
Lemma scan_none f k s seg pr (m := u_mem s) : Forall (link m) (path pr seg (u_freep s)) →
  Forall (λ x, ¬ k ≤ s_size m x) seg → u_freep s ∉ seg → ¬ k ≤ s_size m (u_freep s) →
  malloc_loop grant (length seg + 1 + f) k pr (s_ptr m pr) s = after_scan f k s.
Proof.
  revert pr; induction seg as [|c seg IH]; intros pr Hl Hn Hfp Hk;
    apply Forall_cons in Hl as [Hp Hl]; rewrite /link /= in Hp.
  - cbn [length Nat.add malloc_loop]. rewrite Hp {1}/get_size {1}/bind /= -/m.
    rewrite (proj2 (Z.leb_gt _ _)); [lia|]. by rewrite {1}/bind /= Z.eqb_refl.
  - apply Forall_cons in Hn as [Hc Hn]. apply not_elem_of_cons in Hfp as [Hfc Hfp].
    rewrite -(IH c Hl Hn Hfp Hk). cbn [length Nat.add malloc_loop]. rewrite Hp {1}/get_size {1}/bind /= -/m.
    rewrite (proj2 (Z.leb_gt _ _)); [lia|]. rewrite /bind /=. by rewrite (proj2 (Z.eqb_neq _ _)); [congruence|].
Qed.

(** One turn around the list finds a block that is large enough, or shows that
    there is none. *)
Lemma scan_spec s fl al k F : heap_ready s fl al → 1 ≤ k → (length fl + 1 ≤ F)%nat →
  (∃ pr q sz, (q, sz) ∈ fl ∧ pr ∈ base :: fl.*1 ∧ s_ptr (u_mem s) pr = q ∧ k ≤ sz ∧
     malloc_loop grant F k (u_freep s) (s_ptr (u_mem s) (u_freep s)) s = take_block k pr q s) ∨
  (Forall (λ b, b.2 < k) fl ∧ ∃ f, F = (length fl + 1 + f)%nat ∧
     malloc_loop grant F k (u_freep s) (s_ptr (u_mem s) (u_freep s)) s = after_scan f k s).
Proof.
  intros Hr Hk HF. assert (NoDup (base :: fl.*1)) as Hnd.
  { apply gap_NoDup; [apply Hr|]. apply Forall_forall. intros b Hb.
    pose proof (tiles_range _ _ _ b (hr_tiles _ _ _ Hr) ltac:(set_solver)). lia. }
  assert (∀ x, x ∈ base :: fl.*1 → k ≤ s_size (u_mem s) x → (x, s_size (u_mem s) x) ∈ fl) as Hin.
  { intros x Hx Hkx. apply elem_of_cons in Hx as [->|Hx]; [rewrite (hr_base _ _ _ Hr) in Hkx; lia|].
    apply list_elem_of_fmap in Hx as (b & -> & Hb). pose proof (hr_sizes _ _ _ Hr) as Hz.
    rewrite /sized Forall_forall in Hz. rewrite (Hz b); [set_solver|]. by destruct b. }
  pose proof (hr_cyc _ _ _ Hr) as Hc. pose proof (hr_freep _ _ _ Hr) as Hfp.
  pose proof (list_elem_of_split _ _ Hfp) as (A & B & HN). rewrite HN in Hc. apply cyc_rotate in Hc. simpl in Hc.
  assert (∀ x, x ∈ u_freep s :: B ++ A → x ∈ base :: fl.*1) as Hsub by (rewrite HN; set_solver).
  assert (length (B ++ A) = length fl) as Hlen.
  { apply (f_equal length) in HN. rewrite /= !length_app /= length_fmap in HN. rewrite length_app. lia. }
  assert (u_freep s ∉ B ++ A) as Hnin.
  { rewrite HN in Hnd. apply NoDup_app in Hnd as (_ & H1 & [H2 _]%NoDup_cons).
    intros [?|HA]%elem_of_app; [done|]. apply (H1 _ HA). left. }
  destruct (first_split (λ x, k ≤ s_size (u_mem s) x) (B ++ A)) as [Hno|(seg & q & rest & Hs & Hno & Hq)].
  - destruct (decide (k ≤ s_size (u_mem s) (u_freep s))) as [Hq|Hq].
    + left. destruct (scan_found (F - length (B ++ A) - 1) k s (B ++ A) (u_freep s) (u_freep s)) as (pr & Hpr & Hpq & He); [done..|].
      exists pr, (u_freep s), (s_size (u_mem s) (u_freep s)). split_and!; [by apply Hin|by apply Hsub|done|done|].
      rewrite -He. f_equal. lia.
    + right. split.
      * rewrite Forall_forall. intros b Hb. pose proof (hr_sizes _ _ _ Hr) as Hz. rewrite /sized Forall_forall in Hz.
        rewrite -(Hz b); [set_solver|]. assert (b.1 ∈ base :: fl.*1) as Hx by (right; by apply list_elem_of_fmap_2).
        rewrite HN in Hx. rewrite Forall_forall in Hno.
        destruct (decide (b.1 = u_freep s)) as [->|]; [lia|]. specialize (Hno b.1 ltac:(set_solver)). simpl in Hno. lia.
      * exists (F - length fl - 1)%nat. split; [lia|].
        rewrite -(scan_none _ k s (B ++ A) (u_freep s)) //. f_equal. lia.
  - left. rewrite Hs in Hc, Hlen, Hnin. rewrite path_app Forall_app in Hc. destruct Hc as [Hc _].
    rewrite length_app /= in Hlen.
    destruct (scan_found (F - length seg - 1) k s seg (u_freep s) q) as (pr & Hpr & Hpq & He); [done|done|set_solver|done|].
    exists pr, q, (s_size (u_mem s) q). split_and!; [|by apply Hsub; rewrite Hs; set_solver|done|done|].
    + apply Hin; [|done]. apply Hsub. rewrite Hs. set_solver.
    + rewrite -He. f_equal. lia.
Qed.

(** The bytes morecore() asks sbrk() for. *)
Definition core_bytes (k : Z) : Z := 16 * Z.max k 4096.
Lemma morecore_spec s fl al k : heap_ready s fl al → 1 ≤ k → core_bytes k < 2 ^ 31 →
  (grant (u_brk s) (core_bytes k) = false ∧ morecore grant k s = Ok 0 s) ∨
  (∃ fl' s', morecore grant k s = Ok (u_freep s') s' ∧ heap_ready s' fl' al ∧ u_brk s' = u_brk s + core_bytes k ∧
    payload_kept al (u_mem s) (u_mem s') ∧ (∃ b, b ∈ fl' ∧ k ≤ b.2) ∧ (length fl' ≤ S (length fl))%nat).
Proof.
  intros Hr Hk Hc. set (nu := Z.max k 4096). assert ((if k <? 4096 then 4096 else k) = nu) as Hnu.
  { rewrite /nu. destruct (Z.ltb_spec k 4096); lia. }
  rewrite /core_bytes -/nu in Hc |- *. rewrite /morecore Hnu /HEADER s32_id; [lia|].
  assert (∀ k' : Z → U Z, bind (sbrk grant (nu * 16)) k' s =
    if grant (u_brk s) (16 * nu) then k' (u_brk s) (set_u_brk (u_brk s + 16 * nu) s) else k' (u64 (-1)) s) as Hsb.
  { intros k'. rewrite /sbrk /bind /=. rewrite (proj2 (Z.ltb_lt _ _)); [lia|]. rewrite !(Z.mul_comm nu 16).
    by destruct (grant _ _). }
  rewrite Hsb. destruct (grant (u_brk s) (16 * nu)) eqn:Hg; [right|by left].
  pose proof (grant_bound _ _ Hg) as Hb.
  pose proof (hr_brk _ _ _ Hr) as Hbrk.
  assert (u_brk s =? u64 (-1) = false) as -> by (apply Z.eqb_neq; change (u64 (-1)) with (2 ^ 64 - 1); lia).
  set (s1 := Heap (put_size (u_mem s) (u_brk s) nu) (u_freep s) (u_brk s + 16 * nu)).
  assert (∀ x, x ∈ base :: fl.*1 → x + 16 ≤ u_brk s) as Hlow.
  { intros x Hx. apply elem_of_cons in Hx as [->|Hx]; [lia|]. apply list_elem_of_fmap in Hx as (b & -> & Hb').
    pose proof (tiles_range _ _ _ b (hr_tiles _ _ _ Hr) ltac:(set_solver)). lia. }
  assert (heap_ready s1 fl ((u_brk s, nu) :: al)) as Hr1.
  { pose proof Hr as [_ Hfp Hcy Hb0 Hz Ht Hs]. split; simpl; [lia|done| | | | |done].
    - eapply links_ext; [|exact Hcy]. intros x Hx. apply ptr_size. pose proof (Hlow x Hx). lia.
    - rewrite size_ne; [lia|done].
    - eapply sized_perm; [apply Permutation_middle|]. constructor; [simpl; apply size_eq; lia|].
      eapply sized_ext; [|exact Hz]. intros b Hb'. apply size_ne. pose proof (tiles_range _ _ _ b Ht Hb'). lia.
    - eapply tiles_perm; [apply Permutation_middle|]. apply tiles_grow; [lia|lia|done]. }
  destruct (free_spec _ _ _ _ _ Hr1) as (fl' & s' & Hf & Hr' & Hp' & Hbr & (b & Hb1 & Hb2) & Hlen).
  exists fl', s'. split_and!; [|done|by rewrite Hbr| | |done].
  - rewrite /set_size /bind /=.
    change (set_u_mem _ _) with s1. by rewrite Hf.
  - intros c x Hc' Hx. rewrite (Hp' c x Hc' Hx) /s1 /=. apply ld8_st_le_ne.
    pose proof (tiles_range _ _ _ c (hr_tiles _ _ _ Hr) ltac:(set_solver)). lia.
  - exists b. split; [done|]. lia.
Qed.

(** The heap before the first malloc() or after it. *)
Definition heap_ok (s : heap) (fl al : list (Z * Z)) : Prop :=
  (u_freep s = 0 ∧ fl = [] ∧ al = [] ∧ u_brk s = lo ∧ lo < 2 ^ 36) ∨ heap_ready s fl al.

Lemma malloc_ready s fl al k F : heap_ready s fl al → 1 ≤ k → core_bytes k < 2 ^ 31 → (2 * length fl + 4 ≤ F)%nat →
  ∃ r fl' s', malloc_loop grant F k (u_freep s) (s_ptr (u_mem s) (u_freep s)) s = Ok r s' ∧
    payload_kept al (u_mem s) (u_mem s') ∧
    (r = 0 ∧ heap_ready s' fl' al ∧ Forall (λ b, b.2 < k) fl ∧ grant (u_brk s) (core_bytes k) = false ∨
     ∃ h, r = h + 16 ∧ heap_ready s' fl' ((h, k) :: al)).
Proof.
  intros Hr Hk Hcb HF. destruct (scan_spec s fl al k F Hr Hk) as
    [(pr & q & sz & Hq & Hpr & Hpq & Hks & He)|(Hsm & f & -> & He)]; [lia| |].
  - destruct (take_block_spec s fl al pr q sz k) as (h & fl' & s' & Ht & Hr' & Hp & _); [done..|lia|].
    exists (h + 16), fl', s'. rewrite He. split_and!; [done..|]. right. by exists h.
  - rewrite He /after_scan. destruct (morecore_spec s fl al k Hr Hk Hcb) as
      [[Hg Hm]|(fl1 & s1 & Hm & Hr1 & Hb1 & Hp1 & (b & Hb & Hbk) & Hlen)].
    + exists 0, fl, s. split_and!; [by rewrite /bind Hm|done|by left].
    + assert (u_freep s1 =? 0 = false) as Hnz.
      { apply Z.eqb_neq. pose proof (hr_freep _ _ _ Hr1) as Hfp. apply elem_of_cons in Hfp as [->|Hfp]; [lia|].
        apply list_elem_of_fmap in Hfp as (c & -> & Hc).
        pose proof (tiles_range _ _ _ c (hr_tiles _ _ _ Hr1) ltac:(set_solver)). lia. }
      rewrite /bind Hm Hnz /get_ptr /=.
      destruct (scan_spec s1 fl1 al k f Hr1 Hk) as [(pr & q & sz & Hq & Hpr & Hpq & Hks & He1)|(Hsm1 & _)]; [lia| |].
      * destruct (take_block_spec s1 fl1 al pr q sz k) as (h & fl' & s' & Ht & Hr' & Hp & _); [done..|lia|].
        exists (h + 16), fl', s'. rewrite He1. split_and!; [done| |right; by exists h].
        intros c x Hc Hx. rewrite (Hp c x Hc Hx). by apply (Hp1 c x).
      * exfalso. rewrite Forall_forall in Hsm1. apply Hsm1 in Hb. simpl in Hb. lia.
Qed.

Lemma malloc_init s : u_freep s = 0 → u_brk s = lo → lo < 2 ^ 36 →
  heap_ready (Heap (put_size (put_ptr (u_mem s) base base) base 0) base (u_brk s)) [] [].
Proof.
  intros Hf Hb Hlo. split; simpl; [lia|left| | |constructor| |done].
  - constructor; [|constructor]. rewrite /link /= ptr_size; [by left|]. apply ptr_eq. lia.
  - apply size_eq. lia.
  - split; simpl; [done|constructor|lia].
Qed.
End heap.

(** ** Programs that use the heap *)

Section client.
Variables base lo : Z.

Definition nunits (nbytes : Z) : Z := (nbytes + 15) / 16 + 1.
(** Requests above this do not fit the int that sbrk() takes. *)
Definition MALLOC_MAX : Z := 2 ^ 31 - 32.

Lemma heap_ready_perm s fl al al' : al ≡ₚ al' → heap_ready base lo s fl al → heap_ready base lo s fl al'.
Proof.
  intros Hp [? ? ? ? Hz Ht ?]. split; try done.
  - eapply sized_perm; [|exact Hz]. by rewrite Hp.
  - eapply tiles_perm; [|exact Ht]. by rewrite Hp.
Qed.

(** A program may write to the payload of a block it uses. *)
Lemma heap_ready_write s fl al b x v : 0 < base ∧ base + 16 ≤ lo → heap_ready base lo s fl al → b ∈ al →
  b.1 + 16 ≤ x < b.1 + 16 * b.2 → heap_ready base lo (set_u_mem (st8 (u_mem s) x v) s) fl al.
Proof.
  intros Hlo Hr Hb Hx. pose proof Hr as [Hbrk Hfp Hc Hb0 Hz Ht Hs].
  assert (∀ y, y ∈ base :: fl.*1 ++ al.*1 → y = b.1 ∨ y + 16 ≤ x ∨ x < y) as Hout.
  { intros y Hy. apply elem_of_cons in Hy as [->|Hy].
    - pose proof (tiles_range _ _ _ b Ht ltac:(set_solver)). lia.
    - rewrite -fmap_app in Hy. apply list_elem_of_fmap in Hy as (c & -> & Hc'). destruct (decide (c = b)) as [->|Hne]; [by left|].
      right. assert (b ∈ fl ++ al) as Hb' by set_solver. apply elem_of_Permutation in Hb' as [L Hp].
      apply (tiles_perm _ _ _ _ Hp) in Ht. rewrite Hp in Hc'. apply elem_of_cons in Hc' as [?|Hc']; [done|].
      pose proof (tiles_cons _ _ _ _ _ Ht Hc') as Ha. pose proof (tiles_range _ _ _ c Ht ltac:(set_solver)).
      rewrite /apart in Ha. lia. }
  assert (∀ y, y ∈ base :: fl.*1 ++ al.*1 → s_ptr (st8 (u_mem s) x v) y = s_ptr (u_mem s) y ∧
    s_size (st8 (u_mem s) x v) y = s_size (u_mem s) y) as Hk.
  { intros y Hy. specialize (Hout y Hy). split; (apply (ld_le_ext 8) || apply (ld_le_ext 4)); intros z Hz';
      apply ld8_st8_ne; lia. }
  split; simpl; try done.
  - eapply links_ext; [|exact Hc]. intros y Hy. apply Hk. set_solver.
  - rewrite (proj2 (Hk base _)) //. left.
  - eapply sized_ext; [|exact Hz]. intros c Hc'. apply Hk. right. rewrite -fmap_app. by apply list_elem_of_fmap_2.
Qed.

Variable grant : Z → Z → bool.

(** The states a program reaches, with the blocks it uses. *)
Inductive client : heap → list (Z * Z) → Prop :=
| cl_start m : client (Heap m 0 lo) []
| cl_malloc s al n r s' : client s al → 0 ≤ n ≤ MALLOC_MAX → malloc base grant n s = Ok r s' →
    client s' (if r =? 0 then al else (r - 16, nunits n) :: al)
| cl_free s al h n al' s' : client s al → al ≡ₚ (h, n) :: al' → free (h + 16) s = Ok tt s' → client s' al'
| cl_write s al b x v : client s al → b ∈ al → b.1 + 16 ≤ x < b.1 + 16 * b.2 →
    client (set_u_mem (st8 (u_mem s) x v) s) al.

Lemma malloc_spec s fl al n : 0 < base ∧ base + 16 ≤ lo → (∀ sz k, grant sz k = true → sz + k < 2 ^ 36) →
  heap_ok base lo s fl al → 0 ≤ n ≤ MALLOC_MAX →
  ∃ r fl' s', malloc base grant n s = Ok r s' ∧ payload_kept al (u_mem s) (u_mem s') ∧
    (r = 0 ∧ heap_ok base lo s' fl' al ∧ Forall (λ b, b.2 < nunits n) fl ∧
       grant (u_brk s) (core_bytes (nunits n)) = false ∨
     ∃ h, r = h + 16 ∧ heap_ready base lo s' fl' ((h, nunits n) :: al)).
Proof.
  intros Hlo Hg Hok Hn. rewrite /MALLOC_MAX in Hn.
  assert (u32 ((n + HEADER - 1) / HEADER + 1) = nunits n) as Hu.
  { rewrite /nunits /HEADER. replace (n + 16 - 1) with (n + 15) by lia. apply u32_id. dlia. }
  assert (1 ≤ nunits n ∧ core_bytes (nunits n) < 2 ^ 31) as [Hk Hcb].
  { rewrite /core_bytes /nunits. dlia. }
  destruct Hok as [(Hfp & -> & -> & Hbrk & Hlim)|Hr].
  - destruct (malloc_ready base lo Hlo grant Hg _ _ _ (nunits n) (walk_fuel s) (malloc_init base lo Hlo s Hfp Hbrk Hlim)) as
      (r & fl' & s' & He & Hp & Hc); [done|done| |].
    { rewrite /walk_fuel. simpl. lia. }
    exists r, fl', s'. split_and!.
    + rewrite /malloc Hu /bind /= Hfp Z.eqb_refl. cbn [u_freep u_mem u_brk set_u_freep set_u_mem] in He |- *. exact He.
    + intros b x Hb. set_solver.
    + destruct Hc as [(-> & Hr' & Hs & Hgr)|Hc]; [left|by right]. split_and!; [done|by right|done|done].
  - assert (u_freep s =? 0 = false) as Hnz.
    { apply Z.eqb_neq. pose proof (hr_freep _ _ _ _ _ Hr) as Hfp. apply elem_of_cons in Hfp as [->|Hfp]; [lia|].
      apply list_elem_of_fmap in Hfp as (c & -> & Hc).
      pose proof (tiles_range _ _ _ c (hr_tiles _ _ _ _ _ Hr) ltac:(set_solver)). lia. }
    destruct (malloc_ready base lo Hlo grant Hg _ _ _ (nunits n) (walk_fuel s) Hr) as (r & fl' & s' & He & Hp & Hc);
      [done|done|eapply walk_fuel_enough; [exact Hlo|exact Hr]|].
    exists r, fl', s'. split_and!; [|done|].
    + rewrite /malloc Hu /bind /= Hnz. exact He.
    + destruct Hc as [(-> & Hr' & Hs & Hgr)|Hc]; [left|by right]. split_and!; [done|by right|done|done].
Qed.
End client.

(** ** The theorems *)


(** Free() of a block in use terminates and returns the block to the free
    list, joined with its free neighbours: the heap stays well formed, with no two
    adjacent free blocks, and the contents of the other blocks are untouched. *)
Theorem free_returns base lo s fl al h n al' :
  0 < base ∧ base + 16 ≤ lo → heap_ready base lo s fl al → al ≡ₚ (h, n) :: al' →
  ∃ fl' s', free (h + 16) s = Ok tt s' ∧ heap_ready base lo s' fl' al' ∧ u_brk s' = u_brk s ∧
    payload_kept al' (u_mem s) (u_mem s') ∧ units fl' = units fl + n.
Proof.
  intros Hlo Hr Hp. apply (heap_ready_perm _ _ _ _ _ _ Hp) in Hr.
  destruct (free_spec base lo Hlo s fl h n al' Hr) as (fl' & s' & He & Hr' & Hk & Hb & _ & _).
  exists fl', s'. split_and!; [done..|].
  pose proof (tl_units _ _ _ (hr_tiles _ _ _ _ _ Hr)) as H1. pose proof (tl_units _ _ _ (hr_tiles _ _ _ _ _ Hr')) as H2.
  rewrite !units_app Hb in H1 H2. simpl in H1. lia.
Qed.


(** A process of two pages whose static header is at 4096, on a machine with a
    megabyte. *)
Definition ex_grant (sz n : Z) : bool := sz + n <? 2 ^ 20.
Definition ex_heap : heap := Heap ∅ 0 8192.
Lemma ex_grant_bound sz k : ex_grant sz k = true → sz + k < 2 ^ 36.
Proof. rewrite /ex_grant Z.ltb_lt. lia. Qed.


(** The heap after malloc(100), and after malloc(200) too. *)
Definition ex_heap1 : heap := match malloc 4096 ex_grant 100 ex_heap with Ok _ s => s | _ => ex_heap end.
Lemma ex_heap1_ready : heap_ready 4096 8192 ex_heap1 [(8192, 4088)] [(73600, 8)].
Proof.
  split; [by vm_compute|vm_compute; left|repeat constructor; by vm_compute|by vm_compute| | |by repeat constructor].
  - repeat constructor; by vm_compute.
  - assert (u_brk ex_heap1 = 73728) as -> by by vm_compute.
    split; [|repeat constructor; simpl; lia|by vm_compute]. split; [|by repeat constructor].
    constructor; [|constructor]. rewrite /apart /=. lia.
Qed.
Lemma free_returns_witness :
  ∃ fl' s', free 73616 ex_heap1 = Ok tt s' ∧ heap_ready 4096 8192 s' fl' [] ∧ u_brk s' = u_brk ex_heap1 ∧
    payload_kept [] (u_mem ex_heap1) (u_mem s') ∧ units fl' = 4096.
Proof.
  apply (free_returns 4096 8192 ex_heap1 [(8192, 4088)] [(73600, 8)] 73600 8 []); [lia|exact ex_heap1_ready|reflexivity].
Defined.


(** The int that sbrk() takes cannot hold the size of a very large block: the
    process grows by 16 bytes and malloc() returns a block of four gigabytes. *)
Lemma malloc_overflows :
  ∃ s', malloc 4096 ex_grant (2 ^ 32 - 1) ex_heap = Ok (8192 + 16) s' ∧ u_brk s' = u_brk ex_heap + 16 ∧
    s_size (u_mem s') 8192 = 2 ^ 28 + 1.
Proof. eexists. split; [by vm_compute|by vm_compute]. Qed.
