(* ===== verification/Ulib.v ===== *)
(** The string and memory routines of the user library: user/ulib.c, except
    atoi() (Printf.v), over the memory of a process.  A string is a run of
    nonzero bytes that ends in a NUL. *)
From S2P Require Import Prelude Mem.

(** ** Definitions *)

(** while(( *s++ = *t++) != 0) ;  The loop ends at the first NUL of the source;
    if the copy overwrites that NUL before it is read the loop does not end. *)
Fixpoint strcpy_loop (fuel : nat) (m : gmap Z Z) (s t : Z) : option (gmap Z Z) :=
  match fuel with
  | O => None
  | S f =>
      let c := ld8 m t in
      let m' := st8 m s c in
      if c =? 0 then Some m' else strcpy_loop f m' (s + 1) (t + 1)
  end.
Definition strcpy (m : gmap Z Z) (s t : Z) : option (gmap Z Z) := strcpy_loop (S (size m)) m s t.

(** while( *p && *p == *q) p++, q++; *)
Fixpoint strcmp_loop (fuel : nat) (m : gmap Z Z) (p q : Z) : option Z :=
  match fuel with
  | O => None
  | S f =>
      if negb (ld8 m p =? 0) && (ld8 m p =? ld8 m q) then strcmp_loop f m (p + 1) (q + 1)
      else Some (ld8 m p - ld8 m q)
  end.
Definition strcmp (m : gmap Z Z) (p q : Z) : option Z := strcmp_loop (S (size m)) m p q.

(** The same loops as in the kernel. *)
Definition strlen (m : gmap Z Z) (s : Z) : Z := default 0 (strlen_loop (S (size m)) m s 0).
Definition memset (m : gmap Z Z) (dst c n : Z) : gmap Z Z := memset_loop (Z.to_nat n) m dst c 0.
Definition memcmp (m : gmap Z Z) (s1 s2 n : Z) : Z := memcmp_loop (Z.to_nat n) m s1 s2.

(** for(; *s; s++) if( *s == c) return s; return 0; *)
Fixpoint strchr_loop (fuel : nat) (m : gmap Z Z) (s c : Z) : option Z :=
  match fuel with
  | O => None
  | S f =>
      if ld8 m s =? 0 then Some 0
      else if ld8 m s =? c then Some s
      else strchr_loop f m (s + 1) c
  end.
Definition strchr (m : gmap Z Z) (s c : Z) : option Z := strchr_loop (S (size m)) m s c.

(** [n] is an int. *)
Definition memmove (m : gmap Z Z) (vdst vsrc n : Z) : gmap Z Z :=
  if vdst <? vsrc then copy_up (Z.to_nat n) m vdst vsrc
  else copy_down (Z.to_nat n) m (vdst + n) (vsrc + n).
Definition memcpy (m : gmap Z Z) (dst src n : Z) : gmap Z Z := memmove m dst src n.

(** gets() reads the standard input a byte at a time; [inp] are the bytes that
    read() has left to give.  The result is the memory and the bytes not read. *)
Fixpoint gets_loop (k : nat) (m : gmap Z Z) (buf i : Z) (inp : list Z) : gmap Z Z * Z * list Z :=
  match k with
  | O => (m, i, inp)
  | S k' =>
      match inp with
      | [] => (m, i, [])
      | c :: inp' =>
          let m' := st8 m (buf + i) c in
          if (c =? 10) || (c =? 13) then (m', i + 1, inp')
          else gets_loop k' m' buf (i + 1) inp'
      end
  end.
Definition gets_line (m : gmap Z Z) (buf max : Z) (inp : list Z) : gmap Z Z * list Z :=
  let '(m, i, inp) := gets_loop (Z.to_nat (max - 1)) m buf 0 inp in
  (st8 m (buf + i) 0, inp).

(** ** Strings in memory *)

Definition cstr_at (m : gmap Z Z) (a : Z) (l : list Z) : Prop :=
  Forall (λ c, 0 < c < 256) l ∧ rd_bytes m a (S (length l)) = l ++ [0].

Lemma cstr_nil m a : cstr_at m a [] ↔ ld8 m a = 0.
Proof. rewrite /cstr_at /=. split; [intros [_ H]; congruence|intros ->; done]. Qed.
Lemma cstr_cons m a c l : cstr_at m a (c :: l) ↔ 0 < c < 256 ∧ ld8 m a = c ∧ cstr_at m (a + 1) l.
Proof.
  rewrite /cstr_at Forall_cons. cbn [length rd_bytes app]. split.
  - intros [[Hc Hl] Heq]. injection Heq as H1 H2. split; [exact Hc|]. split; [exact H1|]. split; [exact Hl|exact H2].
  - intros (Hc & Ha & Hl & Heq). split; [done|]. rewrite Ha. by f_equal.
Qed.
(** The bytes of a string that are not NUL are cells of the memory. *)
Lemma cstr_size m a l : cstr_at m a l → (length l ≤ size m)%nat.
Proof.
  revert m a; induction l as [|c l IH]; intros m a H; [simpl; lia|].
  apply cstr_cons in H as (Hc & Ha & Hl).
  assert (is_Some (m !! a)) as [v Hv].
  { destruct (m !! a) eqn:E; [done|]. rewrite /ld8 E /u8 /= in Ha. rewrite Z.mod_0_l in Ha; lia. }
  assert (cstr_at (delete a m) (a + 1) l) as Hd.
  { destruct Hl as [Hb Hr]. split; [done|]. rewrite -Hr. apply rd_bytes_ext. intros x Hx.
    rewrite /ld8 lookup_delete_ne; [lia|done]. }
  apply IH in Hd. rewrite map_size_delete Hv in Hd.
  assert (size m ≠ 0%nat) by (rewrite map_size_ne_0_lookup; by exists a, v). simpl. lia.
Qed.

(** strlen() counts the bytes before the NUL. *)
Lemma strlen_spec m a l : cstr_at m a l → strlen m a = Z.of_nat (length l).
Proof.
  intros H. pose proof (cstr_size _ _ _ H) as Hs. rewrite /strlen.
  enough (∀ fuel n, (length l < fuel)%nat → cstr_at m (a + n) l →
    strlen_loop fuel m a n = Some (n + Z.of_nat (length l))) as He.
  { rewrite (He _ 0) /=; [lia|by rewrite Z.add_0_r|done]. }
  clear H Hs. induction l as [|c l IH]; intros fuel n Hf H; (destruct fuel as [|f]; [simpl in Hf; lia|]); simpl.
  - apply cstr_nil in H. rewrite H /=. f_equal. lia.
  - apply cstr_cons in H as (Hc & Ha & Hl). rewrite Ha. destruct (Z.eqb_spec c 0); [lia|].
    rewrite (IH f (n + 1)); [simpl in Hf; lia|by rewrite Z.add_assoc|]. simpl. f_equal. lia.
Qed.

(** The lexicographic difference of two strings. *)
Fixpoint str_diff (l1 l2 : list Z) : Z :=
  match l1, l2 with
  | [], [] => 0
  | a :: _, [] => a
  | [], b :: _ => - b
  | a :: l1', b :: l2' => if a =? b then str_diff l1' l2' else a - b
  end.
Lemma strcmp_spec m p q l1 l2 : cstr_at m p l1 → cstr_at m q l2 → strcmp m p q = Some (str_diff l1 l2).
Proof.
  intros H1 H2. pose proof (cstr_size _ _ _ H1) as Hs. rewrite /strcmp.
  revert p q l2 H1 H2. generalize (S (size m)), (Nat.lt_succ_r (length l1) (size m)). intros fuel [_ Hf].
  apply Hf in Hs. clear Hf. revert fuel Hs.
  induction l1 as [|a l1 IH]; intros fuel Hf p q l2 H1 H2; (destruct fuel as [|f]; [simpl in Hf; lia|]); simpl.
  - apply cstr_nil in H1. rewrite H1 /=. destruct l2 as [|b l2].
    + apply cstr_nil in H2. by rewrite H2.
    + apply cstr_cons in H2 as (_ & -> & _). done.
  - apply cstr_cons in H1 as (Ha & Hp & H1). rewrite Hp. rewrite (proj2 (Z.eqb_neq a 0)); [lia|]. cbn [negb andb].
    destruct l2 as [|b l2].
    + apply cstr_nil in H2. rewrite H2. rewrite (proj2 (Z.eqb_neq a 0)); [lia|]. f_equal. lia.
    + apply cstr_cons in H2 as (Hb & Hq & H2). rewrite Hq. destruct (Z.eqb_spec a b) as [->|]; [|done].
      apply IH; [simpl in Hf; lia|done|done].
Qed.
Lemma str_diff_0 m p q l1 l2 : cstr_at m p l1 → cstr_at m q l2 → str_diff l1 l2 = 0 ↔ l1 = l2.
Proof.
  revert p q l2; induction l1 as [|a l1 IH]; intros p q [|b l2] H1 H2; simpl; try done.
  - apply cstr_cons in H2 as (? & _). split; [lia|done].
  - apply cstr_cons in H1 as (? & _). split; [lia|done].
  - apply cstr_cons in H1 as (? & _ & H1). apply cstr_cons in H2 as (? & _ & H2).
    destruct (Z.eqb_spec a b) as [->|]; [|split; [lia|congruence]].
    rewrite (IH _ _ _ H1 H2). split; [by intros ->|congruence].
Qed.

(** strcpy() to a place the source does not overlap. *)
Lemma strcpy_spec m s t l : cstr_at m t l → s + Z.of_nat (length l) < t ∨ t + Z.of_nat (length l) < s →
  ∃ m', strcpy m s t = Some m' ∧ cstr_at m' s l ∧
    ∀ x, ¬ (s ≤ x ≤ s + Z.of_nat (length l)) → ld8 m' x = ld8 m x.
Proof.
  intros H Hd. pose proof (cstr_size _ _ _ H) as Hs. rewrite /strcpy. apply Nat.lt_succ_r in Hs.
  revert Hs H Hd. generalize (S (size m)). intros fuel.
  revert fuel m s t; induction l as [|c l IH]; intros fuel m s t Hf H Hd; (destruct fuel as [|f]; [simpl in Hf; lia|]); simpl.
  - apply cstr_nil in H. rewrite H /=. exists (st8 m s 0). split_and!; [done|apply cstr_nil; apply ld8_st8_eq|].
    intros x Hx. apply ld8_st8_ne. simpl in Hx. lia.
  - apply cstr_cons in H as (Hc & Ht & Hl). rewrite Ht (proj2 (Z.eqb_neq c 0)); [lia|]. cbn [length] in Hd, Hf.
    destruct (IH f (st8 m s c) (s + 1) (t + 1)) as (m' & He & Hcs & Hx); [lia| |lia|].
    { destruct Hl as [Hb Hr]. split; [done|]. rewrite -Hr. apply rd_bytes_ext. intros x Hx. apply ld8_st8_ne. lia. }
    exists m'. split_and!; [done| |].
    + apply cstr_cons. split_and!; [lia|lia| |done]. rewrite Hx; [lia|]. rewrite ld8_st8_eq. apply u8_id. lia.
    + intros x Hx'. rewrite Hx; [lia|]. apply ld8_st8_ne. lia.
Qed.

(** The user memmove() moves like the kernel's, whatever the overlap. *)
Lemma memmove_ld8 m d s n x : 0 ≤ n → ld8 (memmove m d s n) x = ld8 (Mem.memmove m d s n) x.
Proof.
  intros Hn. rewrite ld8_memmove // /memmove. destruct (Z.ltb_spec d s).
  - rewrite ld8_copy_up; [lia|]. by rewrite Z2Nat.id.
  - destruct (decide (s = d)) as [->|].
    + assert (∀ k m e y, ld8 (copy_down k m e e) y = ld8 m y) as Hid.
      { intros k. induction k as [|k IH]; intros m0 e y; cbn [copy_down]; [done|]. rewrite IH ld8_st8 u8_ld8. by case_decide; subst. }
      rewrite Hid. case_decide; [f_equal; lia|done].
    + rewrite ld8_copy_down; [lia|]. rewrite Z2Nat.id //. repeat case_decide; try lia; try done. f_equal. lia.
Qed.

(** gets() stores at most [max - 1] bytes of a line and its terminator, and
    leaves the rest of the input for later. *)
Fixpoint line_of (k : nat) (inp : list Z) : list Z :=
  match k, inp with
  | S k', c :: inp' => c :: (if (c =? 10) || (c =? 13) then [] else line_of k' inp')
  | _, _ => []
  end.
Lemma line_of_length k inp : (length (line_of k inp) ≤ k)%nat.
Proof. revert inp; induction k as [|k IH]; intros [|c inp]; simpl; [lia..|]. case_match; simpl; [lia|]. specialize (IH inp). lia. Qed.
Lemma gets_loop_spec k m buf i inp : let l := line_of k inp in
  gets_loop k m buf i inp = (wr_bytes m (buf + i) l, i + Z.of_nat (length l), drop (length l) inp).
Proof.
  revert m i inp; induction k as [|k IH]; intros m i [|c inp]; simpl; try (f_equal; f_equal; lia).
  destruct ((c =? 10) || (c =? 13)) eqn:E; simpl.
  - done.
  - rewrite IH /=. rewrite Z.add_assoc. f_equal. f_equal. lia.
Qed.
