(* ===== verification/Text.v ===== *)
(** The text programs: the regular-expression matcher of user/grep.c and
    the lines of its input, and the counting of user/wc.c.

    A [char *] that only moves forward is the list of the bytes before the NUL. *)
From S2P Require Import Prelude.

Definition CARET : Z := 94.
Definition STAR : Z := 42.
Definition DOLLAR : Z := 36.
Definition DOT : Z := 46.
Definition NEWLINE : Z := 10.

(** ** user/grep.c: the matcher *)

(** matchstar(c, re, text); [here] is matchhere() on the rest of the pattern. *)
Fixpoint matchstar (here : list Z → bool) (c : Z) (text : list Z) : bool :=
  if here text then true else
  match text with
  | [] => false
  | t :: text' => if (t =? c) || (c =? DOT) then matchstar here c text' else false
  end.

Fixpoint matchhere (re text : list Z) : bool :=
  match re with
  | [] => true
  | c :: re1 =>
      match re1 with
      | d :: re2 =>
          if d =? STAR then matchstar (matchhere re2) c text else
          match text with
          | t :: text' => if (c =? DOT) || (c =? t) then matchhere re1 text' else false
          | [] => false
          end
      | [] =>
          if c =? DOLLAR then bool_decide (text = []) else
          match text with
          | t :: text' => if (c =? DOT) || (c =? t) then matchhere re1 text' else false
          | [] => false
          end
      end
  end.

(** do { ... } while( *text++ != 0) *)
Fixpoint match_from (re text : list Z) : bool :=
  if matchhere re text then true else
  match text with
  | [] => false
  | _ :: text' => match_from re text'
  end.
Definition match_re (re text : list Z) : bool :=
  match re with
  | c :: re1 => if c =? CARET then matchhere re1 text else match_from re text
  | [] => match_from re text
  end.

(** ** user/grep.c: the line loop *)

(** strchr(p, '\n'): the bytes before the newline and after it.  A NUL that
    the file holds ends the search too. *)
Fixpoint find_newline (p : list Z) : option (list Z * list Z) :=
  match p with
  | [] => None
  | c :: p' =>
      if c =? 0 then None
      else if c =? NEWLINE then Some ([], p')
      else option_map (λ lr, (c :: lr.1, lr.2)) (find_newline p')
  end.

(** sizeof(buf) *)
Definition GREP_BUF : nat := 1024.

(** ** user/wc.c *)

Record counts := Counts { wc_l : Z; wc_w : Z; wc_c : Z; wc_inword : bool }.
(** The characters of the string that wc() passes to strchr(). *)
Definition is_space (b : Z) : bool :=
  (b =? 32) || (b =? 13) || (b =? 9) || (b =? 10) || (b =? 11).
(** The body of for(i=0; i<n; i++). *)
Definition wc_step (s : counts) (b : Z) : counts :=
  let c := s32 (wc_c s + 1) in
  let l := if b =? NEWLINE then s32 (wc_l s + 1) else wc_l s in
  if is_space b then Counts l (wc_w s) c false
  else if negb (wc_inword s) then Counts l (s32 (wc_w s + 1)) c true
  else Counts l (wc_w s) c true.
(** ** The language of a pattern *)

(** An item is a character or a starred one; the period stands for any
    character. *)
Inductive item := One (c : Z) | Many (c : Z).
Definition chr (c x : Z) : Prop := c = DOT ∨ x = c.
Inductive lang : list item → list Z → Prop :=
| lang_nil : lang [] []
| lang_one c x p w : chr c x → lang p w → lang (One c :: p) (x :: w)
| lang_many c v p w : Forall (chr c) v → lang p w → lang (Many c :: p) (v ++ w).

(** The items of a pattern, and whether it ends in a dollar. *)
Fixpoint items (re : list Z) : list item * bool :=
  match re with
  | [] => ([], false)
  | c :: re1 =>
      match re1 with
      | d :: re2 =>
          if d =? STAR then let '(p, e) := items re2 in (Many c :: p, e)
          else let '(p, e) := items re1 in (One c :: p, e)
      | [] => if c =? DOLLAR then ([], true) else ([One c], false)
      end
  end.
(** [text] has a part in the language of [p], at its start if [bol] and up to
    its end if [eol]. *)
Definition has_match (p : list item) (bol eol : bool) (text : list Z) : Prop :=
  ∃ pre mid post, text = pre ++ mid ++ post ∧ lang p mid ∧
    (bol = true → pre = []) ∧ (eol = true → post = []).

Lemma chr_bool c x : (c =? DOT) || (c =? x) = true ↔ chr c x.
Proof. rewrite orb_true_iff !Z.eqb_eq /chr. intuition congruence. Qed.
Lemma chr_bool' c x : (x =? c) || (c =? DOT) = true ↔ chr c x.
Proof. rewrite orb_true_iff !Z.eqb_eq /chr. intuition congruence. Qed.

Lemma matchstar_spec here c text :
  matchstar here c text = true ↔ ∃ v w, text = v ++ w ∧ Forall (chr c) v ∧ here w = true.
Proof.
  induction text as [|t text IH]; simpl.
  - destruct (here []) eqn:E; split; try done.
    + intros _. by exists [], [].
    + intros (v & w & Hv & _ & Hw). symmetry in Hv. apply app_eq_nil in Hv as [-> ->]. congruence.
  - destruct (here (t :: text)) eqn:E.
    { split; [|done]. intros _. by exists [], (t :: text). }
    destruct ((t =? c) || (c =? DOT)) eqn:Et.
    + rewrite IH. apply chr_bool' in Et. split.
      * intros (v & w & -> & Hv & Hw). exists (t :: v), w. split_and!; [done|by constructor|done].
      * intros ([|x v] & w & Hv & Hf & Hw); simpl in Hv; [subst; congruence|]. injection Hv as -> ->.
        apply Forall_cons in Hf as [_ Hf]. by exists v, w.
    + split; [done|]. intros ([|x v] & w & Hv & Hf & Hw); simpl in Hv; [subst; congruence|]. injection Hv as -> ->.
      apply Forall_cons in Hf as [Hx _]. apply chr_bool' in Hx. congruence.
Qed.

(** At the start of the text, a match is a prefix in the language. *)
Lemma at_start p e text :
  has_match p true e text ↔ ∃ mid post, text = mid ++ post ∧ lang p mid ∧ (e = true → post = []).
Proof.
  split.
  - intros (pre & mid & post & -> & Hl & Hb & He). rewrite Hb //. by exists mid, post.
  - intros (mid & post & -> & Hl & He). by exists [], mid, post.
Qed.
Lemma start_one c p e text :
  has_match (One c :: p) true e text ↔ ∃ x t', text = x :: t' ∧ chr c x ∧ has_match p true e t'.
Proof.
  rewrite at_start. setoid_rewrite at_start. split.
  - intros (mid & post & -> & Hl & He). inversion Hl; subst. eexists _, (w ++ post). split_and!; [done..|]. by exists w, post.
  - intros (x & t' & -> & Hx & mid & post & -> & Hl & He). exists (x :: mid), post. split_and!; [done|by constructor|done].
Qed.
Lemma start_many c p e text :
  has_match (Many c :: p) true e text ↔ ∃ v w, text = v ++ w ∧ Forall (chr c) v ∧ has_match p true e w.
Proof.
  rewrite at_start. setoid_rewrite at_start. split.
  - intros (mid & post & -> & Hl & He). inversion Hl; subst. exists v, (w ++ post).
    split_and!; [by rewrite app_assoc|done|]. by exists w, post.
  - intros (v & w & -> & Hx & mid & post & -> & Hl & He). exists (v ++ mid), post.
    split_and!; [by rewrite app_assoc|by constructor|done].
Qed.

(** matchhere() on one character and then the rest. *)
Lemma here_one (here : list Z → bool) c p e text : (∀ t, here t = true ↔ has_match p true e t) →
  (match text with t :: text' => if (c =? DOT) || (c =? t) then here text' else false | [] => false end) = true ↔
  has_match (One c :: p) true e text.
Proof.
  intros Hh. rewrite start_one. destruct text as [|t text].
  - split; [done|]. by intros (? & ? & ? & _).
  - destruct ((c =? DOT) || (c =? t)) eqn:E.
    + rewrite Hh. apply chr_bool in E. split; [|by intros (? & ? & [= <- <-] & _ & ?)]. intros Hm. by exists t, text.
    + split; [done|]. intros (? & ? & [= <- <-] & Hc & _). apply chr_bool in Hc. congruence.
Qed.

Lemma matchhere_two c d re text : d ≠ STAR → matchhere (c :: d :: re) text =
  match text with t :: text' => if (c =? DOT) || (c =? t) then matchhere (d :: re) text' else false | [] => false end.
Proof. intros Hd. unfold matchhere at 1. by rewrite (proj2 (Z.eqb_neq _ _) Hd). Qed.
Lemma items_two c d re : d ≠ STAR → items (c :: d :: re) = (One c :: (items (d :: re)).1, (items (d :: re)).2).
Proof. intros Hd. rewrite {1}/items (proj2 (Z.eqb_neq _ _) Hd) -/(items (d :: re)). by destruct (items (d :: re)). Qed.

Lemma matchhere_spec re text :
  matchhere re text = true ↔ has_match (items re).1 true (items re).2 text.
Proof.
  revert text. induction re as [re IH] using (induction_ltof1 _ (@length Z)). unfold ltof in IH. intros text.
  destruct re as [|c [|d re]].
  - split; [|done]. intros _. apply at_start. exists [], text. split_and!; [done|constructor|done].
  - cbn [matchhere items]. destruct (Z.eqb_spec c DOLLAR) as [->|Hc]; cbn [fst snd].
    + rewrite bool_decide_eq_true at_start. split.
      * intros ->. exists [], []. split_and!; [done|constructor|done].
      * intros (mid & post & -> & Hl & He). inversion Hl; subst. by apply He.
    + apply (here_one (matchhere [])). intros t. apply (IH []). simpl. lia.
  - destruct (decide (d = STAR)) as [->|Hd].
    + cbn [matchhere items]. rewrite Z.eqb_refl matchstar_spec. destruct (items re) as [p e] eqn:E. cbn [fst snd]. rewrite start_many.
      assert (∀ w, matchhere re w = true ↔ has_match p true e w) as Hre.
      { intros w. rewrite (IH re); [simpl; lia|]. by rewrite E. }
      by setoid_rewrite Hre.
    + rewrite matchhere_two // items_two //. apply here_one. intros t. apply IH. simpl. lia.
Qed.

Lemma match_from_spec re text :
  match_from re text = true ↔ has_match (items re).1 false (items re).2 text.
Proof.
  induction text as [|t text IH]; cbn [match_from].
  - destruct (matchhere re []) eqn:E.
    + apply matchhere_spec in E. split; [|done]. intros _. destruct E as (pre & mid & post & H1 & H2 & H3 & H4).
      by exists pre, mid, post.
    + split; [done|]. intros (pre & mid & post & H1 & H2 & _ & H4).
      assert (matchhere re [] = true) as Ht; [|congruence]. apply matchhere_spec.
      symmetry in H1. apply app_eq_nil in H1 as [-> H1]. apply app_eq_nil in H1 as [-> ->]. by exists [], [], [].
  - destruct (matchhere re (t :: text)) eqn:E.
    + apply matchhere_spec in E. split; [|done]. intros _. destruct E as (pre & mid & post & H1 & H2 & H3 & H4).
      by exists pre, mid, post.
    + rewrite IH. split.
      * intros (pre & mid & post & -> & H2 & _ & H4). by exists (t :: pre), mid, post.
      * intros ([|x pre] & mid & post & H1 & H2 & _ & H4).
        -- assert (matchhere re (t :: text) = true) as Ht; [|congruence]. apply matchhere_spec. by exists [], mid, post.
        -- injection H1 as -> ->. by exists pre, mid, post.
Qed.

(** ** Lines *)

(** The complete lines of the input when [cur] was read of the current line,
    and what is left of the line after them. *)
Fixpoint complete_lines (cur inp : list Z) : list (list Z) :=
  match inp with
  | [] => []
  | c :: inp' => if c =? NEWLINE then cur :: complete_lines [] inp' else complete_lines (cur ++ [c]) inp'
  end.
Fixpoint last_part (cur inp : list Z) : list Z :=
  match inp with
  | [] => cur
  | c :: inp' => if c =? NEWLINE then last_part [] inp' else last_part (cur ++ [c]) inp'
  end.
(** The lines that match, each with its newline. *)
Definition selected (pattern : list Z) (ls : list (list Z)) : list Z :=
  concat ((λ l, if match_re pattern l then l ++ [NEWLINE] else []) <$> ls).

Lemma selected_app pattern l1 l2 : selected pattern (l1 ++ l2) = selected pattern l1 ++ selected pattern l2.
Proof. by rewrite /selected fmap_app concat_app. Qed.
Lemma complete_lines_app cur a b :
  complete_lines cur (a ++ b) = complete_lines cur a ++ complete_lines (last_part cur a) b.
Proof. revert cur; induction a as [|c a IH]; intros cur; simpl; [done|]. case_match; simpl; by rewrite IH. Qed.
Lemma last_part_app cur a b : last_part cur (a ++ b) = last_part (last_part cur a) b.
Proof. revert cur; induction a as [|c a IH]; intros cur; simpl; [done|]. case_match; apply IH. Qed.
Lemma lines_prefix cur inp : NEWLINE ∉ cur → complete_lines [] (cur ++ inp) = complete_lines cur inp ∧
  last_part [] (cur ++ inp) = last_part cur inp.
Proof.
  intros Hc. rewrite complete_lines_app last_part_app.
  assert (∀ pre, complete_lines pre cur = [] ∧ last_part pre cur = pre ++ cur) as Hn.
  { induction cur as [|c cur IH]; intros pre; simpl; [by rewrite app_nil_r|].
    apply not_elem_of_cons in Hc as [Hc Hcur]. rewrite (proj2 (Z.eqb_neq _ _)); [congruence|].
    destruct (IH Hcur (pre ++ [c])) as [-> ->]. by rewrite -app_assoc. }
  destruct (Hn []) as [-> ->]. done.
Qed.
Lemma last_part_no_newline cur inp : NEWLINE ∉ cur → NEWLINE ∉ last_part cur inp.
Proof.
  revert cur; induction inp as [|c inp IH]; intros cur Hc; simpl; [done|].
  destruct (Z.eqb_spec c NEWLINE); apply IH; [set_solver|]. rewrite elem_of_app list_elem_of_singleton. intuition.
Qed.

Lemma last_part_elem cur inp x : x ∈ last_part cur inp → x ∈ cur ++ inp.
Proof.
  revert cur; induction inp as [|c inp IH]; intros cur; simpl; [by rewrite app_nil_r|].
  case_match; intros Hx%IH; rewrite elem_of_app elem_of_cons; [by auto|].
  rewrite -assoc_L elem_of_app elem_of_cons in Hx. exact Hx.
Qed.

Lemma find_newline_spec p : 0 ∉ p →
  match find_newline p with
  | None => NEWLINE ∉ p
  | Some (l, p') => p = l ++ NEWLINE :: p' ∧ NEWLINE ∉ l
  end.
Proof.
  induction p as [|c p IH]; simpl; [set_solver|]. intros [H0 Hp]%not_elem_of_cons. specialize (IH Hp).
  rewrite (proj2 (Z.eqb_neq c 0)); [congruence|]. destruct (Z.eqb_spec c NEWLINE) as [->|Hc].
  - split; [done|set_solver].
  - destruct (find_newline p) as [[l p']|]; simpl; [destruct IH as [-> IH]; split; [done|]|];
      rewrite elem_of_cons; intuition.
Qed.
(** Lines that fit the buffer. *)
Definition lines_fit (k : nat) (inp : list Z) : Prop :=
  Forall (λ l, (length l ≤ k)%nat) (complete_lines [] inp) ∧ (length (last_part [] inp) ≤ k)%nat.
Lemma last_part_longer cur inp k : Forall (λ l, (length l ≤ k)%nat) (complete_lines cur inp) →
  (length (last_part cur inp) ≤ k)%nat → (length cur ≤ k)%nat.
Proof.
  revert cur; induction inp as [|c inp IH]; intros cur; simpl; [done|]. case_match.
  - by intros [? _]%Forall_cons.
  - intros H1 H2. specialize (IH _ H1 H2). rewrite length_app in IH. lia.
Qed.

(** ** Words *)

(** The bytes that begin a word, when the byte before is part of one or not. *)
Fixpoint words (inword : bool) (inp : list Z) : Z :=
  match inp with
  | [] => 0
  | b :: inp' => (if is_space b || inword then 0 else 1) + words (negb (is_space b)) inp'
  end.
Lemma words_le inw inp : 0 ≤ words inw inp ≤ Z.of_nat (length inp).
Proof. revert inw; induction inp as [|b inp IH]; intros inw; simpl; [lia|]. specialize (IH (negb (is_space b))). case_match; lia. Qed.
Definition newlines (inp : list Z) : Z := Z.of_nat (length (filter (λ b, b = NEWLINE) inp)).
Lemma newlines_cons b inp : newlines (b :: inp) = (if b =? NEWLINE then 1 else 0) + newlines inp.
Proof. rewrite /newlines filter_cons. destruct (Z.eqb_spec b NEWLINE); case_decide; simpl; lia. Qed.

Lemma wc_step_spec inp s k : 0 ≤ wc_l s ≤ k → 0 ≤ wc_w s ≤ k → wc_c s = k → k + Z.of_nat (length inp) < 2 ^ 31 →
  let s' := foldl wc_step s inp in
  wc_l s' = wc_l s + newlines inp ∧ wc_w s' = wc_w s + words (wc_inword s) inp ∧
  wc_c s' = wc_c s + Z.of_nat (length inp).
Proof.
  revert s k; induction inp as [|b inp IH]; intros s k Hl Hw Hc Hk; cbn [foldl words length].
  { rewrite /newlines /=. lia. }
  rewrite newlines_cons. cbn [length] in Hk.
  assert (wc_c (wc_step s b) = k + 1 ∧ wc_l (wc_step s b) = wc_l s + (if b =? NEWLINE then 1 else 0) ∧
    wc_w (wc_step s b) = wc_w s + (if is_space b || wc_inword s then 0 else 1) ∧
    wc_inword (wc_step s b) = negb (is_space b)) as (E1 & E2 & E3 & E4).
  { rewrite /wc_step. destruct (b =? NEWLINE), (is_space b), (wc_inword s); cbn [negb orb wc_l wc_w wc_c wc_inword];
      rewrite ?s32_id; split_and!; try done; lia. }
  destruct (IH (wc_step s b) (k + 1)) as (H1 & H2 & H3); [| | |lia|].
  { rewrite E2. destruct (b =? NEWLINE); lia. } { rewrite E3. destruct (is_space b || wc_inword s); lia. } { done. }
  rewrite H1 H2 H3 E1 E2 E3 E4. lia.
Qed.
(** C32: match() of grep decides the language of the pattern: it returns 1 exactly
    when some part of the text is in the language, a part at the start of the
    text if the pattern begins with a caret and one up to its end if the pattern
    ends in a dollar. *)
Theorem match_language re text :
  match_re re text = true ↔
  (let '(bol, body) := match re with c :: r => if c =? CARET then (true, r) else (false, re) | [] => (false, re) end in
   has_match (items body).1 bol (items body).2 text).
Proof.
  rewrite /match_re. destruct re as [|c re]; [apply match_from_spec|].
  destruct (c =? CARET); [apply matchhere_spec|apply match_from_spec].
Qed.
