(* ===== verification/Sh.v ===== *)
(** The shell: user/sh.c.

    The parser works on the command line in buf.  A [char *] into it is
    represented by the bytes from there to the end es of the line (the parser's
    position), or by their number (a pointer kept in a command).  The parser
    runs in the monad of outcomes over its position; [Panic] is panic(), which
    exits the child that parses. *)
From S2P Require Import Prelude.

Notation P A := (M (list Z) A).

(** ** Tokens *)

Definition LT : Z := 60.
Definition GT : Z := 62.
Definition BAR : Z := 124.
Definition AMP : Z := 38.
Definition SEMI : Z := 59.
Definition LPAREN : Z := 40.
Definition RPAREN : Z := 41.
Definition PLUS : Z := 43.
Definition LETTER_A : Z := 97.

Definition whitespace : list Z := [32; 9; 13; 10; 11].
Definition symbols : list Z := [LT; BAR; GT; AMP; SEMI; LPAREN; RPAREN].
(** strchr() with a character of the line, which is not NUL. *)
Definition is_ws (c : Z) : bool := bool_decide (c ∈ whitespace).
Definition is_sym (c : Z) : bool := bool_decide (c ∈ symbols).

(** while(s < es && strchr(whitespace, *s)) s++; *)
Fixpoint skip_ws (s : list Z) : list Z :=
  match s with
  | c :: s' => if is_ws c then skip_ws s' else s
  | [] => []
  end.
(** while(s < es && !strchr(whitespace, *s) && !strchr(symbols, *s)) s++; *)
Fixpoint skip_word (s : list Z) : list Z :=
  match s with
  | c :: s' => if negb (is_ws c) && negb (is_sym c) then skip_word s' else s
  | [] => []
  end.

(** A pointer into the line, counted from its end; a span is *q and *eq. *)
Notation span := (nat * nat)%type.

(** The switch of gettoken(). *)
Definition token (s : list Z) : Z * list Z :=
  match s with
  | [] => (0, [])
  | c :: s' =>
      if bool_decide (c ∈ [BAR; LPAREN; RPAREN; SEMI; AMP; LT]) then (c, s')
      else if c =? GT then
        match s' with
        | d :: s'' => if d =? GT then (PLUS, s'') else (c, s')
        | [] => (c, s')
        end
      else (LETTER_A, skip_word s)
  end.
Definition gettoken : P (Z * span) := λ s,
  let s := skip_ws s in
  let '(tok, s') := token s in
  Ok (tok, (length s, length s')) (skip_ws s').

Definition peek (toks : list Z) : P bool := λ s,
  let s := skip_ws s in
  Ok (match s with c :: _ => bool_decide (c ∈ toks) | [] => false end) s.

(** ** Commands *)

Definition MAXARGS : nat := 10.
Definition O_RDONLY : Z := 0.
Definition O_WRONLY : Z := 1.
Definition O_CREATE : Z := 512.
Definition O_TRUNC : Z := 1024.

(** struct cmd.  The words are spans of the line in the parser, and strings
    when the command is run. *)
Inductive cmd {W : Type} : Type :=
| Exec (argv : list W)
| Redir (c : cmd) (file : W) (mode fd : Z)
| Pipe (l r : cmd)
| List (l r : cmd)
| Back (c : cmd).
Arguments cmd : clear implicits.

(** The redirections parsed so far, the first one innermost.  The node of
    execcmd() gets its arguments after redirections were put around it. *)
Definition redirect {W} (c : cmd W) (rs : list (W * Z * Z)) : cmd W :=
  foldl (λ c r, Redir c r.1.1 r.1.2 r.2) c rs.

(** The loop of parseredirs().  A redirection takes at least two bytes. *)
Fixpoint parseredirs_loop (k : nat) (rs : list (span * Z * Z)) : P (list (span * Z * Z)) :=
  match k with
  | O => λ _, NoFuel
  | S k' =>
      b ← peek [LT; GT];
      if negb b then ret rs else
      t ← gettoken;
      f ← gettoken;
      if negb (f.1 =? LETTER_A) then panic "missing file for redirection" else
      parseredirs_loop k'
        (if t.1 =? LT then rs ++ [(f.2, O_RDONLY, 0)]
         else if t.1 =? GT then rs ++ [(f.2, Z.lor (Z.lor O_WRONLY O_CREATE) O_TRUNC, 1)]
         else if t.1 =? PLUS then rs ++ [(f.2, Z.lor O_WRONLY O_CREATE, 1)]
         else rs)
  end.
Definition parseredirs (rs : list (span * Z * Z)) : P (list (span * Z * Z)) := λ s,
  parseredirs_loop (S (length s)) rs s.

(** The loop over the arguments of a simple command. *)
Fixpoint parseargs (k : nat) (argv : list span) (rs : list (span * Z * Z)) : P (list span * list (span * Z * Z)) :=
  match k with
  | O => λ _, NoFuel
  | S k' =>
      b ← peek [BAR; RPAREN; AMP; SEMI];
      if b : bool then ret (argv, rs) else
      t ← gettoken;
      if t.1 =? 0 then ret (argv, rs) else
      if negb (t.1 =? LETTER_A) then panic "syntax" else
      let argv := argv ++ [t.2] in
      if (MAXARGS <=? length argv)%nat then panic "too many args" else
      rs ← parseredirs rs;
      parseargs k' argv rs
  end.

(** while(peek(ps, es, "&")) *)
Fixpoint parseback (k : nat) (c : cmd span) : P (cmd span) :=
  match k with
  | O => λ _, NoFuel
  | S k' =>
      b ← peek [AMP];
      if b : bool then gettoken;; parseback k' (Back c) else ret c
  end.

Fixpoint parseline (fuel : nat) : P (cmd span) :=
  match fuel with
  | O => λ _, NoFuel
  | S f =>
      c ← parsepipe f;
      n ← gets length;
      c ← parseback (S n) c;
      b ← peek [SEMI];
      if b : bool then
        gettoken;;
        r ← parseline f;
        ret (List c r)
      else ret c
  end
with parsepipe (fuel : nat) : P (cmd span) :=
  match fuel with
  | O => λ _, NoFuel
  | S f =>
      c ← parseexec f;
      b ← peek [BAR];
      if b : bool then
        gettoken;;
        r ← parsepipe f;
        ret (Pipe c r)
      else ret c
  end
with parseexec (fuel : nat) : P (cmd span) :=
  match fuel with
  | O => λ _, NoFuel
  | S f =>
      b ← peek [LPAREN];
      if b : bool then parseblock f else
      rs ← parseredirs [];
      n ← gets length;
      ar ← parseargs (S n) [] rs;
      ret (redirect (Exec ar.1) ar.2)
  end
with parseblock (fuel : nat) : P (cmd span) :=
  match fuel with
  | O => λ _, NoFuel
  | S f =>
      b ← peek [LPAREN];
      if negb b then panic "parseblock" else
      gettoken;;
      c ← parseline f;
      b ← peek [RPAREN];
      if negb b then panic "syntax - missing )" else
      gettoken;;
      rs ← parseredirs [];
      ret (redirect c rs)
  end.

(** *p = 0 *)
Definition put_nul (buf : list Z) (p : nat) : list Z := <[(length buf - p)%nat := 0]> buf.
Fixpoint nulterminate (c : cmd span) (buf : list Z) : list Z :=
  match c with
  | Exec argv => foldl (λ b w, put_nul b w.2) buf argv
  | Redir c file _ _ => put_nul (nulterminate c buf) file.2
  | Pipe l r | List l r => nulterminate r (nulterminate l buf)
  | Back c => nulterminate c buf
  end.

(** The command and the line with its NULs.  Every call either consumes a byte
    or goes one step down from line to pipe to command to block. *)
Definition parse_fuel (buf : list Z) : nat := 4 * length buf + 4.
Definition parsecmd (buf : list Z) : outcome (list Z) (cmd span * list Z) :=
  (c ← parseline (parse_fuel buf);
   peek [];;
   s ← get;
   if bool_decide (s ≠ []) then panic "syntax" else
   ret (c, nulterminate c buf)) buf.

(** The string at a pointer: the bytes up to the next NUL or the end. *)
Fixpoint upto_nul (l : list Z) : list Z :=
  match l with c :: l' => if c =? 0 then [] else c :: upto_nul l' | [] => [] end.
Definition string_at (buf : list Z) (p : nat) : list Z := upto_nul (drop (length buf - p) buf).
Fixpoint resolve (f : span → list Z) (c : cmd span) : cmd (list Z) :=
  match c with
  | Exec argv => Exec (f <$> argv)
  | Redir c w mode fd => Redir (resolve f c) (f w) mode fd
  | Pipe l r => Pipe (resolve f l) (resolve f r)
  | List l r => List (resolve f l) (resolve f r)
  | Back c => Back (resolve f c)
  end.
(** The command as runcmd() sees it. *)
Definition run_view (buf : list Z) (c : cmd span) : cmd (list Z) := resolve (λ w, string_at buf w.1) c.

(** ** Running commands

    What a descriptor refers to, and the descriptors of a process.  fork(),
    wait() and exec() are taken to succeed; open() is an argument that says which
    files can be opened.  The result lists the programs started, in the order
    the shell starts them, with the descriptors each of them is given. *)
Inductive obj := Inherited (n : nat) | File (name : list Z) (mode : Z) | PipeRead (n : nat) | PipeWrite (n : nat).
Notation fdtable := (gmap Z obj).
Definition MAXFD : nat := 16.
(** The lowest free descriptor, which open(), dup() and pipe() give. *)
Definition lowest (fds : fdtable) : option Z :=
  head (filter (λ fd, fds !! fd = None) (seqZ 0 (Z.of_nat MAXFD))).
Definition dup_fd (fds : fdtable) (fd : Z) : fdtable :=
  match fds !! fd, lowest fds with
  | Some o, Some n => <[n := o]> fds
  | _, _ => fds
  end.
Definition close_fd (fds : fdtable) (fd : Z) : fdtable := delete fd fds.

Section run.
Variable open_ok : list Z → Z → bool.
Definition program := (list (list Z) * fdtable)%type.

(** [n] numbers the pipes.  A failed open() and an empty command exit. *)
Fixpoint runcmd (c : cmd (list Z)) (fds : fdtable) (n : nat) : list program * nat :=
  match c with
  | Exec argv => (if bool_decide (argv = []) then [] else [(argv, fds)], n)
  | Redir c file mode fd =>
      let fds := close_fd fds fd in
      match lowest fds with
      | Some k => if open_ok file mode then runcmd c (<[k := File file mode]> fds) n else ([], n)
      | None => ([], n)
      end
  | List l r =>
      let '(p, n) := runcmd l fds n in
      let '(q, n) := runcmd r fds n in
      (p ++ q, n)
  | Pipe l r =>
      match lowest fds with
      | Some p0 =>
          let fds := <[p0 := PipeRead n]> fds in
          match lowest fds with
          | Some p1 =>
              let fds := <[p1 := PipeWrite n]> fds in
              let fl := close_fd (close_fd (dup_fd (close_fd fds 1) p1) p0) p1 in
              let '(p, k) := runcmd l fl (S n) in
              let fr := close_fd (close_fd (dup_fd (close_fd fds 0) p0) p0) p1 in
              let '(q, k) := runcmd r fr k in
              (p ++ q, k)
          | None => ([], n)
          end
      | None => ([], n)
      end
  | Back c => runcmd c fds n
  end.
End run.

(** ** Tokens *)

Lemma skip_ws_length s : (length (skip_ws s) ≤ length s)%nat.
Proof. induction s as [|c s IH]; simpl; [lia|]. case_match; simpl; lia. Qed.
Lemma skip_word_length s : (length (skip_word s) ≤ length s)%nat.
Proof. induction s as [|c s IH]; simpl; [lia|]. case_match; simpl; lia. Qed.
Lemma skip_ws_idem s : skip_ws (skip_ws s) = skip_ws s.
Proof. induction s as [|c s IH]; simpl; [done|]. destruct (is_ws c) eqn:E; [done|]. simpl. by rewrite E. Qed.
Lemma skip_ws_head s c s' : skip_ws s = c :: s' → is_ws c = false.
Proof. induction s as [|d s IH]; simpl; [done|]. destruct (is_ws d) eqn:E; [done|]. intros [= -> ->]. done. Qed.

#[global] Arguments token : simpl never.

(** The three kinds of characters of gettoken(). *)
Lemma token_word c s : is_ws c = false → is_sym c = false →
  token (c :: s) = (LETTER_A, skip_word (c :: s)) ∧ (length (skip_word (c :: s)) ≤ length s)%nat.
Proof.
  intros Hw Hs. rewrite /is_sym bool_decide_eq_false in Hs. rewrite /token.
  rewrite bool_decide_eq_false_2; [rewrite /symbols in Hs; set_solver|].
  rewrite (proj2 (Z.eqb_neq c GT)); [rewrite /symbols in Hs; set_solver|]. split; [done|]. simpl.
  rewrite Hw /is_sym bool_decide_eq_false_2 //=. apply skip_word_length.
Qed.
Lemma token_length c s : is_ws c = false → (length (token (c :: s)).2 ≤ length s)%nat.
Proof.
  intros Hw. destruct (is_sym c) eqn:Hs; [|by rewrite (proj1 (token_word c s Hw Hs)); apply token_word].
  rewrite /token. case_bool_decide; [done|]. destruct (Z.eqb_spec c GT) as [->|Hg].
  - destruct s as [|d s]; [done|]. case_match; simpl; lia.
  - exfalso. apply bool_decide_eq_true in Hs. rewrite /symbols in Hs. set_solver.
Qed.

(** ** Termination *)

(** [r] is a run from position [s]: it returns further along the line, or
    panics. *)
Definition runs {A} (s : list Z) (r : outcome (list Z) A) : Prop :=
  match r with
  | Ok _ s' => (length s' ≤ length s)%nat
  | Panic _ => True
  | Block _ | NoFuel => False
  end.
Lemma runs_bind {A B} (p : P A) (k : A → P B) s0 s :
  (length s ≤ length s0)%nat → runs s (p s) →
  (∀ a s', p s = Ok a s' → (length s' ≤ length s)%nat → runs s0 (k a s')) → runs s0 (bind p k s).
Proof.
  intros Hs Hp Hk. rewrite /bind. destruct (p s) as [a s'| | |] eqn:E; try done. by apply Hk.
Qed.
Lemma runs_mono {A} s s0 (r : outcome (list Z) A) : (length s ≤ length s0)%nat → runs s r → runs s0 r.
Proof. intros Hs. destruct r; simpl; try done. lia. Qed.

Lemma peek_eq toks s : peek toks s =
  Ok (match skip_ws s with c :: _ => bool_decide (c ∈ toks) | [] => false end) (skip_ws s).
Proof. done. Qed.
Lemma peek_runs toks s : runs s (peek toks s).
Proof. apply skip_ws_length. Qed.
Lemma gettoken_runs s : runs s (gettoken s).
Proof.
  rewrite /gettoken. pose proof (skip_ws_length s) as H1. destruct (skip_ws s) as [|c s1] eqn:E; simpl; [lia|].
  pose proof (token_length c s1 (skip_ws_head _ _ _ E)) as H2. destruct (token (c :: s1)) as [t s2].
  simpl in *. pose proof (skip_ws_length s2). lia.
Qed.
(** After peek() saw a character gettoken() makes progress. *)
Lemma gettoken_less s t s' : skip_ws s ≠ [] → gettoken s = Ok t s' → (length s' < length s)%nat.
Proof.
  intros Hne. rewrite /gettoken. pose proof (skip_ws_length s) as H1. destruct (skip_ws s) as [|c s1] eqn:E; [done|].
  pose proof (token_length c s1 (skip_ws_head _ _ _ E)) as H2. destruct (token (c :: s1)) as [u s2].
  intros [= <- <-]. simpl in *. pose proof (skip_ws_length s2). lia.
Qed.
Lemma peek_true toks s b s' : peek toks s = Ok b s' → b = true → s' = skip_ws s ∧ skip_ws s' ≠ [].
Proof. rewrite peek_eq. intros [= <- <-] Hb. rewrite skip_ws_idem. by destruct (skip_ws s). Qed.
Lemma gettoken_zero s t s' : gettoken s = Ok t s' → t.1 ≠ 0 → (length s' < length s)%nat.
Proof.
  intros Hg Ht. apply (gettoken_less _ t); [|done]. intros Hs. rewrite /gettoken Hs in Hg. simpl in Hg.
  by injection Hg as <- <-.
Qed.

Ltac next := apply runs_bind; [simpl in *; lia|(apply peek_runs || apply gettoken_runs || idtac)|].

Lemma parseredirs_runs rs s : runs s (parseredirs rs s).
Proof.
  rewrite /parseredirs. assert (length s < S (length s))%nat as Hk by lia. revert Hk.
  generalize (S (length s)). intros k. revert rs s. induction k as [|k IH]; intros rs s Hk; [lia|]. cbn [parseredirs_loop].
  next. intros b s1 Hp H1. destruct b; [|done]. destruct (peek_true _ _ _ _ Hp) as [_ Hne]; [done|]. cbn [negb].
  next. intros t s2 Hg H2. pose proof (gettoken_less _ _ _ Hne Hg).
  next. intros f s3 _ H3. destruct (negb _); [done|]. eapply runs_mono; [|apply IH]; lia.
Qed.
Lemma parseargs_runs k argv rs s : (length s < k)%nat → runs s (parseargs k argv rs s).
Proof.
  revert argv rs s. induction k as [|k IH]; intros argv rs s Hk; [lia|]. cbn [parseargs].
  next. intros [] s1 _ H1; [done|]. next. intros t s2 Hg H2. destruct (Z.eqb_spec t.1 0) as [|Ht]; [simpl; lia|].
  pose proof (gettoken_zero _ _ _ Hg Ht). destruct (negb _); [done|]. destruct (_ <=? _)%nat; [done|].
  apply runs_bind; [lia|apply parseredirs_runs|]. intros rs' s3 _ H3. eapply runs_mono; [|apply IH]; lia.
Qed.
Lemma parseback_runs k c s : (length s < k)%nat → runs s (parseback k c s).
Proof.
  revert c s. induction k as [|k IH]; intros c s Hk; [lia|]. cbn [parseback].
  next. intros b s1 Hp H1. destruct b; [|done]. destruct (peek_true _ _ _ _ Hp) as [_ Hne]; [done|].
  next. intros t s2 Hg H2. pose proof (gettoken_less _ _ _ Hne Hg). eapply runs_mono; [|apply IH]; lia.
Qed.

Lemma parse_runs f s :
  ((4 * length s + 4 ≤ f)%nat → runs s (parseline f s)) ∧ ((4 * length s + 3 ≤ f)%nat → runs s (parsepipe f s)) ∧
  ((4 * length s + 2 ≤ f)%nat → runs s (parseexec f s)) ∧ ((4 * length s + 1 ≤ f)%nat → runs s (parseblock f s)).
Proof.
  revert s. induction f as [|f IH]; intros s; [split_and!; lia|]. split_and!; intros Hf; cbn [parseline parsepipe parseexec parseblock].
  - apply runs_bind; [lia|apply IH; lia|]. intros c s1 _ H1. apply runs_bind; [lia|simpl; lia|].
    intros n s2 [= <- <-] _. apply runs_bind; [lia|apply parseback_runs; lia|]. intros c' s3 _ H3.
    next. intros b s4 Hp H4. destruct b; [|simpl; lia]. destruct (peek_true _ _ _ _ Hp) as [_ Hne]; [done|].
    next. intros t s5 Hg H5. pose proof (gettoken_less _ _ _ Hne Hg).
    apply runs_bind; [lia|apply IH; lia|]. intros r s6 _ H6. simpl. lia.
  - apply runs_bind; [lia|apply IH; lia|]. intros c s1 _ H1.
    next. intros b s2 Hp H2. destruct b; [|simpl; lia]. destruct (peek_true _ _ _ _ Hp) as [_ Hne]; [done|].
    next. intros t s3 Hg H3. pose proof (gettoken_less _ _ _ Hne Hg).
    apply runs_bind; [lia|apply IH; lia|]. intros r s4 _ H4. simpl. lia.
  - next. intros [] s1 _ H1; [eapply runs_mono; [|apply IH]; lia|].
    apply runs_bind; [lia|apply parseredirs_runs|]. intros rs s2 _ H2. apply runs_bind; [lia|simpl; lia|].
    intros n s3 [= <- <-] _. apply runs_bind; [lia|apply parseargs_runs; lia|]. intros ar s4 _ H4. simpl. lia.
  - next. intros b s1 Hp H1. destruct b; [|done]. destruct (peek_true _ _ _ _ Hp) as [_ Hne]; [done|]. cbn [negb].
    next. intros t s2 Hg H2. pose proof (gettoken_less _ _ _ Hne Hg).
    apply runs_bind; [lia|apply IH; lia|]. intros c s3 _ H3.
    next. intros b' s4 _ H4. destruct b'; [|done]. cbn [negb]. next. intros t' s5 _ H5.
    apply runs_bind; [lia|apply parseredirs_runs|]. intros rs s6 _ H6. simpl. lia.
Qed.

(** ** The words of a command *)

Definition wordchar (c : Z) : Prop := is_ws c = false ∧ is_sym c = false.
Fixpoint cmd_all {W} (Q : W → Prop) (c : cmd W) : Prop :=
  match c with
  | Exec argv => Forall Q argv
  | Redir c w _ _ => cmd_all Q c ∧ Q w
  | Pipe l r | List l r => cmd_all Q l ∧ cmd_all Q r
  | Back c => cmd_all Q c
  end.
Lemma cmd_all_redirect {W} (Q : W → Prop) c rs :
  cmd_all Q (redirect c rs) ↔ cmd_all Q c ∧ Forall (λ r, Q r.1.1) rs.
Proof.
  rewrite /redirect. revert c; induction rs as [|r rs IH]; intros c; simpl; [by rewrite Forall_nil right_id|].
  rewrite IH /= Forall_cons. tauto.
Qed.

Lemma skip_ws_app s : ∃ w, s = w ++ skip_ws s.
Proof.
  induction s as [|c s [w IH]]; [by exists []|]. simpl. destruct (is_ws c); [|by exists []].
  exists (c :: w). simpl. by f_equal.
Qed.
Lemma skip_word_app s : ∃ w, s = w ++ skip_word s ∧ Forall wordchar w ∧
  (skip_word s = [] ∨ ∃ c s', skip_word s = c :: s' ∧ ¬ wordchar c).
Proof.
  induction s as [|c s (w & IH & Hw & He)]; [exists []; split_and!; [done|constructor|by left]|]. simpl.
  destruct (negb (is_ws c) && negb (is_sym c)) eqn:E.
  - exists (c :: w). split_and!; [simpl; by f_equal| |done]. constructor; [|done].
    apply andb_true_iff in E as [E1 E2]. by split; apply negb_true_iff.
  - exists []. split_and!; [done|constructor|]. right. exists c, s. split; [done|]. intros [H1 H2]. by rewrite H1 H2 in E.
Qed.

Section spans.
Variable buf : list Z.

(** The span is a word of the line, and the byte after it is no part of it. *)
Definition span_ok (w : span) : Prop :=
  ∃ pre l post, buf = pre ++ l ++ post ∧ w = (length (l ++ post), length post) ∧ l ≠ [] ∧ Forall wordchar l ∧
    (post = [] ∨ ∃ c post', post = c :: post' ∧ ¬ wordchar c).
Definition yields {A} (Q : A → Prop) (r : outcome (list Z) A) : Prop :=
  match r with Ok a s' => s' `suffix_of` buf ∧ Q a | _ => True end.

Lemma yields_bind {A B} (R : A → Prop) (Q : B → Prop) (p : P A) (k : A → P B) s :
  yields R (p s) → (∀ a s', s' `suffix_of` buf → R a → yields Q (k a s')) → yields Q (bind p k s).
Proof. rewrite /bind. destruct (p s); simpl; try done. intros [H1 H2] Hk. by apply Hk. Qed.
Lemma yields_ret {A} (Q : A → Prop) a s : s `suffix_of` buf → Q a → yields Q (ret a s).
Proof. done. Qed.

Lemma skip_ws_suffix s : s `suffix_of` buf → skip_ws s `suffix_of` buf.
Proof. destruct (skip_ws_app s) as [w Hw]. intros [p ->]. exists (p ++ w). rewrite -app_assoc. by rewrite -Hw. Qed.
Lemma suffix_cons_l c s : (c :: s) `suffix_of` buf → s `suffix_of` buf.
Proof. intros [p ->]. exists (p ++ [c]). by rewrite -app_assoc. Qed.
Lemma peek_yields toks s : s `suffix_of` buf → yields (λ _, True) (peek toks s).
Proof. intros Hs. split; [by apply skip_ws_suffix|done]. Qed.
Lemma gettoken_yields s : s `suffix_of` buf → yields (λ t, t.1 = LETTER_A → span_ok t.2) (gettoken s).
Proof.
  intros Hs. rewrite /gettoken. apply skip_ws_suffix in Hs.
  destruct (skip_ws s) as [|c s1] eqn:E; [split; [by exists buf; rewrite app_nil_r|done]|].
  pose proof (skip_ws_head _ _ _ E) as Hw. destruct (is_sym c) eqn:Hy.
  - rewrite /token. case_bool_decide as Hin.
    { split; [apply skip_ws_suffix; by apply (suffix_cons_l c)|]. simpl. intros ->. set_solver. }
    destruct (Z.eqb_spec c GT) as [->|Hg].
    + destruct s1 as [|d s2]. { split; [by exists buf; rewrite app_nil_r|]. intros He; vm_compute in He; done. }
      apply suffix_cons_l in Hs. destruct (d =? GT); (split; [apply skip_ws_suffix|intros He; vm_compute in He; done]).
      * by apply (suffix_cons_l d).
      * exact Hs.
    + exfalso. apply bool_decide_eq_true in Hy. rewrite /symbols in Hy. set_solver.
  - destruct (token_word c s1 Hw Hy) as [-> Hlen]. destruct (skip_word_app (c :: s1)) as (w & Hsp & Hwc & Hend).
    destruct Hs as [pre Hbuf]. split.
    + apply skip_ws_suffix. exists (pre ++ w). by rewrite -app_assoc -Hsp.
    + intros _. exists pre, w, (skip_word (c :: s1)). split_and!; [by rewrite -Hsp|by rewrite -Hsp| |done|done].
      intros ->. rewrite app_nil_l in Hsp. rewrite -Hsp in Hlen. simpl in Hlen. lia.
Qed.

Definition redirs_ok (rs : list (span * Z * Z)) : Prop := Forall (λ r, span_ok r.1.1) rs.
Ltac step := eapply yields_bind; [(by apply peek_yields) || (by apply gettoken_yields) || idtac|].
Lemma parseredirs_yields rs s : s `suffix_of` buf → redirs_ok rs → yields redirs_ok (parseredirs rs s).
Proof.
  rewrite /parseredirs. generalize (S (length s)). intros k. revert rs s.
  induction k as [|k IH]; intros rs s Hs Hr; [done|]. cbn [parseredirs_loop].
  step. intros b s1 H1 _. destruct (negb b); [by apply yields_ret|]. step. intros t s2 H2 _. step. intros f s3 H3 Hf.
  destruct (Z.eqb_spec f.1 LETTER_A) as [Ef|]; [|done]. apply IH; [done|]. specialize (Hf Ef).
  repeat case_match; try done; apply Forall_app; split; try done; by constructor.
Qed.
Lemma parseargs_yields k argv rs s : s `suffix_of` buf → Forall span_ok argv → redirs_ok rs →
  yields (λ ar, Forall span_ok ar.1 ∧ redirs_ok ar.2) (parseargs k argv rs s).
Proof.
  revert argv rs s. induction k as [|k IH]; intros argv rs s Hs Ha Hr; [done|]. cbn [parseargs].
  step. intros [] s1 H1 _; [by apply yields_ret|]. step. intros t s2 H2 Ht. case_match; [by apply yields_ret|].
  destruct (Z.eqb_spec t.1 LETTER_A) as [Et|]; [|done]. cbn [negb]. case_match; [done|]. step; [by apply parseredirs_yields|].
  intros rs' s3 H3 Hr'. apply IH; [done| |done]. apply Forall_app. split; [done|]. constructor; [by apply Ht|constructor].
Qed.
Lemma parseback_yields k c s : s `suffix_of` buf → cmd_all span_ok c → yields (cmd_all span_ok) (parseback k c s).
Proof.
  revert c s. induction k as [|k IH]; intros c s Hs Hc; [done|]. cbn [parseback].
  step. intros [] s1 H1 _; [|by apply yields_ret]. step. intros t s2 H2 _. by apply IH.
Qed.
Lemma parse_yields f s : s `suffix_of` buf →
  yields (cmd_all span_ok) (parseline f s) ∧ yields (cmd_all span_ok) (parsepipe f s) ∧
  yields (cmd_all span_ok) (parseexec f s) ∧ yields (cmd_all span_ok) (parseblock f s).
Proof.
  revert s. induction f as [|f IH]; intros s Hs; [done|]. split_and!; cbn [parseline parsepipe parseexec parseblock].
  - step; [by apply IH|]. intros c s1 H1 Hc. step; [by apply (yields_ret (λ _, True))|]. intros n s2 H2 _.
    step; [by apply parseback_yields|]. intros c' s3 H3 Hc'. step. intros [] s4 H4 _; [|by apply yields_ret].
    step. intros t s5 H5 _. step; [by apply IH|]. intros r s6 H6 Hr. by apply yields_ret.
  - step; [by apply IH|]. intros c s1 H1 Hc. step. intros [] s2 H2 _; [|by apply yields_ret].
    step. intros t s3 H3 _. step; [by apply IH|]. intros r s4 H4 Hr. by apply yields_ret.
  - step. intros [] s1 H1 _; [by apply IH|]. step; [by apply parseredirs_yields; [|constructor]|]. intros rs s2 H2 Hr.
    step; [by apply (yields_ret (λ _, True))|]. intros n s3 H3 _. step; [by apply parseargs_yields|].
    intros ar s4 H4 [Ha Hr']. apply yields_ret; [done|]. by apply cmd_all_redirect.
  - step. intros b s1 H1 _. destruct (negb b); [done|]. step. intros t s2 H2 _. step; [by apply IH|]. intros c s3 H3 Hc.
    step. intros b' s4 H4 _. destruct (negb b'); [done|]. step. intros t' s5 H5 _.
    step; [by apply parseredirs_yields; [|constructor]|]. intros rs s6 H6 Hr. apply yields_ret; [done|]. by apply cmd_all_redirect.
Qed.
End spans.

(** ** nulterminate() *)

Definition word_at (buf : list Z) (w : span) : list Z := take (w.1 - w.2) (drop (length buf - w.1) buf).

Section nul.
Variable buf : list Z.
Hypothesis no_nul : 0 ∉ buf.

(** [b] is the line with NULs in some places between words. *)
Definition cut (b : list Z) : Prop :=
  length b = length buf ∧ ∀ i c, buf !! i = Some c → wordchar c → b !! i = Some c.
Definition terminated (b : list Z) (w : span) : Prop := w.2 = 0%nat ∨ b !! (length buf - w.2)%nat = Some 0.

Lemma cut_put_nul b w : cut b → span_ok buf w →
  cut (put_nul b w.2) ∧ terminated (put_nul b w.2) w ∧ ∀ v, terminated b v → terminated (put_nul b w.2) v.
Proof.
  intros [Hl Hc] (pre & l & post & Hb & -> & Hne & Hw & Hend). cbn [fst snd]. rewrite /put_nul Hl.
  assert (length buf - length post = length (pre ++ l))%nat as Hi by (rewrite Hb !length_app; lia). rewrite Hi.
  split_and!.
  - split; [by rewrite length_insert|]. intros i c Hbi Hwc. destruct (decide (i = length (pre ++ l))) as [->|Hne'].
    + exfalso. rewrite Hb app_assoc lookup_app_r in Hbi; [lia|]. rewrite Nat.sub_diag in Hbi.
      destruct Hend as [->|(d & post' & -> & Hd)]; [done|]. by injection Hbi as ->.
    + rewrite list_lookup_insert_ne; [congruence|]. by apply Hc.
  - destruct Hend as [->|(d & post' & -> & Hd)]; [by left|right]. cbn [fst snd]. rewrite Hi.
    apply list_lookup_insert_eq. rewrite Hl Hb !length_app /=. lia.
  - intros v [Hv|Hv]; [by left|right]. destruct (decide (length (pre ++ l) = length buf - v.2)%nat) as [->|].
    + apply list_lookup_insert_eq. eapply lookup_lt_Some; exact Hv.
    + by rewrite list_lookup_insert_ne.
Qed.

Lemma nulterminate_cut c b : cut b → cmd_all (span_ok buf) c →
  cut (nulterminate c b) ∧ cmd_all (terminated (nulterminate c b)) c ∧
  ∀ v, terminated b v → terminated (nulterminate c b) v.
Proof.
  assert (∀ c b b', (∀ v, terminated b v → terminated b' v) → cmd_all (terminated b) c → cmd_all (terminated b') c) as Hmono.
  { intros c0 b0 b1 Hm. induction c0; simpl; [|naive_solver..]. intros Hf. eapply Forall_impl; [exact Hf|done]. }
  revert b. induction c as [argv|c IH w mode fd|l IHl r IHr|l IHl r IHr|c IH]; intros b Hb Hok; simpl in *.
  - revert b Hb. induction argv as [|w argv IH]; intros b Hb; simpl; [split_and!; [done|constructor|done]|].
    apply Forall_cons in Hok as [Hw Hok]. destruct (cut_put_nul b w Hb Hw) as (H1 & H2 & H3).
    destruct (IH Hok _ H1) as (H4 & H5 & H6). split_and!; [done|constructor; auto|auto].
  - destruct Hok as [Hc Hw]. destruct (IH b Hb Hc) as (H1 & H2 & H3). destruct (cut_put_nul _ w H1 Hw) as (H4 & H5 & H6).
    split; [done|]. split; [|auto]. split; [eapply Hmono; [|exact H2]; done|done].
  - destruct Hok as [Hl Hr]. destruct (IHl b Hb Hl) as (H1 & H2 & H3). destruct (IHr _ H1 Hr) as (H4 & H5 & H6).
    split; [done|]. split; [|auto]. split; [eapply Hmono; [|exact H2]; done|done].
  - destruct Hok as [Hl Hr]. destruct (IHl b Hb Hl) as (H1 & H2 & H3). destruct (IHr _ H1 Hr) as (H4 & H5 & H6).
    split; [done|]. split; [|auto]. split; [eapply Hmono; [|exact H2]; done|done].
  - by apply IH.
Qed.

Lemma upto_nul_app l r : 0 ∉ l → upto_nul (l ++ r) = l ++ upto_nul r.
Proof.
  induction l as [|c l IH]; [done|]. intros [Hc Hl]%not_elem_of_cons. simpl.
  rewrite (proj2 (Z.eqb_neq c 0)); [congruence|]. by rewrite IH.
Qed.
Lemma string_at_word b w : cut b → span_ok buf w → terminated b w → string_at b w.1 = word_at buf w.
Proof.
  intros [Hlen Hc] (pre & l & post & Hb & -> & Hne & Hw & Hend) Ht. rewrite /string_at /word_at /= Hlen.
  assert (length buf - length (l ++ post) = length pre)%nat as Hi by (rewrite Hb !length_app; lia). rewrite Hi.
  assert (drop (length pre) b = l ++ drop (length pre + length l) b) as Hd.
  { rewrite -{1}(take_drop (length l) (drop (length pre) b)) drop_drop. f_equal.
    apply list_eq. intros i. destruct (decide (i < length l)%nat) as [Hil|Hil].
    - rewrite lookup_take_lt // lookup_drop. destruct (lookup_lt_is_Some_2 l i Hil) as [c Hli]. rewrite Hli.
      rewrite Forall_lookup in Hw. apply Hc; [|exact (Hw i c Hli)]. rewrite Hb lookup_app_r; [lia|].
      replace (length pre + i - length pre)%nat with i by lia. by apply lookup_app_l_Some.
    - rewrite lookup_take_ge; [lia|]. symmetry. apply lookup_ge_None_2. lia. }
  rewrite Hd upto_nul_app.
  { intros H0. apply no_nul. rewrite Hb. set_solver. }
  assert (take (length (l ++ post) - length post) (drop (length pre) buf) = l) as ->.
  { rewrite {1}Hb drop_app_length length_app. replace (length l + length post - length post)%nat with (length l) by lia.
    apply take_app_length. }
  destruct Hend as [->|(d & post' & -> & Hnd)].
  - rewrite drop_ge; [rewrite Hlen Hb !length_app /=; lia|]. by rewrite app_nil_r.
  - destruct Ht as [Ht|Ht]; [done|]. cbn [fst snd] in Ht.
    replace (length buf - length (d :: post'))%nat with (length pre + length l)%nat in Ht by (rewrite Hb !length_app /=; lia).
    rewrite (drop_S _ 0 _ Ht) /=. by rewrite app_nil_r.
Qed.

(** What runcmd() sees are the words the parser found. *)
Lemma run_view_words c : cmd_all (span_ok buf) c →
  run_view (nulterminate c buf) c = resolve (word_at buf) c.
Proof.
  intros Hok. destruct (nulterminate_cut c buf) as (H1 & H2 & _); [done|done|]. revert H1 H2. rewrite /run_view.
  generalize (nulterminate c buf). intros b Hb.
  induction c as [argv|c IH w mode fd|l IHl r IHr|l IHl r IHr|c IH]; simpl in *.
  - intros Ht. f_equal. apply list_fmap_ext. intros i w Hi. rewrite Forall_lookup in Ht. rewrite Forall_lookup in Hok.
    apply string_at_word; [done|exact (Hok i w Hi)|exact (Ht i w Hi)].
  - intros [H3 H4]. destruct Hok. f_equal; [auto|]. by apply string_at_word.
  - intros [H3 H4]. destruct Hok. f_equal; auto.
  - intros [H3 H4]. destruct Hok. f_equal; auto.
  - intros H3. f_equal. auto.
Qed.
End nul.

(** ** Printing commands *)

Definition SP : Z := 32.
Notation redir_t := (list Z * Z * Z)%type.
Definition redir_text (r : redir_t) : list Z :=
  (if r.2 =? 0 then [LT] else if r.1.2 =? Z.lor O_WRONLY O_CREATE then [GT; GT] else [GT]) ++ r.1.1 ++ [SP].
Definition redirs_text (rs : list redir_t) : list Z := concat (redir_text <$> rs).
Definition args_text (args : list (list Z)) : list Z := concat ((λ w, w ++ [SP]) <$> args).
Definition paren (b : bool) (t : list Z) : list Z := if b then [LPAREN] ++ t ++ [RPAREN] else t.

(** The text of a command where a simple command (0), a pipeline (1), a
    pipeline with ampersands (2) or a line (3) is expected. *)
Fixpoint print (lv : nat) (c : cmd (list Z)) : list Z :=
  match c with
  | Exec args => args_text args
  | Redir c w mode fd => print 0 c ++ redir_text (w, mode, fd)
  | Pipe l r => paren (lv <? 1)%nat (print 0 l ++ [BAR] ++ print 1 r)
  | Back c => paren (lv <? 2)%nat (print 2 c ++ [AMP])
  | List l r => paren (lv <? 3)%nat (print 2 l ++ [SEMI] ++ print 3 r)
  end.

Definition word_wf (w : list Z) : Prop := w ≠ [] ∧ Forall wordchar w ∧ 0 ∉ w.
Definition redir_wf (r : redir_t) : Prop :=
  word_wf r.1.1 ∧ ((r.1.2, r.2) = (O_RDONLY, 0) ∨ (r.1.2, r.2) = (Z.lor (Z.lor O_WRONLY O_CREATE) O_TRUNC, 1) ∨
                   (r.1.2, r.2) = (Z.lor O_WRONLY O_CREATE, 1)).
(** What the shell can express. *)
Fixpoint cmd_wf (c : cmd (list Z)) : Prop :=
  match c with
  | Exec args => (length args < MAXARGS)%nat ∧ Forall word_wf args
  | Redir c w mode fd => cmd_wf c ∧ redir_wf (w, mode, fd)
  | Pipe l r | List l r => cmd_wf l ∧ cmd_wf r
  | Back c => cmd_wf c
  end.

(** ** Reading what was printed *)

(** The text does not begin with white space, nor with one of [toks]. *)
Definition starts (toks s : list Z) : Prop :=
  match s with [] => True | c :: _ => is_ws c = false ∧ c ∉ toks end.
Lemma starts_ws toks s : starts toks s → skip_ws s = s.
Proof. destruct s as [|c s]; [done|]. intros [H _]. simpl. by rewrite H. Qed.
Lemma peek_no toks s : starts toks s → peek toks s = Ok false s.
Proof.
  intros H. rewrite peek_eq (starts_ws _ _ H). destruct s as [|c s]; [done|]. destruct H as [_ H].
  by rewrite bool_decide_eq_false_2.
Qed.
Lemma peek_yes toks c s : is_ws c = false → c ∈ toks → peek toks (c :: s) = Ok true (c :: s).
Proof. intros H1 H2. rewrite peek_eq /= H1. by rewrite bool_decide_eq_true_2. Qed.
Lemma starts_word toks w r : word_wf w → (∀ c, c ∈ toks → c ∈ symbols) → starts toks (w ++ r).
Proof.
  intros (Hne & Hw & _) Ht. destruct w as [|c w]; [done|]. apply Forall_cons in Hw as [[H1 H2] _]. split; [done|].
  intros Hc. apply bool_decide_eq_false in H2. by apply H2, Ht.
Qed.

Lemma skip_word_word w c r : Forall wordchar w → ¬ wordchar c → skip_word (w ++ c :: r) = c :: r.
Proof.
  intros Hw Hc. induction w as [|d w IH]; simpl.
  - destruct (is_ws c) eqn:E1, (is_sym c) eqn:E2; simpl; try done. exfalso. by apply Hc.
  - apply Forall_cons in Hw as [[-> ->] Hw]. by apply IH.
Qed.
Lemma gettoken_word w r : word_wf w →
  gettoken (w ++ SP :: r) = Ok (LETTER_A, (length (w ++ SP :: r), length (SP :: r))) (skip_ws r).
Proof.
  intros Hwf. rewrite /gettoken (starts_ws [] (w ++ SP :: r)); [by apply starts_word; [|set_solver]|].
  destruct Hwf as (Hne & Hw & _). destruct w as [|c w]; [done|].
  pose proof Hw as [[H1 H2] _]%Forall_cons. cbn [app]. rewrite (proj1 (token_word c _ H1 H2)).
  change (c :: w ++ SP :: r) with ((c :: w) ++ SP :: r). rewrite skip_word_word //. intros [H _]. done.
Qed.
Lemma gettoken_sym c r : c ∈ [BAR; LPAREN; RPAREN; SEMI; AMP; LT] → ∃ w, gettoken (c :: r) = Ok (c, w) (skip_ws r).
Proof.
  intros Hc. assert (is_ws c = false) as Hw.
  { apply bool_decide_eq_false. rewrite /whitespace. set_solver by vm_compute. }
  rewrite /gettoken /= Hw /token bool_decide_eq_true_2 //. by eexists.
Qed.
Lemma gettoken_redir r s : redir_wf r → ∃ t w, gettoken (redir_text r ++ s) = Ok (t, w) (r.1.1 ++ [SP] ++ s) ∧
  (∀ f : span, (if t =? LT then [(f, O_RDONLY, 0)]
         else if t =? GT then [(f, Z.lor (Z.lor O_WRONLY O_CREATE) O_TRUNC, 1)]
         else if t =? PLUS then [(f, Z.lor O_WRONLY O_CREATE, 1)]
         else []) = [(f, r.1.2, r.2)]).
Proof.
  destruct r as [[w mode] fd]. intros [Hw Hr]. cbn [fst snd] in *.
  assert (skip_ws (w ++ [SP] ++ s) = w ++ [SP] ++ s) as Hs by (apply (starts_ws []), starts_word; [done|set_solver]).
  destruct Hr as [[= -> ->]|[[= -> ->]|[= -> ->]]]; rewrite /redir_text /= -!app_assoc.
  - destruct (gettoken_sym LT (w ++ [SP] ++ s)) as [v Hv]; [set_solver|]. exists LT, v. by rewrite Hv Hs.
  - exists GT, (length (GT :: w ++ [SP] ++ s), length (w ++ [SP] ++ s)). split; [|done].
    rewrite /gettoken /=. destruct Hw as (Hne & Hw & _). destruct w as [|c w]; [done|]. cbn [app] in *.
    pose proof Hw as [[H1 H2] _]%Forall_cons. apply bool_decide_eq_false in H2.
    rewrite /token /= (proj2 (Z.eqb_neq c GT)); [rewrite /symbols in H2; set_solver|]. by rewrite Hs.
  - exists PLUS, (length (GT :: GT :: w ++ [SP] ++ s), length (w ++ [SP] ++ s)). split; [|done].
    rewrite /gettoken /=. by rewrite Hs.
Qed.

Definition resolve_redirs (f : span → list Z) (rs : list (span * Z * Z)) : list redir_t :=
  (λ r, (f r.1.1, r.1.2, r.2)) <$> rs.
Lemma resolve_redirect f c rs : resolve f (redirect c rs) = redirect (resolve f c) (resolve_redirs f rs).
Proof. rewrite /redirect. revert c; induction rs as [|r rs IH]; intros c; simpl; [done|]. by rewrite IH. Qed.

Lemma word_at_span pre w r : word_at (pre ++ w ++ r) (length (w ++ r), length r) = w.
Proof.
  rewrite /word_at /=. rewrite !length_app. replace (length pre + (length w + length r) - (length w + length r))%nat with (length pre) by lia.
  rewrite drop_app_length. replace (length w + length r - length r)%nat with (length w) by lia. apply take_app_length.
Qed.

Lemma redirs_length rs : Forall redir_wf rs → (length rs ≤ length (redirs_text rs))%nat.
Proof.
  rewrite /redirs_text. induction 1 as [|r rs Hr Hrs IH]; [simpl; lia|]. rewrite fmap_cons concat_cons length_app. cbn [length].
  assert (length (redir_text r) ≠ 0)%nat; [|lia]. rewrite /redir_text !length_app /=. lia.
Qed.
Lemma redirs_starts toks rs rest : Forall redir_wf rs → starts toks rest → LT ∉ toks → GT ∉ toks →
  starts toks (redirs_text rs ++ rest).
Proof.
  intros Hrs Hrest Hl Hg. destruct Hrs as [|r rs Hr _]; [done|]. rewrite /redirs_text fmap_cons concat_cons -app_assoc.
  destruct r as [[w mode] fd]. by destruct Hr as [_ [[= -> ->]|[[= -> ->]|[= -> ->]]]].
Qed.

Lemma parseredirs_no k rs0 s : starts [LT; GT] s → parseredirs_loop (S k) rs0 s = Ok rs0 s.
Proof. intros Hs. cbn [parseredirs_loop]. rewrite /bind (peek_no _ _ Hs). done. Qed.
Lemma parseredirs_text rs k rs0 rest : Forall redir_wf rs → starts [LT; GT] rest → (length rs < k)%nat →
  ∃ sp, parseredirs_loop k rs0 (redirs_text rs ++ rest) = Ok (rs0 ++ sp) rest ∧
    ∀ pre, resolve_redirs (word_at (pre ++ redirs_text rs ++ rest)) sp = rs.
Proof.
  intros Hwf Hrest. revert k rs0. induction Hwf as [|r rs Hr Hwf IH]; intros k rs0 Hk.
  - destruct k as [|k]; [simpl in Hk; lia|]. exists []. rewrite app_nil_r. split; [by apply parseredirs_no|done].
  - destruct k as [|k]; [simpl in Hk; lia|]. cbn [parseredirs_loop].
    rewrite /redirs_text fmap_cons concat_cons -app_assoc -/(redirs_text rs).
    set (s := redirs_text rs ++ rest) in *.
    assert (peek [LT; GT] (redir_text r ++ s) = Ok true (redir_text r ++ s)) as Hp.
    { destruct r as [[w mode] fd]. destruct Hr as [_ [[= -> ->]|[[= -> ->]|[= -> ->]]]]; apply peek_yes; try done; set_solver. }
    destruct (gettoken_redir r s Hr) as (t & w & Ht & Hm).
    assert (skip_ws s = s) as Hs.
    { apply (starts_ws []), redirs_starts; [done| |set_solver..]. destruct rest; [done|]. destruct Hrest. split; [done|set_solver]. }
    pose proof (gettoken_word r.1.1 s (proj1 Hr)) as Hf.
    destruct (IH k (rs0 ++ [((length (r.1.1 ++ SP :: s), length (SP :: s)), r.1.2, r.2)])) as (sp & Hl & Hres); [simpl in Hk; lia|].
    exists (((length (r.1.1 ++ SP :: s), length (SP :: s)), r.1.2, r.2) :: sp). split.
    + rewrite /bind Hp /= Ht. cbn [app] in Ht |- *. rewrite Hf /= Hs.
      specialize (Hm (length (r.1.1 ++ SP :: s), length (SP :: s))).
      assert (∀ x : span * Z * Z, rs0 ++ x :: sp = (rs0 ++ [x]) ++ sp) as -> by (intros; by rewrite -app_assoc).
      rewrite -Hl. f_equal. revert Hm. repeat case_match; by intros [= -> ->] || (intros [=]).
    + intros pre. rewrite /resolve_redirs fmap_cons. f_equal.
      * destruct r as [[w' mode] fd]. cbn [fst snd]. f_equal. f_equal. rewrite /redir_text /= -!app_assoc.
        rewrite app_assoc. apply (word_at_span _ w' (SP :: s)).
      * rewrite app_assoc. apply Hres.
Qed.

Definition after_exec : list Z := [BAR; RPAREN; AMP; SEMI].
(** What may follow a simple command: the end of the line or an operator. *)
Definition follow (toks s : list Z) : Prop := match s with [] => True | c :: _ => c ∈ toks end.
Lemma follow_starts toks no s : follow toks s → (∀ c, c ∈ toks → is_ws c = false ∧ c ∉ no) → starts no s.
Proof. destruct s as [|c s]; [done|]. intros Hc H. by apply H. Qed.
Lemma op_not_ws c : c ∈ symbols → is_ws c = false.
Proof. intros Hc. apply bool_decide_eq_false. rewrite /symbols /whitespace in Hc |- *. set_solver by vm_compute. Qed.
Ltac follows := eapply follow_starts; [eassumption|intros ? Hc; split;
  [apply op_not_ws; rewrite /symbols /after_exec in Hc |- *; set_solver|rewrite /after_exec in Hc; set_solver by vm_compute]].

Lemma parseargs_end k argv rs rest : follow after_exec rest → parseargs (S k) argv rs rest = Ok (argv, rs) rest.
Proof.
  intros Hf. cbn [parseargs]. destruct rest as [|c rest]; [done|].
  rewrite /bind peek_yes //. apply op_not_ws. rewrite /follow /after_exec /symbols in Hf |- *. set_solver.
Qed.

Lemma parseargs_text args rs k argv rs0 rest : args ≠ [] → Forall word_wf args → Forall redir_wf rs →
  follow after_exec rest → (length argv + length args < MAXARGS)%nat → (length (args_text args ++ redirs_text rs ++ rest) < k)%nat →
  ∃ sp spr, parseargs k argv rs0 (args_text args ++ redirs_text rs ++ rest) = Ok (argv ++ sp, rs0 ++ spr) rest ∧
    ∀ pre, let f := word_at (pre ++ args_text args ++ redirs_text rs ++ rest) in f <$> sp = args ∧ resolve_redirs f spr = rs.
Proof.
  intros Hne Hwf Hrs Hrest. revert k argv Hne. induction Hwf as [|w args Hw Hwf IH]; intros k argv Hne Hmax Hk; [done|].
  clear Hne. destruct k as [|k]; [lia|].
  rewrite /args_text fmap_cons concat_cons -!app_assoc -/(args_text args) in Hk |- *.
  set (s := args_text args ++ redirs_text rs ++ rest) in *. change ([SP] ++ s) with (SP :: s) in *.
  cbn [parseargs]. rewrite {1}/bind peek_no; [apply starts_word; [done|rewrite /symbols; set_solver]|].
  rewrite {1}/bind (gettoken_word w s Hw). cbn [fst snd]. rewrite (proj2 (Z.eqb_neq LETTER_A 0)); [done|].
  rewrite Z.eqb_refl. cbn [negb]. rewrite (proj2 (Nat.leb_gt _ _)); [rewrite length_app; rewrite /MAXARGS in Hmax |- *; simpl in *; lia|].
  assert (length s < k)%nat as Hks by (rewrite length_app /= in Hk; lia).
  set (sw := (length (w ++ SP :: s), length (SP :: s))).
  destruct args as [|w' args].
  - assert (starts [LT; GT] rest) as Hr by follows.
    assert (length rs < S (length s))%nat as Hlr.
    { pose proof (redirs_length rs Hrs). rewrite /s /= length_app. lia. }
    assert (skip_ws s = s) as Hs.
    { apply (starts_ws []), redirs_starts; [done|follows|set_solver..]. }
    rewrite Hs. destruct (parseredirs_text rs (S (length s)) rs0 rest Hrs Hr Hlr) as (spr & Hp & Hres).
    exists [sw], spr. split.
    + change s with (redirs_text rs ++ rest) at 1. rewrite /bind /parseredirs Hp.
      destruct k as [|k]; [lia|]. by rewrite parseargs_end.
    + intros pre. cbv zeta. split; [simpl; f_equal; apply word_at_span|].
      rewrite app_assoc. change (SP :: s) with ([SP] ++ s). rewrite app_assoc. apply Hres.
  - assert (skip_ws s = s) as Hs.
    { apply (starts_ws []). rewrite /s /args_text fmap_cons concat_cons -!app_assoc. apply Forall_cons in Hwf as [? _].
      by apply starts_word; [|set_solver]. }
    assert (starts [LT; GT] s) as Hst.
    { rewrite /s /args_text fmap_cons concat_cons -!app_assoc. apply Forall_cons in Hwf as [? _].
      apply starts_word; [done|rewrite /symbols; set_solver]. }
    destruct (IH k (argv ++ [sw])) as (sp & spr & Hp & Hres); [done|rewrite length_app; simpl in *; lia|done|].
    exists (sw :: sp), spr. split.
    + rewrite Hs {1}/bind /parseredirs parseredirs_no //. rewrite Hp -app_assoc. done.
    + intros pre. cbv zeta. destruct (Hres (pre ++ w ++ [SP])) as [H1 H2].
      assert (pre ++ w ++ SP :: s = (pre ++ w ++ [SP]) ++ s) as Hf by (rewrite -!app_assoc; done).
      split; [|rewrite Hf; exact H2]. rewrite fmap_cons. f_equal; [apply word_at_span|]. rewrite Hf. exact H1.
Qed.

Definition good (s : list Z) (t : cmd span) (c : cmd (list Z)) : Prop := ∀ pre, resolve (word_at (pre ++ s)) t = c.
Lemma good_app a s t c : good s t c → good (a ++ s) t c.
Proof. intros H pre. rewrite app_assoc. apply H. Qed.

Lemma parseexec_exec f args rs rest : Forall word_wf args → Forall redir_wf rs → (length args < MAXARGS)%nat →
  follow after_exec rest → let s := args_text args ++ redirs_text rs ++ rest in
  ∃ t, parseexec (S f) s = Ok t rest ∧ good s t (redirect (Exec args) rs).
Proof.
  intros Ha Hrs Hmax Hrest s. assert (starts [LT; GT] rest) as Hr by follows.
  assert (length rs < S (length (redirs_text rs ++ rest)))%nat as Hlr.
  { pose proof (redirs_length rs Hrs). rewrite length_app. lia. }
  assert (starts [LPAREN] s) as Hlp.
  { rewrite /s. destruct Ha as [|w args Hw Ha].
    - apply redirs_starts; [done|follows|set_solver by vm_compute..].
    - rewrite /args_text fmap_cons concat_cons -!app_assoc. apply starts_word; [done|rewrite /symbols; set_solver]. }
  cbn [parseexec]. rewrite {1}/bind (peek_no _ _ Hlp). destruct args as [|w args].
  - destruct (parseredirs_text rs (S (length (redirs_text rs ++ rest))) [] rest Hrs Hr Hlr) as (spr & Hp & Hres).
    exists (redirect (Exec []) spr). split.
    + change s with (redirs_text rs ++ rest). rewrite /bind /parseredirs Hp /gets. by rewrite parseargs_end.
    + intros pre. rewrite resolve_redirect. by rewrite (Hres pre).
  - rewrite {1}/bind /parseredirs parseredirs_no.
    { rewrite /s /args_text fmap_cons concat_cons -!app_assoc. apply Forall_cons in Ha as [? _].
      apply starts_word; [done|rewrite /symbols; set_solver]. }
    destruct (parseargs_text (w :: args) rs (S (length s)) [] [] rest) as (sp & spr & Hp & Hres); [done..|rewrite /s; lia|].
    exists (redirect (Exec sp) spr). split.
    + rewrite -/s in Hp. by rewrite /bind /gets Hp.
    + intros pre. destruct (Hres pre) as [H1 H2]. rewrite resolve_redirect. cbn [resolve]. by rewrite H1 H2.
Qed.

(** What may follow a pipeline, and a line. *)
Definition after_pipe : list Z := [RPAREN; AMP; SEMI].
Definition after_line : list Z := [RPAREN].

Lemma print_starts lv c rest : cmd_wf c → starts [] rest → starts [] (print lv c ++ rest).
Proof.
  assert (∀ b t r, starts [] (t ++ r) → starts [] (paren b t ++ r)) as Hpar.
  { intros [] t r Ht; [|done]. simpl. split; [done|set_solver]. }
  revert lv rest. induction c as [args|c IH w mode fd|l IHl r IHr|l IHl r IHr|c IH]; intros lv rest Hwf Hr; simpl in *.
  - destruct args as [|w args]; [done|]. destruct Hwf as [_ [Hw _]%Forall_cons].
    rewrite /args_text fmap_cons concat_cons -!app_assoc. apply starts_word; [done|set_solver].
  - destruct Hwf as [Hc Hw]. rewrite -app_assoc. apply IH; [done|].
    pose proof (redirs_starts [] [(w, mode, fd)] rest) as Hs. rewrite /redirs_text /= app_nil_r in Hs. apply Hs; [|done|set_solver..].
    constructor; [done|constructor].
  - destruct Hwf as [Hl Hr']. apply Hpar. rewrite -!app_assoc. apply IHl; [done|]. split; [done|set_solver].
  - destruct Hwf as [Hl Hr']. apply Hpar. rewrite -!app_assoc. apply IHl; [done|]. split; [done|set_solver].
  - apply Hpar. rewrite -app_assoc. apply IH; [done|]. split; [done|set_solver].
Qed.

(** What the parser does with the text of [c] where each kind of command is
    expected. *)
Section reads.
Variable c : cmd (list Z).
Definition reads_exec : Prop := ∀ rs rest f, Forall redir_wf rs → follow after_exec rest →
  let s := print 0 c ++ redirs_text rs ++ rest in (4 * length s + 2 ≤ f)%nat →
  ∃ t, parseexec f s = Ok t rest ∧ good s t (redirect c rs).
Definition reads_pipe : Prop := ∀ rest f, follow after_pipe rest →
  let s := print 1 c ++ rest in (4 * length s + 3 ≤ f)%nat →
  ∃ t, parsepipe f s = Ok t rest ∧ good s t c.
Definition reads_back : Prop := ∀ rest f, follow after_pipe rest →
  let s := print 2 c ++ rest in (4 * length s + 3 ≤ f)%nat →
  ∃ t0 s1 t, parsepipe f s = Ok t0 s1 ∧ good s t c ∧
    ∀ k, (length s1 < k)%nat → ∃ k', (length rest < k')%nat ∧ parseback k t0 s1 = parseback k' t rest.
Definition reads_line : Prop := ∀ rest f, follow after_line rest →
  let s := print 3 c ++ rest in (4 * length s + 4 ≤ f)%nat →
  ∃ t, parseline f s = Ok t rest ∧ good s t c.

Ltac follow2 := eapply follow_starts; [eassumption|intros ? Hc; split;
  [apply op_not_ws; rewrite /symbols /after_exec /after_pipe /after_line in Hc |- *; set_solver
  |rewrite /after_exec /after_pipe /after_line in Hc; set_solver by vm_compute]].
Lemma follow_mono toks toks' s : follow toks s → (∀ x, x ∈ toks → x ∈ toks') → follow toks' s.
Proof. destruct s; [done|]. intros H1 H2. by apply H2. Qed.

Lemma exec_pipe : print 1 c = print 0 c → reads_exec → reads_pipe.
Proof.
  intros He HE rest f Hf s Hfu. destruct f as [|f]; [lia|]. cbn [parsepipe].
  destruct (HE [] rest f) as (t & Ht & Hg); [constructor| | |].
  { eapply follow_mono; [exact Hf|]. rewrite /after_pipe /after_exec. set_solver. }
  { simpl. rewrite /s He in Hfu. lia. }
  simpl in Ht, Hg. exists t. rewrite /s He. split; [|done]. rewrite /bind Ht. by rewrite (peek_no [BAR] rest); [follow2|].
Qed.
Lemma pipe_back : print 2 c = print 1 c → reads_pipe → reads_back.
Proof.
  intros He HP rest f Hf s Hfu. destruct (HP rest f) as (t & Ht & Hg); [done|by rewrite -He|].
  exists t, rest, t. rewrite /s He. split_and!; [done..|]. intros k Hk. by exists k.
Qed.
Lemma back_line : print 3 c = print 2 c → reads_back → reads_line.
Proof.
  intros He HB rest f Hf s Hfu. destruct f as [|f]; [lia|]. cbn [parseline].
  destruct (HB rest f) as (t0 & s1 & t & Ht & Hg & Hb).
  { eapply follow_mono; [exact Hf|]. rewrite /after_pipe /after_line. set_solver. }
  { rewrite /s He in Hfu. lia. }
  exists t. rewrite /s He. split; [|done]. rewrite /bind Ht /gets. destruct (Hb (S (length s1))) as (k' & Hk' & ->); [lia|].
  destruct k' as [|k']; [lia|]. cbn [parseback]. rewrite /bind (peek_no [AMP] rest); [follow2|].
  by rewrite /ret (peek_no [SEMI] rest); [follow2|].
Qed.
(** A command in parentheses. *)
Lemma line_exec : cmd_wf c → print 0 c = [LPAREN] ++ print 3 c ++ [RPAREN] → reads_line → reads_exec.
Proof.
  intros Hwf He HL rs rest f Hrs Hf s Hfu. destruct f as [|[|f]]; [lia|lia|]. cbn [parseexec parseblock].
  set (s2 := redirs_text rs ++ rest). set (s1 := print 3 c ++ RPAREN :: s2).
  assert (s = LPAREN :: s1) as Hs by (rewrite /s /s1 He -!app_assoc; done).
  destruct (HL (RPAREN :: s2) f) as (t & Ht & Hg).
  { rewrite /follow /after_line. set_solver. }
  { rewrite Hs /= in Hfu. rewrite -/s1. lia. }
  assert (starts [LT; GT] rest) as Hr by follow2.
  assert (skip_ws s2 = s2) as Hs2 by (apply (starts_ws []), redirs_starts; [done|follow2|set_solver..]).
  destruct (parseredirs_text rs (S (length s2)) [] rest Hrs Hr) as (spr & Hp & Hres).
  { pose proof (redirs_length rs Hrs). rewrite /s2 length_app. lia. }
  assert (skip_ws s1 = s1) as Hs1.
  { apply (starts_ws []), print_starts; [done|]. split; [done|set_solver]. }
  exists (redirect t spr). split.
  - rewrite Hs. rewrite /bind (peek_yes [LPAREN] LPAREN s1); [done|set_solver|]. cbn beta iota.
    rewrite (peek_yes [LPAREN] LPAREN s1); [done|set_solver|]. cbn [negb].
    destruct (gettoken_sym LPAREN s1) as [w Hw]; [set_solver|]. rewrite Hw Hs1 Ht.
    rewrite (peek_yes [RPAREN] RPAREN s2); [done|set_solver|]. cbn [negb].
    destruct (gettoken_sym RPAREN s2) as [w' Hw']; [set_solver|]. rewrite Hw' Hs2. by rewrite /parseredirs Hp.
  - rewrite Hs. intros pre. rewrite resolve_redirect. change (LPAREN :: s1) with ([LPAREN] ++ s1). rewrite app_assoc Hg.
    f_equal. assert ((pre ++ [LPAREN]) ++ s1 = ((pre ++ [LPAREN]) ++ print 3 c ++ [RPAREN]) ++ s2) as ->
      by (rewrite /s1 -!app_assoc; done). apply Hres.
Qed.
End reads.

(** The parser reads every command it can express from its text. *)
Lemma reads_all c : cmd_wf c → reads_exec c ∧ reads_pipe c ∧ reads_back c ∧ reads_line c.
Proof.
  induction c as [args|c IH w mode fd|l IHl r IHr|l IHl r IHr|c IH]; intros Hwf; pose proof Hwf as Hwf0; simpl in Hwf.
  - enough (reads_exec (Exec args)) as HE.
    { assert (reads_pipe (Exec args)) by by apply exec_pipe. assert (reads_back (Exec args)) by by apply pipe_back.
      split_and!; [done..|]. by apply back_line. }
    intros rs rest f Hrs Hf s Hfu. destruct Hwf as [Hmax Ha]. destruct f as [|f]; [lia|]. by apply parseexec_exec.
  - destruct Hwf as [Hc Hw]. destruct (IH Hc) as [HE _]. clear IH. set (c' := Redir c w mode fd).
    enough (reads_exec c') as HE'.
    { assert (reads_pipe c') by by apply exec_pipe. assert (reads_back c') by by apply pipe_back.
      split_and!; [done..|]. by apply back_line. }
    intros rs rest f Hrs Hf s Hfu.
    assert (s = print 0 c ++ redirs_text ((w, mode, fd) :: rs) ++ rest) as Hs by (rewrite /s /= /redirs_text /= -!app_assoc; done).
    destruct (HE ((w, mode, fd) :: rs) rest f) as (t & Ht & Hg); [by constructor|done|by rewrite -Hs|].
    exists t. by rewrite Hs.
  - destruct Hwf as [Hl Hr]. destruct (IHl Hl) as (HE & _). destruct (IHr Hr) as (_ & HP & _). set (c' := Pipe l r).
    enough (reads_pipe c') as HP'.
    { assert (reads_back c') by by apply pipe_back. assert (reads_line c') by by apply back_line.
      split_and!; [|done..]. by apply line_exec. }
    intros rest f Hf s Hfu. destruct f as [|f]; [lia|]. cbn [parsepipe].
    set (s2 := print 1 r ++ rest).
    assert (s = print 0 l ++ redirs_text [] ++ BAR :: s2) as Hs by (rewrite /s /s2 /= -!app_assoc; done).
    destruct (HE [] (BAR :: s2) f) as (t & Ht & Hg); [constructor|rewrite /follow /after_exec; set_solver|rewrite -Hs; lia|].
    destruct (HP rest f Hf) as (t' & Ht' & Hg').
    { rewrite -/s2. rewrite Hs /= !length_app /= in Hfu. lia. }
    exists (Pipe t t'). rewrite Hs. split.
    + rewrite /bind Ht (peek_yes [BAR] BAR s2); [done|set_solver|]. cbn beta iota.
      destruct (gettoken_sym BAR s2) as [w Hw]; [set_solver|]. rewrite Hw.
      assert (skip_ws s2 = s2) as ->.
      { apply (starts_ws []), print_starts; [done|]. eapply follow_starts; [exact Hf|].
        intros x Hx. split; [apply op_not_ws; rewrite /symbols /after_pipe in Hx |- *; set_solver|set_solver]. }
      by rewrite Ht'.
    + intros pre. cbn [resolve]. rewrite Hg. f_equal. cbn [app] in Hg' |- *.
      assert (pre ++ print 0 l ++ redirs_text [] ++ BAR :: s2 = (pre ++ print 0 l ++ [BAR]) ++ s2) as ->
        by (rewrite /= -!app_assoc; done). apply Hg'.
  - destruct Hwf as [Hl Hr]. destruct (IHl Hl) as (_ & _ & HB & _). destruct (IHr Hr) as (_ & _ & _ & HL). set (c' := List l r).
    enough (reads_line c') as HL'.
    { assert (reads_exec c') by by apply line_exec. assert (reads_pipe c') by by apply exec_pipe.
      split_and!; [done..| |done]. by apply pipe_back. }
    intros rest f Hf s Hfu. destruct f as [|f]; [lia|]. cbn [parseline].
    set (s2 := print 3 r ++ rest).
    assert (s = print 2 l ++ SEMI :: s2) as Hs by (rewrite /s /s2 /= -!app_assoc; done).
    destruct (HB (SEMI :: s2) f) as (t0 & s1 & t & Ht & Hg & Hb); [rewrite /follow /after_pipe; set_solver|rewrite -Hs; lia|].
    destruct (HL rest f Hf) as (t' & Ht' & Hg').
    { rewrite -/s2. rewrite Hs /= !length_app /= in Hfu. lia. }
    exists (List t t'). rewrite Hs. split.
    + rewrite /bind Ht /gets. destruct (Hb (S (length s1))) as (k' & Hk' & ->); [lia|].
      destruct k' as [|k']; [lia|]. cbn [parseback]. rewrite /bind (peek_no [AMP] (SEMI :: s2)); [split; [done|set_solver by vm_compute]|].
      rewrite /ret (peek_yes [SEMI] SEMI s2); [done|set_solver|].
      destruct (gettoken_sym SEMI s2) as [w Hw]; [set_solver|]. rewrite Hw.
      assert (skip_ws s2 = s2) as ->.
      { apply (starts_ws []), print_starts; [done|]. eapply follow_starts; [exact Hf|].
        intros x Hx. split; [apply op_not_ws; rewrite /symbols /after_line in Hx |- *; set_solver|set_solver]. }
      by rewrite Ht'.
    + intros pre. cbn [resolve]. rewrite Hg. f_equal.
      assert (pre ++ print 2 l ++ SEMI :: s2 = (pre ++ print 2 l ++ [SEMI]) ++ s2) as ->
        by (rewrite /= -!app_assoc; done). apply Hg'.
  - destruct (IH Hwf) as (_ & _ & HB & _). set (c' := Back c).
    enough (reads_back c') as HB'.
    { assert (reads_line c') by by apply back_line. assert (reads_exec c') by by apply line_exec.
      split_and!; [done| |done..]. by apply exec_pipe. }
    intros rest f Hf s Hfu. assert (s = print 2 c ++ AMP :: rest) as Hs by (rewrite /s /= -!app_assoc; done).
    destruct (HB (AMP :: rest) f) as (t0 & s1 & t & Ht & Hg & Hb); [rewrite /follow /after_pipe; set_solver|rewrite -Hs; lia|].
    exists t0, s1, (Back t). rewrite Hs. split_and!; [done|intros pre; cbn [resolve]; by rewrite Hg|].
    intros k Hk. destruct (Hb k Hk) as (k' & Hk' & ->). destruct k' as [|k']; [lia|]. exists k'. split; [simpl in Hk'; lia|].
    cbn [parseback]. rewrite {1}/bind. rewrite (peek_yes [AMP] AMP rest); [done|set_solver|].
    destruct (gettoken_sym AMP rest) as [w Hw]; [set_solver|]. rewrite {1}/bind Hw.
    rewrite (starts_ws [] rest) //. eapply follow_starts; [exact Hf|].
    intros x Hx. split; [apply op_not_ws; rewrite /symbols /after_pipe in Hx |- *; set_solver|set_solver].
Qed.

Lemma print_no_nul lv c : cmd_wf c → 0 ∉ print lv c.
Proof.
  assert (∀ b t, 0 ∉ t → 0 ∉ paren b t) as Hpar.
  { intros [] t Ht; [|done]. simpl. set_solver by vm_compute. }
  revert lv. induction c as [args|c IH w mode fd|l IHl r IHr|l IHl r IHr|c IH]; intros lv Hwf; simpl in *.
  - destruct Hwf as [_ Ha]. rewrite /args_text. induction Ha as [|w args (_ & _ & Hw) Ha IH]; [set_solver|].
    rewrite fmap_cons concat_cons !elem_of_app list_elem_of_singleton. intros [[?|?]|?]; done.
  - destruct Hwf as [Hc [(_ & _ & Hw) _]]. rewrite /redir_text !elem_of_app list_elem_of_singleton. cbn [fst snd] in *.
    specialize (IH 0%nat Hc). intros [?|[H|[?|H]]]; [done| |done|done]. repeat case_match; set_solver by vm_compute.
  - destruct Hwf as [Hl Hr]. apply Hpar. rewrite !elem_of_app. specialize (IHl 0%nat Hl). specialize (IHr 1%nat Hr). set_solver by vm_compute.
  - destruct Hwf as [Hl Hr]. apply Hpar. rewrite !elem_of_app. specialize (IHl 2%nat Hl). specialize (IHr 3%nat Hr). set_solver by vm_compute.
  - apply Hpar. rewrite elem_of_app. specialize (IH 2%nat Hwf). set_solver by vm_compute.
Qed.

Lemma parseline_print c : cmd_wf c →
  ∃ t, parseline (parse_fuel (print 3 c)) (print 3 c) = Ok t [] ∧ run_view (nulterminate t (print 3 c)) t = c.
Proof.
  intros Hwf. destruct (reads_all c Hwf) as (_ & _ & _ & HL).
  destruct (HL [] (parse_fuel (print 3 c))) as (t & Ht & Hg); [done|rewrite app_nil_r /parse_fuel; lia|].
  rewrite app_nil_r in Ht. exists t. split; [done|].
  destruct (parse_yields (print 3 c) (parse_fuel (print 3 c)) (print 3 c)) as [Hy _]; [done|].
  rewrite Ht in Hy. destruct Hy as [_ Hy]. rewrite run_view_words //; [by apply print_no_nul|].
  specialize (Hg []). by rewrite app_nil_r in Hg.
Qed.

(** C25: the shell reads back what is printed: for every command it can express
    (simple commands with redirections, pipelines, lists, background jobs, nested
    in any way), parsecmd() of its text gives that command, and nulterminate()
    leaves each argument and file name as a string of its own. *)
Theorem parse_print c : cmd_wf c →
  ∃ t b s, parsecmd (print 3 c) = Ok (t, b) s ∧ run_view b t = c.
Proof.
  intros (t & Ht & Hv)%parseline_print. exists t, (nulterminate t (print 3 c)), []. split; [|done].
  by rewrite /parsecmd /bind Ht.
Qed.

(** C33: the parser terminates on every line: it either reports a syntax error or
    returns a command, whose arguments and file names are then nonempty words of
    the line without white space or operators. *)
Theorem parse_total buf : 0 ∉ buf →
  match parsecmd buf with
  | Ok (t, b) _ => run_view b t = resolve (word_at buf) t ∧ cmd_all (λ w, word_wf (word_at buf w)) t
  | Panic _ => True
  | Block _ | NoFuel => False
  end.
Proof.
  intros Hn. destruct (parse_runs (parse_fuel buf) buf) as [Hr _]. destruct (parse_yields buf (parse_fuel buf) buf) as [Hy _]; [done|].
  specialize (Hr ltac:(rewrite /parse_fuel; lia)). rewrite /parsecmd /bind. destruct (parseline (parse_fuel buf) buf) as [t s| | |]; try done.
  rewrite peek_eq /get. case_bool_decide; [done|]. destruct Hy as [_ Hy]. split; [by apply run_view_words|].
  clear -Hn Hy. assert (∀ w, span_ok buf w → word_wf (word_at buf w)) as Hw.
  { intros w (pre & l & post & -> & -> & Hne & Hl & _). rewrite word_at_span. split_and!; [done..|]. set_solver. }
  induction t; simpl in *; [|naive_solver..]. eapply Forall_impl; [exact Hy|done].
Qed.

(** sort <in | (cat a b >>out &; echo) *)
Definition ex_cmd : cmd (list Z) :=
  Pipe (Redir (Exec [str "sort"]) (str "in") 0 0)
       (List (Back (Redir (Exec [str "cat"; str "a"; str "b"]) (str "out") 513 1)) (Exec [str "echo"])).
Lemma ex_cmd_wf : cmd_wf ex_cmd.
Proof.
  assert (∀ w, forallb (λ c, negb (is_ws c) && negb (is_sym c) && negb (c =? 0)) w = true → w ≠ [] → word_wf w) as Hw.
  { intros w Hb Hne. rewrite /word_wf. split_and!; [done| |].
    - apply Forall_forall. intros c Hc. rewrite forallb_forall in Hb. 
      assert (In c w) as Hin by by apply list_elem_of_In. apply Hb in Hin. rewrite !andb_true_iff !negb_true_iff in Hin.
      split; tauto.
    - intros Hc. rewrite forallb_forall in Hb. assert (In 0 w) as Hin by by apply list_elem_of_In. apply Hb in Hin. done. }
  rewrite /ex_cmd /cmd_wf /redir_wf.
  repeat match goal with
  | |- _ ∧ _ => split
  | |- Forall _ _ => constructor
  | |- word_wf _ => apply Hw; [by vm_compute|done]
  | |- (_ < _)%nat => vm_compute; lia
  end.
  - by left.
  - right. by right.
Qed.
Lemma parse_print_witness : ∃ t b s, parsecmd (print 3 ex_cmd) = Ok (t, b) s ∧ run_view b t = ex_cmd.
Proof. apply (parse_print ex_cmd). exact ex_cmd_wf. Defined.
Lemma parse_total_witness :
  match parsecmd (str "cat <in | wc") with
  | Ok (t, b) _ => run_view b t = resolve (word_at (str "cat <in | wc")) t ∧
      cmd_all (λ w, word_wf (word_at (str "cat <in | wc") w)) t
  | Panic _ => True
  | Block _ | NoFuel => False
  end.
Proof. apply (parse_total (str "cat <in | wc")). vm_compute. set_solver. Defined.

(** ** Descriptors *)

(** A process of the shell has its three standard descriptors and no others. *)
Definition standard (fds : fdtable) : Prop := ∀ fd, is_Some (fds !! fd) ↔ 0 ≤ fd ≤ 2.

Lemma head_filter {A} (Q : A → Prop) `{∀ x, Decision (Q x)} l1 k l2 :
  Forall (λ x, ¬ Q x) l1 → Q k → head (filter Q (l1 ++ k :: l2)) = Some k.
Proof.
  intros Hl Hk. induction Hl as [|x l1 Hx Hl IH]; simpl; [by rewrite filter_cons_True|]. by rewrite filter_cons_False.
Qed.
Lemma lowest_is fds k : 0 ≤ k < 16 → fds !! k = None → (∀ i, 0 ≤ i < k → is_Some (fds !! i)) → lowest fds = Some k.
Proof.
  intros Hk Hn Hlow. rewrite /lowest. change (Z.of_nat MAXFD) with 16.
  replace 16 with (k + (16 - k)) by lia. rewrite (seqZ_app 0 k (16 - k)); [lia..|].
  rewrite (seqZ_cons (0 + k)); [lia|]. apply head_filter; [|done].
  apply Forall_forall. intros i [Hi1 Hi2]%elem_of_seqZ. destruct (Hlow i) as [o Ho]; [lia|]. by rewrite Ho.
Qed.

Lemma standard_redir fds fd o : standard fds → 0 ≤ fd ≤ 2 →
  lowest (close_fd fds fd) = Some fd ∧ standard (<[fd := o]> (close_fd fds fd)) ∧ <[fd := o]> (close_fd fds fd) = <[fd := o]> fds.
Proof.
  intros Hs Hfd. rewrite /close_fd insert_delete_eq. split_and!; [| |done].
  - apply lowest_is; [lia|apply lookup_delete_eq|]. intros i Hi. rewrite lookup_delete_ne; [lia|]. apply Hs. lia.
  - intros i. destruct (decide (i = fd)) as [->|Hne]; [rewrite lookup_insert_eq; split; [done|by eexists]|].
    rewrite lookup_insert_ne; [congruence|]. apply Hs.
Qed.

(** The descriptors of the two children of a pipe: the standard ones, with one
    end of the pipe in place of standard output or input. *)
Lemma pipe_children fds n : standard fds →
  lowest fds = Some 3 ∧ lowest (<[3 := PipeRead n]> fds) = Some 4 ∧
  let f := <[4 := PipeWrite n]> (<[3 := PipeRead n]> fds) in
  close_fd (close_fd (dup_fd (close_fd f 1) 4) 3) 4 = <[1 := PipeWrite n]> fds ∧
  close_fd (close_fd (dup_fd (close_fd f 0) 3) 3) 4 = <[0 := PipeRead n]> fds.
Proof.
  intros Hs. assert (∀ i, 3 ≤ i → fds !! i = None) as Hn.
  { intros i Hi. destruct (fds !! i) eqn:E; [|done]. assert (0 ≤ i ≤ 2); [|lia]. apply Hs. by rewrite E. }
  split_and!.
  - apply lowest_is; [lia|apply Hn; lia|]. intros i Hi. apply Hs. lia.
  - apply lowest_is; [lia|rewrite lookup_insert_ne //; apply Hn; lia|]. intros i Hi.
    destruct (decide (i = 3)) as [->|]; [rewrite lookup_insert_eq; by eexists|]. rewrite lookup_insert_ne; [lia|]. apply Hs. lia.
  - intros f. assert (∀ k x, 0 ≤ k ≤ 1 → f !! x = Some (if x =? 4 then PipeWrite n else PipeRead n) → 3 ≤ x ≤ 4 →
      close_fd (close_fd (dup_fd (close_fd f k) x) 3) 4 = <[k := if x =? 4 then PipeWrite n else PipeRead n]> fds) as Hd.
    { intros k x Hk Hx H34. rewrite /dup_fd /close_fd lookup_delete_ne; [lia|]. rewrite Hx.
      rewrite (lowest_is _ k); [lia|apply lookup_delete_eq| |].
      { intros i Hi. rewrite lookup_delete_ne; [lia|]. rewrite /f !lookup_insert_ne; [lia..|]. apply Hs. lia. }
      apply map_eq. intros i. rewrite /f. rewrite !(lookup_delete, lookup_insert).
      repeat case_decide; subst; try lia; try done; symmetry; apply Hn; lia. }
    split.
    + apply (Hd 1 4); [lia| |lia]. by rewrite /f lookup_insert_eq.
    + apply (Hd 0 3); [lia| |lia]. by rewrite /f lookup_insert_ne // lookup_insert_eq.
Qed.
Lemma standard_insert fds k o : standard fds → 0 ≤ k ≤ 2 → standard (<[k := o]> fds).
Proof.
  intros Hs Hk i. destruct (decide (i = k)) as [->|Hne]; [rewrite lookup_insert_eq; split; [done|by eexists]|].
  rewrite lookup_insert_ne; [congruence|]. apply Hs.
Qed.

(** A program the shell starts has exactly the descriptors 0, 1 and 2: the
    pipes of a pipeline and redirected files replace standard input and output,
    and no other end of a pipe stays open in any process, so that readers see
    the end of their input. *)
Theorem no_leaked_descriptors open_ok c fds n : cmd_wf c → standard fds →
  Forall (λ p : program, standard p.2) (runcmd open_ok c fds n).1.
Proof.
  revert fds n. induction c as [args|c IH w mode fd|l IHl r IHr|l IHl r IHr|c IH]; intros fds n Hwf Hs; simpl in *.
  - case_bool_decide; [by apply Forall_nil|]. by apply Forall_singleton.
  - destruct Hwf as [Hc [_ Hm]]. cbn [fst snd] in Hm. assert (0 ≤ fd ≤ 2) as Hfd by (destruct Hm as [Hm|[Hm|Hm]]; injection Hm as _ ->; lia).
    destruct (standard_redir fds fd (File w mode) Hs Hfd) as (-> & Hs' & _). case_match; [by apply IH|by apply Forall_nil].
  - destruct Hwf as [Hl Hr]. destruct (pipe_children fds n Hs) as (-> & -> & H). destruct H as [-> ->].
    specialize (IHl (<[1 := PipeWrite n]> fds) (S n) Hl (standard_insert fds 1 _ Hs ltac:(lia))).
    destruct (runcmd open_ok l _ _) as [p k] eqn:El.
    specialize (IHr (<[0 := PipeRead n]> fds) k Hr (standard_insert fds 0 _ Hs ltac:(lia))).
    destruct (runcmd open_ok r _ _) as [q k']. by apply Forall_app.
  - destruct Hwf as [Hl Hr]. specialize (IHl fds n Hl Hs). destruct (runcmd open_ok l _ _) as [p k].
    specialize (IHr fds k Hr Hs). destruct (runcmd open_ok r _ _) as [q k']. by apply Forall_app.
  - by apply IH.
Qed.

Definition std_fds : fdtable := <[0 := Inherited 0]> (<[1 := Inherited 1]> (<[2 := Inherited 2]> ∅)).
Lemma std_fds_standard : standard std_fds.
Proof.
  intros fd. rewrite /std_fds !lookup_insert lookup_empty.
  repeat case_decide; subst; split; try lia; try (intros _; by eexists); intros [??]; done.
Qed.
Lemma no_leaked_descriptors_witness :
  Forall (λ p : program, standard p.2) (runcmd (λ _ _, true) ex_cmd std_fds 0).1 ∧
  length (runcmd (λ _ _, true) ex_cmd std_fds 0).1 = 3%nat.
Proof.
  split; [|by vm_compute]. apply (no_leaked_descriptors (λ _ _, true) ex_cmd std_fds 0); [exact ex_cmd_wf|exact std_fds_standard].
Defined.
