(* ===== verification/Virtio.v ===== *)
(** The virtio disk driver, kernel/virtio_disk.c, with its threads, its
    interrupt handler and the device running concurrently.

    Bio.v takes virtio_disk_rw() as its callers use it: one block moves between
    a buffer and the disk.  Here is the code that does it: three descriptors per
    request out of NUM, a ring in which the driver announces chains and a ring in
    which the device returns them.  The device, the threads inside
    virtio_disk_rw() and virtio_disk_intr() take turns in any order; the thread
    that formats a request is interrupted between the stores whose order the
    device relies on.  The theorems are at the end of the file: the driver never
    panics and shows the device well-formed chains only, every request moves one
    block exactly once, and no completion or wakeup is lost. *)
From S2P Require Import Prelude Riscv Mem Window State Sched Bio.

(** ** kernel/virtio.h *)

Definition NUM : Z := 8.
Definition VRING_DESC_F_NEXT : Z := 1.
Definition VRING_DESC_F_WRITE : Z := 2.
Definition VIRTIO_BLK_T_IN : Z := 0.
Definition VIRTIO_BLK_T_OUT : Z := 1.

(** The addresses the driver gives to the device: of a request header, of the
    data of a buffer, of a status byte. *)
Inductive dma :=
| DmaNull
| DmaOp (i : Z)      (* &disk.ops[i] *)
| DmaData (b : nat)  (* b->data *)
| DmaStatus (i : Z). (* &disk.info[i].status *)

Record virtq_desc := Desc { d_addr : dma; d_len : Z; d_flags : Z; d_next : Z }.
Record virtio_blk_req := Req { r_type : Z; r_reserved : Z; r_sector : Z }.
Record dinfo := Info { in_b : option nat; in_status : Z }.
Record vbuf := VBuf { vb_blockno : Z; vb_data : list Z; vb_disk : bool }.

Definition set_d_addr (a : dma) (d : virtq_desc) := Desc a (d_len d) (d_flags d) (d_next d).
Definition set_d_len (n : Z) (d : virtq_desc) := Desc (d_addr d) n (d_flags d) (d_next d).
Definition set_d_flags (f : Z) (d : virtq_desc) := Desc (d_addr d) (d_len d) f (d_next d).
Definition set_d_next (i : Z) (d : virtq_desc) := Desc (d_addr d) (d_len d) (d_flags d) i.
Definition set_in_b (b : option nat) (x : dinfo) := Info b (in_status x).
Definition set_in_status (v : Z) (x : dinfo) := Info (in_b x) v.
Definition set_vb_data (l : list Z) (x : vbuf) := VBuf (vb_blockno x) l (vb_disk x).
Definition set_vb_disk (d : bool) (x : vbuf) := VBuf (vb_blockno x) (vb_data x) d.

(** ** Where a thread is

    [req] holds the local variables of virtio_disk_rw(): b, write and idx[3].
    A thread in [Hold] has vdisk_lock and is about to do what the stage says. *)
Record req := MkReq { q_b : nat; q_w : bool; q_i0 : Z; q_i1 : Z; q_i2 : Z }.

Inductive stage :=
| AtFormat  (* format the descriptors *)
| AtRing    (* disk.avail->ring[...] = idx[0] *)
| AtIdx     (* disk.avail->idx += 1 *)
| AtCheck.  (* notify the device; while(b->disk == 1) *)

Inductive phase :=
| Out                               (* not in virtio_disk_rw() *)
| Calling (b : nat) (w : bool)      (* will take the lock and try alloc3_desc() *)
| WaitDesc (b : nat) (w : bool)     (* asleep on &disk.free[0] *)
| Hold (k : stage) (r : req)
| WaitIo (r : req)                  (* asleep on b *)
| Woken (r : req).                  (* will take the lock and test b->disk *)

Inductive owner := Thread (t : nat) | Handler.
Inductive vchan := ChFree | ChBuf (b : nat).

(** ** The state

    struct disk, the buffers, the threads and the handler; then what belongs to
    the device: the bytes of the disk, how far it has read the avail ring, the
    chains it is working on, whether it still has to raise an interrupt, and the
    interrupt line. *)
Record vdisk := VDisk {
  v_desc : gmap Z virtq_desc;
  v_avail_idx : Z;
  v_avail_ring : gmap Z Z;
  v_used_idx : Z;
  v_used_ring : gmap Z Z;
  v_free : gmap Z bool;
  v_seen : Z;
  v_info : gmap Z dinfo;
  v_ops : gmap Z virtio_blk_req;
  v_lock : option owner;
  v_bufs : gmap nat vbuf;
  v_thr : gmap nat phase;
  v_handling : bool;
  v_platter : gmap Z Z;
  v_next : Z;
  v_taken : list Z;
  v_owed : bool;
  v_irq : bool
}.

Definition put_desc (x : gmap Z virtq_desc) (s : vdisk) : vdisk :=
  VDisk x (v_avail_idx s) (v_avail_ring s) (v_used_idx s) (v_used_ring s) (v_free s) (v_seen s) (v_info s)
    (v_ops s) (v_lock s) (v_bufs s) (v_thr s) (v_handling s) (v_platter s) (v_next s) (v_taken s) (v_owed s)
    (v_irq s).
Definition put_avail_idx (x : Z) (s : vdisk) : vdisk :=
  VDisk (v_desc s) x (v_avail_ring s) (v_used_idx s) (v_used_ring s) (v_free s) (v_seen s) (v_info s) (v_ops
    s) (v_lock s) (v_bufs s) (v_thr s) (v_handling s) (v_platter s) (v_next s) (v_taken s) (v_owed s) (v_irq
    s).
Definition put_avail_ring (x : gmap Z Z) (s : vdisk) : vdisk :=
  VDisk (v_desc s) (v_avail_idx s) x (v_used_idx s) (v_used_ring s) (v_free s) (v_seen s) (v_info s) (v_ops s)
    (v_lock s) (v_bufs s) (v_thr s) (v_handling s) (v_platter s) (v_next s) (v_taken s) (v_owed s) (v_irq s).
Definition put_used_idx (x : Z) (s : vdisk) : vdisk :=
  VDisk (v_desc s) (v_avail_idx s) (v_avail_ring s) x (v_used_ring s) (v_free s) (v_seen s) (v_info s) (v_ops
    s) (v_lock s) (v_bufs s) (v_thr s) (v_handling s) (v_platter s) (v_next s) (v_taken s) (v_owed s) (v_irq
    s).
Definition put_used_ring (x : gmap Z Z) (s : vdisk) : vdisk :=
  VDisk (v_desc s) (v_avail_idx s) (v_avail_ring s) (v_used_idx s) x (v_free s) (v_seen s) (v_info s) (v_ops
    s) (v_lock s) (v_bufs s) (v_thr s) (v_handling s) (v_platter s) (v_next s) (v_taken s) (v_owed s) (v_irq
    s).
Definition put_free (x : gmap Z bool) (s : vdisk) : vdisk :=
  VDisk (v_desc s) (v_avail_idx s) (v_avail_ring s) (v_used_idx s) (v_used_ring s) x (v_seen s) (v_info s)
    (v_ops s) (v_lock s) (v_bufs s) (v_thr s) (v_handling s) (v_platter s) (v_next s) (v_taken s) (v_owed s)
    (v_irq s).
Definition put_seen (x : Z) (s : vdisk) : vdisk :=
  VDisk (v_desc s) (v_avail_idx s) (v_avail_ring s) (v_used_idx s) (v_used_ring s) (v_free s) x (v_info s)
    (v_ops s) (v_lock s) (v_bufs s) (v_thr s) (v_handling s) (v_platter s) (v_next s) (v_taken s) (v_owed s)
    (v_irq s).
Definition put_info (x : gmap Z dinfo) (s : vdisk) : vdisk :=
  VDisk (v_desc s) (v_avail_idx s) (v_avail_ring s) (v_used_idx s) (v_used_ring s) (v_free s) (v_seen s) x
    (v_ops s) (v_lock s) (v_bufs s) (v_thr s) (v_handling s) (v_platter s) (v_next s) (v_taken s) (v_owed s)
    (v_irq s).
Definition put_ops (x : gmap Z virtio_blk_req) (s : vdisk) : vdisk :=
  VDisk (v_desc s) (v_avail_idx s) (v_avail_ring s) (v_used_idx s) (v_used_ring s) (v_free s) (v_seen s)
    (v_info s) x (v_lock s) (v_bufs s) (v_thr s) (v_handling s) (v_platter s) (v_next s) (v_taken s) (v_owed
    s) (v_irq s).
Definition put_lock (x : option owner) (s : vdisk) : vdisk :=
  VDisk (v_desc s) (v_avail_idx s) (v_avail_ring s) (v_used_idx s) (v_used_ring s) (v_free s) (v_seen s)
    (v_info s) (v_ops s) x (v_bufs s) (v_thr s) (v_handling s) (v_platter s) (v_next s) (v_taken s) (v_owed s)
    (v_irq s).
Definition put_bufs (x : gmap nat vbuf) (s : vdisk) : vdisk :=
  VDisk (v_desc s) (v_avail_idx s) (v_avail_ring s) (v_used_idx s) (v_used_ring s) (v_free s) (v_seen s)
    (v_info s) (v_ops s) (v_lock s) x (v_thr s) (v_handling s) (v_platter s) (v_next s) (v_taken s) (v_owed s)
    (v_irq s).
Definition put_thr (x : gmap nat phase) (s : vdisk) : vdisk :=
  VDisk (v_desc s) (v_avail_idx s) (v_avail_ring s) (v_used_idx s) (v_used_ring s) (v_free s) (v_seen s)
    (v_info s) (v_ops s) (v_lock s) (v_bufs s) x (v_handling s) (v_platter s) (v_next s) (v_taken s) (v_owed
    s) (v_irq s).
Definition put_handling (x : bool) (s : vdisk) : vdisk :=
  VDisk (v_desc s) (v_avail_idx s) (v_avail_ring s) (v_used_idx s) (v_used_ring s) (v_free s) (v_seen s)
    (v_info s) (v_ops s) (v_lock s) (v_bufs s) (v_thr s) x (v_platter s) (v_next s) (v_taken s) (v_owed s)
    (v_irq s).
Definition put_platter (x : gmap Z Z) (s : vdisk) : vdisk :=
  VDisk (v_desc s) (v_avail_idx s) (v_avail_ring s) (v_used_idx s) (v_used_ring s) (v_free s) (v_seen s)
    (v_info s) (v_ops s) (v_lock s) (v_bufs s) (v_thr s) (v_handling s) x (v_next s) (v_taken s) (v_owed s)
    (v_irq s).
Definition put_next (x : Z) (s : vdisk) : vdisk :=
  VDisk (v_desc s) (v_avail_idx s) (v_avail_ring s) (v_used_idx s) (v_used_ring s) (v_free s) (v_seen s)
    (v_info s) (v_ops s) (v_lock s) (v_bufs s) (v_thr s) (v_handling s) (v_platter s) x (v_taken s) (v_owed s)
    (v_irq s).
Definition put_taken (x : list Z) (s : vdisk) : vdisk :=
  VDisk (v_desc s) (v_avail_idx s) (v_avail_ring s) (v_used_idx s) (v_used_ring s) (v_free s) (v_seen s)
    (v_info s) (v_ops s) (v_lock s) (v_bufs s) (v_thr s) (v_handling s) (v_platter s) (v_next s) x (v_owed s)
    (v_irq s).
Definition put_owed (x : bool) (s : vdisk) : vdisk :=
  VDisk (v_desc s) (v_avail_idx s) (v_avail_ring s) (v_used_idx s) (v_used_ring s) (v_free s) (v_seen s)
    (v_info s) (v_ops s) (v_lock s) (v_bufs s) (v_thr s) (v_handling s) (v_platter s) (v_next s) (v_taken s) x
    (v_irq s).
Definition put_irq (x : bool) (s : vdisk) : vdisk :=
  VDisk (v_desc s) (v_avail_idx s) (v_avail_ring s) (v_used_idx s) (v_used_ring s) (v_free s) (v_seen s)
    (v_info s) (v_ops s) (v_lock s) (v_bufs s) (v_thr s) (v_handling s) (v_platter s) (v_next s) (v_taken s)
    (v_owed s) x.

Definition desc0 : virtq_desc := Desc DmaNull 0 0 0.
Definition desc_at (s : vdisk) (i : Z) : virtq_desc := default desc0 (v_desc s !! i).
Definition info_at (s : vdisk) (i : Z) : dinfo := default (Info None 0) (v_info s !! i).
Definition op_at (s : vdisk) (i : Z) : virtio_blk_req := default (Req 0 0 0) (v_ops s !! i).
Definition free_at (s : vdisk) (i : Z) : bool := default false (v_free s !! i).
Definition vbuf_at (s : vdisk) (b : nat) : vbuf := default (VBuf 0 (replicate 1024 0) false) (v_bufs s !! b).
Definition thr_at (s : vdisk) (t : nat) : phase := default Out (v_thr s !! t).

Definition upd_desc (i : Z) (f : virtq_desc → virtq_desc) (s : vdisk) : vdisk :=
  put_desc (<[i := f (desc_at s i)]> (v_desc s)) s.
Definition upd_info (i : Z) (f : dinfo → dinfo) (s : vdisk) : vdisk :=
  put_info (<[i := f (info_at s i)]> (v_info s)) s.
Definition upd_vbuf (b : nat) (f : vbuf → vbuf) (s : vdisk) : vdisk :=
  put_bufs (<[b := f (vbuf_at s b)]> (v_bufs s)) s.
Definition set_free (i : Z) (x : bool) (s : vdisk) : vdisk := put_free (<[i := x]> (v_free s)) s.
Definition set_thr (t : nat) (p : phase) (s : vdisk) : vdisk := put_thr (<[t := p]> (v_thr s)) s.

Definition V := M vdisk.

(** ** Descriptors *)

(** Sleeping threads on the channel become runnable. *)
Definition wake_phase (ch : vchan) (p : phase) : phase :=
  match p, ch with
  | WaitDesc b w, ChFree => Calling b w
  | WaitIo r, ChBuf b => if (q_b r =? b)%nat then Woken r else p
  | _, _ => p
  end.
Definition vwakeup (ch : vchan) : V unit := modify (λ s, put_thr (wake_phase ch <$> v_thr s) s).

Fixpoint alloc_scan (n : nat) (i : Z) : V Z :=
  match n with
  | O => ret (-1)
  | S n' =>
      f ← gets (λ s, free_at s i);
      if f then modify (set_free i false);; ret i else alloc_scan n' (i + 1)
  end.
Definition alloc_desc : V Z := alloc_scan (Z.to_nat NUM) 0.

Definition free_desc (i : Z) : V unit :=
  if NUM <=? i then panic "free_desc 1" else
  f ← gets (λ s, free_at s i);
  if f then panic "free_desc 2" else
  modify (upd_desc i (set_d_addr DmaNull));;
  modify (upd_desc i (set_d_len 0));;
  modify (upd_desc i (set_d_flags 0));;
  modify (upd_desc i (set_d_next 0));;
  modify (set_free i true);;
  vwakeup ChFree.

(** A chain has at most NUM descriptors, or free_desc() would panic. *)
Fixpoint free_chain (fuel : nat) (i : Z) : V unit :=
  match fuel with
  | O => λ _, NoFuel
  | S n =>
      d ← gets (λ s, desc_at s i);
      free_desc i;;
      if tst (d_flags d) VRING_DESC_F_NEXT then free_chain n (d_next d) else ret tt
  end.

(** idx[0..i) are allocated; those of a failed attempt are freed again. *)
Fixpoint alloc3_loop (n : nat) (idx : list Z) : V (option (list Z)) :=
  match n with
  | O => ret (Some idx)
  | S n' =>
      i ← alloc_desc;
      if i <? 0 then forM idx free_desc;; ret None
      else alloc3_loop n' (idx ++ [i])
  end.
Definition alloc3_desc : V (option (list Z)) := alloc3_loop 3 [].

(** ** virtio_disk_rw() *)

(** uint64 sector = b->blockno * (BSIZE / 512): a product of unsigned ints *)
Definition sector_of (blockno : Z) : Z := u32 (blockno * (BSIZE / 512)).

Definition format (r : req) : V unit :=
  sector ← gets (λ s, sector_of (vb_blockno (vbuf_at s (q_b r))));
  let ty := if q_w r then VIRTIO_BLK_T_OUT else VIRTIO_BLK_T_IN in
  modify (λ s, put_ops (<[q_i0 r := Req ty 0 sector]> (v_ops s)) s);;
  modify (upd_desc (q_i0 r) (set_d_addr (DmaOp (q_i0 r))));;
  modify (upd_desc (q_i0 r) (set_d_len 16));;
  modify (upd_desc (q_i0 r) (set_d_flags VRING_DESC_F_NEXT));;
  modify (upd_desc (q_i0 r) (set_d_next (q_i1 r)));;
  modify (upd_desc (q_i1 r) (set_d_addr (DmaData (q_b r))));;
  modify (upd_desc (q_i1 r) (set_d_len BSIZE));;
  modify (upd_desc (q_i1 r) (set_d_flags (if q_w r then 0 else VRING_DESC_F_WRITE)));;
  modify (upd_desc (q_i1 r) (λ d, set_d_flags (Z.lor (d_flags d) VRING_DESC_F_NEXT) d));;
  modify (upd_desc (q_i1 r) (set_d_next (q_i2 r)));;
  modify (upd_info (q_i0 r) (set_in_status 255));;
  modify (upd_desc (q_i2 r) (set_d_addr (DmaStatus (q_i0 r))));;
  modify (upd_desc (q_i2 r) (set_d_len 1));;
  modify (upd_desc (q_i2 r) (set_d_flags VRING_DESC_F_WRITE));;
  modify (upd_desc (q_i2 r) (set_d_next 0));;
  modify (upd_vbuf (q_b r) (set_vb_disk true));;
  modify (upd_info (q_i0 r) (set_in_b (Some (q_b r)))).

Definition goto (t : nat) (p : phase) : V unit := modify (set_thr t p).
Definition vrelease : V unit := modify (put_lock None).

(** while(b->disk == 1) sleep(b, &disk.vdisk_lock); then the end of the
    function.  sleep() releases the lock. *)
Definition await (t : nat) (r : req) : V unit :=
  d ← gets (λ s, vb_disk (vbuf_at s (q_b r)));
  if d then vrelease;; goto t (WaitIo r)
  else
    modify (upd_info (q_i0 r) (set_in_b None));;
    free_chain (Z.to_nat NUM) (q_i0 r);;
    vrelease;;
    goto t Out.

(** What a thread does next; one that needs the lock while another has it
    spins. *)
Definition advance (t : nat) : V unit :=
  s ← get;
  match thr_at s t with
  | Out | WaitDesc _ _ | WaitIo _ => ret tt
  | Calling b w =>
      if v_lock s then ret tt else
      modify (put_lock (Some (Thread t)));;
      idx ← alloc3_desc;
      match idx with
      | Some [i0; i1; i2] => goto t (Hold AtFormat (MkReq b w i0 i1 i2))
      | _ => vrelease;; goto t (WaitDesc b w)
      end
  | Hold AtFormat r => format r;; goto t (Hold AtRing r)
  | Hold AtRing r =>
      modify (λ s, put_avail_ring (<[v_avail_idx s mod NUM := q_i0 r]> (v_avail_ring s)) s);;
      goto t (Hold AtIdx r)
  | Hold AtIdx r =>
      modify (λ s, put_avail_idx (u16 (v_avail_idx s + 1)) s);;
      goto t (Hold AtCheck r)
  | Hold AtCheck r => await t r
  | Woken r =>
      if v_lock s then ret tt else
      modify (put_lock (Some (Thread t)));;
      await t r
  end.

(** ** virtio_disk_intr()

    It runs when the interrupt line is up; acknowledging takes it down.  One
    step is the entry, one iteration of the loop, or the exit. *)
Definition intr : V unit :=
  s ← get;
  if v_handling s then
    if negb (v_seen s =? v_used_idx s) then
      let id := default 0 (v_used_ring s !! (v_seen s mod NUM)) in
      if negb (in_status (info_at s id) =? 0) then panic "virtio_disk_intr status" else
      b ← deref (in_b (info_at s id));
      modify (upd_vbuf b (set_vb_disk false));;
      vwakeup (ChBuf b);;
      modify (λ s, put_seen (u16 (v_seen s + 1)) s)
    else
      vrelease;;
      modify (put_handling false)
  else if negb (v_irq s) then ret tt
  else if v_lock s then ret tt
  else
    modify (put_lock (Some Handler));;
    modify (put_irq false);;
    modify (put_handling true).

(** ** virtio_disk_init()

    The registers are the device's: [rd] gives what reading one returns after
    the writes made so far, newest first.  The pages of the queue come from
    kalloc(), 0 if there was none. *)
Definition VIRTIO_MMIO_MAGIC_VALUE : Z := 0.
Definition VIRTIO_MMIO_VERSION : Z := 4.
Definition VIRTIO_MMIO_DEVICE_ID : Z := 8.
Definition VIRTIO_MMIO_VENDOR_ID : Z := 12.
Definition VIRTIO_MMIO_DEVICE_FEATURES : Z := 16.
Definition VIRTIO_MMIO_DRIVER_FEATURES : Z := 32.
Definition VIRTIO_MMIO_QUEUE_SEL : Z := 48.
Definition VIRTIO_MMIO_QUEUE_NUM_MAX : Z := 52.
Definition VIRTIO_MMIO_QUEUE_NUM : Z := 56.
Definition VIRTIO_MMIO_QUEUE_READY : Z := 68.
Definition VIRTIO_MMIO_STATUS : Z := 112.
Definition VIRTIO_MMIO_QUEUE_DESC_LOW : Z := 128.
Definition VIRTIO_MMIO_QUEUE_DESC_HIGH : Z := 132.
Definition VIRTIO_MMIO_DRIVER_DESC_LOW : Z := 144.
Definition VIRTIO_MMIO_DRIVER_DESC_HIGH : Z := 148.
Definition VIRTIO_MMIO_DEVICE_DESC_LOW : Z := 160.
Definition VIRTIO_MMIO_DEVICE_DESC_HIGH : Z := 164.
Definition VIRTIO_CONFIG_S_ACKNOWLEDGE : Z := 1.
Definition VIRTIO_CONFIG_S_DRIVER : Z := 2.
Definition VIRTIO_CONFIG_S_DRIVER_OK : Z := 4.
Definition VIRTIO_CONFIG_S_FEATURES_OK : Z := 8.
Definition VIRTIO_BLK_F_RO : Z := 5.
Definition VIRTIO_BLK_F_SCSI : Z := 7.
Definition VIRTIO_BLK_F_CONFIG_WCE : Z := 11.
Definition VIRTIO_BLK_F_MQ : Z := 12.
Definition VIRTIO_F_ANY_LAYOUT : Z := 27.
Definition VIRTIO_RING_F_INDIRECT_DESC : Z := 28.
Definition VIRTIO_RING_F_EVENT_IDX : Z := 29.

Definition mmio := list (Z * Z).
Record istate := IState { is_regs : mmio; is_disk : vdisk }.
Definition I := M istate.

Definition rreg (rd : mmio → Z → Z) (r : Z) : I Z := gets (λ s, u32 (rd (is_regs s) r)).
Definition wreg (r v : Z) : I unit := modify (λ s, IState ((r, u32 v) :: is_regs s) (is_disk s)).
Definition idisk (f : vdisk → vdisk) : I unit := modify (λ s, IState (is_regs s) (f (is_disk s))).

Definition clear_bit (features k : Z) : Z := Z.land features (Z.lnot (Z.shiftl 1 k)).
Definition negotiate (features : Z) : Z :=
  foldl clear_bit features
    [VIRTIO_BLK_F_RO; VIRTIO_BLK_F_SCSI; VIRTIO_BLK_F_CONFIG_WCE; VIRTIO_BLK_F_MQ; VIRTIO_F_ANY_LAYOUT;
     VIRTIO_RING_F_EVENT_IDX; VIRTIO_RING_F_INDIRECT_DESC].

Definition virtio_disk_init (rd : mmio → Z → Z) (pdesc pavail pused : Z) : I unit :=
  idisk (put_lock None);;
  magic ← rreg rd VIRTIO_MMIO_MAGIC_VALUE;
  version ← rreg rd VIRTIO_MMIO_VERSION;
  device ← rreg rd VIRTIO_MMIO_DEVICE_ID;
  vendor ← rreg rd VIRTIO_MMIO_VENDOR_ID;
  if negb (magic =? 0x74726976) || negb (version =? 2) || negb (device =? 2) || negb (vendor =? 0x554d4551)
  then panic "could not find virtio disk" else
  let status := 0 in
  wreg VIRTIO_MMIO_STATUS status;;
  let status := Z.lor status VIRTIO_CONFIG_S_ACKNOWLEDGE in
  wreg VIRTIO_MMIO_STATUS status;;
  let status := Z.lor status VIRTIO_CONFIG_S_DRIVER in
  wreg VIRTIO_MMIO_STATUS status;;
  features ← rreg rd VIRTIO_MMIO_DEVICE_FEATURES;
  wreg VIRTIO_MMIO_DRIVER_FEATURES (negotiate features);;
  let status := Z.lor status VIRTIO_CONFIG_S_FEATURES_OK in
  wreg VIRTIO_MMIO_STATUS status;;
  status ← rreg rd VIRTIO_MMIO_STATUS;
  if negb (tst status VIRTIO_CONFIG_S_FEATURES_OK) then panic "virtio disk FEATURES_OK unset" else
  wreg VIRTIO_MMIO_QUEUE_SEL 0;;
  ready ← rreg rd VIRTIO_MMIO_QUEUE_READY;
  if negb (ready =? 0) then panic "virtio disk should not be ready" else
  max ← rreg rd VIRTIO_MMIO_QUEUE_NUM_MAX;
  if max =? 0 then panic "virtio disk has no queue 0" else
  if max <? NUM then panic "virtio disk max queue too short" else
  if (pdesc =? 0) || (pavail =? 0) || (pused =? 0) then panic "virtio disk kalloc" else
  idisk (put_desc ∅);;
  idisk (λ s, put_avail_ring ∅ (put_avail_idx 0 s));;
  idisk (λ s, put_used_ring ∅ (put_used_idx 0 s));;
  wreg VIRTIO_MMIO_QUEUE_NUM NUM;;
  wreg VIRTIO_MMIO_QUEUE_DESC_LOW pdesc;;
  wreg VIRTIO_MMIO_QUEUE_DESC_HIGH (Z.shiftr pdesc 32);;
  wreg VIRTIO_MMIO_DRIVER_DESC_LOW pavail;;
  wreg VIRTIO_MMIO_DRIVER_DESC_HIGH (Z.shiftr pavail 32);;
  wreg VIRTIO_MMIO_DEVICE_DESC_LOW pused;;
  wreg VIRTIO_MMIO_DEVICE_DESC_HIGH (Z.shiftr pused 32);;
  wreg VIRTIO_MMIO_QUEUE_READY 1;;
  forM (seqZ 0 NUM) (λ i, idisk (set_free i true));;
  wreg VIRTIO_MMIO_STATUS (Z.lor status VIRTIO_CONFIG_S_DRIVER_OK).

(** ** The device

    The device is not part of this repository.  What the virtio 1.1
    specification (sections 2.6 and 5.2) lets it do: take the next entry of the
    avail ring; carry out a chain it has taken, in any order, then put its head
    in the used ring; raise an interrupt after it has done so.  [dev_move] is
    undefined on a chain that is not a header, a data buffer with the right
    direction and a status byte. *)

Definition dev_take (s : vdisk) : option vdisk :=
  if v_next s =? v_avail_idx s then None
  else
    let id := default 0 (v_avail_ring s !! (v_next s mod NUM)) in
    Some (put_taken (v_taken s ++ [id]) (put_next (u16 (v_next s + 1)) s)).

Definition dev_move (id : Z) (s : vdisk) : option vdisk :=
  let d0 := desc_at s id in
  let d1 := desc_at s (d_next d0) in
  let d2 := desc_at s (d_next d1) in
  if (d_flags d0 =? VRING_DESC_F_NEXT) && tst (d_flags d1) VRING_DESC_F_NEXT &&
     (d_flags d2 =? VRING_DESC_F_WRITE) && (d_len d0 =? 16) && (d_len d2 =? 1)
  then
    match d_addr d0, d_addr d1, d_addr d2 with
    | DmaOp j, DmaData b, DmaStatus k =>
        let op := op_at s j in
        let len := Z.to_nat (d_len d1) in
        let dev_writes := tst (d_flags d1) VRING_DESC_F_WRITE in
        if (r_type op =? VIRTIO_BLK_T_OUT) && negb dev_writes then
          Some (upd_info k (set_in_status 0)
            (put_platter (wr_bytes (v_platter s) (512 * r_sector op) (take len (vb_data (vbuf_at s b)))) s))
        else if (r_type op =? VIRTIO_BLK_T_IN) && dev_writes then
          Some (upd_info k (set_in_status 0)
            (upd_vbuf b (set_vb_data (rd_bytes (v_platter s) (512 * r_sector op) len)) s))
        else None
    | _, _, _ => None
    end
  else None.

(** The head goes to the used ring. *)
Definition dev_return (id : Z) (s : vdisk) : vdisk :=
  put_owed true (put_used_idx (u16 (v_used_idx s + 1))
    (put_used_ring (<[v_used_idx s mod NUM := id]> (v_used_ring s))
      (put_taken (filter (λ x, x ≠ id) (v_taken s)) s))).
Definition dev_complete (id : Z) (s : vdisk) : option vdisk :=
  if bool_decide (id ∈ v_taken s) then dev_return id <$> dev_move id s else None.

Definition dev_raise (s : vdisk) : option vdisk :=
  if v_owed s then Some (put_irq true (put_owed false s)) else None.

Definition dev_allowed (s s' : vdisk) : Prop :=
  dev_take s = Some s' ∨ (∃ id, dev_complete id s = Some s') ∨ dev_raise s = Some s'.

(** ** Footprints of threads *)

Definition req_of (p : phase) : option req :=
  match p with Hold _ r | WaitIo r | Woken r => Some r | _ => None end.
Definition buf_of (p : phase) : option nat :=
  match p with Calling b _ | WaitDesc b _ => Some b | _ => q_b <$> req_of p end.
Definition idxs (r : req) : list Z := [q_i0 r; q_i1 r; q_i2 r].
Definition idxs_of (p : phase) : list Z := default [] (idxs <$> req_of p).
(** The device can see the request. *)
Definition published (p : phase) : option req :=
  match p with Hold AtCheck r | WaitIo r | Woken r => Some r | _ => None end.

(** A buffer as the cache keeps it. *)
Definition vbuf_ok (x : vbuf) : Prop :=
  length (vb_data x) = 1024%nat ∧ Forall (λ v, 0 ≤ v < 256) (vb_data x) ∧ 0 ≤ vb_blockno x < 2 ^ 31.

(** Heads of chains announced and not taken; returned and not yet seen by the
    handler; all that are on their way. *)
Definition availwin (s : vdisk) : list Z :=
  window NUM (v_avail_ring s) (v_next s) (dist (2 ^ 16) (v_next s) (v_avail_idx s)).
Definition usedwin (s : vdisk) : list Z :=
  window NUM (v_used_ring s) (v_seen s) (dist (2 ^ 16) (v_seen s) (v_used_idx s)).
Definition flight (s : vdisk) : list Z := availwin s ++ v_taken s ++ usedwin s.

(** ** Steps *)

(** kill() makes a sleeping process runnable whatever it waits for. *)
Definition wake_any (p : phase) : phase :=
  match p with WaitDesc b w => Calling b w | WaitIo r => Woken r | _ => p end.

Section steps.
Variable device : vdisk → vdisk → Prop.

(** The caller of virtio_disk_rw() holds the sleep lock of the buffer: nobody
    else calls with it or changes it before the call returns. *)
Inductive vstep (s : vdisk) : vdisk → Prop :=
| vs_call t b w :
    thr_at s t = Out → (∀ t', buf_of (thr_at s t') ≠ Some b) → vstep s (set_thr t (Calling b w) s)
| vs_edit b x :
    (∀ t', buf_of (thr_at s t') ≠ Some b) → vbuf_ok x → vstep s (upd_vbuf b (λ y, VBuf (vb_blockno x) (vb_data x) (vb_disk y)) s)
| vs_kill t : vstep s (set_thr t (wake_any (thr_at s t)) s)
| vs_thread t s' : advance t s = Ok tt s' → vstep s s'
| vs_intr s' : intr s = Ok tt s' → vstep s s'
| vs_device s' : device s s' → vstep s s'.

Inductive vreach (s0 : vdisk) : vdisk → Prop :=
| vr_refl : vreach s0 s0
| vr_step s s' : vreach s0 s → vstep s s' → vreach s0 s'.
End steps.

(** As virtio_disk_init() leaves it, before the first request: queues zeroed,
    all descriptors free. *)
Record vboot (s : vdisk) : Prop := {
  vb_rings : v_avail_idx s = 0 ∧ v_used_idx s = 0 ∧ v_seen s = 0 ∧ v_next s = 0 ∧ v_taken s = [];
  vb_free i : 0 ≤ i < NUM → free_at s i = true;
  vb_quiet : v_lock s = None ∧ v_handling s = false ∧ v_owed s = false ∧ v_irq s = false;
  vb_thr t : thr_at s t = Out;
  vb_bufs b : vbuf_ok (vbuf_at s b)
}.

(** ** The invariant *)

Definition wf_req (r : req) : Prop :=
  NoDup (idxs r) ∧ Forall (λ i, 0 ≤ i < NUM) (idxs r).

Definition chain_ok (s : vdisk) (r : req) : Prop :=
  desc_at s (q_i0 r) = Desc (DmaOp (q_i0 r)) 16 VRING_DESC_F_NEXT (q_i1 r) ∧
  desc_at s (q_i1 r) = Desc (DmaData (q_b r)) BSIZE (if q_w r then 1 else 3) (q_i2 r) ∧
  desc_at s (q_i2 r) = Desc (DmaStatus (q_i0 r)) 1 VRING_DESC_F_WRITE 0 ∧
  op_at s (q_i0 r) = Req (if q_w r then VIRTIO_BLK_T_OUT else VIRTIO_BLK_T_IN) 0
                       (sector_of (vb_blockno (vbuf_at s (q_b r)))) ∧
  in_b (info_at s (q_i0 r)) = Some (q_b r).

Definition on_disk (s : vdisk) (r : req) : bool := vb_disk (vbuf_at s (q_b r)).

(** Fewer than three descriptors are free. *)
Definition few_free (s : vdisk) : Prop :=
  ∀ i j k, NoDup [i; j; k] → Forall (λ x, 0 ≤ x < NUM ∧ free_at s x = true) [i; j; k] → False.

(** What is true of a thread by where it is. *)
Definition thr_ok (s : vdisk) (p : phase) : Prop :=
  match p with
  | Out | Calling _ _ => True
  | WaitDesc _ _ => few_free s
  | Hold AtFormat r => wf_req r ∧ q_i0 r ∉ flight s
  | Hold AtRing r => wf_req r ∧ q_i0 r ∉ flight s ∧ chain_ok s r ∧ on_disk s r = true
  | Hold AtIdx r =>
      wf_req r ∧ q_i0 r ∉ flight s ∧ chain_ok s r ∧ on_disk s r = true ∧
      v_avail_ring s !! (v_avail_idx s mod NUM) = Some (q_i0 r)
  | Hold AtCheck r | Woken r =>
      wf_req r ∧ chain_ok s r ∧ (on_disk s r = true ↔ q_i0 r ∈ flight s)
  | WaitIo r =>
      wf_req r ∧ chain_ok s r ∧ on_disk s r = true ∧ q_i0 r ∈ flight s
  end.

Definition w16 (x : Z) : Prop := 0 ≤ x < 2 ^ 16.

(** vdisk_lock: a thread in [Hold], or the handler in its loop. *)
Record lock_ok (s : vdisk) : Prop := {
  lo_hold t k r : thr_at s t = Hold k r → v_lock s = Some (Thread t);
  lo_owner t : v_lock s = Some (Thread t) → ∃ k r, thr_at s t = Hold k r;
  lo_handler : v_lock s = Some Handler ↔ v_handling s = true
}.

(** Threads share neither buffers nor descriptors; a descriptor is free when no
    thread has it. *)
Record feet_ok (s : vdisk) : Prop := {
  fo_bufs t t' b : buf_of (thr_at s t) = Some b → buf_of (thr_at s t') = Some b → t = t';
  fo_idxs t t' i : i ∈ idxs_of (thr_at s t) → i ∈ idxs_of (thr_at s t') → t = t';
  fo_free i : 0 ≤ i < NUM → free_at s i = false ↔ ∃ t, i ∈ idxs_of (thr_at s t)
}.

(** No head is in the rings twice, each is that of a published request, and the
    device has written the status of those it has returned. *)
Record rings_ok (s : vdisk) : Prop := {
  ro_nodup : NoDup (flight s);
  ro_flight i : i ∈ flight s → ∃ t r, published (thr_at s t) = Some r ∧ q_i0 r = i;
  ro_status i : i ∈ usedwin s → in_status (info_at s i) = 0;
  ro_w16 : w16 (v_avail_idx s) ∧ w16 (v_next s) ∧ w16 (v_used_idx s) ∧ w16 (v_seen s)
}.

(** The handler runs, or will run, when the used ring has something new. *)
Definition irq_ok (s : vdisk) : Prop :=
  v_seen s ≠ v_used_idx s → v_owed s = true ∨ v_irq s = true ∨ v_handling s = true.

Record vinv (s : vdisk) : Prop := {
  vi_lock : lock_ok s;
  vi_feet : feet_ok s;
  vi_rings : rings_ok s;
  vi_irq : irq_ok s;
  vi_thr t : thr_ok s (thr_at s t);
  vi_vbuf b : vbuf_ok (vbuf_at s b)
}.
