(* ===== verification/VirtioInv.v ===== *)
(** Every step of the virtio driver, its handler and the device keeps the
    invariant [vinv] of Virtio.v: lemmas on the rings and the descriptors, then
    one group of lemmas per kind of step. *)
From S2P Require Import Prelude Riscv Mem Window State Sched Bio Virtio.

(** ** Lemmas: accessors after updates *)

Lemma thr_set t p s t' : thr_at (set_thr t p s) t' = if decide (t = t') then p else thr_at s t'.
Proof. rewrite /thr_at /set_thr /=. case_decide; subst; by rewrite ?lookup_insert_eq ?lookup_insert_ne. Qed.
Lemma thr_wake ch s t : thr_at (put_thr (wake_phase ch <$> v_thr s) s) t = wake_phase ch (thr_at s t).
Proof. rewrite /thr_at /= lookup_fmap. by destruct (v_thr s !! t). Qed.
Lemma desc_upd i f s j : desc_at (upd_desc i f s) j = if decide (i = j) then f (desc_at s i) else desc_at s j.
Proof. rewrite /desc_at /upd_desc /=. case_decide; subst; by rewrite ?lookup_insert_eq ?lookup_insert_ne. Qed.
Lemma info_upd i f s j : info_at (upd_info i f s) j = if decide (i = j) then f (info_at s i) else info_at s j.
Proof. rewrite /info_at /upd_info /=. case_decide; subst; by rewrite ?lookup_insert_eq ?lookup_insert_ne. Qed.
Lemma vbuf_upd b f s c : vbuf_at (upd_vbuf b f s) c = if decide (b = c) then f (vbuf_at s b) else vbuf_at s c.
Proof. rewrite /vbuf_at /upd_vbuf /=. case_decide; subst; by rewrite ?lookup_insert_eq ?lookup_insert_ne. Qed.
Lemma free_set i x s j : free_at (set_free i x s) j = if decide (i = j) then x else free_at s j.
Proof. rewrite /free_at /set_free /=. case_decide; subst; by rewrite ?lookup_insert_eq ?lookup_insert_ne. Qed.

Lemma wake_buf ch p : buf_of (wake_phase ch p) = buf_of p.
Proof. destruct p, ch; try done. simpl. by case_match. Qed.
Lemma wake_idxs ch p : idxs_of (wake_phase ch p) = idxs_of p.
Proof. destruct p, ch; try done. rewrite /idxs_of /=. by case_match. Qed.
Lemma wake_published ch p : published (wake_phase ch p) = published p.
Proof. destruct p, ch; try done. simpl. by case_match. Qed.
Lemma wake_hold ch p k r : wake_phase ch p = Hold k r ↔ p = Hold k r.
Proof. split; [|by intros ->]. destruct p, ch; try done. simpl. by case_match. Qed.
Lemma wake_any_buf p : buf_of (wake_any p) = buf_of p.
Proof. by destruct p. Qed.
Lemma wake_any_idxs p : idxs_of (wake_any p) = idxs_of p.
Proof. by destruct p. Qed.
Lemma wake_any_published p : published (wake_any p) = published p.
Proof. by destruct p. Qed.
Lemma wake_any_hold p k r : wake_any p = Hold k r ↔ p = Hold k r.
Proof. split; [|by intros ->]. by destruct p. Qed.
Lemma published_req p r : published p = Some r → req_of p = Some r.
Proof. by destruct p as [| | |[]| |]. Qed.
Lemma published_idx p r : published p = Some r → q_i0 r ∈ idxs_of p.
Proof. intros H%published_req. rewrite /idxs_of H /=. left. Qed.

#[export] Hint Rewrite thr_set thr_wake desc_upd info_upd vbuf_upd free_set
  wake_buf wake_idxs wake_published wake_any_buf wake_any_idxs wake_any_published : vdisk.

Lemma upd_desc_twice i f g s : upd_desc i f (upd_desc i g s) = upd_desc i (λ d, f (g d)) s.
Proof. rewrite /upd_desc /desc_at /= lookup_insert_eq /=. rewrite /put_desc /=. by rewrite insert_insert_eq. Qed.
Lemma upd_info_twice i f g s : upd_info i f (upd_info i g s) = upd_info i (λ d, f (g d)) s.
Proof. rewrite /upd_info /info_at /= lookup_insert_eq /=. rewrite /put_info /=. by rewrite insert_insert_eq. Qed.
Lemma upd_info_desc i j f g s : upd_desc i f (upd_info j g s) = upd_info j g (upd_desc i f s).
Proof. done. Qed.
Lemma upd_info_vbuf b j f g s : upd_info j g (upd_vbuf b f s) = upd_vbuf b f (upd_info j g s).
Proof. done. Qed.

(** ** What a step has to leave alone

    [keeps s s' p]: nothing [thr_ok] says of a thread at [p] changes. *)
Record keeps (s s' : vdisk) (p : phase) : Prop := {
  kp_desc i : i ∈ idxs_of p → desc_at s' i = desc_at s i;
  kp_op i : i ∈ idxs_of p → op_at s' i = op_at s i;
  kp_info i : i ∈ idxs_of p → in_b (info_at s' i) = in_b (info_at s i);
  kp_buf b : buf_of p = Some b →
    vb_blockno (vbuf_at s' b) = vb_blockno (vbuf_at s b) ∧ vb_disk (vbuf_at s' b) = vb_disk (vbuf_at s b);
  kp_flight i : i ∈ idxs_of p → i ∈ flight s' ↔ i ∈ flight s;
  kp_ring r : p = Hold AtIdx r →
    v_avail_ring s' !! (v_avail_idx s' mod NUM) = v_avail_ring s !! (v_avail_idx s mod NUM);
  kp_free b w : p = WaitDesc b w → few_free s → few_free s'
}.

Lemma chain_keeps s s' p r : req_of p = Some r → keeps s s' p → chain_ok s r → chain_ok s' r.
Proof.
  intros Hr K (H0 & H1 & H2 & H3 & H4).
  assert (idxs_of p = idxs r) as E by by rewrite /idxs_of Hr.
  assert (buf_of p = Some (q_b r)) as Eb by (by destruct p; simplify_eq/=).
  destruct (kp_buf _ _ _ K _ Eb) as [Eblk _].
  rewrite /chain_ok !(kp_desc _ _ _ K) ?(kp_op _ _ _ K) ?(kp_info _ _ _ K) ?Eblk ?E /idxs; [set_solver..|done].
Qed.

Lemma thr_keeps s s' p : keeps s s' p → thr_ok s p → thr_ok s' p.
Proof.
  intros K H.
  assert (∀ r, req_of p = Some r → (q_i0 r ∈ flight s' ↔ q_i0 r ∈ flight s) ∧ on_disk s' r = on_disk s r ∧
                (chain_ok s r → chain_ok s' r)) as Hr.
  { intros r Hr. split_and!; [|destruct (kp_buf _ _ _ K (q_b r)) as [_ ?]; [by destruct p; simplify_eq/=|done]|
      exact (chain_keeps s s' p r Hr K)]. apply (kp_flight _ _ _ K). rewrite /idxs_of Hr. set_solver. }
  destruct p as [| | |[] r|r|r]; simpl in *; try done; try (destruct (Hr r) as (? & Eo & ?); [done|rewrite ?Eo]);
    try tauto.
  - exact (kp_free _ _ _ K _ _ eq_refl H).
  - rewrite (kp_ring _ _ _ K r) //. tauto.
Qed.

Lemma feet_keeps s s' :
  (∀ t, buf_of (thr_at s' t) = buf_of (thr_at s t)) → (∀ t, idxs_of (thr_at s' t) = idxs_of (thr_at s t)) →
  (∀ i, free_at s' i = free_at s i) → feet_ok s → feet_ok s'.
Proof.
  intros Hb Hi Hf [Fb Fi Ff]. split.
  - intros t t' b. rewrite !Hb. eauto.
  - intros t t' i. rewrite !Hi. eauto.
  - intros i Hr. rewrite Hf Ff //. by setoid_rewrite Hi.
Qed.

Lemma rings_keeps s s' :
  flight s' = flight s → usedwin s' = usedwin s →
  (∀ t, published (thr_at s' t) = published (thr_at s t)) →
  (∀ i, i ∈ usedwin s → in_status (info_at s' i) = in_status (info_at s i)) →
  v_avail_idx s' = v_avail_idx s → v_next s' = v_next s → v_used_idx s' = v_used_idx s → v_seen s' = v_seen s →
  rings_ok s → rings_ok s'.
Proof.
  intros Hf Hu Hp Hi E1 E2 E3 E4 []. split; rewrite ?Hf ?Hu ?E1 ?E2 ?E3 ?E4 //.
  - setoid_rewrite Hp. done.
  - intros i Hin. rewrite Hi //. auto.
Qed.

(** A step of thread [t] from one phase to another with the same footprint. *)
Lemma thr_other s s' t p :
  (∀ t', thr_at s' t' = if decide (t = t') then p else thr_at s t') →
  thr_ok s' p → (∀ t', t' ≠ t → keeps s s' (thr_at s t')) →
  (∀ t', thr_ok s (thr_at s t')) → ∀ t', thr_ok s' (thr_at s' t').
Proof.
  intros Ht Hp Hk H t'. rewrite Ht. case_decide as E; [done|]. apply (thr_keeps s); [apply Hk; congruence|done].
Qed.

Lemma idxs_of_req p r i : req_of p = Some r → i ∈ idxs_of p ↔ i ∈ idxs r.
Proof. intros H. by rewrite /idxs_of H. Qed.

(** Descriptors and buffers of another thread. *)
Lemma feet_idx s t t' i : feet_ok s → i ∈ idxs_of (thr_at s t) → t' ≠ t → i ∉ idxs_of (thr_at s t').
Proof. intros H Hi Hne Hi'. by apply Hne, (fo_idxs _ H _ _ i). Qed.
Lemma feet_buf s t t' b : feet_ok s → buf_of (thr_at s t) = Some b → t' ≠ t → buf_of (thr_at s t') ≠ Some b.
Proof. intros H Hi Hne Hi'. by apply Hne, (fo_bufs _ H _ _ b). Qed.

Lemma thr_ok_wf s p r : thr_ok s p → req_of p = Some r → wf_req r.
Proof. intros H Hr. destruct p as [| | |[]| |]; simplify_eq/=; by destruct H. Qed.

(** ** Rings *)

Lemma flight_range s i : vinv s → i ∈ flight s → 0 ≤ i < NUM.
Proof.
  intros Hs (t & r & Hp & <-)%(ro_flight _ (vi_rings _ Hs)).
  pose proof (vi_thr _ Hs t) as Ht.
  destruct (thr_ok_wf _ _ r Ht) as [_ Hw]; [by apply published_req|].
  rewrite /idxs in Hw. by inversion Hw.
Qed.

(** There are NUM descriptors, so a ring of NUM entries is enough. *)
Lemma flight_length s : vinv s → (length (flight s) ≤ 8)%nat.
Proof.
  intros Hs. change 8%nat with (length (seqZ 0 8)). apply submseteq_length, NoDup_submseteq; [apply Hs|].
  intros i Hi. apply elem_of_seqZ. pose proof (flight_range s i Hs Hi). rewrite /NUM in H. lia.
Qed.
Lemma flight_room s i : vinv s → 0 ≤ i < NUM → i ∉ flight s → (length (flight s) < 8)%nat.
Proof.
  intros Hs Hi Hn. change 8%nat with (length (seqZ 0 8)). apply (submseteq_length (i :: flight s)), NoDup_submseteq.
  { constructor; [done|apply Hs]. }
  intros j [->|Hj]%elem_of_cons; apply elem_of_seqZ; [rewrite /NUM in Hi; lia|].
  pose proof (flight_range s j Hs Hj) as H. rewrite /NUM in H. lia.
Qed.

Lemma availwin_length s : Z.of_nat (length (availwin s)) = dist (2 ^ 16) (v_next s) (v_avail_idx s).
Proof. apply window_length. by apply dist_range. Qed.
Lemma usedwin_length s : Z.of_nat (length (usedwin s)) = dist (2 ^ 16) (v_seen s) (v_used_idx s).
Proof. apply window_length. by apply dist_range. Qed.
Lemma flight_lengths s : length (flight s) = (length (availwin s) + length (v_taken s) + length (usedwin s))%nat.
Proof. rewrite /flight !length_app. lia. Qed.

Lemma num_divides : (NUM | 2 ^ 16).
Proof. by exists (2 ^ 13). Qed.

(** disk.avail->ring[disk.avail->idx % NUM] = idx[0] *)
Lemma availwin_store s x : dist (2 ^ 16) (v_next s) (v_avail_idx s) < NUM →
  availwin (put_avail_ring (<[v_avail_idx s mod NUM := x]> (v_avail_ring s)) s) = availwin s.
Proof.
  intros Hn. apply window_ext. cbn. intros i Hi. rewrite lookup_insert_ne //.
  rewrite (dist_index (2 ^ 16) NUM (v_next s) (v_avail_idx s)); [done|apply num_divides|done|].
  apply not_eq_sym, mod_cells; [done|lia..].
Qed.
(** disk.avail->idx += 1 *)
Lemma availwin_publish s x : dist (2 ^ 16) (v_next s) (v_avail_idx s) < NUM →
  v_avail_ring s !! (v_avail_idx s mod NUM) = Some x →
  availwin (put_avail_idx (u16 (v_avail_idx s + 1)) s) = availwin s ++ [x].
Proof.
  intros Hn Hx. rewrite /availwin /=. pose proof (dist_range (2 ^ 16) (v_next s) (v_avail_idx s)) as Hr.
  rewrite /u16 dist_push; [done|rewrite /NUM in Hn; lia|].
  rewrite -(window_push NUM _ _ _ x); [split; [lia|done]|].
  rewrite -(dist_index (2 ^ 16) NUM); [done|apply num_divides|done|]. by rewrite insert_id.
Qed.
Lemma availwin_take s : v_next s ≠ v_avail_idx s → w16 (v_next s) → w16 (v_avail_idx s) →
  availwin s = default 0 (v_avail_ring s !! (v_next s mod NUM)) ::
    availwin (put_taken (v_taken s ++ [default 0 (v_avail_ring s !! (v_next s mod NUM))])
               (put_next (u16 (v_next s + 1)) s)).
Proof.
  intros Hne H1 H2. rewrite {1}/availwin.
  assert (0 < dist (2 ^ 16) (v_next s) (v_avail_idx s)) as Hpos.
  { pose proof (dist_range (2 ^ 16) (v_next s) (v_avail_idx s)).
    assert (dist (2 ^ 16) (v_next s) (v_avail_idx s) ≠ 0); [|lia]. intros E. by apply Hne, (dist_0 (2 ^ 16)). }
  rewrite window_pop //. f_equal. rewrite /availwin /= /u16 dist_pop // window_wrap //. apply num_divides.
Qed.
Lemma usedwin_pop s : v_seen s ≠ v_used_idx s → w16 (v_seen s) → w16 (v_used_idx s) →
  usedwin s = default 0 (v_used_ring s !! (v_seen s mod NUM)) :: usedwin (put_seen (u16 (v_seen s + 1)) s).
Proof.
  intros Hne H1 H2. rewrite {1}/usedwin.
  assert (0 < dist (2 ^ 16) (v_seen s) (v_used_idx s)) as Hpos.
  { pose proof (dist_range (2 ^ 16) (v_seen s) (v_used_idx s)).
    assert (dist (2 ^ 16) (v_seen s) (v_used_idx s) ≠ 0); [|lia]. intros E. by apply Hne, (dist_0 (2 ^ 16)). }
  rewrite window_pop //. f_equal. rewrite /usedwin /= /u16 dist_pop // window_wrap //. apply num_divides.
Qed.
Lemma usedwin_return s id : dist (2 ^ 16) (v_seen s) (v_used_idx s) < NUM →
  usedwin (dev_return id s) = usedwin s ++ [id].
Proof.
  intros Hn. rewrite /usedwin /=. pose proof (dist_range (2 ^ 16) (v_seen s) (v_used_idx s)) as Hr.
  rewrite /u16 dist_push; [done|rewrite /NUM in Hn; lia|].
  rewrite -window_push; [split; [lia|done]|]. f_equal.
  by rewrite (dist_index (2 ^ 16) NUM (v_seen s)); [|apply num_divides|..].
Qed.

(** ** Descriptors *)

(** free_desc() of a descriptor that is in use. *)
Definition freed (i : Z) (s : vdisk) : vdisk :=
  put_thr (wake_phase ChFree <$> v_thr s) (set_free i true (put_desc (<[i := desc0]> (v_desc s)) s)).

Lemma free_desc_eq i s : i < NUM → free_at s i = false → free_desc i s = Ok tt (freed i s).
Proof.
  intros Hi Hf. rewrite /free_desc. destruct (Z.leb_spec NUM i); [lia|].
  rewrite /bind /gets Hf /modify /vwakeup /modify !upd_desc_twice. done.
Qed.

Lemma freed_free i s j : free_at (freed i s) j = if decide (i = j) then true else free_at s j.
Proof. apply (free_set i true s). Qed.
Lemma freed_desc i s j : i ≠ j → desc_at (freed i s) j = desc_at s j.
Proof. intros. by rewrite /desc_at /= lookup_insert_ne. Qed.
Lemma freed_thr i s t : thr_at (freed i s) t = wake_phase ChFree (thr_at s t).
Proof. exact (thr_wake ChFree (set_free i true (put_desc (<[i := desc0]> (v_desc s)) s)) t). Qed.
Lemma wake_free_idemp p : wake_phase ChFree (wake_phase ChFree p) = wake_phase ChFree p.
Proof. by destruct p. Qed.

Lemma freed_set_free i j x s : i ≠ j → freed i (set_free j x s) = set_free j x (freed i s).
Proof.
  intros Hne. destruct s as [? ? ? ? ? F]. rewrite /freed /set_free. cbn.
  by rewrite /put_free /put_thr; cbn; rewrite (insert_insert_ne F i j).
Qed.

Lemma alloc_scan_spec n i s :
  ((∀ j, i ≤ j < i + Z.of_nat n → free_at s j = false) ∧ alloc_scan n i s = Ok (-1) s) ∨
  ∃ j, i ≤ j < i + Z.of_nat n ∧ free_at s j = true ∧ alloc_scan n i s = Ok j (set_free j false s).
Proof.
  revert i; induction n as [|n IH]; intros i; cbn [alloc_scan].
  { left. split; [lia|done]. }
  rewrite /bind /gets. destruct (free_at s i) eqn:Ef.
  { right. exists i. split_and!; [lia..|done|done]. }
  destruct (IH (i + 1)) as [[Hall ->]|(j & Hj & Hf & ->)].
  - left. split; [|done]. intros j Hj. destruct (decide (j = i)) as [->|]; [done|]. apply Hall. lia.
  - right. exists j. split_and!; [lia..|done|done].
Qed.
Lemma alloc_desc_spec s :
  ((∀ j, 0 ≤ j < NUM → free_at s j = false) ∧ alloc_desc s = Ok (-1) s) ∨
  ∃ j, 0 ≤ j < NUM ∧ free_at s j = true ∧ alloc_desc s = Ok j (set_free j false s).
Proof. apply (alloc_scan_spec (Z.to_nat NUM) 0). Qed.

(** A failed attempt leaves the flags as they were; it may have cleared free
    descriptors and woken waiting threads. *)
Definition attempted (s s' : vdisk) : Prop :=
  ∃ D F T, s' = put_desc D (put_free F (put_thr T s)) ∧
    (∀ i, free_at s' i = free_at s i) ∧
    (∀ i, free_at s i = false → desc_at s' i = desc_at s i) ∧
    (∀ t, thr_at s' t = thr_at s t ∨ thr_at s' t = wake_phase ChFree (thr_at s t)).

Lemma attempted_refl s : attempted s s.
Proof. exists (v_desc s), (v_free s), (v_thr s). split_and!; auto. by destruct s. Qed.

(** Freeing what was just allocated. *)
Lemma attempted_free s s0 i :
  attempted s s0 → free_at s i = true → attempted s (freed i (set_free i false s0)).
Proof.
  intros (D & F & T & -> & Hf & Hd & Ht) Hi. do 3 eexists. split; [reflexivity|]. split_and!.
  - intros j. rewrite -Hf. rewrite /free_at /=. destruct (decide (i = j)) as [->|Hne].
    + rewrite lookup_insert_eq /=. specialize (Hf j). rewrite /free_at /= in Hf. by rewrite Hf.
    + by rewrite !lookup_insert_ne.
  - intros j Hj. rewrite -Hd // /desc_at /= lookup_insert_ne //. intros ->. congruence.
  - intros t. rewrite freed_thr. change (thr_at (set_free i false _) t) with (thr_at (put_desc D (put_free F (put_thr T s))) t).
    destruct (Ht t) as [->| ->]; [by right|]. right. by rewrite wake_free_idemp.
Qed.

Definition three_free (s : vdisk) (i j k : Z) : Prop :=
  NoDup [i; j; k] ∧ Forall (λ x, 0 ≤ x < NUM ∧ free_at s x = true) [i; j; k].

Lemma alloc3_desc_spec s :
  (∃ i j k, three_free s i j k ∧
     alloc3_desc s = Ok (Some [i; j; k]) (set_free k false (set_free j false (set_free i false s)))) ∨
  (few_free s ∧ ∃ s', alloc3_desc s = Ok None s' ∧ attempted s s').
Proof.
  assert (∃ o, alloc3_desc s = o) as [o Eo] by eauto. rewrite Eo. revert Eo.
  rewrite /alloc3_desc. cbn [alloc3_loop].
  destruct (alloc_desc_spec s) as [[Hno Ea]|(i & Hi & Hfi & Ea)]; rewrite {1}/bind Ea.
  { intros <-. right. split; [|exists s; split; [reflexivity|apply attempted_refl]].
    intros x y z _ [[Hx Hf] _]%Forall_cons. by rewrite (Hno x Hx) in Hf. }
  destruct (Z.ltb_spec i 0); [lia|]. rewrite app_nil_l. set (s1 := set_free i false s).
  destruct (alloc_desc_spec s1) as [[Hno Eb]|(j & Hj & Hfj & Eb)]; rewrite {1}/bind Eb.
  { intros <-. right. assert (∀ x, 0 ≤ x < NUM → free_at s x = true → x = i) as Honly.
    { intros x Hx Hf. specialize (Hno x Hx). rewrite /s1 free_set in Hno. case_decide; congruence. }
    split.
    - intros x y z Hnd HF. rewrite !Forall_cons in HF. destruct HF as ([Hx Hfx] & [Hy Hfy] & _).
      apply Honly in Hfx as ->, Hfy as ->; [|done..]. rewrite !NoDup_cons in Hnd. set_solver.
    - exists (freed i s1). split; [|apply attempted_free; [apply attempted_refl|done]].
      cbn [Z.ltb Z.compare forM]. rewrite /bind free_desc_eq //; [lia|]. rewrite /s1 free_set. by case_decide. }
  destruct (Z.ltb_spec j 0); [lia|]. cbn [app]. set (s2 := set_free j false s1).
  rewrite /s1 free_set in Hfj. case_decide as Eij; [done|].
  destruct (alloc_desc_spec s2) as [[Hno Ec]|(k & Hk & Hfk & Ec)]; rewrite {1}/bind Ec.
  { intros <-. right. assert (∀ x, 0 ≤ x < NUM → free_at s x = true → x = i ∨ x = j) as Honly.
    { intros x Hx Hf. specialize (Hno x Hx). rewrite /s2 free_set in Hno. case_decide; [by right|].
      rewrite /s1 free_set in Hno. case_decide; [by left|]. congruence. }
    split.
    - intros x y z Hnd HF. rewrite !Forall_cons in HF. destruct HF as ([Hx Hfx] & [Hy Hfy] & [Hz Hfz] & _).
      apply Honly in Hfx, Hfy, Hfz; [|done..]. rewrite !NoDup_cons in Hnd. set_solver.
    - exists (freed j (freed i s2)). split.
      + cbn [Z.ltb Z.compare forM]. rewrite /bind free_desc_eq; [lia| |].
        { rewrite /s2 /s1 !free_set. repeat case_decide; congruence. }
        rewrite free_desc_eq //; [lia|]. rewrite freed_free /s2 !free_set. repeat case_decide; congruence.
      + rewrite /s2 freed_set_free; [congruence|].
        apply attempted_free; [|done]. apply attempted_free; [apply attempted_refl|done]. }
  destruct (Z.ltb_spec k 0); [lia|]. intros <-. left. exists i, j, k. split; [|done].
  rewrite /s2 free_set in Hfk. case_decide as Ejk; [done|]. rewrite /s1 free_set in Hfk. case_decide as Eik; [done|].
  split; [|by rewrite !Forall_cons Forall_nil]. rewrite !NoDup_cons. split_and!; [set_solver..|apply NoDup_nil_2].
Qed.

(** ** Every step keeps the invariant *)

(** The memory of the queue and the buffers is as before. *)
Definition same_queue (s s' : vdisk) : Prop :=
  (v_desc s' = v_desc s ∧ v_ops s' = v_ops s ∧ v_info s' = v_info s ∧ v_free s' = v_free s ∧ v_bufs s' = v_bufs s) ∧
  (v_avail_idx s' = v_avail_idx s ∧ v_avail_ring s' = v_avail_ring s ∧ v_used_idx s' = v_used_idx s ∧
   v_used_ring s' = v_used_ring s ∧ v_seen s' = v_seen s ∧ v_next s' = v_next s ∧ v_taken s' = v_taken s).

Lemma same_queue_flight s s' : same_queue s s' → flight s' = flight s ∧ usedwin s' = usedwin s.
Proof.
  intros (_ & E1 & E2 & E3 & E4 & E5 & E6 & E7).
  by rewrite /flight /availwin /usedwin E1 E2 E3 E4 E5 E6 E7.
Qed.
Lemma same_queue_keeps s s' p : same_queue s s' → keeps s s' p.
Proof.
  intros H. destruct (same_queue_flight s s' H) as [Ef _].
  destruct H as ((E1 & E2 & E3 & E4 & E5) & E6 & E7 & _).
  split; intros *; rewrite /few_free /desc_at /op_at /info_at /vbuf_at /free_at ?E1 ?E2 ?E3 ?E4 ?E5 ?Ef ?E6 ?E7 //.
Qed.

(** Only phases and the lock change, and the footprints do not. *)
Lemma inv_phases s s' :
  vinv s → same_queue s s' →
  (∀ t, buf_of (thr_at s' t) = buf_of (thr_at s t)) → (∀ t, idxs_of (thr_at s' t) = idxs_of (thr_at s t)) →
  (∀ t, published (thr_at s' t) = published (thr_at s t)) → (∀ t, thr_ok s (thr_at s' t)) →
  lock_ok s' → irq_ok s' → vinv s'.
Proof.
  intros Hs Hq Hb Hi Hp Ht Hl Hirq. destruct (same_queue_flight s s' Hq) as [Ef Eu].
  pose proof Hq as ((E1 & E2 & E3 & E4 & E5) & E6 & _ & E8 & _ & E9 & E10 & _). split; [done| | |done| |].
  - apply (feet_keeps s); [done|done| |apply Hs]. intros i. by rewrite /free_at E4.
  - apply (rings_keeps s); [done..| |done|done|done|done|apply Hs]. intros i _. by rewrite /info_at E3.
  - intros t. apply (thr_keeps s); [by apply same_queue_keeps|done].
  - intros b. rewrite /vbuf_at E5. apply Hs.
Qed.

Lemma lock_keeps s s' :
  (∀ t k r, thr_at s' t = Hold k r ↔ thr_at s t = Hold k r) → v_lock s' = v_lock s → v_handling s' = v_handling s →
  lock_ok s → lock_ok s'.
Proof.
  intros Ht El Eh [Lh Lo Lr]. split; rewrite ?El ?Eh //.
  - intros t k r H%Ht. eauto.
  - intros t (k & r & H%Ht)%Lo. eauto.
Qed.

Lemma lock_idle s t k r : vinv s → v_lock s = None → thr_at s t ≠ Hold k r.
Proof. intros Hs Hl Ht. apply (lo_hold _ (vi_lock _ Hs)) in Ht. congruence. Qed.
Lemma lock_unique s t k r t' k' r' : vinv s → thr_at s t = Hold k r → thr_at s t' = Hold k' r' → t' = t.
Proof. intros Hs H1%(lo_hold _ (vi_lock _ Hs)) H2%(lo_hold _ (vi_lock _ Hs)). congruence. Qed.

(** No thread is in [Hold] and nobody has the lock. *)
Lemma lock_ok_none s : (∀ t k r, thr_at s t ≠ Hold k r) → v_lock s = None → v_handling s = false → lock_ok s.
Proof. intros Ht Hl Hh. split; rewrite ?Hl ?Hh //. intros t k r E. by apply Ht in E. Qed.
Lemma lock_ok_thread s t k r :
  (∀ t' k' r', thr_at s t' = Hold k' r' → t' = t) → thr_at s t = Hold k r →
  v_lock s = Some (Thread t) → v_handling s = false → lock_ok s.
Proof.
  intros Hu Ht Hl Hh. split; rewrite ?Hl ?Hh //.
  - by intros t' k' r' ->%Hu.
  - intros ? [= <-]. eauto.
Qed.

Lemma not_handling s : vinv s → v_lock s ≠ Some Handler → v_handling s = false.
Proof. intros Hs Hl. destruct (v_handling s) eqn:E; [|done]. by apply (lo_handler _ (vi_lock _ Hs)) in E. Qed.

Lemma thr_ok_wake s ch p : thr_ok s p → thr_ok s (wake_phase ch p).
Proof. destruct p, ch; try done. simpl. case_match; [|done]. simpl. tauto. Qed.
Lemma thr_ok_wake_any s p : thr_ok s p → thr_ok s (wake_any p).
Proof. destruct p; try done. simpl. tauto. Qed.

Lemma kill_inv s t : vinv s → vinv (set_thr t (wake_any (thr_at s t)) s).
Proof.
  intros Hs. apply (inv_phases s); [done|done|..|apply Hs].
  1-3: intros t'; rewrite thr_set; case_decide; subst; by autorewrite with vdisk.
  - intros t'. rewrite thr_set. case_decide; [apply thr_ok_wake_any|]; apply Hs.
  - assert (∀ t' k r, thr_at (set_thr t (wake_any (thr_at s t)) s) t' = Hold k r ↔ thr_at s t' = Hold k r) as E.
    { intros t' k r. rewrite thr_set. case_decide; subst; [by rewrite wake_any_hold|done]. }
    by apply (lock_keeps s); [..|apply Hs].
Qed.

Lemma call_inv s t b w :
  vinv s → thr_at s t = Out → (∀ t', buf_of (thr_at s t') ≠ Some b) → vinv (set_thr t (Calling b w) s).
Proof.
  intros Hs Ht Hb. assert (same_queue s (set_thr t (Calling b w) s)) as Hq by done.
  assert (∀ t', idxs_of (thr_at (set_thr t (Calling b w) s) t') = idxs_of (thr_at s t')) as Hi.
  { intros t'. rewrite thr_set. case_decide; subst; by rewrite ?Ht. }
  split; [| | |apply Hs| |apply Hs].
  - assert (∀ t' k r, thr_at (set_thr t (Calling b w) s) t' = Hold k r ↔ thr_at s t' = Hold k r) as E.
    { intros t' k r. rewrite thr_set. case_decide; subst; [by rewrite Ht|done]. }
    by apply (lock_keeps s); [..|apply Hs].
  - destruct (vi_feet _ Hs) as [Fb Fi Ff]. split.
    + intros t1 t2 c. rewrite !thr_set. repeat case_decide; subst; simpl; [done|naive_solver..|eauto].
    + intros t1 t2 i. rewrite !Hi. eauto.
    + intros i Hr. setoid_rewrite Hi. by apply Ff.
  - apply (rings_keeps s); try done; [|apply Hs]. intros t'. rewrite thr_set. case_decide; subst; by rewrite ?Ht.
  - eapply (thr_other s); [intros t'; apply thr_set|done| |apply Hs]. intros t' _. by apply same_queue_keeps.
Qed.

Lemma edit_inv s b x :
  vinv s → (∀ t', buf_of (thr_at s t') ≠ Some b) → vbuf_ok x →
  vinv (upd_vbuf b (λ y, VBuf (vb_blockno x) (vb_data x) (vb_disk y)) s).
Proof.
  intros Hs Hb Hx. split; [| | |apply Hs| |].
  - by apply (lock_keeps s); [..|apply Hs].
  - by apply (feet_keeps s); [..|apply Hs].
  - by apply (rings_keeps s); [..|apply Hs].
  - intros t. apply (thr_keeps s); [|apply Hs]. split; try done. intros c Hc. rewrite vbuf_upd.
    case_decide; [|done]. subst. by apply Hb in Hc.
  - intros c. rewrite vbuf_upd. case_decide; [done|apply Hs].
Qed.

(** *** Threads *)

Lemma free_not_used s i t : vinv s → 0 ≤ i < NUM → free_at s i = true → i ∉ idxs_of (thr_at s t).
Proof.
  intros Hs Hi Hf Hin. assert (free_at s i = false); [|congruence].
  apply (fo_free _ (vi_feet _ Hs)); eauto.
Qed.
Lemma free_not_flight s i : vinv s → free_at s i = true → i ∉ flight s.
Proof.
  intros Hs Hf Hin. pose proof (flight_range s i Hs Hin) as Hr.
  apply (ro_flight _ (vi_rings _ Hs)) in Hin as (t & r & Hp & <-).
  by apply (free_not_used s _ t Hs Hr Hf), published_idx.
Qed.

Lemma few_free_mono s s' : (∀ i, free_at s' i = true → free_at s i = true) → few_free s → few_free s'.
Proof.
  intros Hm Hf i j k Hn HF. apply (Hf i j k Hn). eapply Forall_impl; [exact HF|].
  intros x [??]. eauto.
Qed.

(** alloc3_desc() succeeds. *)
Definition alloced (t : nat) (r : req) (s : vdisk) : vdisk :=
  set_thr t (Hold AtFormat r) (set_free (q_i2 r) false (set_free (q_i1 r) false
    (set_free (q_i0 r) false (put_lock (Some (Thread t)) s)))).

Lemma alloced_free t r s i :
  free_at (alloced t r s) i = if decide (i ∈ idxs r) then false else free_at s i.
Proof.
  rewrite /alloced /set_thr. change (free_at (put_thr ?T ?x) i) with (free_at x i). rewrite !free_set.
  change (free_at (put_lock _ s) i) with (free_at s i). rewrite /idxs.
  destruct (decide (i ∈ _)) as [Hin|Hin]; repeat case_decide; subst; set_solver.
Qed.

Lemma alloced_inv s t b w i j k :
  vinv s → thr_at s t = Calling b w → v_lock s = None → three_free s i j k → vinv (alloced t (MkReq b w i j k) s).
Proof.
  intros Hs Ht Hl [Hnd HF]. set (r := MkReq b w i j k). set (s' := alloced t r s).
  assert (∀ t', thr_at s' t' = if decide (t = t') then Hold AtFormat r else thr_at s t') as Ht'.
  { intros t'. exact (thr_set t (Hold AtFormat r) s t'). }
  assert (∀ x, x ∈ idxs r → 0 ≤ x < NUM ∧ free_at s x = true) as Hidx.
  { rewrite Forall_forall in HF. exact HF. }
  assert (∀ t' x, x ∈ idxs r → x ∉ idxs_of (thr_at s t')) as Hother.
  { intros t' x [??]%Hidx. by apply free_not_used. }
  split.
  - eapply (lock_ok_thread s' t); [|by rewrite Ht' decide_True|done|apply (not_handling s Hs); by rewrite Hl].
    intros t' k' r'. rewrite Ht'. case_decide; [done|]. intros E. by apply (lock_idle _ _ _ _ Hs Hl) in E.
  - destruct (vi_feet _ Hs) as [Fb Fi Ff]. split.
    + assert (∀ t', buf_of (thr_at s' t') = buf_of (thr_at s t')) as E.
      { intros t'. rewrite Ht'. case_decide; subst; by rewrite ?Ht. }
      intros t1 t2 c. rewrite !E. eauto.
    + intros t1 t2 x. rewrite !Ht'. repeat case_decide; subst; [done| | |eauto].
      * intros H1 H2. by apply Hother in H2.
      * intros H1 H2. by apply Hother in H1.
    + intros x Hx. rewrite /s' alloced_free. split.
      * case_decide as E; [intros _; exists t; by rewrite Ht' decide_True|].
        intros [t' Hin]%Ff; [|done]. exists t'. rewrite Ht' decide_False //. intros <-. rewrite Ht in Hin. by apply elem_of_nil in Hin.
      * intros [t' Hin]. rewrite Ht' in Hin. case_decide as E; [by rewrite decide_True|].
        case_decide; [done|]. apply Ff; eauto.
  - apply (rings_keeps s); try done; [|apply Hs]. intros t'. rewrite Ht'. case_decide; subst; by rewrite ?Ht.
  - apply Hs.
  - eapply (thr_other s); [exact Ht'| | |apply Hs].
    + split; [split; [done|]|].
      * apply Forall_forall. by intros x [? _]%Hidx.
      * apply (free_not_flight s); [done|]. apply Hidx. left.
    + intros t' _. split; try done. intros _ _ _. apply few_free_mono. intros x. rewrite /s' alloced_free.
      by case_decide.
  - apply Hs.
Qed.

(** alloc3_desc() fails. *)
Lemma attempted_inv s t b w s1 :
  vinv s → thr_at s t = Calling b w → v_lock s = None → few_free s →
  attempted (put_lock (Some (Thread t)) s) s1 → vinv (set_thr t (WaitDesc b w) (put_lock None s1)).
Proof.
  intros Hs Ht Hl Hfew (D & F & T & -> & Hf & Hd & HT). set (s1 := put_desc _ _).
  set (s' := set_thr _ _ _).
  assert (∀ t', thr_at s' t' = if decide (t = t') then WaitDesc b w else thr_at s1 t') as Ht'.
  { intros t'. exact (thr_set t (WaitDesc b w) (put_lock None s1) t'). }
  assert (∀ t', thr_at s1 t' = thr_at s t' ∨ thr_at s1 t' = wake_phase ChFree (thr_at s t')) as HT' by exact HT.
  assert (∀ i, free_at s' i = free_at s i) as Hf' by exact Hf.
  assert (∀ t', buf_of (thr_at s' t') = buf_of (thr_at s t') ∧ idxs_of (thr_at s' t') = idxs_of (thr_at s t') ∧
                published (thr_at s' t') = published (thr_at s t')) as Hfoot.
  { intros t'. rewrite Ht'. case_decide; [subst; by rewrite Ht|].
    destruct (HT' t') as [->| ->]; by autorewrite with vdisk. }
  split; [| | |apply Hs| |apply Hs].
  - apply lock_ok_none; [|done|apply (not_handling s Hs); by rewrite Hl].
    intros t' k r. rewrite Ht'. case_decide; [done|].
    destruct (HT' t') as [->| ->]; rewrite ?wake_hold; by apply lock_idle.
  - apply (feet_keeps s); [intros t'; apply Hfoot..|done|apply Hs].
  - apply (rings_keeps s); try done; [intros t'; apply Hfoot|apply Hs].
  - intros t'. destruct (decide (t = t')) as [<-|Hne].
    { rewrite Ht' decide_True //. eapply few_free_mono; [|exact Hfew]. intros i. by rewrite Hf'. }
    assert (thr_ok s (thr_at s' t')) as Hok.
    { rewrite Ht' decide_False //. destruct (HT' t') as [->| ->]; [|apply thr_ok_wake]; apply Hs. }
    revert Hok. apply thr_keeps. split; try done.
    + intros i Hi. apply (Hd i). change (free_at (put_lock _ s) i) with (free_at s i).
      destruct (decide (0 ≤ i < NUM)) as [Hr|Hr].
      * apply (fo_free _ (vi_feet _ Hs)); [done|]. exists t'. destruct (Hfoot t') as (_ & <- & _). done.
      * exfalso. destruct (Hfoot t') as (_ & Ei & _). rewrite Ei in Hi.
        destruct (req_of (thr_at s t')) as [r|] eqn:Er; rewrite /idxs_of Er /= in Hi; [|set_solver].
        destruct (thr_ok_wf _ _ r (vi_thr _ Hs t') Er) as [_ Hw]. rewrite Forall_forall in Hw. by apply Hr, Hw.
    + intros _ _ _. apply few_free_mono. intros i. by rewrite Hf'.
Qed.

(** The stores that format a request, put together. *)
Definition formatted (r : req) (s : vdisk) : vdisk :=
  upd_vbuf (q_b r) (set_vb_disk true)
    (put_info (<[q_i0 r := Info (Some (q_b r)) 255]> (v_info s))
      (put_desc (<[q_i2 r := Desc (DmaStatus (q_i0 r)) 1 VRING_DESC_F_WRITE 0]>
                  (<[q_i1 r := Desc (DmaData (q_b r)) BSIZE (if q_w r then 1 else 3) (q_i2 r)]>
                    (<[q_i0 r := Desc (DmaOp (q_i0 r)) 16 VRING_DESC_F_NEXT (q_i1 r)]> (v_desc s))))
        (put_ops (<[q_i0 r := Req (if q_w r then VIRTIO_BLK_T_OUT else VIRTIO_BLK_T_IN) 0
                                (sector_of (vb_blockno (vbuf_at s (q_b r))))]> (v_ops s)) s))).

Lemma format_eq r s : format r s = Ok tt (formatted r s).
Proof.
  rewrite /format /bind /modify /gets. f_equal.
  rewrite upd_info_vbuf !upd_info_desc upd_info_twice !upd_desc_twice /formatted. by destruct (q_w r).
Qed.

Lemma formatted_chain r s : wf_req r → chain_ok (formatted r s) r.
Proof.
  intros [Hnd _]. rewrite /idxs !NoDup_cons in Hnd. destruct Hnd as (H1 & H2 & _).
  assert (q_i0 r ≠ q_i1 r ∧ q_i0 r ≠ q_i2 r ∧ q_i1 r ≠ q_i2 r) as (N1 & N2 & N3) by set_solver.
  rewrite /chain_ok /formatted vbuf_upd decide_True // /desc_at /op_at /info_at /=.
  repeat (rewrite lookup_insert_eq || (rewrite lookup_insert_ne; [congruence|])). done.
Qed.

Lemma formatted_keeps r s p :
  (∀ i, i ∈ idxs_of p → i ∉ idxs r) → buf_of p ≠ Some (q_b r) → keeps s (formatted r s) p.
Proof.
  intros Hi Hb. assert (∀ i, i ∈ idxs_of p → q_i0 r ≠ i ∧ q_i1 r ≠ i ∧ q_i2 r ≠ i) as Hne.
  { intros i H%Hi. rewrite /idxs in H. set_solver. }
  split; try done.
  - intros i (N1 & N2 & N3)%Hne. by rewrite /desc_at /= !lookup_insert_ne.
  - intros i (N1 & N2 & N3)%Hne. by rewrite /op_at /= !lookup_insert_ne.
  - intros i (N1 & N2 & N3)%Hne. by rewrite /info_at /= !lookup_insert_ne.
  - intros c Hc. rewrite /formatted vbuf_upd. case_decide; [congruence|done].
Qed.

(** A thread that has the lock goes from one phase to the next; [s'] is the
    state with its stores done. *)
Lemma hold_inv s s' t k k' r :
  vinv s → thr_at s t = Hold k r → v_thr s' = v_thr s → v_lock s' = v_lock s → v_handling s' = v_handling s →
  v_free s' = v_free s → irq_ok s' → (∀ b, vbuf_ok (vbuf_at s' b)) →
  (∀ t', t' ≠ t → keeps s s' (thr_at s t')) →
  rings_ok (set_thr t (Hold k' r) s') → thr_ok s' (Hold k' r) →
  vinv (set_thr t (Hold k' r) s').
Proof.
  intros Hs Ht ET EL EH EF Hirq Hb Hk Hr Hok.
  assert (∀ t', thr_at (set_thr t (Hold k' r) s') t' = if decide (t = t') then Hold k' r else thr_at s t') as Ht'.
  { intros t'. rewrite thr_set /thr_at ET //. }
  pose proof (lo_hold _ (vi_lock _ Hs) _ _ _ Ht) as Hl.
  split; [| |done|done| |done].
  - eapply (lock_ok_thread _ t); [|by rewrite Ht' decide_True|by rewrite /= EL|].
    + intros t' k1 r1. rewrite Ht'. case_decide; [done|]. intros E. by apply (lock_unique s t k r t' k1 r1).
    + rewrite /= EH. apply (not_handling s Hs). congruence.
  - apply (feet_keeps s); [| | |apply Hs].
    1-2: intros t'; rewrite Ht'; case_decide; subst; by rewrite ?Ht.
    intros i. by rewrite /free_at /= EF.
  - apply (thr_other s _ t (Hold k' r)); [done| | |apply Hs].
    + revert Hok. apply thr_keeps. by apply same_queue_keeps.
    + intros t' Hne. specialize (Hk t' Hne). destruct Hk. by split.
Qed.

Lemma hold_foot s t k r : thr_at s t = Hold k r → buf_of (thr_at s t) = Some (q_b r) ∧ idxs_of (thr_at s t) = idxs r.
Proof. by intros ->. Qed.

Lemma thr_ok_at s t p : vinv s → thr_at s t = p → thr_ok s p.
Proof. intros Hs <-. apply Hs. Qed.

Lemma format_inv s t r :
  vinv s → thr_at s t = Hold AtFormat r → vinv (set_thr t (Hold AtRing r) (formatted r s)).
Proof.
  intros Hs Ht. destruct (hold_foot s t _ r Ht) as [Hb Hi].
  destruct (thr_ok_at s t _ Hs Ht) as [Hw Hn].
  apply (hold_inv s _ t AtFormat); try done; [apply Hs|..].
  - intros b. rewrite /formatted vbuf_upd. case_decide; [|apply Hs]. apply (vi_vbuf _ Hs (q_b r)).
  - intros t' Hne. apply formatted_keeps.
    + intros i Hin Hin'. rewrite -Hi in Hin'. by apply (feet_idx s t t' i (vi_feet _ Hs)).
    + by apply (feet_buf s t t' _ (vi_feet _ Hs)).
  - apply (rings_keeps s); try done; [..|apply Hs].
    + intros t'. rewrite thr_set. case_decide; subst; by rewrite ?Ht.
    + intros i Hin. rewrite /info_at /= lookup_insert_ne //. intros <-. apply Hn.
      rewrite /flight !elem_of_app. auto.
  - split_and!; [done..|by apply formatted_chain|]. by rewrite /on_disk /formatted vbuf_upd decide_True.
Qed.

(** The ring entry is stored beyond what the device may read. *)
Lemma unpublished_room s i : vinv s → 0 ≤ i < NUM → i ∉ flight s → dist (2 ^ 16) (v_next s) (v_avail_idx s) < NUM.
Proof.
  intros Hs Hr Hn. rewrite -availwin_length /NUM. pose proof (flight_room s i Hs Hr Hn).
  rewrite flight_lengths in H. lia.
Qed.
Lemma wf_req_head r : wf_req r → 0 ≤ q_i0 r < NUM.
Proof. intros [_ H]. rewrite /idxs in H. by inversion H. Qed.

Lemma ring_inv s t r :
  vinv s → thr_at s t = Hold AtRing r →
  vinv (set_thr t (Hold AtIdx r) (put_avail_ring (<[v_avail_idx s mod NUM := q_i0 r]> (v_avail_ring s)) s)).
Proof.
  intros Hs Ht. destruct (thr_ok_at s t _ Hs Ht) as (Hw & Hn & Hc & Hd).
  pose proof (availwin_store s (q_i0 r) (unpublished_room s _ Hs (wf_req_head r Hw) Hn)) as Ea.
  set (s1 := put_avail_ring _ s) in *.
  assert (flight s1 = flight s) as Ef by by rewrite /flight Ea.
  apply (hold_inv s _ t AtRing); try done; [apply Hs|apply Hs|..].
  - intros t' Hne. split; try done; [by rewrite Ef|]. intros r' Hr'. exfalso. apply Hne.
    by apply (lock_unique s t AtRing r t' AtIdx r').
  - apply (rings_keeps s); try done; [|apply Hs]. intros t'. rewrite thr_set. case_decide; subst; by rewrite ?Ht.
  - cbn [thr_ok]. rewrite Ef. split_and!; try done. by rewrite /= lookup_insert_eq.
Qed.

Lemma publish_inv s t r :
  vinv s → thr_at s t = Hold AtIdx r →
  vinv (set_thr t (Hold AtCheck r) (put_avail_idx (u16 (v_avail_idx s + 1)) s)).
Proof.
  intros Hs Ht. destruct (thr_ok_at s t _ Hs Ht) as (Hw & Hn & Hc & Hd & Hring).
  pose proof (availwin_publish s _ (unpublished_room s _ Hs (wf_req_head r Hw) Hn) Hring) as Ea.
  set (s1 := put_avail_idx _ s) in *.
  assert (flight s1 ≡ₚ q_i0 r :: flight s) as Ef.
  { rewrite /flight Ea -app_assoc. symmetry. apply Permutation_middle. }
  apply (hold_inv s _ t AtIdx); try done; [apply Hs|apply Hs|..].
  - intros t' Hne. split; try done.
    + intros i Hin. rewrite Ef elem_of_cons. split; [|by right]. intros [->|]; [|done]. exfalso. revert Hin.
      apply (feet_idx s t); [apply Hs| |done]. rewrite Ht. left.
    + intros r' Hr'. exfalso. apply Hne. by apply (lock_unique s t AtIdx r t' AtIdx r').
  - destruct (vi_rings _ Hs) as [Hnd Hfl Hst (W1 & W2 & W3 & W4)]. split.
    + change (NoDup (flight s1)). rewrite Ef. by constructor.
    + intros i. change (i ∈ flight s1 → ∃ t' r', published (thr_at (set_thr t (Hold AtCheck r) s1) t') = Some r' ∧ q_i0 r' = i).
      rewrite Ef elem_of_cons. intros [->|(t' & r' & Hp & <-)%Hfl].
      * exists t, r. by rewrite thr_set decide_True.
      * exists t', r'. rewrite thr_set decide_False //. intros <-. by rewrite Ht in Hp.
    + exact Hst.
    + split; [apply Z.mod_pos_bound; lia|done].
  - split_and!; try done. split; [|done]. intros _. rewrite Ef. left.
Qed.

Lemma published_ok s p r :
  thr_ok s p → published p = Some r → wf_req r ∧ chain_ok s r ∧ (on_disk s r = true ↔ q_i0 r ∈ flight s).
Proof. intros H Hp. destruct p as [| | |[]| |]; simplify_eq/=; tauto. Qed.

(** [t] is where it may have, or may take, the lock. *)
Definition may_lock (s : vdisk) (t : nat) : Prop :=
  (∀ t' k r, thr_at s t' = Hold k r → t' = t) ∧ v_handling s = false.

Lemma may_lock_hold s t k r : vinv s → thr_at s t = Hold k r → may_lock s t.
Proof.
  intros Hs Ht. split; [intros t' k' r' E; exact (lock_unique s t k r t' k' r' Hs Ht E)|]. apply (not_handling s Hs).
  rewrite (lo_hold _ (vi_lock _ Hs) _ _ _ Ht). done.
Qed.
Lemma may_lock_none s t : vinv s → v_lock s = None → may_lock s t.
Proof.
  intros Hs Hl. split; [|apply (not_handling s Hs); by rewrite Hl].
  intros t' k r E. by apply (lock_idle _ _ _ _ Hs Hl) in E.
Qed.

Lemma sleep_inv s t r :
  vinv s → may_lock s t → published (thr_at s t) = Some r → on_disk s r = true →
  vinv (set_thr t (WaitIo r) (put_lock None s)).
Proof.
  intros Hs [Hlk Hh] Hp Hd. destruct (published_ok _ _ _ (vi_thr _ Hs t) Hp) as (Hw & Hc & Hf).
  assert (∀ t', thr_at (set_thr t (WaitIo r) (put_lock None s)) t' = if decide (t = t') then WaitIo r else thr_at s t') as Ht'
    by exact (thr_set t (WaitIo r) (put_lock None s)).
  pose proof (published_req _ _ Hp) as Hr.
  apply (inv_phases s); [done|done|..|apply Hs].
  1-3: intros t'; rewrite Ht'; case_decide; [subst|done].
  - by destruct (thr_at s t'); simplify_eq/=.
  - by rewrite /idxs_of Hr.
  - by rewrite Hp.
  - intros t'. rewrite Ht'. case_decide; [|apply Hs]. split_and!; [done..|by apply Hf].
  - apply lock_ok_none; [|done..]. intros t' k r'. rewrite Ht'. case_decide; [done|].
    intros E. apply Hlk in E. congruence.
Qed.

Lemma free_chain_eq s s0 r :
  v_desc s = v_desc s0 → chain_ok s0 r → wf_req r → (∀ i, i ∈ idxs r → free_at s i = false) →
  free_chain (Z.to_nat NUM) (q_i0 r) s = Ok tt (freed (q_i2 r) (freed (q_i1 r) (freed (q_i0 r) s))).
Proof.
  intros Ed (E0 & E1 & E2 & _) [Hnd HF] Hf. rewrite /desc_at -Ed -!/(desc_at s _) in E0 E1 E2. rewrite /idxs in Hnd HF Hf. rewrite !NoDup_cons in Hnd.
  assert (q_i0 r ≠ q_i1 r ∧ q_i0 r ≠ q_i2 r ∧ q_i1 r ≠ q_i2 r) as (N1 & N2 & N3) by set_solver.
  rewrite !Forall_cons in HF. destruct HF as (R0 & R1 & R2 & _).
  change (Z.to_nat NUM) with (S (S (S 5))). cbn [free_chain].
  rewrite /bind /gets free_desc_eq; [lia|apply Hf; set_solver|]. rewrite E0 /=.
  rewrite /bind /gets freed_desc // E1 free_desc_eq; [lia|rewrite freed_free decide_False //; apply Hf; set_solver|].
  assert (tst (if q_w r then 1 else 3) VRING_DESC_F_NEXT = true) as Et by by destruct (q_w r).
  cbn [d_flags d_next]. rewrite Et /bind /gets !freed_desc // E2 free_desc_eq //; [lia|].
  rewrite !freed_free !decide_False //. apply Hf. set_solver.
Qed.

(** The end of virtio_disk_rw(). *)
Definition finished (t : nat) (r : req) (s : vdisk) : vdisk :=
  set_thr t Out (put_lock None (freed (q_i2 r) (freed (q_i1 r) (freed (q_i0 r)
    (upd_info (q_i0 r) (set_in_b None) s))))).

Lemma unlocked_free t p o s i : free_at (set_thr t p (put_lock o s)) i = free_at s i.
Proof. done. Qed.
Lemma unlocked_desc t p o s i : desc_at (set_thr t p (put_lock o s)) i = desc_at s i.
Proof. done. Qed.
Lemma finished_thr t r s t' :
  thr_at (finished t r s) t' = if decide (t = t') then Out else wake_phase ChFree (thr_at s t').
Proof.
  rewrite /finished thr_set. case_decide; [done|].
  change (thr_at (put_lock None ?x) t') with (thr_at x t'). rewrite !freed_thr !wake_free_idemp. done.
Qed.
Lemma finished_free t r s i :
  free_at (finished t r s) i = if decide (i ∈ idxs r) then true else free_at s i.
Proof.
  rewrite /finished unlocked_free !freed_free /idxs.
  change (free_at (upd_info ?x ?y s) i) with (free_at s i).
  destruct (decide (i ∈ _)) as [Hin|Hin]; repeat case_decide; subst; set_solver.
Qed.
Lemma finished_desc t r s i : i ∉ idxs r → desc_at (finished t r s) i = desc_at s i.
Proof.
  intros Hi. rewrite /idxs in Hi. rewrite /finished unlocked_desc !freed_desc //; set_solver.
Qed.
Lemma finished_info t r s i : info_at (finished t r s) i = if decide (q_i0 r = i) then set_in_b None (info_at s i) else info_at s i.
Proof.
  change (info_at (finished t r s) i) with (info_at (upd_info (q_i0 r) (set_in_b None) s) i).
  rewrite info_upd. case_decide; by subst.
Qed.

Lemma finished_inv s t r :
  vinv s → may_lock s t → published (thr_at s t) = Some r → on_disk s r = false → vinv (finished t r s).
Proof.
  intros Hs [Hlk Hh] Hp Hd. destruct (published_ok _ _ _ (vi_thr _ Hs t) Hp) as (Hw & Hc & Hf).
  pose proof (finished_thr t r s) as Ht'. pose proof (published_req _ _ Hp) as Hr.
  assert (∀ t' i, t' ≠ t → i ∈ idxs_of (thr_at s t') → i ∉ idxs r) as Hother.
  { intros t' i Hne Hin Hin'. by apply Hne, (fo_idxs _ (vi_feet _ Hs) t' t i); [|rewrite /idxs_of Hr]. }
  split.
  - apply lock_ok_none; [|done..]. intros t' k r'. rewrite Ht'. case_decide; [done|]. rewrite wake_hold.
    intros E. apply Hlk in E. congruence.
  - destruct (vi_feet _ Hs) as [Fb Fi Ff]. split.
    + intros t1 t2 b. rewrite !Ht'. repeat case_decide; try done. rewrite !wake_buf. apply Fb.
    + intros t1 t2 i. rewrite !Ht'. repeat case_decide; rewrite ?wake_idxs; try by subst; intros; set_solver.
    + intros i Hi. rewrite finished_free. split.
      * case_decide as E; [done|]. intros [t' Hin]%Ff; [|done]. exists t'. rewrite Ht' decide_False ?wake_idxs //.
        intros <-. apply E. by rewrite /idxs_of Hr in Hin.
      * intros [t' Hin]. rewrite Ht' in Hin. case_decide; [by apply elem_of_nil in Hin|]. rewrite wake_idxs in Hin.
        rewrite decide_False; [apply (Hother t' i); [congruence|done]|]. apply Ff; eauto.
  - destruct (vi_rings _ Hs) as [Hnd Hfl Hst HW]. split; [done| | |done].
    + intros i Hin. destruct (Hfl i Hin) as (t' & r' & Hp' & <-). exists t', r'.
      rewrite Ht' decide_False ?wake_published //. intros <-. simplify_eq. apply Hf in Hin. congruence.
    + intros i Hin. rewrite finished_info. rewrite -(Hst i Hin). by case_decide.
  - apply Hs.
  - intros t'. rewrite Ht'. case_decide as E; [done|].
    apply (thr_keeps s); [|apply thr_ok_wake, Hs]. split; try done; intros i; rewrite ?wake_idxs.
    + intros Hin. apply finished_desc, (Hother t'); congruence.
    + intros Hin. rewrite finished_info decide_False //. intros <-. apply (Hother t' (q_i0 r)); [congruence|done|left].
    + intros w. by destruct (thr_at s t').
  - apply Hs.
Qed.

Lemma await_eq s t r :
  vinv s → published (thr_at s t) = Some r → ∀ o,
  await t r (put_lock o s) =
    Ok tt (if on_disk s r then set_thr t (WaitIo r) (put_lock None s) else finished t r s).
Proof.
  intros Hs Hp o. destruct (published_ok _ _ _ (vi_thr _ Hs t) Hp) as (Hw & Hc & Hf).
  rewrite /await /bind /gets. change (vbuf_at (put_lock o s) (q_b r)) with (vbuf_at s (q_b r)).
  rewrite /on_disk. destruct (vb_disk _); [done|]. rewrite /modify.
  rewrite (free_chain_eq _ s) //. intros i Hi.
  apply (fo_free _ (vi_feet _ Hs)).
  - destruct Hw as [_ Hw]. rewrite Forall_forall in Hw. by apply Hw.
  - exists t. by rewrite /idxs_of (published_req _ _ Hp).
Qed.

(** What a call of [advance] can amount to. *)
Inductive thread_step (s : vdisk) (t : nat) : vdisk → Prop :=
| ts_spin : thread_step s t s
| ts_alloc b w i j k :
    thr_at s t = Calling b w → v_lock s = None → three_free s i j k →
    thread_step s t (alloced t (MkReq b w i j k) s)
| ts_wait b w s1 :
    thr_at s t = Calling b w → v_lock s = None → few_free s → attempted (put_lock (Some (Thread t)) s) s1 →
    thread_step s t (set_thr t (WaitDesc b w) (put_lock None s1))
| ts_format r :
    thr_at s t = Hold AtFormat r → thread_step s t (set_thr t (Hold AtRing r) (formatted r s))
| ts_ring r :
    thr_at s t = Hold AtRing r →
    thread_step s t
      (set_thr t (Hold AtIdx r) (put_avail_ring (<[v_avail_idx s mod NUM := q_i0 r]> (v_avail_ring s)) s))
| ts_publish r :
    thr_at s t = Hold AtIdx r →
    thread_step s t (set_thr t (Hold AtCheck r) (put_avail_idx (u16 (v_avail_idx s + 1)) s))
| ts_sleep r :
    may_lock s t → published (thr_at s t) = Some r → on_disk s r = true →
    thread_step s t (set_thr t (WaitIo r) (put_lock None s))
| ts_finish r :
    may_lock s t → published (thr_at s t) = Some r → on_disk s r = false → thread_step s t (finished t r s).

Lemma await_step s t r o :
  vinv s → may_lock s t → published (thr_at s t) = Some r →
  ∃ s', await t r (put_lock o s) = Ok tt s' ∧ thread_step s t s'.
Proof.
  intros Hs Hm Hp. rewrite (await_eq s t r Hs Hp). eexists. split; [done|].
  destruct (on_disk s r) eqn:Ed; [by apply ts_sleep|by apply ts_finish].
Qed.

(** virtio_disk_rw() does not panic. *)
Lemma advance_step s t : vinv s → ∃ s', advance t s = Ok tt s' ∧ thread_step s t s'.
Proof.
  intros Hs. rewrite /advance {1}/bind /get. destruct (thr_at s t) as [|b w|b w|k r|r|r] eqn:Ht.
  1,3,5: exists s; split; [done|apply ts_spin].
  - destruct (v_lock s) eqn:Hl; [exists s; split; [done|apply ts_spin]|]. rewrite /bind /modify.
    destruct (alloc3_desc_spec (put_lock (Some (Thread t)) s)) as [(i & j & l & H3 & ->)|(Hf & s1 & -> & Ha)];
      eexists; (split; [done|]); [by apply (ts_alloc s t b w)|by apply (ts_wait s t b w)].
  - destruct k; rewrite /bind; [rewrite format_eq|..].
    1-3: eexists; split; [reflexivity|]. 1: by apply ts_format. 1: by apply ts_ring. 1: by apply ts_publish.
    destruct (await_step s t r (v_lock s)) as (s' & E & Hst); [done|by apply (may_lock_hold s t AtCheck r)|by rewrite Ht|].
    exists s'. split; [|done]. rewrite -E. by destruct s.
  - destruct (v_lock s) eqn:Hl; [exists s; split; [done|apply ts_spin]|].
    apply (await_step s t r (Some (Thread t))); [done|by apply may_lock_none|by rewrite Ht].
Qed.

Lemma thread_step_inv s t s' : vinv s → thread_step s t s' → vinv s'.
Proof.
  intros Hs [ |b w i j k|b w s1|r|r|r|r|r]; [done|by apply alloced_inv|by apply (attempted_inv s t b w s1)|
    by apply format_inv|by apply ring_inv|by apply publish_inv|by apply sleep_inv|by apply finished_inv].
Qed.

(** *** The handler *)

(** One turn of the loop of virtio_disk_intr(). *)
Definition acknowledged (b : nat) (s : vdisk) : vdisk :=
  put_seen (u16 (v_seen s + 1)) (put_thr (wake_phase (ChBuf b) <$> v_thr s) (upd_vbuf b (set_vb_disk false) s)).

Lemma acknowledged_thr b s t : thr_at (acknowledged b s) t = wake_phase (ChBuf b) (thr_at s t).
Proof. exact (thr_wake (ChBuf b) s t). Qed.
Lemma acknowledged_vbuf b s c :
  vbuf_at (acknowledged b s) c = if decide (b = c) then set_vb_disk false (vbuf_at s b) else vbuf_at s c.
Proof. exact (vbuf_upd b (set_vb_disk false) s c). Qed.

(** The first head of the used ring that the handler has not seen. *)
Lemma used_head s :
  vinv s → v_seen s ≠ v_used_idx s →
  ∃ t r l, published (thr_at s t) = Some r ∧ default 0 (v_used_ring s !! (v_seen s mod NUM)) = q_i0 r ∧
    usedwin s = q_i0 r :: l ∧ usedwin (put_seen (u16 (v_seen s + 1)) s) = l ∧ on_disk s r = true.
Proof.
  intros Hs Hne. destruct (ro_w16 _ (vi_rings _ Hs)) as (W1 & W2 & W3 & W4).
  pose proof (usedwin_pop s Hne W4 W3) as Eu. set (id := default 0 _) in *.
  assert (id ∈ flight s) as Hin by (rewrite /flight Eu; set_solver).
  destruct (ro_flight _ (vi_rings _ Hs) _ Hin) as (t & r & Hp & Er). rewrite -Er in Eu Hin |- *.
  destruct (published_ok _ _ _ (vi_thr _ Hs t) Hp) as (_ & _ & Hd). apply Hd in Hin. eauto 10.
Qed.

Lemma acknowledged_inv s t r :
  vinv s → v_handling s = true → v_seen s ≠ v_used_idx s → published (thr_at s t) = Some r →
  default 0 (v_used_ring s !! (v_seen s mod NUM)) = q_i0 r → vinv (acknowledged (q_b r) s).
Proof.
  intros Hs Hh Hne Hp Hid.
  destruct (used_head s Hs Hne) as (t0 & r0 & l & Hp0 & E0 & Eu & El & Hd).
  assert (t0 = t ∧ r0 = r) as [-> ->].
  { assert (t0 = t) as ->; [|by simplify_eq]. apply (fo_idxs _ (vi_feet _ Hs) _ _ (q_i0 r)); [|by apply published_idx].
    rewrite -Hid E0. by apply published_idx. }
  set (s' := acknowledged (q_b r) s).
  assert (flight s ≡ₚ q_i0 r :: flight s') as Ef.
  { rewrite /flight Eu. change (usedwin s') with (usedwin (put_seen (u16 (v_seen s + 1)) s)). rewrite El.
    change (availwin s') with (availwin s). change (v_taken s') with (v_taken s).
    by rewrite !app_assoc -Permutation_middle. }
  pose proof (ro_nodup _ (vi_rings _ Hs)) as Hnd. rewrite Ef in Hnd. apply NoDup_cons in Hnd as [Hn Hnd].
  assert (∀ t', thr_at s' t' = wake_phase (ChBuf (q_b r)) (thr_at s t')) as Ht' by apply acknowledged_thr.
  assert (buf_of (thr_at s t) = Some (q_b r)) as Hbt by by destruct (thr_at s t) as [| | |[]| |]; simplify_eq/=.
  split.
  - apply (lock_keeps s); [|done..|apply Hs]. intros t' k r'. by rewrite Ht' wake_hold.
  - apply (feet_keeps s); [intros t'; by rewrite Ht' ?wake_buf ?wake_idxs..|done|apply Hs].
  - destruct (vi_rings _ Hs) as [_ Hfl Hst (W1 & W2 & W3 & W4)]. split; [done| | |].
    + intros i Hin. destruct (Hfl i) as (t' & r' & Hp' & <-); [rewrite Ef; by right|].
      exists t', r'. by rewrite Ht' wake_published.
    + intros i Hin. apply Hst. rewrite Eu. right. rewrite -El. exact Hin.
    + split_and!; [done..|apply Z.mod_pos_bound; lia].
  - intros _. auto.
  - intros t'. rewrite Ht'. destruct (decide (t' = t)) as [->|Ht].
    + destruct (published_ok _ _ _ (vi_thr _ Hs t) Hp) as (Hw & Hc & _).
      assert (chain_ok s' r) as Hc'.
      { destruct Hc as (H1 & H2 & H3 & H4 & H5). split_and!; try done. rewrite acknowledged_vbuf decide_True //. }
      assert (on_disk s' r = false) as Hd' by by rewrite /on_disk acknowledged_vbuf decide_True.
      assert (thr_ok s' (Woken r)) as Hok by (split_and!; [done..|rewrite Hd'; naive_solver]).
      destruct (thr_at s t) as [| | |[]| |]; simplify_eq/=; [exact Hok|rewrite Nat.eqb_refl; exact Hok|exact Hok].
    + assert (thr_ok s (wake_phase (ChBuf (q_b r)) (thr_at s t'))) as Hok by apply thr_ok_wake, Hs.
      revert Hok. apply thr_keeps. split; try done.
      * intros c. rewrite wake_buf acknowledged_vbuf. intros Hc. case_decide; [|done]. subst.
        by apply (feet_buf s t t' (q_b r) (vi_feet _ Hs)) in Hc.
      * intros i. rewrite wake_idxs Ef elem_of_cons. intros Hi. split; [by right|]. intros [->|]; [|done].
        exfalso. revert Hi. apply (feet_idx s t); [apply Hs|by apply published_idx|done].
  - intros c. rewrite acknowledged_vbuf. case_decide; [|apply Hs]. apply (vi_vbuf _ Hs (q_b r)).
Qed.

Lemma intr_eq s t r :
  vinv s → v_handling s = true → v_seen s ≠ v_used_idx s → published (thr_at s t) = Some r →
  default 0 (v_used_ring s !! (v_seen s mod NUM)) = q_i0 r → intr s = Ok tt (acknowledged (q_b r) s).
Proof.
  intros Hs Hh Hne Hp Hid. destruct (used_head s Hs Hne) as (t0 & r0 & l & Hp0 & E0 & Eu & _).
  destruct (published_ok _ _ _ (vi_thr _ Hs t) Hp) as (_ & (_ & _ & _ & _ & Hb) & _).
  assert (in_status (info_at s (q_i0 r)) = 0) as Hst.
  { apply (ro_status _ (vi_rings _ Hs)). rewrite Eu -Hid E0. left. }
  rewrite /intr /bind /get Hh. destruct (Z.eqb_spec (v_seen s) (v_used_idx s)); [done|].
  cbn [negb]. rewrite Hid Hst Hb. done.
Qed.

Lemma intr_cases s :
  vinv s → ∃ s', intr s = Ok tt s' ∧ vinv s' ∧
    (s' = s ∨ s' = put_handling false (put_lock None s) ∨
     s' = put_handling true (put_irq false (put_lock (Some Handler) s)) ∨
     ∃ t r, s' = acknowledged (q_b r) s ∧ published (thr_at s t) = Some r ∧
       ∃ l, usedwin s = q_i0 r :: l ∧ usedwin s' = l ∧ on_disk s r = true).
Proof.
  intros Hs. destruct (v_handling s) eqn:Hh.
  - destruct (decide (v_seen s = v_used_idx s)) as [E|Hne].
    + exists (put_handling false (put_lock None s)). split_and!; [|..|auto].
      { rewrite /intr /bind /get Hh. by rewrite E Z.eqb_refl. }
      assert (v_lock s = Some Handler) as Hl by by apply (lo_handler _ (vi_lock _ Hs)).
      apply (inv_phases s); try done; [apply Hs|]. apply lock_ok_none; try done.
      intros t k r H. apply (lo_hold _ (vi_lock _ Hs)) in H. congruence.
    + destruct (used_head s Hs Hne) as (t & r & l & Hp & Hid & Eu & El & Hd).
      exists (acknowledged (q_b r) s). split; [by apply (intr_eq s t)|]. split; [by apply (acknowledged_inv s t)|].
      do 3 right. exists t, r. split_and!; [done..|]. by exists l.
  - rewrite /intr /bind /get Hh. destruct (v_irq s) eqn:Hi; [|exists s; auto].
    destruct (v_lock s) eqn:Hl; [exists s; auto|].
    exists (put_handling true (put_irq false (put_lock (Some Handler) s))). split; [done|]. split; [|auto].
    apply (inv_phases s); try done; [apply Hs| |by intros _; right; right].
    split; [|done|done]. intros t k r H. by apply (lock_idle s t k r Hs Hl) in H.
Qed.

(** *** The device *)

(** The device works on the data, the disk and its own parts of the rings. *)
Lemma device_inv s s' :
  vinv s →
  v_thr s' = v_thr s ∧ v_lock s' = v_lock s ∧ v_handling s' = v_handling s ∧ v_free s' = v_free s ∧
    v_desc s' = v_desc s ∧ v_ops s' = v_ops s ∧ v_avail_ring s' = v_avail_ring s ∧ v_avail_idx s' = v_avail_idx s →
  (∀ i, in_b (info_at s' i) = in_b (info_at s i)) →
  (∀ b, vb_blockno (vbuf_at s' b) = vb_blockno (vbuf_at s b) ∧ vb_disk (vbuf_at s' b) = vb_disk (vbuf_at s b) ∧
        vbuf_ok (vbuf_at s' b)) →
  flight s' ≡ₚ flight s → (∀ i, i ∈ usedwin s' → in_status (info_at s' i) = 0) →
  w16 (v_next s') ∧ w16 (v_used_idx s') ∧ w16 (v_seen s') → irq_ok s' → vinv s'.
Proof.
  intros Hs (E1 & E2 & E3 & E4 & E5 & E6 & E7 & E8) Hi Hb Hf Hu (W1 & W2 & W3) Hirq.
  assert (∀ t, thr_at s' t = thr_at s t) as Et by (intros; by rewrite /thr_at E1).
  split; [| | |done| |apply Hb].
  - apply (lock_keeps s); [|done|done|apply Hs]. intros. by rewrite Et.
  - apply (feet_keeps s); [intros; by rewrite Et..| |apply Hs]. intros. by rewrite /free_at E4.
  - destruct (vi_rings _ Hs) as [Hnd Hfl Hst (W & _)]. split; [by rewrite Hf| |done|by rewrite E8].
    intros i. rewrite Hf. setoid_rewrite Et. apply Hfl.
  - intros t. rewrite Et. apply (thr_keeps s); [|apply Hs].
    split.
    + intros i _. by rewrite /desc_at E5.
    + intros i _. by rewrite /op_at E6.
    + intros i _. apply Hi.
    + intros b _. split; apply Hb.
    + intros i _. by rewrite Hf.
    + intros r _. by rewrite E7 E8.
    + intros b w _. apply few_free_mono. intros i. by rewrite /free_at E4.
Qed.

Lemma take_flight s s' : vinv s → dev_take s = Some s' → flight s' ≡ₚ flight s.
Proof.
  intros Hs. rewrite /dev_take. destruct (Z.eqb_spec (v_next s) (v_avail_idx s)) as [|Hne]; [done|]. intros [= <-].
  destruct (ro_w16 _ (vi_rings _ Hs)) as (W1 & W2 & _). rewrite {2}/flight (availwin_take s Hne W2 W1).
  set (id := default 0 _). set (s1 := put_taken _ _). rewrite /flight.
  change (v_taken s1) with (v_taken s ++ [id]). change (usedwin s1) with (usedwin s).
  rewrite -!app_assoc /= Permutation_middle. apply Permutation_app_head. symmetry. apply Permutation_middle.
Qed.

Lemma take_inv s s' : vinv s → dev_take s = Some s' → vinv s'.
Proof.
  intros Hs Ht. pose proof (take_flight s s' Hs Ht) as Ef. revert Ht Ef.
  rewrite /dev_take. destruct (Z.eqb_spec (v_next s) (v_avail_idx s)) as [|Hne]; [done|]. intros [= <-] Ef.
  destruct (vi_rings _ Hs) as [_ _ Hst (W1 & W2 & W3 & W4)].
  apply (device_inv s); try done; [|split; [apply Z.mod_pos_bound; lia|done]|apply Hs].
  intros b. split_and!; [done..|apply Hs].
Qed.

Lemma raise_inv s s' : vinv s → dev_raise s = Some s' → vinv s'.
Proof.
  intros Hs. rewrite /dev_raise. destruct (v_owed s); [|done]. intros [= <-].
  destruct (vi_rings _ Hs) as [_ _ Hst (W1 & W2 & W3 & W4)].
  apply (device_inv s); try done; [|by intros _; right; left].
  intros b. split_and!; [done..|apply Hs].
Qed.

(** The transfer of a well-formed chain. *)
Definition transferred (r : req) (s : vdisk) : vdisk :=
  upd_info (q_i0 r) (set_in_status 0)
    (let a := 512 * sector_of (vb_blockno (vbuf_at s (q_b r))) in
     if q_w r then put_platter (wr_bytes (v_platter s) a (take 1024 (vb_data (vbuf_at s (q_b r))))) s
     else upd_vbuf (q_b r) (set_vb_data (rd_bytes (v_platter s) a 1024)) s).

Lemma dev_move_eq s r : chain_ok s r → dev_move (q_i0 r) s = Some (transferred r s).
Proof.
  intros (E0 & E1 & E2 & E3 & _). rewrite /dev_move E0. cbn [d_next]. rewrite E1. cbn [d_next]. rewrite E2.
  cbn [d_flags d_len d_addr]. rewrite E3 /transferred. destruct (q_w r); done.
Qed.

Lemma transferred_info r s i : in_b (info_at (transferred r s) i) = in_b (info_at s i).
Proof.
  rewrite /transferred info_upd. destruct (q_w r); case_decide; subst; done.
Qed.
Lemma transferred_status r s i :
  in_status (info_at (transferred r s) i) = if decide (q_i0 r = i) then 0 else in_status (info_at s i).
Proof. rewrite /transferred info_upd. destruct (q_w r); by case_decide. Qed.
Lemma transferred_vbuf r s b : vbuf_ok (vbuf_at s b) →
  vb_blockno (vbuf_at (transferred r s) b) = vb_blockno (vbuf_at s b) ∧
  vb_disk (vbuf_at (transferred r s) b) = vb_disk (vbuf_at s b) ∧ vbuf_ok (vbuf_at (transferred r s) b).
Proof.
  intros Hb. rewrite /transferred. change (vbuf_at (upd_info ?i ?f ?x) b) with (vbuf_at x b).
  destruct (q_w r); [done|]. rewrite vbuf_upd. case_decide; [|done]. subst. split_and!; [done..|].
  destruct Hb as (_ & _ & Hb). split_and!; [apply length_rd_bytes|apply rd_bytes_bytes|apply Hb..].
Qed.

(** A chain the device has taken is that of a thread that waits for it. *)
Lemma taken_req s id : vinv s → id ∈ v_taken s →
  ∃ t r, published (thr_at s t) = Some r ∧ q_i0 r = id ∧ chain_ok s r ∧ on_disk s r = true ∧ id ∉ usedwin s.
Proof.
  intros Hs Hin. assert (id ∈ flight s) as Hf by (rewrite /flight; set_solver).
  destruct (ro_flight _ (vi_rings _ Hs) id Hf) as (t & r & Hp & <-). exists t, r.
  destruct (published_ok _ _ _ (vi_thr _ Hs t) Hp) as (_ & Hc & Hd). split_and!; [done..|by apply Hd|].
  intros Hu. pose proof (ro_nodup _ (vi_rings _ Hs)) as Hnd.
  rewrite /flight !NoDup_app in Hnd. destruct Hnd as (_ & _ & _ & Hno & _). by apply (Hno (q_i0 r)).
Qed.

Lemma filter_out_one (l : list Z) x : NoDup l → x ∈ l → x :: filter (λ y, y ≠ x) l ≡ₚ l.
Proof.
  intros Hnd [l1 [l2 ->]]%list_elem_of_split. apply NoDup_app in Hnd as (Hn1 & Hno & [Hn2 _]%NoDup_cons).
  rewrite filter_app filter_cons_False; [tauto|]. rewrite !filter_not_in; [|done|].
  - intros Hin. apply (Hno x Hin). left.
  - by rewrite Permutation_middle.
Qed.

Lemma dev_complete_eq s id s' : vinv s → dev_complete id s = Some s' →
  ∃ t r, published (thr_at s t) = Some r ∧ q_i0 r = id ∧ id ∈ v_taken s ∧ on_disk s r = true ∧ id ∉ usedwin s ∧
    s' = dev_return id (transferred r s) ∧ flight s' ≡ₚ flight s ∧ usedwin s' = usedwin s ++ [id].
Proof.
  intros Hs. rewrite /dev_complete. case_bool_decide as Hin; [|done].
  destruct (taken_req s id Hs Hin) as (t & r & Hp & <- & Hc & Hd & Hu). rewrite (dev_move_eq s r Hc).
  intros [= <-]. set (s1 := transferred r s).
  assert (availwin s1 = availwin s ∧ usedwin s1 = usedwin s ∧ v_taken s1 = v_taken s ∧
          v_seen s1 = v_seen s ∧ v_used_idx s1 = v_used_idx s) as (E1 & E2 & E3 & E4 & E5)
    by (rewrite /s1 /transferred; destruct (q_w r); done).
  assert (usedwin (dev_return (q_i0 r) s1) = usedwin s ++ [q_i0 r]) as Eu.
  { rewrite -E2. apply usedwin_return. rewrite E4 E5 -usedwin_length /NUM.
    pose proof (flight_length s Hs) as Hl. rewrite flight_lengths in Hl.
    assert (0 < length (v_taken s))%nat by (destruct (v_taken s); [by apply elem_of_nil in Hin|simpl; lia]). lia. }
  exists t, r. split_and!; try done.
  rewrite /flight Eu. change (availwin (dev_return (q_i0 r) s1)) with (availwin s1). rewrite E1.
  change (v_taken (dev_return (q_i0 r) s1)) with (filter (λ x, x ≠ q_i0 r) (v_taken s1)). rewrite E3.
  apply Permutation_app_head. rewrite app_assoc -Permutation_cons_append.
  pose proof (ro_nodup _ (vi_rings _ Hs)) as Hnd. rewrite /flight !NoDup_app in Hnd.
  rewrite -{2}(filter_out_one (v_taken s) (q_i0 r)) //; tauto.
Qed.

Lemma complete_inv s id s' : vinv s → dev_complete id s = Some s' → vinv s'.
Proof.
  intros Hs Hc. destruct (dev_complete_eq s id s' Hs Hc) as (t & r & Hp & Hid & Hin & Hd & Hu & -> & Ef & Eu).
  destruct (vi_rings _ Hs) as [_ _ Hst (W1 & W2 & W3 & W4)].
  apply (device_inv s); [done| |apply transferred_info|intros b; by apply transferred_vbuf, Hs|done| | |by left].
  - rewrite /transferred. by destruct (q_w r).
  - intros i. rewrite Eu elem_of_app list_elem_of_singleton.
    change (info_at (dev_return id ?x) i) with (info_at x i). rewrite transferred_status Hid.
    intros [Hi| ->]; case_decide; [done|by apply Hst|done|done].
  - rewrite /transferred. destruct (q_w r); (split_and!; [done|apply Z.mod_pos_bound; lia|done]).
Qed.

Lemma device_step_inv s s' : vinv s → dev_allowed s s' → vinv s'.
Proof. intros Hs [H|[[id H]|H]]; [by apply (take_inv s)|by apply (complete_inv s id)|by apply (raise_inv s)]. Qed.
