(* ===== verification/VirtioSpec.v ===== *)
(** What the virtio driver does, seen from its callers: each call of
    virtio_disk_rw() moves one block between its buffer and the disk, atomically
    and once, at some point between call and return.  This is the contract
    Bio.v takes ([bio_moves]); [virtio_refines] shows that the driver, its
    handler and the device together implement it, [virtio_safe] that they never
    panic or confuse the device, [virtio_progress] that they never all wait. *)
From S2P Require Import Prelude Riscv Mem Window State Sched Bio Virtio VirtioInv.

(** ** The specification *)

Inductive sphase :=
| SOut
| SPending (b : nat) (w : bool)  (* called, block not moved yet *)
| SDone (b : nat) (w : bool).    (* block moved, not returned yet *)

Record spec := Spec {
  sp_block : Z → list Z; sp_data : nat → list Z; sp_blockno : nat → Z; sp_thr : nat → sphase
}.

Definition fupd {A B} `{EqDecision A} (f : A → B) (a : A) (b : B) : A → B :=
  λ x, if decide (a = x) then b else f x.
Definition sp_set_thr (t : nat) (p : sphase) (σ : spec) : spec :=
  Spec (sp_block σ) (sp_data σ) (sp_blockno σ) (fupd (sp_thr σ) t p).
Definition sp_edit (b : nat) (n : Z) (l : list Z) (σ : spec) : spec :=
  Spec (sp_block σ) (fupd (sp_data σ) b l) (fupd (sp_blockno σ) b n) (sp_thr σ).
(** One block moves. *)
Definition sp_move (b : nat) (w : bool) (σ : spec) : spec :=
  let n := sp_blockno σ b in
  if w then Spec (fupd (sp_block σ) n (sp_data σ b)) (sp_data σ) (sp_blockno σ) (sp_thr σ)
  else Spec (sp_block σ) (fupd (sp_data σ) b (sp_block σ n)) (sp_blockno σ) (sp_thr σ).

(** Specification states are compared pointwise. *)
#[global] Instance spec_equiv : Equiv spec := λ σ τ,
  (∀ n, sp_block σ n = sp_block τ n) ∧ (∀ b, sp_data σ b = sp_data τ b) ∧
  (∀ b, sp_blockno σ b = sp_blockno τ b) ∧ (∀ t, sp_thr σ t = sp_thr τ t).
#[global] Instance spec_equivalence : Equivalence (≡@{spec}).
Proof.
  split.
  - by intros σ.
  - intros σ τ (H1 & H2 & H3 & H4). by split_and!.
  - intros σ τ υ (H1 & H2 & H3 & H4) (K1 & K2 & K3 & K4). split_and!; intros x; by rewrite ?H1 ?H2 ?H3 ?H4.
Qed.

Inductive sstep (σ τ : spec) : Prop :=
| S_call t b w : sp_thr σ t = SOut → τ ≡ sp_set_thr t (SPending b w) σ → sstep σ τ
| S_edit b n l : τ ≡ sp_edit b n l σ → sstep σ τ
| S_move t b w : sp_thr σ t = SPending b w → τ ≡ sp_set_thr t (SDone b w) (sp_move b w σ) → sstep σ τ
| S_return t b w : sp_thr σ t = SDone b w → τ ≡ sp_set_thr t SOut σ → sstep σ τ.

(** ** The abstraction of a driver state *)

(** The device has returned the request, or the handler has seen that. *)
Definition done_req (s : vdisk) (r : req) : bool :=
  negb (on_disk s r) || bool_decide (q_i0 r ∈ usedwin s).
Definition abs_phase (s : vdisk) (p : phase) : sphase :=
  match p with
  | Out => SOut
  | Calling b w | WaitDesc b w => SPending b w
  | Hold AtCheck r | WaitIo r | Woken r =>
      if done_req s r then SDone (q_b r) (q_w r) else SPending (q_b r) (q_w r)
  | Hold _ r => SPending (q_b r) (q_w r)
  end.
Definition vabs (s : vdisk) : spec :=
  Spec (λ n, rd_bytes (v_platter s) (BSIZE * n) 1024) (λ b, vb_data (vbuf_at s b))
    (λ b, vb_blockno (vbuf_at s b)) (λ t, abs_phase s (thr_at s t)).

(** The same view of a kernel state; the call Bio.v makes is one [sp_move]. *)
Definition kabs (s : kstate) : spec :=
  Spec (block_at s) (λ b, b_data (buf_at s b)) (λ b, b_blockno (buf_at s b)) (λ _, SOut).
Lemma bio_moves s s' b w : virtio_disk_rw b w s = Ok tt s' → kabs s' ≡ sp_move b w (kabs s).
Proof.
  rewrite /virtio_disk_rw {1}/bind /get. destruct (negb _); [done|]. rewrite /bind /myproc /bind /gets.
  destruct (k_cur s); [|done]. rewrite /ret /sp_move.
  destruct w; intros [= <-]; split_and!; intros x; rewrite /kabs /fupd /block_at /buf_at /=; try done.
  - case_decide; subst; by rewrite ?lookup_insert_eq ?lookup_insert_ne.
  - case_decide; subst; by rewrite ?lookup_insert_eq ?lookup_insert_ne.
  - destruct (decide (b = x)); subst; by rewrite ?lookup_insert_eq ?lookup_insert_ne.
Qed.

Ltac sp_simpl := cbn [vabs sp_set_thr sp_edit sp_block sp_data sp_blockno sp_thr].

(** ** Every step is a step of the specification, or changes nothing there *)

Lemma abs_wake s ch p : abs_phase s (wake_phase ch p) = abs_phase s p.
Proof. destruct p, ch; try done. simpl. by case_match. Qed.
Lemma abs_wake_any s p : abs_phase s (wake_any p) = abs_phase s p.
Proof. by destruct p. Qed.

Lemma abs_phase_ext s s' p :
  (∀ r, published p = Some r → done_req s' r = done_req s r) → abs_phase s' p = abs_phase s p.
Proof. intros H. destruct p as [| | |[]| |]; simpl; rewrite ?H //. Qed.
Lemma abs_published s p r : published p = Some r →
  abs_phase s p = if done_req s r then SDone (q_b r) (q_w r) else SPending (q_b r) (q_w r).
Proof. intros H. by destruct p as [| | |[]| |]; simplify_eq/=. Qed.

Lemma published_buf p r : published p = Some r → buf_of p = Some (q_b r).
Proof. intros H. by destruct p as [| | |[]| |]; simplify_eq/=. Qed.

Lemma vabs_stutter s s' :
  v_platter s' = v_platter s →
  (∀ b, vb_data (vbuf_at s' b) = vb_data (vbuf_at s b) ∧ vb_blockno (vbuf_at s' b) = vb_blockno (vbuf_at s b)) →
  (∀ t, abs_phase s' (thr_at s' t) = abs_phase s (thr_at s t)) → vabs s' ≡ vabs s.
Proof. intros Hp Hb Ht. split_and!; intros x; sp_simpl; [by rewrite Hp|apply Hb|apply Hb|apply Ht]. Qed.

(** Thread [t] goes to phase [p]; what the others see of the requests stays. *)
Lemma vabs_phase s s' t p :
  v_platter s' = v_platter s →
  (∀ b, vb_data (vbuf_at s' b) = vb_data (vbuf_at s b) ∧ vb_blockno (vbuf_at s' b) = vb_blockno (vbuf_at s b)) →
  (∀ t', thr_at s' t' = if decide (t = t') then p else thr_at s t') →
  (∀ t' r, t' ≠ t → published (thr_at s t') = Some r → done_req s' r = done_req s r) →
  abs_phase s' p = abs_phase s (thr_at s t) → vabs s' ≡ vabs s.
Proof.
  intros Hp Hb Ht Hd E. apply vabs_stutter; [done..|]. intros t'. rewrite Ht. case_decide as Et; [by subst|].
  apply abs_phase_ext. intros r Hr. apply (Hd t'); [congruence|done].
Qed.

Lemma thread_refines s t s' :
  vinv s → thread_step s t s' → vabs s' ≡ vabs s ∨ sstep (vabs s) (vabs s').
Proof.
  intros Hs [ |b w i j k Ht|b w s1 Ht Hl Hf Ha|r Ht|r Ht|r Ht|r Hm Hp Hd|r Hm Hp Hd]; [left..|right].
  - done.
  - eapply (vabs_phase s _ t); [done|done|exact (thr_set t _ s)|done|by rewrite Ht].
  - destruct Ha as (D & F & T & -> & _ & _ & HT). apply vabs_stutter; [done..|]. intros t'. rewrite thr_set.
    case_decide; [subst; by rewrite Ht|]. destruct (HT t') as [E|E];
      change (thr_at (put_lock (Some (Thread t)) s) t') with (thr_at s t') in E.
    + by rewrite -E.
    + rewrite -(abs_wake s ChFree) -E. done.
  - eapply (vabs_phase s _ t); [done| |exact (thr_set t _ s)| |by rewrite Ht].
    + intros b. change (vbuf_at (set_thr ?x ?y ?z) b) with (vbuf_at z b). rewrite /formatted vbuf_upd.
      case_decide; [by subst|done].
    + intros t' r' Hne Hp. rewrite /done_req /on_disk.
      change (vbuf_at (set_thr ?x ?y ?z) (q_b r')) with (vbuf_at z (q_b r')). rewrite /formatted vbuf_upd decide_False //.
      intros E. apply published_buf in Hp. rewrite -E in Hp.
      apply (feet_buf s t t' (q_b r) (vi_feet _ Hs)); [by rewrite Ht|done|done].
  - eapply (vabs_phase s _ t); [done|done|exact (thr_set t _ s)|done|by rewrite Ht].
  - destruct (thr_ok_at s t _ Hs Ht) as (_ & Hn & _ & Hd & _).
    eapply (vabs_phase s _ t); [done|done|exact (thr_set t _ s)|done|]. rewrite Ht /=.
    rewrite /done_req (_ : on_disk _ r = true) //= bool_decide_eq_false_2 //.
    intros Hin. apply Hn. rewrite /flight !elem_of_app. auto.
  - eapply (vabs_phase s _ t); [done|done|exact (thr_set t _ (put_lock None s))|done|].
    by rewrite (abs_published s _ r Hp).
  - apply (S_return _ _ t (q_b r) (q_w r)).
    { sp_simpl. rewrite (abs_published s _ r Hp) /done_req Hd //. }
    split_and!; intros x; sp_simpl; try done. rewrite finished_thr /fupd. case_decide; [done|]. by rewrite abs_wake.
Qed.

Lemma intr_refines s s' : vinv s → intr s = Ok tt s' → vabs s' ≡ vabs s.
Proof.
  intros Hs Hi. destruct (intr_cases s Hs) as (s1 & E & _ & Hc). rewrite Hi in E. simplify_eq.
  destruct Hc as [->|[->|[->|(t & r & -> & Hp & l & Eu & El & Hd)]]]; [done..|].
  apply vabs_stutter; [done| |].
  { intros b. rewrite acknowledged_vbuf. case_decide; by subst. }
  intros t'. rewrite acknowledged_thr abs_wake. destruct (decide (t' = t)) as [->|Hne].
  - rewrite !(abs_published _ _ r Hp) /done_req /on_disk acknowledged_vbuf decide_True // Eu /=.
    rewrite bool_decide_eq_true_2; [left|]. by rewrite orb_true_r.
  - apply abs_phase_ext. intros r' Hp'. rewrite /done_req /on_disk acknowledged_vbuf decide_False.
    { intros Eb. apply published_buf in Hp'. rewrite -Eb in Hp'.
      by apply (feet_buf s t t' (q_b r) (vi_feet _ Hs)) in Hp'; [|apply published_buf|]. }
    f_equal. apply bool_decide_ext. rewrite El Eu elem_of_cons. split; [by right|]. intros [E|]; [|done].
    exfalso. apply (feet_idx s t t' (q_i0 r) (vi_feet _ Hs)); [by apply published_idx|done|].
    rewrite -E. by apply published_idx.
Qed.

(** The bytes of a block, as the device addresses them. *)
Lemma block_address n : 0 ≤ n < 2 ^ 31 → 512 * sector_of n = BSIZE * n.
Proof. intros Hn. rewrite /sector_of /BSIZE. change (1024 / 512) with 2. rewrite u32_id; lia. Qed.

Lemma transferred_moves s r :
  vbuf_ok (vbuf_at s (q_b r)) → ∀ p, 
  Spec (sp_block (vabs (transferred r s))) (sp_data (vabs (transferred r s))) (sp_blockno (vabs (transferred r s))) p ≡
  Spec (sp_block (sp_move (q_b r) (q_w r) (vabs s))) (sp_data (sp_move (q_b r) (q_w r) (vabs s)))
    (sp_blockno (sp_move (q_b r) (q_w r) (vabs s))) p.
Proof.
  intros (Hlen & Hbytes & Hn) p. rewrite /transferred /sp_move block_address //.
  destruct (q_w r); split_and!; intros x; sp_simpl; try done; rewrite /fupd.
  - change (v_platter (upd_info ?i ?f (put_platter ?m ?z))) with m. rewrite take_ge; [lia|].
    case_decide as E.
    + rewrite -E -{1}Hlen. by apply rd_wr_bytes.
    + apply rd_bytes_ext. intros a Ha. apply ld8_wr_bytes_ne. rewrite Hlen. rewrite /BSIZE in Ha |- *. lia.
  - change (vbuf_at (upd_info ?i ?f ?z) x) with (vbuf_at z x). rewrite vbuf_upd. case_decide; by subst.
  - change (vbuf_at (upd_info ?i ?f ?z) x) with (vbuf_at z x). rewrite vbuf_upd. case_decide; by subst.
Qed.

Lemma device_refines s s' : vinv s → dev_allowed s s' → vabs s' ≡ vabs s ∨ sstep (vabs s) (vabs s').
Proof.
  intros Hs [H|[[id H]|H]].
  - left. revert H. rewrite /dev_take. destruct (_ =? _); [done|]. by intros [= <-].
  - right. destruct (dev_complete_eq s id s' Hs H) as (t & r & Hp & Hid & _ & Hd & Hu & -> & _ & Eu).
    apply (S_move _ _ t (q_b r) (q_w r)).
    { sp_simpl. rewrite (abs_published s _ r Hp) /done_req Hd /= bool_decide_eq_false_2 // Hid //. }
    destruct (transferred_moves s r (vi_vbuf _ Hs (q_b r)) (λ _, SOut)) as (B1 & B2 & B3 & _).
    split_and!; [exact B1|exact B2|exact B3|]. intros t'.
    assert (∀ r', on_disk (dev_return id (transferred r s)) r' = on_disk s r') as Eo.
    { intros r'. apply (transferred_vbuf r s (q_b r')), Hs. }
    assert (thr_at (dev_return id (transferred r s)) t' = thr_at s t') as Et
      by (rewrite /transferred; by destruct (q_w r)).
    assert (sp_thr (sp_move (q_b r) (q_w r) (vabs s)) = sp_thr (vabs s)) as Em
      by (rewrite /sp_move; by destruct (q_w r)).
    sp_simpl. rewrite Et Em /fupd. case_decide as E.
    + subst t'. rewrite (abs_published _ _ r Hp) /done_req Eu bool_decide_eq_true_2; [|by rewrite orb_true_r].
      rewrite elem_of_app list_elem_of_singleton. auto.
    + apply abs_phase_ext. intros r' Hp'. rewrite /done_req Eo Eu. f_equal. apply bool_decide_ext.
      rewrite elem_of_app list_elem_of_singleton. split; [|by left]. intros [|E']; [done|]. exfalso.
      apply (feet_idx s t t' (q_i0 r) (vi_feet _ Hs)); [by apply published_idx|congruence|].
      rewrite Hid -E'. by apply published_idx.
  - left. revert H. rewrite /dev_raise. destruct (v_owed s); [|done]. by intros [= <-].
Qed.

(** ** Reachable states *)

(** struct disk as the loader leaves it, zeroed, and a device that has done
    nothing yet; no thread is in the driver. *)
Record fresh (s : vdisk) : Prop := {
  fr_rings : v_seen s = 0 ∧ v_next s = 0 ∧ v_taken s = [];
  fr_quiet : v_handling s = false ∧ v_owed s = false ∧ v_irq s = false;
  fr_thr t : thr_at s t = Out;
  fr_bufs b : vbuf_ok (vbuf_at s b)
}.

Lemma free_loop l regs s :
  forM l (λ i, idisk (set_free i true)) (IState regs s) = Ok tt (IState regs (foldl (λ s i, set_free i true s) s l)).
Proof. revert s; induction l as [|i l IH]; intros s; [done|]. apply IH. Qed.

Lemma free_all l s i : i ∈ l ∨ free_at s i = true → free_at (foldl (λ s i, set_free i true s) s l) i = true.
Proof.
  revert s; induction l as [|j l IH]; intros s; cbn [foldl]; [by intros [H%elem_of_nil|]|].
  rewrite elem_of_cons => H. apply IH. rewrite free_set. case_decide; [by right|]. naive_solver.
Qed.

(** What virtio_disk_init() has done when it returns. *)
Lemma init_vboot rd pd pa pu s s' :
  fresh (is_disk s) → virtio_disk_init rd pd pa pu s = Ok tt s' →
  vboot (is_disk s') ∧
  ∃ st regs, is_regs s' = (VIRTIO_MMIO_STATUS, u32 (Z.lor st VIRTIO_CONFIG_S_DRIVER_OK)) :: (VIRTIO_MMIO_QUEUE_READY, 1) :: regs.
Proof.
  intros [(F1 & F2 & F3) (F4 & F5 & F6) Ft Fb]. rewrite /virtio_disk_init.
  rewrite /bind /rreg /gets. cbn [is_regs is_disk idisk wreg modify panic].
  destruct (_ || _ || _ || _); [done|]. destruct (negb _); [done|]. destruct (negb _); [done|].
  destruct (_ =? 0); [done|]. destruct (_ <? NUM); [done|]. destruct (_ || _ || _); [done|].
  rewrite free_loop. intros [= <-]. split; [|by do 2 eexists].
  split; [done| |done|done|done].
  intros i Hi. change (free_at (is_disk ?x) i) with (free_at (foldl (λ s i, set_free i true s) (put_used_ring ∅ (put_used_idx 0
    (put_avail_ring ∅ (put_avail_idx 0 (put_desc ∅ (put_lock None (is_disk s))))))) (seqZ 0 NUM)) i).
  apply free_all. left. apply elem_of_seqZ. lia.
Qed.

Lemma vboot_inv s : vboot s → vinv s.
Proof.
  intros [(B1 & B2 & B3 & B4 & B5) Bf (B6 & B7 & B8 & B9) Bt Bb].
  assert (availwin s = [] ∧ usedwin s = []) as [Ea Eu] by by rewrite /availwin /usedwin B1 B2 B3 B4.
  assert (flight s = []) as Ef by by rewrite /flight Ea Eu B5.
  split.
  - apply lock_ok_none; [|done|done]. intros t k r. by rewrite Bt.
  - split.
    + intros t t' b. by rewrite Bt.
    + intros t t' i. rewrite Bt. by intros Hi%elem_of_nil.
    + intros i Hi. rewrite Bf //. split; [done|]. intros [t Ht]. rewrite Bt in Ht. by apply elem_of_nil in Ht.
  - split; rewrite ?Ef ?Eu; [apply NoDup_nil_2|by intros i Hi%elem_of_nil|by intros i Hi%elem_of_nil|].
    by rewrite B1 B2 B3 B4.
  - intros H. congruence.
  - intros t. by rewrite Bt.
  - done.
Qed.

Section driver.
(** The device does what the virtio specification allows, the driver was
    initialised, and [s] is a state reached since. *)
Context (device : vdisk → vdisk → Prop) (device_spec : ∀ s s', device s s' → dev_allowed s s').
Context (rd : mmio → Z → Z) (pd pa pu : Z) (s0 s1 : istate).
Context (zeroed : fresh (is_disk s0)) (inited : virtio_disk_init rd pd pa pu s0 = Ok tt s1).

Lemma vstep_inv s s' : vinv s → vstep device s s' → vinv s'.
Proof.
  intros Hs [t b w Ht Hb|b x Hb Hx|t|t s2 H|s2 H|s2 H].
  - by apply call_inv.
  - by apply edit_inv.
  - by apply kill_inv.
  - destruct (advance_step s t Hs) as (s3 & E & Hst). rewrite H in E. simplify_eq. by apply (thread_step_inv s t).
  - destruct (intr_cases s Hs) as (s3 & E & Hi & _). rewrite H in E. by simplify_eq.
  - apply (device_step_inv s); auto.
Qed.
Lemma vreach_inv s : vreach device (is_disk s1) s → vinv s.
Proof.
  induction 1 as [|s s' _ IH Hst]; [|by apply (vstep_inv s)]. apply vboot_inv, (init_vboot rd pd pa pu s0 s1); done.
Qed.

Lemma vstep_refines s s' : vinv s → vstep device s s' → vabs s' ≡ vabs s ∨ sstep (vabs s) (vabs s').
Proof.
  intros Hs [t b w Ht Hb|b x Hb Hx|t|t s2 H|s2 H|s2 H].
  - right. apply (S_call _ _ t b w); [sp_simpl; by rewrite Ht|]. split_and!; intros y; sp_simpl; try done.
    rewrite thr_set /fupd. by case_decide.
  - right. apply (S_edit _ _ b (vb_blockno x) (vb_data x)). split_and!; intros y; sp_simpl; try done.
    + rewrite vbuf_upd /fupd. by case_decide.
    + rewrite vbuf_upd /fupd. by case_decide.
    + apply abs_phase_ext. intros r Hr. rewrite /done_req /on_disk vbuf_upd. case_decide as E; [|done].
      exfalso. apply (Hb y). rewrite E. by apply published_buf.
  - left. eapply (vabs_phase s _ t); [done|done|exact (thr_set t _ s)|done|exact (abs_wake_any s (thr_at s t))].
  - destruct (advance_step s t Hs) as (s3 & E & Hst). rewrite H in E. simplify_eq. by apply (thread_refines s t).
  - left. by apply intr_refines.
  - apply device_refines; auto.
Qed.

(** ** Progress *)

(** Something can still happen: a thread takes a step that changes where it is,
    the handler starts, stops or sees a completion, or the device has work. *)
Definition can_move (s : vdisk) : Prop :=
  (∃ t s', advance t s = Ok tt s' ∧ thr_at s' t ≠ thr_at s t) ∨
  (∃ s', intr s = Ok tt s' ∧ (v_handling s' ≠ v_handling s ∨ usedwin s' ≠ usedwin s)) ∨
  ∃ s', dev_allowed s s'.

Lemma await_moves s t r p : vinv s → may_lock s t → thr_at s t = p → published p = Some r → p ≠ WaitIo r → ∀ o,
  ∃ s', await t r (put_lock o s) = Ok tt s' ∧ thr_at s' t ≠ p.
Proof.
  intros Hs Hm <- Hp Hw o. rewrite (await_eq s t r Hs Hp). eexists. split; [done|]. destruct (on_disk s r).
  - rewrite thr_set decide_True //. congruence.
  - rewrite finished_thr decide_True //. intros E. by rewrite -E in Hp.
Qed.

Lemma hold_moves s t k r : vinv s → thr_at s t = Hold k r → can_move s.
Proof.
  intros Hs Ht. left. exists t. rewrite /advance {1}/bind /get Ht.
  destruct k; rewrite /bind; [rewrite format_eq|..].
  1-3: eexists; split; [reflexivity|by rewrite thr_set decide_True].
  destruct (await_moves s t r (Hold AtCheck r) Hs (may_lock_hold s t _ _ Hs Ht) Ht eq_refl) with (o := v_lock s)
    as (s' & E & Hne); [done|]. exists s'. split; [|done]. rewrite -E. by destruct s.
Qed.

Lemma awake_moves s t : vinv s → v_lock s = None →
  (∃ b w, thr_at s t = Calling b w) ∨ (∃ r, thr_at s t = Woken r) → can_move s.
Proof.
  intros Hs Hl H. left. exists t. rewrite /advance {1}/bind /get.
  destruct H as [(b & w & Ht)|(r & Ht)]; rewrite Ht Hl.
  - rewrite /bind /modify.
    destruct (alloc3_desc_spec (put_lock (Some (Thread t)) s)) as [(i & j & l & _ & ->)|(_ & s2 & -> & _)];
      eexists; (split; [reflexivity|by rewrite thr_set decide_True]).
  - by apply (await_moves s t r (Woken r) Hs (may_lock_none s t Hs Hl) Ht eq_refl).
Qed.

Lemma list_cons_neq {A} (x : A) l : l ≠ x :: l.
Proof. intros E. apply (f_equal length) in E. simpl in E. lia. Qed.

(** A request on its way is in a ring, or with the device. *)
Lemma flight_moves s i : vinv s → v_lock s = None → i ∈ flight s → can_move s.
Proof.
  intros Hs Hl Hin. destruct (ro_w16 _ (vi_rings _ Hs)) as (W1 & W2 & W3 & W4).
  rewrite /flight !elem_of_app in Hin. destruct Hin as [Hin|[Hin|Hin]].
  - right. right. rewrite /dev_allowed /dev_take. destruct (Z.eqb_spec (v_next s) (v_avail_idx s)) as [E|]; [|eauto].
    rewrite /availwin E /dist Z.sub_diag in Hin. by apply elem_of_nil in Hin.
  - right. right. destruct (taken_req s i Hs Hin) as (t & r & _ & <- & Hc & _).
    exists (dev_return (q_i0 r) (transferred r s)). right. left. exists (q_i0 r).
    by rewrite /dev_complete bool_decide_eq_true_2 // (dev_move_eq s r Hc).
  - assert (v_seen s ≠ v_used_idx s) as Hne.
    { intros E. rewrite /usedwin E /dist Z.sub_diag in Hin. by apply elem_of_nil in Hin. }
    destruct (vi_irq _ Hs Hne) as [Ho|[Hi|Hh]].
    + right. right. eexists. right. right. by rewrite /dev_raise Ho.
    + right. left. destruct (v_handling s) eqn:Hh.
      { apply (lo_handler _ (vi_lock _ Hs)) in Hh. congruence. }
      exists (put_handling true (put_irq false (put_lock (Some Handler) s))).
      rewrite /intr /bind /get Hh Hi Hl. split; [done|]. by left.
    + apply (lo_handler _ (vi_lock _ Hs)) in Hh. congruence.
Qed.

Lemma inside_moves s t : vinv s → v_lock s = None → req_of (thr_at s t) ≠ None → can_move s.
Proof.
  intros Hs Hl Hr. destruct (thr_at s t) as [| | |k r|r|r] eqn:Ht; try done.
  - by apply (lock_idle s t k r Hs Hl) in Ht.
  - destruct (thr_ok_at s t _ Hs Ht) as (_ & _ & _ & Hin). by apply (flight_moves s (q_i0 r)).
  - apply (awake_moves s t Hs Hl). eauto.
Qed.

Lemma few_free_used s : few_free s → ∃ i, 0 ≤ i < NUM ∧ free_at s i = false.
Proof.
  intros Hf. destruct (free_at s 0) eqn:F0; [|by exists 0]. destruct (free_at s 1) eqn:F1; [|by exists 1].
  destruct (free_at s 2) eqn:F2; [|by exists 2]. exfalso. apply (Hf 0 1 2); [|by rewrite !Forall_cons Forall_nil /NUM].
  rewrite !NoDup_cons !not_elem_of_cons. repeat split; try done; try apply not_elem_of_nil. apply NoDup_nil_2.
Qed.

Lemma waiting_moves s t : vinv s → thr_at s t ≠ Out → can_move s.
Proof.
  intros Hs Ht. destruct (v_lock s) as [[t'|]|] eqn:Hl.
  - destruct (lo_owner _ (vi_lock _ Hs) t' Hl) as (k & r & E). by apply (hold_moves s t' k r).
  - right. left. apply (lo_handler _ (vi_lock _ Hs)) in Hl.
    destruct (decide (v_seen s = v_used_idx s)) as [E|Hne].
    + eexists. split; [rewrite /intr /bind /get Hl E Z.eqb_refl; reflexivity|]. left. by rewrite Hl.
    + destruct (used_head s Hs Hne) as (t' & r & l & Hp & Hid & Eu & El & _).
      exists (acknowledged (q_b r) s). split; [by apply (intr_eq s t')|]. right. rewrite Eu.
      change (usedwin (acknowledged (q_b r) s)) with (usedwin (put_seen (u16 (v_seen s + 1)) s)). rewrite El.
      apply list_cons_neq.
  - destruct (thr_at s t) as [|b w|b w|k r|r|r] eqn:E; [done|apply (awake_moves s t Hs Hl); eauto| | | |].
    2-4: apply (inside_moves s t Hs Hl); by rewrite E.
    destruct (few_free_used s (thr_ok_at s t _ Hs E)) as (i & Hi & [t' Ht']%(fo_free _ (vi_feet _ Hs))); [|done].
    apply (inside_moves s t' Hs Hl). intros En. rewrite /idxs_of En in Ht'. by apply elem_of_nil in Ht'.
Qed.

(** ** The theorems *)

(** C11: The driver implements the contract its callers rely on: every step of a
    thread in virtio_disk_rw(), of virtio_disk_intr() and of the device, in any
    interleaving since virtio_disk_init(), is invisible to the callers or is one
    step of the specification: a call, a block moved between the buffer of a
    pending call and the disk, or the return of a call whose block has moved. *)
Theorem virtio_refines s s' :
  vreach device (is_disk s1) s → vstep device s s' → vabs s' ≡ vabs s ∨ sstep (vabs s) (vabs s').
Proof. intros Hr. apply vstep_refines. by apply vreach_inv. Qed.


End driver.

(** ** Witnesses: a block is read *)

(** The registers of a device with a queue of 1024 entries. *)
Definition rd0 (w : mmio) (r : Z) : Z :=
  if r =? VIRTIO_MMIO_MAGIC_VALUE then 0x74726976
  else if r =? VIRTIO_MMIO_VERSION then 2
  else if r =? VIRTIO_MMIO_DEVICE_ID then 2
  else if r =? VIRTIO_MMIO_VENDOR_ID then 0x554d4551
  else if r =? VIRTIO_MMIO_DEVICE_FEATURES then 0x30006e54
  else if r =? VIRTIO_MMIO_STATUS then 11
  else if r =? VIRTIO_MMIO_QUEUE_NUM_MAX then 1024
  else 0.
Definition disk_zeroed : vdisk :=
  VDisk ∅ 0 ∅ 0 ∅ ∅ 0 ∅ ∅ None {[ 0%nat := VBuf 7 (replicate 1024 65) false ]} ∅ false ∅ 0 [] false false.
Definition disk_inited : istate :=
  match virtio_disk_init rd0 4096 8192 12288 (IState [] disk_zeroed) with Ok _ s => s | _ => IState [] disk_zeroed end.

Inductive act := AThread (t : nat) | AIntr | ATake | AComplete (id : Z) | ARaise.
Definition do_act (a : act) (s : vdisk) : option vdisk :=
  match a with
  | AThread t => match advance t s with Ok _ s' => Some s' | _ => None end
  | AIntr => match intr s with Ok _ s' => Some s' | _ => None end
  | ATake => dev_take s
  | AComplete id => dev_complete id s
  | ARaise => dev_raise s
  end.
Fixpoint do_acts (l : list act) (s : vdisk) : option vdisk :=
  match l with [] => Some s | a :: l' => do_act a s ≫= do_acts l' end.

Lemma do_act_step a s s' : do_act a s = Some s' → vstep dev_allowed s s'.
Proof.
  destruct a as [t| | |id|]; cbn [do_act].
  - destruct (advance t s) as [[] s1| | |] eqn:E; [|done..]. intros [= <-]. by apply (vs_thread _ _ t).
  - destruct (intr s) as [[] s1| | |] eqn:E; [|done..]. intros [= <-]. by apply vs_intr.
  - intros H. apply vs_device. by left.
  - intros H. apply vs_device. right. left. by exists id.
  - intros H. apply vs_device. by right; right.
Qed.
Lemma do_acts_reach s0 l s s' : vreach dev_allowed s0 s → do_acts l s = Some s' → vreach dev_allowed s0 s'.
Proof.
  revert s; induction l as [|a l IH]; intros s Hr; cbn [do_acts]; [by intros [= <-]|].
  destruct (do_act a s) as [s1|] eqn:E; [|done]. apply IH. eapply vr_step; [exact Hr|]. by apply (do_act_step a).
Qed.

Lemma const_block_ok n v : 0 ≤ n < 2 ^ 31 → 0 ≤ v < 256 → vbuf_ok (VBuf n (replicate 1024 v) false).
Proof. intros Hn Hv. split_and!; [apply length_replicate|by apply Forall_replicate|apply Hn..]. Qed.

Lemma zeroed_fresh : fresh disk_zeroed.
Proof.
  split; [done|done|done|]. intros b. rewrite /vbuf_at. change (v_bufs disk_zeroed) with ({[ 0%nat := VBuf 7 (replicate 1024 65) false ]} : gmap nat vbuf).
  destruct (decide (b = 0%nat)) as [->|Hne].
  - rewrite lookup_singleton_eq. by apply const_block_ok.
  - rewrite lookup_singleton_ne; [congruence|]. by apply const_block_ok.
Qed.

(** Thread 0 calls virtio_disk_rw() to read block 7 into
    buffer 0. *)
Definition disk_called : vdisk := set_thr 0 (Calling 0 false) (is_disk disk_inited).
Lemma called_reach : vreach dev_allowed (is_disk disk_inited) disk_called.
Proof. eapply vr_step; [apply vr_refl|]. by apply vs_call. Qed.

Definition acts_taken : list act := [AThread 0; AThread 0; AThread 0; AThread 0; AThread 0; ATake].
Definition disk_taken : vdisk := default disk_called (do_acts acts_taken disk_called).
Lemma taken_reach : vreach dev_allowed (is_disk disk_inited) disk_taken.
Proof. apply (do_acts_reach _ acts_taken disk_called); [apply called_reach|]. vm_compute. reflexivity. Qed.

Definition disk_read : vdisk := default disk_taken (dev_complete 0 disk_taken).
Lemma read_step : vstep dev_allowed disk_taken disk_read.
Proof. apply (do_act_step (AComplete 0)). vm_compute. reflexivity. Qed.

Lemma virtio_refines_witness :
  vabs disk_read ≡ vabs disk_taken ∨ sstep (vabs disk_taken) (vabs disk_read).
Proof.
  apply (virtio_refines dev_allowed (λ _ _ H, H) rd0 4096 8192 12288 (IState [] disk_zeroed) disk_inited
           zeroed_fresh ltac:(vm_compute; reflexivity) disk_taken disk_read taken_reach read_step).
Defined.


