(* ===== verification/Csr.v ===== *)
(** Privilege modes and control and status registers: the accessors of
    kernel/riscv.h, mret and sret, and how a hart takes a trap.

    The registers follow the privileged architecture as far as the kernel
    depends on it: sstatus and sie are views of mstatus and mie, delegation
    registers keep the bits the hart implements, a register of a higher
    privilege, or a timer register that machine mode has not opened, is an
    illegal instruction. *)
From stdpp Require Import functions.
From S2P Require Import Prelude Riscv.

(** ** Harts *)

Inductive mode := UMode | SMode | MMode.
#[global] Instance mode_eq_dec : EqDecision mode.
Proof. solve_decision. Defined.
Definition level (m : mode) : Z := match m with UMode => 0 | SMode => 1 | MMode => 3 end.
Definition mode_of (z : Z) : mode := if z =? 3 then MMode else if z =? 1 then SMode else UMode.

Inductive csr :=
| mhartid | mstatus | mepc | medeleg | mideleg | mie | menvcfg | mcounteren | pmpcfg0 | pmpaddr0
| sstatus | sie | sip | stvec | sepc | scause | stval | satp | stimecmp | time.
#[global] Instance csr_eq_dec : EqDecision csr.
Proof. solve_decision. Defined.

(** A hart: its mode, program counter, thread pointer, stack pointer and
    registers. *)
Record rv := Rv { rv_mode : mode; rv_pc : Z; rv_tp : Z; rv_sp : Z; rv_csr : csr → Z }.
Definition set_mode (m : mode) (h : rv) : rv := Rv m (rv_pc h) (rv_tp h) (rv_sp h) (rv_csr h).
Definition set_pc (pc : Z) (h : rv) : rv := Rv (rv_mode h) pc (rv_tp h) (rv_sp h) (rv_csr h).
Definition set_tp (v : Z) (h : rv) : rv := Rv (rv_mode h) (rv_pc h) v (rv_sp h) (rv_csr h).
Definition set_csr (r : csr) (v : Z) (h : rv) : rv := Rv (rv_mode h) (rv_pc h) (rv_tp h) (rv_sp h) (<[r := v]> (rv_csr h)).

Definition H : Type → Type := M rv.

(** The interrupt codes of supervisor mode, and their bits. *)
Definition code_soft : Z := 1.
Definition code_timer : Z := 5.
Definition code_ext : Z := 9.

(** ** Fields *)

(** The bits of mstatus that the hart itself uses. *)
Definition bit_SIE : Z := 1.
Definition bit_MIE : Z := 3.
Definition bit_SPIE : Z := 5.
Definition bit_MPIE : Z := 7.
Definition bit_SPP : Z := 8.

(** Assigning a bit, and clearing a mask. *)
Definition putbit (n : Z) (v : bool) (x : Z) : Z := if v then Z.setbit x n else Z.clearbit x n.
Definition clear (b x : Z) : Z := Z.land x (Z.lnot b).

(** What a hart implements of the delegation registers: at least the three
    supervisor interrupts, and the exceptions that usertrap() handles. *)
Class Hardware := {
  hw_mideleg : Z;
  hw_medeleg : Z;
  hw_intrs c : c ∈ [code_soft; code_timer; code_ext] → Z.testbit hw_mideleg c = true;
  hw_excs c : c ∈ [8; 12; 13; 15] → Z.testbit hw_medeleg c = true
}.

(** The bits of mstatus that sstatus shows (of those the kernel uses). *)
Definition sstatus_bits : Z := Z.lor SSTATUS_SPP (Z.lor SSTATUS_SPIE SSTATUS_SIE).

Section csrs.
Context `{Hardware}.

(** The lowest mode that may name a register. *)
Definition csr_mode (r : csr) : mode :=
  match r with
  | mhartid | mstatus | mepc | medeleg | mideleg | mie | menvcfg | mcounteren | pmpcfg0 | pmpaddr0 => MMode
  | sstatus | sie | sip | stvec | sepc | scause | stval | satp | stimecmp => SMode
  | time => UMode
  end.

(** Below machine mode, mcounteren.TM opens time, and together with
    menvcfg.STCE stimecmp. *)
Definition accessible (r : csr) (h : rv) : bool :=
  (level (csr_mode r) <=? level (rv_mode h)) &&
  match r with
  | time => bool_decide (rv_mode h = MMode) || Z.testbit (rv_csr h mcounteren) 1
  | stimecmp => bool_decide (rv_mode h = MMode) || (Z.testbit (rv_csr h mcounteren) 1 && Z.testbit (rv_csr h menvcfg) 63)
  | _ => true
  end.

(** The timer interrupt is pending from the moment time reaches stimecmp. *)
Definition timer_pending (h : rv) : bool := Z.testbit (rv_csr h menvcfg) 63 && (rv_csr h stimecmp <=? rv_csr h time).

Definition csr_value (r : csr) (h : rv) : Z :=
  match r with
  | sstatus => Z.land (rv_csr h mstatus) sstatus_bits
  | sie => Z.land (rv_csr h mie) (rv_csr h mideleg)
  | sip => Z.land (putbit code_timer (timer_pending h) (rv_csr h sip)) (rv_csr h mideleg)
  | _ => rv_csr h r
  end.
Definition csr_update (r : csr) (x : Z) (h : rv) : rv :=
  match r with
  | sstatus => set_csr mstatus (Z.lor (clear sstatus_bits (rv_csr h mstatus)) (Z.land x sstatus_bits)) h
  | sie => set_csr mie (Z.lor (clear (rv_csr h mideleg) (rv_csr h mie)) (Z.land x (rv_csr h mideleg))) h
  | mideleg => set_csr mideleg (Z.land x hw_mideleg) h
  | medeleg => set_csr medeleg (Z.land x hw_medeleg) h
  | mhartid | time => h
  | r => set_csr r x h
  end.

(** csrr and csrw *)
Definition csrr (r : csr) : H Z := h ← get; if accessible r h then ret (csr_value r h) else panic "illegal instruction".
Definition csrw (r : csr) (x : Z) : H unit := h ← get; if accessible r h then modify (csr_update r x) else panic "illegal instruction".

(** ** The accessors of riscv.h *)

Definition r_mhartid : H Z := csrr mhartid.
Definition r_mstatus : H Z := csrr mstatus.
Definition w_mstatus (x : Z) : H unit := csrw mstatus x.
Definition w_mepc (x : Z) : H unit := csrw mepc x.
Definition r_sstatus : H Z := csrr sstatus.
Definition w_sstatus (x : Z) : H unit := csrw sstatus x.
Definition r_sip : H Z := csrr sip.
Definition w_sip (x : Z) : H unit := csrw sip x.
Definition r_sie : H Z := csrr sie.
Definition w_sie (x : Z) : H unit := csrw sie x.
Definition r_mie : H Z := csrr mie.
Definition w_mie (x : Z) : H unit := csrw mie x.
Definition w_sepc (x : Z) : H unit := csrw sepc x.
Definition r_sepc : H Z := csrr sepc.
Definition r_medeleg : H Z := csrr medeleg.
Definition w_medeleg (x : Z) : H unit := csrw medeleg x.
Definition r_mideleg : H Z := csrr mideleg.
Definition w_mideleg (x : Z) : H unit := csrw mideleg x.
Definition w_stvec (x : Z) : H unit := csrw stvec x.
Definition r_stvec : H Z := csrr stvec.
Definition r_stimecmp : H Z := csrr stimecmp.
Definition w_stimecmp (x : Z) : H unit := csrw stimecmp x.
Definition r_menvcfg : H Z := csrr menvcfg.
Definition w_menvcfg (x : Z) : H unit := csrw menvcfg x.
Definition w_pmpcfg0 (x : Z) : H unit := csrw pmpcfg0 x.
Definition w_pmpaddr0 (x : Z) : H unit := csrw pmpaddr0 x.
Definition w_satp (x : Z) : H unit := csrw satp x.
Definition r_satp : H Z := csrr satp.
Definition r_scause : H Z := csrr scause.
Definition r_stval : H Z := csrr stval.
Definition w_mcounteren (x : Z) : H unit := csrw mcounteren x.
Definition r_mcounteren : H Z := csrr mcounteren.
Definition r_time : H Z := csrr time.
Definition r_sp : H Z := gets rv_sp.
Definition r_tp : H Z := gets rv_tp.
Definition w_tp (x : Z) : H unit := modify (set_tp x).

Definition intr_on : H unit := x ← r_sstatus; w_sstatus (Z.lor x SSTATUS_SIE).
Definition intr_off : H unit := x ← r_sstatus; w_sstatus (Z.land x (Z.lnot SSTATUS_SIE)).
Definition intr_get : H bool := x ← r_sstatus; ret (tst x SSTATUS_SIE).

(** ** Returning from and taking traps *)

(** mret: to the mode in MPP, at mepc, with MIE from MPIE; MPIE is set and MPP
    becomes user mode. *)
Definition mret : H unit :=
  h ← get;
  if bool_decide (rv_mode h = MMode) then
    let x := rv_csr h mstatus in
    modify (λ h, set_mode (mode_of (Z.land (Z.shiftr x 11) 3)) (set_pc (rv_csr h mepc)
      (set_csr mstatus (clear MSTATUS_MPP_MASK (putbit bit_MPIE true (putbit bit_MIE (Z.testbit x bit_MPIE) x))) h)))
  else panic "illegal instruction".

(** sret: to the mode in SPP, at sepc, with SIE from SPIE. *)
Definition sret : H unit :=
  h ← get;
  if level SMode <=? level (rv_mode h) then
    let x := rv_csr h mstatus in
    modify (λ h, set_mode (if Z.testbit x bit_SPP then SMode else UMode) (set_pc (rv_csr h sepc)
      (set_csr mstatus (putbit bit_SPP false (putbit bit_SPIE true (putbit bit_SIE (Z.testbit x bit_SPIE) x))) h)))
  else panic "illegal instruction".

(** A trap with this code goes to supervisor mode. *)
Definition delegated (intr : bool) (code : Z) (h : rv) : bool :=
  negb (bool_decide (rv_mode h = MMode)) && Z.testbit (rv_csr h (if intr then mideleg else medeleg)) code.

(** A pending interrupt is taken: always in user mode, with SIE set in
    supervisor mode, if it is enabled. *)
Definition interruptible (code : Z) (h : rv) : bool :=
  delegated true code h && Z.testbit (rv_csr h mie) code &&
  (bool_decide (rv_mode h = UMode) || Z.testbit (rv_csr h mstatus) bit_SIE).

(** Entering the handler of supervisor mode. *)
Definition trap_entry (intr : bool) (code tval : Z) (h : rv) : rv :=
  let x := rv_csr h mstatus in
  set_mode SMode (set_pc (rv_csr h stvec)
    (set_csr scause (if intr then 2 ^ 63 + code else code) (set_csr stval tval (set_csr sepc (rv_pc h)
    (set_csr mstatus (putbit bit_SPP (bool_decide (rv_mode h = SMode)) (putbit bit_SIE false (putbit bit_SPIE (Z.testbit x bit_SIE) x))) h))))).
End csrs.

(** ** Bits *)

Lemma testbit_putbit n v x m : 0 ≤ n → Z.testbit (putbit n v x) m = if m =? n then v else Z.testbit x m.
Proof.
  intros Hn. rewrite /putbit (Z.eqb_sym m n). destruct v.
  - by rewrite Z.setbit_eqb.
  - rewrite Z.clearbit_eqb. destruct (n =? m); [by rewrite andb_false_r|by rewrite andb_true_r].
Qed.
Lemma tst_shiftl x n : 0 ≤ n → tst x (Z.shiftl 1 n) = Z.testbit x n.
Proof. intros Hn. rewrite Z.shiftl_1_l. by apply tst_bit. Qed.
Lemma testbit_clear_mask b x n : 0 ≤ n → Z.testbit (clear b x) n = Z.testbit x n && negb (Z.testbit b n).
Proof. intros Hn. by rewrite /clear Z.land_spec Z.lnot_spec. Qed.
Lemma testbit_assign b x y n : 0 ≤ n → Z.testbit (Z.lor (clear b x) (Z.land y b)) n = if Z.testbit b n then Z.testbit y n else Z.testbit x n.
Proof.
  intros Hn. rewrite Z.lor_spec testbit_clear_mask // Z.land_spec. destruct (Z.testbit b n);
    by rewrite ?andb_true_r ?andb_false_r ?orb_false_r.
Qed.

(** The MPP field after start() has set it. *)
Lemma mpp_set x : Z.land (Z.shiftr (Z.lor (Z.land x (Z.lnot MSTATUS_MPP_MASK)) MSTATUS_MPP_S) 11) 3 = 1.
Proof.
  apply Z.bits_inj'. intros n Hn. rewrite Z.land_spec Z.shiftr_spec // Z.lor_spec Z.land_spec Z.lnot_spec; [lia|].
  destruct (Z.leb_spec 2 n).
  { rewrite (testbit_high 3 2); [lia..|]. rewrite (testbit_high 1 1); [lia..|]. apply andb_false_r. }
  assert (n = 0 ∨ n = 1) as [-> | ->] by lia.
  - change (Z.testbit MSTATUS_MPP_S (0 + 11)) with true. by rewrite orb_true_r.
  - change (Z.testbit MSTATUS_MPP_S (1 + 11)) with false. change (Z.testbit MSTATUS_MPP_MASK (1 + 11)) with true.
    by rewrite andb_false_r.
Qed.

Section csr_facts.
Context `{Hardware}.

Lemma wp_csrr r Q h : accessible r h = true → Q (csr_value r h) h → wp (csrr r) Q h.
Proof. intros Ha HQ. rewrite /csrr. apply wp_bind, wp_get. rewrite Ha. by apply wp_ret. Qed.
Lemma wp_csrw r x Q h : accessible r h = true → Q tt (csr_update r x h) → wp (csrw r x) Q h.
Proof. intros Ha HQ. rewrite /csrw. apply wp_bind, wp_get. rewrite Ha. by apply wp_modify. Qed.

Lemma rv_csr_set r r' v h : rv_csr (set_csr r v h) r' = if decide (r = r') then v else rv_csr h r'.
Proof. reflexivity. Qed.

(** *** Traps and their return *)

Lemma trap_entry_mstatus intr code tval h : rv_csr (trap_entry intr code tval h) mstatus =
  putbit bit_SPP (bool_decide (rv_mode h = SMode)) (putbit bit_SIE false
    (putbit bit_SPIE (Z.testbit (rv_csr h mstatus) bit_SIE) (rv_csr h mstatus))).
Proof. reflexivity. Qed.

(** What the handler finds in sstatus: where the trap came from, and
    interrupts off. *)
Lemma trap_entry_sstatus intr code tval h (x := csr_value sstatus (trap_entry intr code tval h)) :
  tst x SSTATUS_SPP = bool_decide (rv_mode h = SMode) ∧ tst x SSTATUS_SIE = false.
Proof.
  unfold x, csr_value. rewrite trap_entry_mstatus !tst_shiftl // !Z.land_spec !testbit_putbit //.
  change (Z.testbit sstatus_bits 8) with true. by rewrite andb_true_r.
Qed.

(** kerneltrap() restores sepc and sstatus before it returns, whatever happened in
    between: the sret goes back to where the trap came from. *)
Definition kernelvec_return (sepc_ sstatus_ : Z) : H unit := w_sepc sepc_;; w_sstatus sstatus_;; sret.

Lemma trap_return intr code tval h h' (e := trap_entry intr code tval h) :
  rv_mode h ≠ MMode → rv_mode h' = SMode →
  wp (kernelvec_return (csr_value sepc e) (csr_value sstatus e)) (λ _ h'',
    rv_mode h'' = rv_mode h ∧ rv_pc h'' = rv_pc h ∧
    Z.testbit (rv_csr h'' mstatus) bit_SIE = Z.testbit (rv_csr h mstatus) bit_SIE ∧
    (∀ r, r ≠ sepc → r ≠ mstatus → rv_csr h'' r = rv_csr h' r) ∧ rv_tp h'' = rv_tp h') h'.
Proof.
  intros Hm Hm'. rewrite /kernelvec_return. apply wp_bind, wp_csrw; [by rewrite /accessible Hm'|].
  apply wp_bind, wp_csrw; [by rewrite /accessible /= Hm'|]. rewrite /sret. apply wp_bind, wp_get. cbn [csr_update set_csr rv_mode].
  rewrite Hm'. change (level SMode <=? level SMode) with true. cbn match. apply wp_modify.
  rewrite !rv_csr_set. cbn [set_mode set_pc set_csr rv_mode rv_pc rv_csr rv_tp]. rewrite (decide_True_pi (P := mstatus = mstatus)) //.
  split; [|split; [|split; [|split]]].
  - rewrite testbit_assign // /csr_value Z.land_spec. change (Z.testbit sstatus_bits bit_SPP) with true. cbn match.
    rewrite /e trap_entry_mstatus testbit_putbit // Z.eqb_refl andb_true_r.
    destruct (rv_mode h); [by rewrite bool_decide_eq_false_2|by rewrite bool_decide_eq_true_2|done].
  - reflexivity.
  - rewrite !testbit_putbit //. change (bit_SIE =? bit_SPP) with false. change (bit_SIE =? bit_SPIE) with false.
    change (bit_SIE =? bit_SIE) with true. cbn match. rewrite testbit_assign // /csr_value Z.land_spec. change (Z.testbit sstatus_bits bit_SPIE) with true. cbn match.
    rewrite /e trap_entry_mstatus !testbit_putbit //. change (bit_SPIE =? bit_SPP) with false. change (bit_SPIE =? bit_SIE) with false.
    change (bit_SPIE =? bit_SPIE) with true. apply andb_true_r.
  - intros r H1 H2. rewrite !fn_lookup_insert_ne //; congruence.
  - reflexivity.
Qed.
End csr_facts.
