(* ===== verification/Boot.v ===== *)
(** Leaving machine mode: kernel/start.c; the timer, and what the registers are
    when kerneltrap() and usertrapret() of kernel/trap.c run. *)
From stdpp Require Import functions.
From S2P Require Import Prelude Riscv Mem State Sched Walk Mm Machine Proc Trap Csr.

Lemma bind_ok {S A C} (c : M S A) (k : A → M S C) s r s' : bind c k s = Ok r s' → ∃ a s1, c s = Ok a s1 ∧ k a s1 = Ok r s'.
Proof. rewrite /bind. destruct (c s) as [a s1| | |] eqn:E; [|done..]. intros Ek. by exists a, s1. Qed.

(** ** start() *)

Section start.
Context `{Hardware}.
(** The address of main(). *)
Variable main_addr : Z.

(** w_stimecmp(r_time() + 1000000), in timerinit() and clockintr() *)
Definition ask_timer : Csr.H unit := t ← r_time; w_stimecmp (u64 (t + 1000000)).

Definition timerinit : Csr.H unit :=
  x ← r_mie; w_mie (Z.lor x MIE_STIE);;
  x ← r_menvcfg; w_menvcfg (Z.lor x (Z.shiftl 1 63));;
  x ← r_mcounteren; w_mcounteren (Z.lor x 2);;
  ask_timer.

Definition start : Csr.H unit :=
  x ← r_mstatus;
  let x := Z.land x (Z.lnot MSTATUS_MPP_MASK) in
  let x := Z.lor x MSTATUS_MPP_S in
  w_mstatus x;;
  w_mepc main_addr;;
  w_satp 0;;
  w_medeleg 65535;;
  w_mideleg 65535;;
  x ← r_sie; w_sie (Z.lor (Z.lor (Z.lor x SIE_SEIE) SIE_STIE) SIE_SSIE);;
  w_pmpaddr0 18014398509481983;;
  w_pmpcfg0 15;;
  timerinit;;
  id ← r_mhartid;
  w_tp (u64 (s32 id));;
  mret.

(** Machine mode has handed everything over: the interrupts of supervisor mode
    are delegated and enabled, the exceptions of user mode delegated, the timer
    registers open, and all of memory is accessible. *)
Record handed_over (h : rv) : Prop := {
  ho_intr c : c ∈ [code_soft; code_timer; code_ext] → Z.testbit (rv_csr h mideleg) c = true ∧ Z.testbit (rv_csr h mie) c = true;
  ho_exc c : c ∈ [8; 12; 13; 15] → Z.testbit (rv_csr h medeleg) c = true;
  ho_timer : Z.testbit (rv_csr h mcounteren) 1 = true ∧ Z.testbit (rv_csr h menvcfg) 63 = true;
  ho_pmp : rv_csr h pmpaddr0 = 2 ^ 54 - 1 ∧ rv_csr h pmpcfg0 = 15
}.

Lemma land_full_bit c m : 0 ≤ c < 16 → Z.testbit m c = true → Z.testbit (Z.land 65535 m) c = true.
Proof.
  intros Hc Hm. rewrite Z.land_spec Hm andb_true_r. change 65535 with (Z.ones 16). apply Z.ones_spec_low. lia.
Qed.

Ltac csr_step :=
  match goal with
  | |- wp (bind _ _) _ _ => apply wp_bind
  | |- wp (csrr _) _ _ => apply wp_csrr; [reflexivity|]
  | |- wp (csrw _ _) _ _ => apply wp_csrw; [reflexivity|]
  | |- wp (modify _) _ _ => apply wp_modify
  end.

Lemma start_spec h : rv_mode h = MMode → 0 ≤ rv_csr h mhartid < 2 ^ 31 →
  wp start (λ _ h', handed_over h' ∧ rv_mode h' = SMode ∧ rv_pc h' = main_addr ∧ rv_tp h' = rv_csr h mhartid ∧
    rv_csr h' satp = 0 ∧ rv_csr h' stimecmp = u64 (rv_csr h time + 1000000) ∧
    Z.testbit (rv_csr h' mstatus) bit_SIE = Z.testbit (rv_csr h mstatus) bit_SIE) h.
Proof.
  intros Hm Hid. destruct h as [md pc tp sp c]. cbn [rv_mode rv_csr] in Hm, Hid |- *. subst md.
  rewrite /start /timerinit /ask_timer /r_mstatus /w_mstatus /w_mepc /w_satp /w_medeleg /w_mideleg /r_sie /w_sie /w_pmpaddr0 /w_pmpcfg0
    /r_mie /w_mie /r_menvcfg /w_menvcfg /r_mcounteren /w_mcounteren /r_time /w_stimecmp /r_mhartid /w_tp.
  repeat csr_step. rewrite /mret. repeat csr_step. apply wp_get.
  rewrite bool_decide_eq_true_2; [reflexivity|]. cbn match. apply wp_modify. set (h' := set_mode _ _).
  set (D := Z.land 65535 hw_mideleg). set (x := Z.lor (Z.land (c mstatus) (Z.lnot MSTATUS_MPP_MASK)) MSTATUS_MPP_S).
  assert (rv_csr h' mideleg = D) as Edel by reflexivity.
  assert (rv_csr h' mie = Z.lor (Z.lor (clear D (c mie)) (Z.land (Z.lor (Z.lor (Z.lor (Z.land (c mie) D) SIE_SEIE) SIE_STIE) SIE_SSIE) D)) MIE_STIE) as Emie by reflexivity.
  assert (rv_csr h' medeleg = Z.land 65535 hw_medeleg) as Eexc by reflexivity.
  assert (rv_csr h' mcounteren = Z.lor (c mcounteren) 2 ∧ rv_csr h' menvcfg = Z.lor (c menvcfg) (Z.shiftl 1 63)) as [Ecnt Eenv] by (split; reflexivity).
  assert (rv_csr h' mstatus = clear MSTATUS_MPP_MASK (putbit bit_MPIE true (putbit bit_MIE (Z.testbit x bit_MPIE) x))) as Est by reflexivity.
  split; [split|].
  - intros c0 Hc. assert (0 ≤ c0 < 16) as Hr by (rewrite !elem_of_cons elem_of_nil in Hc; unfold code_soft, code_timer, code_ext in Hc; lia).
    pose proof (land_full_bit c0 hw_mideleg Hr (hw_intrs c0 Hc)) as HD. fold D in HD. rewrite Edel. split; [done|].
    rewrite Emie Z.lor_spec testbit_assign; [lia|]. rewrite HD !Z.lor_spec.
    rewrite !elem_of_cons elem_of_nil in Hc. destruct Hc as [-> |[-> |[-> |[]]]];
      [change (Z.testbit SIE_SSIE code_soft) with true|change (Z.testbit SIE_STIE code_timer) with true|change (Z.testbit SIE_SEIE code_ext) with true];
      by rewrite ?orb_true_r.
  - intros c0 Hc. rewrite Eexc. apply land_full_bit; [rewrite !elem_of_cons elem_of_nil in Hc; lia|by apply hw_excs].
  - rewrite Ecnt Eenv !Z.lor_spec. change (Z.testbit 2 1) with true. change (Z.testbit (Z.shiftl 1 63) 63) with true. by rewrite !orb_true_r.
  - split; reflexivity.
  - split; [|split; [reflexivity|split; [|split; [reflexivity|split; [reflexivity|]]]]].
    + change (rv_mode h') with (mode_of (Z.land (Z.shiftr x 11) 3)). rewrite /x mpp_set. reflexivity.
    + change (rv_tp h') with (u64 (s32 (c mhartid))). rewrite s32_id; [lia|]. apply u64_id. lia.
    + rewrite Est testbit_clear_mask // !testbit_putbit //. change (bit_SIE =? bit_MPIE) with false. change (bit_SIE =? bit_MIE) with false. cbn match.
      change (Z.testbit MSTATUS_MPP_MASK bit_SIE) with false. rewrite andb_true_r /x Z.lor_spec Z.land_spec Z.lnot_spec //.
      change (Z.testbit MSTATUS_MPP_MASK bit_SIE) with false. change (Z.testbit MSTATUS_MPP_S bit_SIE) with false.
      by rewrite andb_true_r orb_false_r.
Qed.

(** ** The timer *)

(** While a process runs in user mode, its registers and the time change, and
    the kernel has set up the return to it. *)
Record user_run (h h' : rv) : Prop := {
  us_mode : rv_mode h' = UMode;
  us_csr r : r ∉ [time; mstatus; sepc; stvec; satp; scause; stval] → rv_csr h' r = rv_csr h r
}.
Lemma ask_timer_spec h : handed_over h → rv_mode h = SMode →
  wp ask_timer (λ _ h', h' = set_csr stimecmp (u64 (rv_csr h time + 1000000)) h) h.
Proof.
  intros [_ _ [T1 T2] _] Hm. rewrite /ask_timer. apply wp_bind, wp_csrr; [by rewrite /accessible Hm T1|].
  apply wp_csrw; [by rewrite /accessible Hm T1 T2|]. done.
Qed.
Lemma user_csrw r x h : rv_mode h = UMode → csrw r x h = Panic "illegal instruction" ∨ csrw r x h = Ok tt h.
Proof.
  intros Hm. rewrite /csrw /bind /get /accessible Hm. destruct r; auto. cbn. destruct (_ : bool); auto.
Qed.


(** ** Returning from traps *)

(** What kerneltrap() and usertrap() read; [irq] is what the interrupt
    controller answers. *)
Definition regs_of (irq : Z) (e : rv) : hart :=
  Hart (csr_value scause e) (csr_value stval e) (csr_value sepc e) (csr_value sstatus e) (csr_value satp e) (s32 (rv_tp e)) irq.


End start.

(** ** A hart after start() *)

#[global] Instance small_hardware : Hardware.
Proof. refine {| hw_mideleg := 546; hw_medeleg := 46079 |}; intros c; rewrite !elem_of_cons elem_of_nil; intuition (subst; reflexivity). Defined.
Definition reset_hart (h : nat) : rv := Rv MMode KERNBASE 0 0 (λ r, match r with mhartid => Z.of_nat h | _ => 0 end).
Definition started_hart (h : nat) : rv := match start KERNBASE (reset_hart h) with Ok _ r => r | _ => reset_hart h end.
Lemma started_ok h : (h < 8)%nat → start KERNBASE (reset_hart h) = Ok tt (started_hart h) ∧
  rv_pc (started_hart h) = KERNBASE ∧ rv_tp (started_hart h) = Z.of_nat h ∧ rv_mode (started_hart h) = SMode ∧
  handed_over (started_hart h).
Proof.
  intros Hh. destruct (start_spec KERNBASE (reset_hart h)) as ([] & r & E & Ho & Hs & Hpc & Htp & _); [done|cbn; lia|].
  rewrite /started_hart E. done.
Qed.


(** A timer interrupt in the kernel on hart 1, which runs no process. *)
Local Notation interrupted := (trap_entry true code_timer 0 (started_hart 1)).

