(* ===== verification/Plic.v ===== *)
(** The interrupt controller: kernel/plic.c.

    The device follows the PLIC specification: an interrupt source that is
    raised becomes pending unless it is being served; a hart that reads its claim
    register gets the pending source of highest priority among those enabled for
    it above its threshold, which is then served until the hart writes it back.
    The registers are at the addresses of memlayout.h. *)
From stdpp Require Import functions.
From S2P Require Import Prelude Riscv.

(** ** The device *)

(** Registers of the S-mode context of each hart. *)
Inductive plic_reg := Priority (irq : Z) | Enable (hart : Z) | Threshold (hart : Z) | Claim (hart : Z).

(** The offsets of the register map. *)
Definition plic_decode (a : Z) : option plic_reg :=
  let o := a - PLIC in
  if (0 <? o) && (o <? 4096) && (o mod 4 =? 0) then Some (Priority (o / 4)) else
  if (8320 <=? o) && (o <? 2097152) && ((o - 8320) mod 256 =? 0) then Some (Enable ((o - 8320) / 256)) else
  if (2101248 <=? o) && ((o - 2101248) mod 8192 =? 0) then Some (Threshold ((o - 2101248) / 8192)) else
  if (2101248 <=? o) && ((o - 2101248) mod 8192 =? 4) then Some (Claim ((o - 2101248) / 8192)) else None.

(** [pl_pending] and [pl_served] are the sources that wait for a claim and for
    their completion. *)
Record plic := Plic {
  pl_prio : Z → Z; pl_enable : Z → Z; pl_thresh : Z → Z; pl_pending : gset Z; pl_served : gset Z
}.
Definition set_prio (irq v : Z) (p : plic) : plic := Plic (<[irq := v]> (pl_prio p)) (pl_enable p) (pl_thresh p) (pl_pending p) (pl_served p).
Definition set_enable (h v : Z) (p : plic) : plic := Plic (pl_prio p) (<[h := v]> (pl_enable p)) (pl_thresh p) (pl_pending p) (pl_served p).
Definition set_thresh (h v : Z) (p : plic) : plic := Plic (pl_prio p) (pl_enable p) (<[h := v]> (pl_thresh p)) (pl_pending p) (pl_served p).
Definition set_sources (pend served : gset Z) (p : plic) : plic := Plic (pl_prio p) (pl_enable p) (pl_thresh p) pend served.

(** Sources 1 to 31 have their enable bits in the first word. *)
Definition eligible (p : plic) (h irq : Z) : bool :=
  bool_decide (irq ∈ pl_pending p) && Z.testbit (pl_enable p h) irq && (pl_thresh p h <? pl_prio p irq).
(** The first source of highest priority. *)
Fixpoint best (p : plic) (h : Z) (irqs : list Z) : option Z :=
  match irqs with
  | [] => None
  | i :: l =>
      match best p h l with
      | Some j => if eligible p h i && (pl_prio p j <=? pl_prio p i) then Some i else Some j
      | None => if eligible p h i then Some i else None
      end
  end.

(** A device raises its interrupt line. *)
Definition plic_raise (irq : Z) (p : plic) : plic :=
  if decide (irq ∈ pl_served p) then p else set_sources ({[irq]} ∪ pl_pending p) (pl_served p) p.

Definition P : Type → Type := M plic.

(** Loads and stores of 32 bits at the device. *)
Definition plic_load (a : Z) : P Z :=
  p ← get;
  match plic_decode a with
  | Some (Priority irq) => ret (pl_prio p irq)
  | Some (Enable h) => ret (pl_enable p h)
  | Some (Threshold h) => ret (pl_thresh p h)
  | Some (Claim h) =>
      match best p h (seqZ 1 31) with
      | Some irq => modify (λ p, set_sources (pl_pending p ∖ {[irq]}) ({[irq]} ∪ pl_served p) p);; ret irq
      | None => ret 0
      end
  | None => ret 0
  end.
Definition plic_store (a v : Z) : P unit :=
  let v := u32 v in
  match plic_decode a with
  | Some (Priority irq) => modify (set_prio irq v)
  | Some (Enable h) => modify (set_enable h v)
  | Some (Threshold h) => modify (set_thresh h v)
  | Some (Claim h) => modify (λ p, set_sources (pl_pending p) (pl_served p ∖ {[v]}) p)
  | None => ret tt
  end.

(** ** The driver *)

Definition PLIC_SENABLE (hart : Z) : Z := PLIC + 8320 + hart * 256.
Definition PLIC_SPRIORITY (hart : Z) : Z := PLIC + 2101248 + hart * 8192.
Definition PLIC_SCLAIM (hart : Z) : Z := PLIC + 2101252 + hart * 8192.

Definition plicinit : P unit :=
  plic_store (PLIC + UART0_IRQ * 4) 1;;
  plic_store (PLIC + VIRTIO0_IRQ * 4) 1.

(** The argument of the next three is what cpuid() returns. *)
Definition plicinithart (hart : Z) : P unit :=
  plic_store (PLIC_SENABLE hart) (Z.lor (Z.shiftl 1 UART0_IRQ) (Z.shiftl 1 VIRTIO0_IRQ));;
  plic_store (PLIC_SPRIORITY hart) 0.

Definition plic_claim (hart : Z) : P Z :=
  irq ← plic_load (PLIC_SCLAIM hart);
  ret (s32 irq).
Definition plic_complete (hart irq : Z) : P unit := plic_store (PLIC_SCLAIM hart) irq.

(** ** What claims return *)

(** The hart takes the interrupts of the two devices. *)
Definition listening (p : plic) (h : Z) : Prop :=
  pl_prio p UART0_IRQ = 1 ∧ pl_prio p VIRTIO0_IRQ = 1 ∧ pl_thresh p h = 0 ∧
  pl_enable p h = Z.lor (Z.shiftl 1 UART0_IRQ) (Z.shiftl 1 VIRTIO0_IRQ).

Lemma decode_hart h : 0 ≤ h < 8 →
  plic_decode (PLIC_SENABLE h) = Some (Enable h) ∧ plic_decode (PLIC_SPRIORITY h) = Some (Threshold h) ∧
  plic_decode (PLIC_SCLAIM h) = Some (Claim h).
Proof.
  intros Hh. assert (h = 0 ∨ h = 1 ∨ h = 2 ∨ h = 3 ∨ h = 4 ∨ h = 5 ∨ h = 6 ∨ h = 7) as E by lia.
  destruct E as [E|[E|[E|[E|[E|[E|[E|E]]]]]]]; rewrite E; by vm_compute.
Qed.

Lemma plicinit_spec p : wp plicinit (λ _ p', p' = set_prio VIRTIO0_IRQ 1 (set_prio UART0_IRQ 1 p)) p.
Proof. apply wp_bind, wp_modify, wp_modify. done. Qed.
Lemma plicinithart_spec p h : 0 ≤ h < 8 →
  wp (plicinithart h) (λ _ p', p' = set_thresh h 0 (set_enable h (Z.lor (Z.shiftl 1 UART0_IRQ) (Z.shiftl 1 VIRTIO0_IRQ)) p)) p.
Proof.
  intros Hh. destruct (decode_hart h Hh) as (E1 & E2 & _). rewrite /plicinithart /plic_store E1 E2.
  apply wp_bind, wp_modify, wp_modify. done.
Qed.

Definition device_irq (irq : Z) : Prop := irq = UART0_IRQ ∨ irq = VIRTIO0_IRQ.

Lemma eligible_listening p h irq : listening p h → eligible p h irq = true ↔ irq ∈ pl_pending p ∧ device_irq irq.
Proof.
  intros (E1 & E2 & E3 & E4). rewrite /eligible /device_irq E3 E4 !andb_true_iff bool_decide_eq_true Z.lor_spec !Z.shiftl_1_l !Z.pow2_bits_eqb //.
  rewrite orb_true_iff !Z.eqb_eq. split; [intuition|]. intros [Hp [-> | ->]]; rewrite ?E1 ?E2; auto.
Qed.
Lemma best_spec p h l : match best p h l with
  | Some i => i ∈ l ∧ eligible p h i = true
  | None => ∀ i, i ∈ l → eligible p h i = false
  end.
Proof.
  induction l as [|i l IH]; cbn [best]; [by intros i ?%elem_of_nil|]. destruct (best p h l) as [j|].
  - destruct IH as [Hj Ej]. destruct (eligible p h i) eqn:E; cbn [andb]; [|by split; [apply elem_of_cons; right|]].
    destruct (pl_prio p j <=? pl_prio p i); [split; [left|exact E]|split; [by right|exact Ej]].
  - destruct (eligible p h i) eqn:E; [split; [left|done]|]. intros j [->|Hj]%elem_of_cons; auto.
Qed.

(** A claim returns a device's interrupt that is pending, and only when there is
    none 0. *)
Lemma plic_claim_spec p h : listening p h → 0 ≤ h < 8 →
  wp (plic_claim h) (λ r p',
    (r = 0 ∧ p' = p ∧ ∀ irq, device_irq irq → irq ∉ pl_pending p) ∨
    (device_irq r ∧ r ∈ pl_pending p ∧ p' = set_sources (pl_pending p ∖ {[r]}) ({[r]} ∪ pl_served p) p)) p.
Proof.
  intros Hl Hh. destruct (decode_hart h Hh) as (_ & _ & E). rewrite /plic_claim /plic_load E.
  apply wp_bind, wp_bind, wp_get. pose proof (best_spec p h (seqZ 1 31)) as Hb. destruct (best p h (seqZ 1 31)) as [irq|].
  - destruct Hb as [_ [Hp Hd]%(eligible_listening p h irq Hl)]. apply wp_bind, wp_modify, wp_ret, wp_ret. right.
    assert (s32 irq = irq) as -> by (destruct Hd as [-> | ->]; reflexivity). done.
  - apply wp_ret, wp_ret. left. split; [done|]. split; [done|]. intros irq Hd Hp.
    assert (eligible p h irq = true) as Ht by (apply (eligible_listening p h irq Hl); by split).
    rewrite Hb in Ht; [|done]. apply elem_of_seqZ. destruct Hd as [-> | ->]; unfold UART0_IRQ, VIRTIO0_IRQ; lia.
Qed.

(** ** Devices and harts interleaved *)

(** The controller and the interrupts that harts are serving: [(h, irq)] from
    plic_claim() to plic_complete() in devintr(). *)
Record pworld := PWorld { pw_plic : plic; pw_serving : list (Z * Z) }.

Inductive pstep : pworld → pworld → Prop :=
| pstep_raise irq p l : pstep (PWorld p l) (PWorld (plic_raise irq p) l)
| pstep_claim h p l irq p' : 0 ≤ h < 8 → plic_claim h p = Ok irq p' → irq ≠ 0 → pstep (PWorld p l) (PWorld p' ((h, irq) :: l))
| pstep_idle h p l p' : 0 ≤ h < 8 → plic_claim h p = Ok 0 p' → pstep (PWorld p l) (PWorld p' l)
| pstep_complete h irq p l1 l2 p' : 0 ≤ h < 8 → plic_complete h irq p = Ok tt p' →
    pstep (PWorld p (l1 ++ (h, irq) :: l2)) (PWorld p' (l1 ++ l2)).

Record pw_inv (w : pworld) : Prop := {
  pi_listen h : 0 ≤ h < 8 → listening (pw_plic w) h;
  pi_disj : pl_pending (pw_plic w) ## pl_served (pw_plic w);
  pi_served irq : irq ∈ pl_served (pw_plic w) ↔ irq ∈ (pw_serving w).*2;
  pi_nodup : NoDup (pw_serving w).*2;
  pi_dev irq : irq ∈ (pw_serving w).*2 → device_irq irq
}.

Lemma listening_sources p q r h : listening p h → listening (set_sources q r p) h.
Proof. done. Qed.

Lemma claim_ok p h irq p' : listening p h → 0 ≤ h < 8 → plic_claim h p = Ok irq p' →
  (irq = 0 ∧ p' = p ∧ ∀ irq, device_irq irq → irq ∉ pl_pending p) ∨
  (device_irq irq ∧ irq ∈ pl_pending p ∧ p' = set_sources (pl_pending p ∖ {[irq]}) ({[irq]} ∪ pl_served p) p).
Proof. intros Hl Hh E. destruct (plic_claim_spec p h Hl Hh) as (r & q & E' & HQ). rewrite E' in E. by injection E as -> ->. Qed.

Lemma pstep_inv w w' : pw_inv w → pstep w w' → pw_inv w'.
Proof.
  intros [I1 I2 I3 I4 I5] Hs. destruct Hs as [irq p l|h p l irq p' Hh E Hne|h p l p' Hh E|h irq p l1 l2 p' Hh E]; cbn in *.
  - rewrite /plic_raise. case_decide; [by split|]. split; cbn; [done|set_solver|done|done|done].
  - destruct (claim_ok p h irq p' (I1 h Hh) Hh E) as [[-> _]|(Hd & Hp & ->)]; [done|]. split; cbn; [done|set_solver|set_solver| |].
    + constructor; [|done]. rewrite -I3. set_solver.
    + intros i [->|Hi]%elem_of_cons; auto.
  - destruct (claim_ok p h 0 p' (I1 h Hh) Hh E) as [(_ & -> & _)|([Hd|Hd] & _)]; [by split|done..].
  - destruct (decode_hart h Hh) as (_ & _ & Ed). rewrite /plic_complete /plic_store Ed /modify in E. injection E as <-.
    rewrite fmap_app fmap_cons in I3, I4, I5. cbn in I3, I4, I5.
    assert (u32 irq = irq) as Eu by (destruct (I5 irq) as [-> | ->]; [set_solver|reflexivity..]). rewrite Eu.
    apply NoDup_app in I4 as (N1 & N2 & N3). apply NoDup_cons in N3 as [N3 N4].
    split; cbn; rewrite ?fmap_app; [done|set_solver| | |].
    + intros i. rewrite elem_of_difference I3 !elem_of_app elem_of_cons elem_of_singleton. split; [naive_solver|].
      intros Hi. split; [naive_solver|]. intros ->. destruct Hi as [Hi|Hi]; [|done]. apply (N2 irq Hi). left.
    + apply NoDup_app. split; [done|]. split; [|done]. intros i Hi Hi2. apply (N2 i Hi). by right.
    + intros i Hi. apply I5. set_solver.
Qed.

(** What main() does to the controller, on all harts. *)
Definition plic_setup : P unit := plicinit;; forM (seqZ 0 8) plicinithart.

Lemma plic_setup_spec q :
  wp plic_setup (λ _ p, pl_pending p = pl_pending q ∧ pl_served p = pl_served q ∧ ∀ h, 0 ≤ h < 8 → listening p h) q.
Proof.
  apply wp_bind. wp_use (plicinit_spec q). intros [] p ->.
  eapply wp_mono; [apply (wp_forM _ _ (λ l p, pl_pending p = pl_pending q ∧ pl_served p = pl_served q ∧
    pl_prio p UART0_IRQ = 1 ∧ pl_prio p VIRTIO0_IRQ = 1 ∧ ∀ h, h ∈ l → listening p h))|].
  - split_and!; [done..|]. by intros h ?%elem_of_nil.
  - intros l1 h l2 p Hl (P1 & P2 & P3 & P4 & P5).
    assert (0 ≤ h < 8) as Hh by (assert (h ∈ seqZ 0 8) as Hin%elem_of_seqZ by (rewrite Hl; set_solver); lia).
    wp_use (plicinithart_spec p h Hh). intros [] p' ->. split_and!; [done..|]. intros k Hk. rewrite /listening. cbn [set_thresh set_enable pl_prio pl_enable pl_thresh].
    rewrite P3 P4. destruct (decide (k = h)) as [->|Hn]; [by rewrite !fn_lookup_insert|]. rewrite !fn_lookup_insert_ne; [congruence..|].
    apply elem_of_app in Hk as [Hk|Hk%list_elem_of_singleton]; [|done]. destruct (P5 k Hk) as (_ & _ & F1 & F2). by rewrite F1 F2.
  - intros [] p (P1 & P2 & _ & _ & P5). split_and!; [done..|]. intros h Hh. apply P5, elem_of_seqZ. lia.
Qed.


(** Both devices have raised their interrupts and hart 0 has claimed the first. *)
Definition plic_reset : plic := Plic (λ _, 0) (λ _, 0) (λ _, 0) ∅ ∅.
Definition plic_ready : plic := match plic_setup plic_reset with Ok _ p => p | _ => plic_reset end.
Definition plic_raised : plic := plic_raise UART0_IRQ (plic_raise VIRTIO0_IRQ plic_ready).
Definition plic_busy : plic := match plic_claim 0 plic_raised with Ok _ p => p | _ => plic_raised end.

