(* ===== verification/Main.v ===== *)
(** main() of kernel/main.c and what only it calls: uartinit(), consoleinit(),
    printfinit(), trapinit(), trapinithart(), kvminithart(), cpuid().

    All harts run main() at the same time; the calls of different harts
    interleave.  Hart 0 initialises the kernel while the others wait. *)
From stdpp Require Import functions.
From S2P Require Import Prelude Riscv Mem State Sched Bio Walk Swap Kalloc Vm Log Fs Printf Console File Proc Virtio Csr Boot Plic.

(** ** The serial line *)

(** The registers of the 16550; with the latch bit of LCR set, registers 0
    and 1 are the divisor. *)
Record uregs := URegs { ur_ier : Z; ur_fcr : Z; ur_lcr : Z; ur_dll : Z; ur_dlm : Z; ur_sent : list Z }.
Definition IER : Z := 1.
Definition FCR : Z := 2.
Definition LCR : Z := 3.
Definition IER_RX_ENABLE : Z := Z.shiftl 1 0.
Definition IER_TX_ENABLE : Z := Z.shiftl 1 1.
Definition FCR_FIFO_ENABLE : Z := Z.shiftl 1 0.
Definition FCR_FIFO_CLEAR : Z := Z.shiftl 3 1.
Definition LCR_EIGHT_BITS : Z := Z.shiftl 3 0.
Definition LCR_BAUD_LATCH : Z := Z.shiftl 1 7.

Definition WriteReg (reg v : Z) : M uregs unit :=
  modify (λ u,
    let latch := tst (ur_lcr u) LCR_BAUD_LATCH in
    if reg =? 0 then
      if latch then URegs (ur_ier u) (ur_fcr u) (ur_lcr u) v (ur_dlm u) (ur_sent u)
      else URegs (ur_ier u) (ur_fcr u) (ur_lcr u) (ur_dll u) (ur_dlm u) (ur_sent u ++ [v])
    else if reg =? IER then
      if latch then URegs (ur_ier u) (ur_fcr u) (ur_lcr u) (ur_dll u) v (ur_sent u)
      else URegs v (ur_fcr u) (ur_lcr u) (ur_dll u) (ur_dlm u) (ur_sent u)
    else if reg =? FCR then URegs (ur_ier u) v (ur_lcr u) (ur_dll u) (ur_dlm u) (ur_sent u)
    else if reg =? LCR then URegs (ur_ier u) (ur_fcr u) v (ur_dll u) (ur_dlm u) (ur_sent u)
    else u).

(** initlock() leaves a lock free, which uart_tx_lock is in the state before
    start-up too. *)
Definition uartinit : M uregs unit :=
  WriteReg IER 0;;
  WriteReg LCR LCR_BAUD_LATCH;;
  WriteReg 0 3;;
  WriteReg 1 0;;
  WriteReg LCR LCR_EIGHT_BITS;;
  WriteReg FCR (Z.lor FCR_FIFO_ENABLE FCR_FIFO_CLEAR);;
  WriteReg IER (Z.lor IER_TX_ENABLE IER_RX_ENABLE).

(** Eight bits, 38400 baud, interrupts on; nothing is sent meanwhile, if the
    latch was off before. *)
Lemma uartinit_spec u : tst (ur_lcr u) LCR_BAUD_LATCH = false →
  wp uartinit (λ _ u', u' = URegs 3 7 3 3 0 (ur_sent u)) u.
Proof.
  destruct u as [ier fcr lcr dll dlm sent]. cbn [ur_lcr ur_sent]. intros Hl. apply wp_bind.
  apply (wp_eq _ _ _ tt (URegs 0 fcr lcr dll dlm sent)); [by rewrite /WriteReg /modify /= Hl|].
  eapply wp_eq; [vm_compute; reflexivity|done].
Qed.

(** ** The machine at start-up *)

(** The calls in main(). *)
Inductive icall :=
| Consoleinit | Printfinit | Banner | Kinit | Kvminit | Kvminithart | Procinit | Trapinit | Trapinithart
| Plicinit | Plicinithart | Binit | Iinit | Fileinit | Virtio_disk_init | Userinit | Set_started
| Wait_started | Announce | Scheduler.

#[global] Instance icall_eq_dec : EqDecision icall.
Proof. solve_decision. Defined.

(** [m_todo] is what a hart has left of main(), [None] before it gets there;
    [m_console] is devsw[CONSOLE], [m_pgtbl] kernel_pagetable. *)
Record machine_state := MState {
  m_harts : nat → rv; m_todo : nat → option (list icall); m_plic : plic; m_uart : uregs; m_k : kstate; m_disk : istate;
  m_console : bool; m_locking : bool; m_pgtbl : Z; m_started : bool
}.
Definition put_hart (h : nat) (r : rv) (m : machine_state) : machine_state :=
  MState (<[h := r]> (m_harts m)) (m_todo m) (m_plic m) (m_uart m) (m_k m) (m_disk m) (m_console m) (m_locking m) (m_pgtbl m) (m_started m).
Definition put_todo (h : nat) (l : option (list icall)) (m : machine_state) : machine_state :=
  MState (m_harts m) (<[h := l]> (m_todo m)) (m_plic m) (m_uart m) (m_k m) (m_disk m) (m_console m) (m_locking m) (m_pgtbl m) (m_started m).
Definition put_plic (p : plic) (m : machine_state) : machine_state :=
  MState (m_harts m) (m_todo m) p (m_uart m) (m_k m) (m_disk m) (m_console m) (m_locking m) (m_pgtbl m) (m_started m).
Definition put_uart (u : uregs) (m : machine_state) : machine_state :=
  MState (m_harts m) (m_todo m) (m_plic m) u (m_k m) (m_disk m) (m_console m) (m_locking m) (m_pgtbl m) (m_started m).
Definition put_k (k : kstate) (m : machine_state) : machine_state :=
  MState (m_harts m) (m_todo m) (m_plic m) (m_uart m) k (m_disk m) (m_console m) (m_locking m) (m_pgtbl m) (m_started m).
Definition put_disk (d : istate) (m : machine_state) : machine_state :=
  MState (m_harts m) (m_todo m) (m_plic m) (m_uart m) (m_k m) d (m_console m) (m_locking m) (m_pgtbl m) (m_started m).
Definition put_flags (console locking : bool) (pgtbl : Z) (started : bool) (m : machine_state) : machine_state :=
  MState (m_harts m) (m_todo m) (m_plic m) (m_uart m) (m_k m) (m_disk m) console locking pgtbl started.

Definition B : Type → Type := M machine_state.

(** A part of the machine runs. *)
Definition zoom {T A} (get_ : machine_state → T) (put_ : T → machine_state → machine_state) (c : M T A) : B A := λ m,
  match c (get_ m) with
  | Ok a t => Ok a (put_ t m)
  | Panic msg => Panic msg
  | Block t => Block (put_ t m)
  | NoFuel => NoFuel
  end.
Definition on_hart {A} (h : nat) : H A → B A := zoom (λ m, m_harts m h) (put_hart h).
Definition on_plic {A} : P A → B A := zoom m_plic put_plic.
Definition on_uart {A} : M uregs A → B A := zoom m_uart put_uart.
Definition on_k {A} : K A → B A := zoom m_k put_k.
Definition on_disk {A} : I A → B A := zoom m_disk put_disk.

Section main.
Context `{Hardware} `{Image}.
(** The addresses of main(), forkret() and kernelvec, and what the disk's
    registers read. *)
Variables (main_addr forkret_addr kernelvec : Z) (rd : mmio → Z → Z).

Definition cpuid : H Z := x ← r_tp; ret (s32 x).

(** initlock(&cons.lock); uartinit(); devsw[CONSOLE] *)
Definition consoleinit : B unit :=
  on_uart uartinit;;
  modify (λ m, put_flags true (m_locking m) (m_pgtbl m) (m_started m) m).
Definition printfinit : B unit := modify (λ m, put_flags (m_console m) true (m_pgtbl m) (m_started m) m).
(** initlock(&tickslock) *)
Definition trapinit : B unit := ret tt.
Definition trapinithart : H unit := w_stvec kernelvec.
(** sfence_vma() orders the page-table writes before; the model has no TLB. *)
Definition kvminithart_hart (kernel_pagetable : Z) : H unit := w_satp (kvminithart kernel_pagetable).
(** initlock(&ftable.lock) *)
Definition fileinit : B unit := ret tt.

Definition run_call (h : nat) (c : icall) : B unit :=
  match c with
  | Consoleinit => consoleinit
  | Printfinit => printfinit
  | Banner => on_k (cprintf [NL] [];; cprintf (str "xv6 kernel is booting" ++ [NL]) [];; cprintf [NL] [])
  | Kinit => on_k kinit
  | Kvminit => pt ← on_k kvminit; modify (λ m, put_flags (m_console m) (m_locking m) pt (m_started m) m)
  | Kvminithart => pt ← gets m_pgtbl; on_hart h (kvminithart_hart pt)
  | Procinit => on_k procinit
  | Trapinit => trapinit
  | Trapinithart => on_hart h trapinithart
  | Plicinit => on_plic plicinit
  | Plicinithart => id ← on_hart h cpuid; on_plic (plicinithart id)
  | Binit => on_k binit
  | Iinit => on_k iinit
  | Fileinit => fileinit
  | Virtio_disk_init =>
      desc ← on_k kalloc; avail ← on_k kalloc; used ← on_k kalloc;
      on_disk (virtio_disk_init rd desc avail used)
  | Userinit => on_k (userinit forkret_addr)
  | Set_started => modify (λ m, put_flags (m_console m) (m_locking m) (m_pgtbl m) true m)
  | Wait_started => ret tt
  | Announce => id ← on_hart h cpuid; on_k (cprintf (str "hart %d starting" ++ [NL]) [VNum id])
  | Scheduler => ret tt
  end.

(** The two arms of main(), by cpuid(). *)
Definition main0 : list icall :=
  [Consoleinit; Printfinit; Banner; Kinit; Kvminit; Kvminithart; Procinit; Trapinit; Trapinithart; Plicinit; Plicinithart;
   Binit; Iinit; Fileinit; Virtio_disk_init; Userinit; Set_started; Scheduler].
Definition main1 : list icall := [Wait_started; Announce; Kvminithart; Trapinithart; Plicinithart; Scheduler].
Definition main (id : Z) : list icall := if id =? 0 then main0 else main1.

Definition NCPU : nat := 8.

(** A hart leaves start(), or makes the next call of main(); the loop
    while(started == 0) goes on until it is set. *)
Inductive bstep : machine_state → machine_state → Prop :=
| bstep_start h m r : (h < NCPU)%nat → m_todo m h = None → start main_addr (m_harts m h) = Ok tt r → rv_pc r = main_addr →
    bstep m (put_todo h (Some (main (s32 (rv_tp r)))) (put_hart h r m))
| bstep_call h m c l m' : (h < NCPU)%nat → m_todo m h = Some (c :: l) → l ≠ [] → (c = Wait_started → m_started m = true) →
    run_call h c m = Ok tt m' → bstep m (put_todo h (Some l) m').

(** ** What the calls do *)

#[local] Opaque uartinit plicinit plicinithart virtio_disk_init.
#[local] Strategy expand [run_call].

Lemma zoom_ok {T A} g p (c : M T A) m a m' : zoom g p c m = Ok a m' → ∃ t, c (g m) = Ok a t ∧ m' = p t m.
Proof. rewrite /zoom. destruct (c (g m)) as [b t| | |] eqn:E; [|done..]. intros [= -> <-]. by exists t. Qed.

Definition listen_bits : Z := Z.lor (Z.shiftl 1 UART0_IRQ) (Z.shiftl 1 VIRTIO0_IRQ).

(** What a call does to the registers of its hart and to the interrupt
    controller. *)
Definition hart_after (c : icall) (pgtbl : Z) (r : rv) : rv :=
  match c with
  | Kvminithart => set_csr satp (kvminithart pgtbl) r
  | Trapinithart => set_csr stvec kernelvec r
  | _ => r
  end.
Definition plic_after (c : icall) (h : nat) (p : plic) : plic :=
  match c with
  | Plicinit => set_prio VIRTIO0_IRQ 1 (set_prio UART0_IRQ 1 p)
  | Plicinithart => set_thresh (Z.of_nat h) 0 (set_enable (Z.of_nat h) listen_bits p)
  | _ => p
  end.
Record effect (h : nat) (c : icall) (m m' : machine_state) : Prop := {
  ef_hart : m_harts m' h = hart_after c (m_pgtbl m) (m_harts m h);
  ef_others k : k ≠ h → m_harts m' k = m_harts m k;
  ef_todo : m_todo m' = m_todo m;
  ef_plic : m_plic m' = plic_after c h (m_plic m);
  ef_started : m_started m' = match c with Set_started => true | _ => m_started m end;
  ef_pgtbl : c ≠ Kvminit → m_pgtbl m' = m_pgtbl m
}.

(** Calls that leave all of this alone. *)
Definition unseen (m m' : machine_state) : Prop :=
  m_harts m' = m_harts m ∧ m_todo m' = m_todo m ∧ m_plic m' = m_plic m ∧ m_started m' = m_started m ∧ m_pgtbl m' = m_pgtbl m.
Lemma unseen_effect h c m m' : hart_after c (m_pgtbl m) (m_harts m h) = m_harts m h → plic_after c h (m_plic m) = m_plic m →
  c ≠ Set_started → unseen m m' → effect h c m m'.
Proof. intros E1 E2 Hc (U1 & U2 & U3 & U4 & U5). split; rewrite ?U1 ?U2 ?U3 ?U4 ?E1 ?E2 //. by destruct c. Qed.
Lemma on_k_unseen {A} (c : K A) m a m' : on_k c m = Ok a m' → unseen m m'.
Proof. intros (t & _ & ->)%zoom_ok. done. Qed.
Lemma unseen_trans m1 m2 m3 : unseen m1 m2 → unseen m2 m3 → unseen m1 m3.
Proof. intros (U1 & U2 & U3 & U4 & U5) (V1 & V2 & V3 & V4 & V5). repeat split; congruence. Qed.

Lemma consoleinit_unseen m m' : consoleinit m = Ok tt m' → unseen m m'.
Proof.
  rewrite /consoleinit. intros ([] & m1 & E1 & E)%bind_ok. apply (zoom_ok m_uart put_uart uartinit) in E1 as (t & _ & ->).
  by injection E as <-.
Qed.

Lemma cpuid_ok h m a m' : on_hart h cpuid m = Ok a m' → 
  a = s32 (rv_tp (m_harts m h)) ∧ m' = put_hart h (m_harts m h) m.
Proof. intros (t & E & ->)%zoom_ok. rewrite /cpuid /bind /r_tp /gets /ret in E. by injection E as <- <-. Qed.

Lemma put_hart_same h m k : m_harts (put_hart h (m_harts m h) m) k = m_harts m k.
Proof. cbn. destruct (decide (k = h)) as [->|Hn]; [by rewrite fn_lookup_insert|rewrite fn_lookup_insert_ne //; congruence]. Qed.

Lemma hart_write r x h m m' : accessible r (m_harts m h) = true → on_hart h (csrw r x) m = Ok tt m' →
  m' = put_hart h (csr_update r x (m_harts m h)) m.
Proof.
  intros Ha (t & E & ->)%zoom_ok. rewrite /csrw /bind /get Ha /modify in E. by injection E as <-.
Qed.

Lemma run_call_effect h c m m' : (h < NCPU)%nat → rv_mode (m_harts m h) = SMode → rv_tp (m_harts m h) = Z.of_nat h →
  run_call h c m = Ok tt m' → effect h c m m'.
Proof.
  intros Hh Hm Htp E. assert (s32 (Z.of_nat h) = Z.of_nat h) as Es by (apply s32_id; unfold NCPU in Hh; lia).
  destruct c; lazymatch goal with
    | |- effect _ Kvminit _ _ => idtac | |- effect _ Announce _ _ => idtac
    | |- _ => try (apply unseen_effect; [done|done|done|]) end; cbn [run_call] in E; try (by apply (on_k_unseen _ _ _ _ E)).
  - by apply consoleinit_unseen.
  - by injection E as <-.
  - apply bind_ok in E as (pt & m1 & E1 & E). apply on_k_unseen in E1 as (U1 & U2 & U3 & U4 & _). injection E as <-.
    split; cbn; rewrite ?U1 ?U2 ?U3 ?U4 //.
  - apply bind_ok in E as (pt & m1 & E1 & E). injection E1 as <- <-. apply hart_write in E; [|by rewrite /accessible Hm]. subst m'.
    split; cbn; [by rewrite fn_lookup_insert|intros k Hk; rewrite fn_lookup_insert_ne //; congruence|done..].
  - by injection E as <-.
  - apply hart_write in E; [|by rewrite /accessible Hm]. subst m'.
    split; cbn; [by rewrite fn_lookup_insert|intros k Hk; rewrite fn_lookup_insert_ne //; congruence|done..].
  - apply (zoom_ok m_plic put_plic plicinit) in E as (t & E & ->). destruct (plicinit_spec (m_plic m)) as ([] & p & Ep & Hp). rewrite Ep in E. injection E as <-.
    by split; cbn.
  - apply bind_ok in E as (id & m1 & (-> & ->)%cpuid_ok & E). rewrite Htp Es in E.
    apply (zoom_ok m_plic put_plic (plicinithart (Z.of_nat h))) in E as (t & E & ->).
    destruct (plicinithart_spec (m_plic m) (Z.of_nat h)) as ([] & p & Ep & Hp); [unfold NCPU in Hh; lia|].
    cbn [m_plic put_hart] in E. rewrite Ep in E. injection E as <-.
    split; cbn [put_plic m_harts m_todo m_plic m_started m_pgtbl]; [apply put_hart_same|intros k _; apply put_hart_same|done|done|done|done].
  - by injection E as <-.
  - apply bind_ok in E as (d & m1 & E1%on_k_unseen & E). apply bind_ok in E as (av & m2 & E2%on_k_unseen & E).
    apply bind_ok in E as (us & m3 & E3%on_k_unseen & E).
    apply (zoom_ok m_disk put_disk (virtio_disk_init rd d av us)) in E as (t & _ & ->).
    exact (unseen_trans _ _ _ (unseen_trans _ _ _ E1 E2) E3).
  - injection E as <-. by split; cbn.
  - by injection E as <-.
  - apply bind_ok in E as (id & m1 & (-> & ->)%cpuid_ok & E). apply on_k_unseen in E as (U1 & U2 & U3 & U4 & U5).
    split; cbn [hart_after plic_after]; rewrite ?U2 ?U3 ?U4 ?U5 ?U1; [apply put_hart_same|intros k _; apply put_hart_same|done|done|done|done].
  - by injection E as <-.
Qed.

(** ** The invariant of start-up *)

(** [dn] are the calls hart [h] has made. *)
Record hart_ok (m : machine_state) (h : nat) (dn : list icall) : Prop := {
  hk_mode : rv_mode (m_harts m h) = SMode;
  hk_handed : handed_over (m_harts m h);
  hk_tp : rv_tp (m_harts m h) = Z.of_nat h;
  hk_satp : Kvminithart ∈ dn → rv_csr (m_harts m h) satp = kvminithart (m_pgtbl m);
  hk_stvec : Trapinithart ∈ dn → rv_csr (m_harts m h) stvec = kernelvec;
  hk_plic : Plicinithart ∈ dn → pl_thresh (m_plic m) (Z.of_nat h) = 0 ∧ pl_enable (m_plic m) (Z.of_nat h) = listen_bits;
  hk_prio : Plicinit ∈ dn → pl_prio (m_plic m) UART0_IRQ = 1 ∧ pl_prio (m_plic m) VIRTIO0_IRQ = 1
}.
Record boot_inv (m : machine_state) : Prop := {
  bi_machine h : (h < NCPU)%nat → m_todo m h = None → rv_mode (m_harts m h) = MMode ∧ rv_csr (m_harts m h) mhartid = Z.of_nat h;
  bi_main h l : (h < NCPU)%nat → m_todo m h = Some l → ∃ dn, main (Z.of_nat h) = dn ++ l ∧ hart_ok m h dn;
  bi_started : m_started m = true → m_todo m 0%nat = Some [Scheduler];
  bi_wait h : (0 < h < NCPU)%nat → m_started m = false → m_todo m h = None ∨ m_todo m h = Some main1
}.

Lemma main_nat h : main (Z.of_nat h) = match h with O => main0 | S _ => main1 end.
Proof. by destruct h. Qed.

(** A call and what comes before and after it, by its position. *)
Lemma list_split (c : icall) dn l full : full = dn ++ c :: l →
  full !! length dn = Some c ∧ dn = take (length dn) full ∧ l = drop (S (length dn)) full.
Proof.
  intros ->. split_and!; [by apply list_lookup_middle|by rewrite take_app_length|].
  rewrite (_ : dn ++ c :: l = (dn ++ [c]) ++ l); [by rewrite -app_assoc|]. by rewrite drop_app_length' // length_app Nat.add_1_r.
Qed.
Ltac positions n := repeat (destruct n as [|n]; cbn [lookup list_lookup] in *; try discriminate).

Lemma before_kvminit dn l h : main (Z.of_nat h) = dn ++ Kvminit :: l → h = 0%nat ∧ Kvminithart ∉ dn.
Proof.
  rewrite main_nat. intros (E & Ed & _)%list_split. revert E Ed. generalize (length dn). intros n E ->. destruct h; positions n.
  split; [done|]. set_solver.
Qed.
Lemma at_started dn l h : main (Z.of_nat h) = dn ++ Set_started :: l → h = 0%nat ∧ l = [Scheduler].
Proof. rewrite main_nat. intros (E & _ & El)%list_split. revert E El. generalize (length dn). intros n E ->. destruct h; by positions n. Qed.
Lemma at_plicinit dn l h : main (Z.of_nat h) = dn ++ Plicinit :: l → h = 0%nat.
Proof. rewrite main_nat. intros (E & _ & _)%list_split. revert E. generalize (length dn). intros n E. destruct h; by positions n. Qed.

Lemma handed_over_set r v m h : r ∈ [satp; stvec] → handed_over (m_harts m h) → handed_over (set_csr r v (m_harts m h)).
Proof.
  intros Hr [A1 A2 A3 A4]. rewrite !elem_of_cons elem_of_nil in Hr. destruct Hr as [->|[->|[]]]; by split.
Qed.

(** The hart that makes a call. *)
Lemma hart_ok_call m m' h c dn : (h < NCPU)%nat → hart_ok m h dn → effect h c m m' → (c = Kvminit → Kvminithart ∉ dn) →
  hart_ok m' h (dn ++ [c]).
Proof.
  intros Hh [K1 K2 K3 K4 K5 K6 K7] [E1 E2 E3 E4 E5 E6] Hk.
  split; rewrite ?E1 ?E4.
  - by destruct c.
  - destruct c; try done; apply handed_over_set; set_solver.
  - by destruct c.
  - intros Hin. destruct (decide (c = Kvminithart)) as [->|Hn]; [by rewrite E6|].
    assert (Kvminithart ∈ dn) as Hd by set_solver. assert (c ≠ Kvminit) as Hc by naive_solver. rewrite E6 // -(K4 Hd). by destruct c.
  - intros Hin. destruct (decide (c = Trapinithart)) as [->|Hn]; [done|].
    assert (Trapinithart ∈ dn) as Hd by set_solver. rewrite -(K5 Hd). by destruct c.
  - intros Hin. destruct (decide (c = Plicinithart)) as [->|Hn]; [by cbn; rewrite !fn_lookup_insert|].
    assert (Plicinithart ∈ dn) as Hd by set_solver. rewrite -(proj1 (K6 Hd)) -(proj2 (K6 Hd)). by destruct c.
  - intros Hin. destruct (decide (c = Plicinit)) as [->|Hn]; [done|].
    assert (Plicinit ∈ dn) as Hd by set_solver. destruct (K7 Hd). by destruct c.
Qed.
(** The other harts. *)
Lemma hart_ok_other m m' h c k dn : (h < NCPU)%nat → (k < NCPU)%nat → k ≠ h → hart_ok m k dn → effect h c m m' →
  (c = Kvminit → Kvminithart ∉ dn) → hart_ok m' k dn.
Proof.
  intros Hh Hk Hne [K1 K2 K3 K4 K5 K6 K7] [E1 E2 E3 E4 E5 E6] Hc. pose proof (E2 k Hne) as Ek. split; rewrite ?Ek ?E4; try done.
  - intros Hin. rewrite E6; [naive_solver|]. auto.
  - intros Hin. destruct (K6 Hin). destruct c; try done. cbn. rewrite !fn_lookup_insert_ne //; lia.
  - intros Hin. destruct (K7 Hin). by destruct c.
Qed.

Lemma boot_start_inv m h r : boot_inv m → (h < NCPU)%nat → m_todo m h = None → start main_addr (m_harts m h) = Ok tt r →
  boot_inv (put_todo h (Some (main (s32 (rv_tp r)))) (put_hart h r m)).
Proof.
  intros [I1 I2 I3 I4] Hh Ht E. destruct (I1 h Hh Ht) as [Hm Hid].
  destruct (start_spec main_addr (m_harts m h) Hm) as ([] & r' & E' & Ho & Hs & _ & Htp & _); [rewrite Hid; unfold NCPU in Hh; lia|].
  rewrite E' in E. injection E as ->. rewrite Hid in Htp. rewrite Htp s32_id; [unfold NCPU in Hh; lia|].
  assert (∀ k x, x = m_todo (put_todo h (Some (main (Z.of_nat h))) (put_hart h r m)) k → k ≠ h → x = m_todo m k) as Hother.
  { intros k x -> Hk. cbn. rewrite fn_lookup_insert_ne //. congruence. }
  assert (∀ k, k ≠ h → m_harts (put_todo h (Some (main (Z.of_nat h))) (put_hart h r m)) k = m_harts m k) as Hrv.
  { intros k Hk. cbn. rewrite fn_lookup_insert_ne //. congruence. }
  split.
  - intros k Hk Ek. destruct (decide (k = h)) as [->|Hn]; [cbn in Ek; by rewrite fn_lookup_insert in Ek|].
    rewrite Hrv //. apply I1; [done|]. symmetry. by apply Hother.
  - intros k l Hk Ek. destruct (decide (k = h)) as [->|Hn].
    + cbn in Ek. rewrite fn_lookup_insert in Ek. injection Ek as <-. exists []. split; [done|].
      split; cbn; rewrite ?fn_lookup_insert; try done; by intros ?%elem_of_nil.
    + symmetry in Ek. apply Hother in Ek; [|done]. symmetry in Ek. destruct (I2 k l Hk Ek) as (dn & E1 & K). exists dn. split; [done|].
      destruct K as [K1 K2 K3 K4 K5 K6 K7]. split; rewrite ?Hrv //.
  - intros Hst. cbn in Hst. pose proof (I3 Hst) as H0'. destruct (decide (h = 0%nat)) as [->|Hn]; [congruence|].
    cbn. rewrite fn_lookup_insert_ne //.
  - intros k Hk Hst. cbn in Hst |- *. destruct (decide (k = h)) as [->|Hn].
    + right. rewrite fn_lookup_insert main_nat. destruct h; [lia|done].
    + rewrite fn_lookup_insert_ne; [congruence|]. by apply I4.
Qed.

Lemma boot_call_inv m m' h c l : boot_inv m → (h < NCPU)%nat → m_todo m h = Some (c :: l) → l ≠ [] → (c = Wait_started → m_started m = true) →
  run_call h c m = Ok tt m' → boot_inv (put_todo h (Some l) m').
Proof.
  intros [I1 I2 I3 I4] Hh Ht Hl Hw E. destruct (I2 h (c :: l) Hh Ht) as (dn & Em & K).
  pose proof (run_call_effect h c m m' Hh (hk_mode _ _ _ K) (hk_tp _ _ _ K) E) as Ef.
  assert (h ≠ 0%nat → m_started m = true) as Hst.
  { intros Hn. destruct (m_started m) eqn:Est; [done|]. destruct (I4 h ltac:(lia) eq_refl) as [E1|E1]; rewrite E1 in Ht; [done|].
    injection Ht as <- _. by apply Hw. }
  pose proof Ef as [E1 E2 E3 E4 E5 E6].
  assert (∀ k, k ≠ h → m_todo (put_todo h (Some l) m') k = m_todo m k) as Hother.
  { intros k Hk. cbn. rewrite fn_lookup_insert_ne; [congruence|]. by rewrite E3. }
  assert (∀ k dn l', c = Kvminit → m_todo m k = Some l' → main (Z.of_nat k) = dn ++ l' → (k < NCPU)%nat → k ≠ h → Kvminithart ∉ dn) as Hkv.
  { intros k dnk l' -> Ek Emk Hk Hne. destruct (before_kvminit _ _ _ Em) as [-> _].
    destruct (m_started m) eqn:Est; [rewrite (I3 eq_refl) in Ht; by injection Ht|].
    destruct (I4 k ltac:(lia) eq_refl) as [E0|E0]; rewrite E0 in Ek; [done|]. injection Ek as <-.
    rewrite main_nat in Emk. destruct k; [done|]. rewrite -{1}(app_nil_l main1) in Emk. apply app_inv_tail in Emk as <-. set_solver. }
  split.
  - intros k Hk Ek. destruct (decide (k = h)) as [->|Hn]; [cbn in Ek; by rewrite fn_lookup_insert in Ek|].
    rewrite Hother // in Ek. change (m_harts (put_todo h (Some l) m')) with (m_harts m'). rewrite E2 //. by apply I1.
  - intros k l' Hk Ek. destruct (decide (k = h)) as [->|Hn].
    + cbn in Ek. rewrite fn_lookup_insert in Ek. injection Ek as <-. exists (dn ++ [c]). split; [by rewrite -app_assoc|].
      assert (hart_ok m' h (dn ++ [c])) as [K1 K2 K3 K4 K5 K6 K7]; [|by split].
      apply (hart_ok_call m); [done|done|done|]. intros ->. by apply (before_kvminit dn l h).
    + rewrite Hother // in Ek. destruct (I2 k l' Hk Ek) as (dnk & Emk & Kk). exists dnk. split; [done|].
      assert (hart_ok m' k dnk) as [K1 K2 K3 K4 K5 K6 K7]; [|by split].
      apply (hart_ok_other m m' h c); [done|done|done|done|done|]. intros Ec. by apply (Hkv k dnk l').
  - intros Hs. change (m_started m' = true) in Hs. rewrite E5 in Hs.
    destruct (decide (c = Set_started)) as [->|Hn].
    + destruct (at_started _ _ _ Em) as [-> ->]. cbn. by rewrite fn_lookup_insert.
    + assert (m_started m = true) as Hs' by (by destruct c). pose proof (I3 Hs') as H0'.
      destruct (decide (h = 0%nat)) as [->|Hh0]; [rewrite H0' in Ht; by injection Ht as <- <-|]. rewrite Hother; [congruence|done].
  - intros k Hk Hs. change (m_started m' = false) in Hs. rewrite E5 in Hs.
    assert (m_started m = false) as Hs' by (by destruct c). destruct (decide (k = h)) as [->|Hn].
    + rewrite Hst // in Hs'. lia.
    + rewrite Hother //. by apply I4.
Qed.

(** The harts come out of reset in machine mode, and nothing is set up. *)
Definition reset (m : machine_state) : Prop :=
  m_started m = false ∧ ∀ h, (h < NCPU)%nat →
    m_todo m h = None ∧ rv_mode (m_harts m h) = MMode ∧ rv_csr (m_harts m h) mhartid = Z.of_nat h.

Lemma boot_reachable m0 m : reset m0 → rtc bstep m0 m → boot_inv m.
Proof.
  intros [Hs Hr] Hst. assert (boot_inv m0) as I.
  { split.
    - intros h Hh _. by apply Hr.
    - intros h l Hh E. destruct (Hr h Hh) as [E0 _]. congruence.
    - congruence.
    - intros h Hh _. left. apply Hr. lia. }
  clear Hs Hr. induction Hst as [|m1 m2 m3 Hs _ IH]; [done|]. apply IH. destruct Hs; [by apply boot_start_inv|by apply (boot_call_inv m m' h c)].
Qed.

(** C18: Whatever the interleaving of the harts at start-up, a hart that gets to
    scheduler() runs in supervisor mode with its number in tp, everything
    delegated, the kernel's page table installed, its trap vector set and the
    interrupts of both devices enabled; and by then hart 0 has made every call of
    its part of main().  Until hart 0 has set [started], no other hart goes past
    the waiting loop. *)
Theorem boot_ready m0 m h : reset m0 → rtc bstep m0 m → (h < NCPU)%nat →
  (m_todo m h = Some [Scheduler] →
     rv_mode (m_harts m h) = SMode ∧ rv_tp (m_harts m h) = Z.of_nat h ∧ handed_over (m_harts m h) ∧
     rv_csr (m_harts m h) satp = MAKE_SATP (m_pgtbl m) ∧ rv_csr (m_harts m h) stvec = kernelvec ∧
     listening (m_plic m) (Z.of_nat h) ∧ m_todo m 0%nat = Some [Scheduler]) ∧
  (h ≠ 0%nat → m_todo m 0%nat ≠ Some [Scheduler] → m_todo m h = None ∨ m_todo m h = Some main1).
Proof.
  intros Hr Hst Hh. destruct (boot_reachable m0 m Hr Hst) as [I1 I2 I3 I4]. split.
  - intros Ht. assert (m_todo m 0%nat = Some [Scheduler]) as H0'.
    { destruct h as [|h]; [done|]. destruct (m_started m) eqn:Es; [by apply I3|].
      destruct (I4 (S h) ltac:(lia) eq_refl) as [E|E]; rewrite E in Ht; done. }
    destruct (I2 0%nat _ ltac:(unfold NCPU; lia) H0') as (dn0 & E0 & K0).
    assert (Plicinit ∈ dn0) as Hp.
    { rewrite main_nat in E0. change main0 with (take 17 main0 ++ [Scheduler]) in E0. apply app_inv_tail in E0 as <-.
      by apply (bool_decide_unpack _). }
    destruct (I2 h _ Hh Ht) as (dn & E & [K1 K2 K3 K4 K5 K6 _]).
    assert (Kvminithart ∈ dn ∧ Trapinithart ∈ dn ∧ Plicinithart ∈ dn) as (Hd1 & Hd2 & Hd3).
    { rewrite main_nat in E. destruct h.
      - change main0 with (take 17 main0 ++ [Scheduler]) in E. apply app_inv_tail in E as <-. by split_and!; apply (bool_decide_unpack _).
      - change main1 with (take 5 main1 ++ [Scheduler]) in E. apply app_inv_tail in E as <-. by split_and!; apply (bool_decide_unpack _). }
    destruct (K6 Hd3) as [P1 P2]. destruct (hk_prio _ _ _ K0 Hp) as [P3 P4]. split_and!; auto. by repeat split.
  - intros Hn H0'. apply I4; [lia|]. destruct (m_started m); [|done]. by destruct (H0' (I3 eq_refl)).
Qed.
End main.

(** ** The first steps of two harts *)

#[local] Instance boot_image : Image.
Proof.
  refine {| img_etext := KERNBASE + 2 * PGSIZE; img_end := PHYSTOP - 6 * PGSIZE; img_trampoline := KERNBASE + PGSIZE |};
    try (vm_compute; reflexivity); try (vm_compute; intuition congruence).
Defined.

Definition reset_disk : vdisk := VDisk ∅ 0 ∅ 0 ∅ ∅ 0 ∅ ∅ None ∅ ∅ false ∅ 0 [] false false.
Definition reset_machine : machine_state :=
  MState reset_hart (λ _, None) plic_reset (URegs 0 0 0 0 0 []) kstate0 (IState [] reset_disk) false false 0 false.
Definition started1 (h : nat) (m : machine_state) : machine_state :=
  put_todo h (Some (main (s32 (rv_tp (started_hart h))))) (put_hart h (started_hart h) m).
Definition two_started : machine_state := started1 1 (started1 0 reset_machine).
(** Hart 0 has initialised the console; hart 1 waits. *)
Definition early_machine : machine_state :=
  put_todo 0 (Some (drop 1 main0)) (put_flags true false 0 false (put_uart (URegs 3 7 3 3 0 []) two_started)).

Lemma boot_ready_witness :
  m_todo early_machine 1%nat = None ∨ m_todo early_machine 1%nat = Some main1.
Proof.
  destruct (started_ok 0) as (E0 & P0 & T0 & _); [lia|]. destruct (started_ok 1) as (E1 & P1 & T1 & _); [lia|].
  apply (boot_ready KERNBASE 0 0 (λ _ _, 0) reset_machine early_machine 1); [| |unfold NCPU; lia|done|done].
  - split; [done|]. by intros h Hh.
  - apply (rtc_l _ _ (started1 0 reset_machine)); [apply (bstep_start KERNBASE 0 0 (λ _ _, 0) 0); [unfold NCPU; lia|done|done|done]|].
    apply (rtc_l _ _ two_started); [apply (bstep_start KERNBASE 0 0 (λ _ _, 0) 1); [unfold NCPU; lia|done|done|done]|].
    apply rtc_once. apply (bstep_call KERNBASE 0 0 (λ _ _, 0) 0 two_started Consoleinit); [unfold NCPU; lia| |done|done|reflexivity].
    rewrite /two_started /started1 T0. reflexivity.
Defined.
