(* ===== verification/Findings.v ===== *)
(** Behaviours of the code that its comments or its callers do not expect, each
    shown on the model: what fork() copies when memory is full, buffers in pages
    that are swapped out, system calls that panic, numbers the kernel cannot
    print, and where the swap area lies. *)
From S2P Require Import Prelude Riscv Mem State Sched Bio Walk Swap Kalloc Vm Printf Log Fs Proc Syscall Sysfile Mm Machine.

(** ** fork() with memory full

    The machine of Machine.v with an empty page table for a child, its lower
    levels in place.  Page 1 of the parent is in [frame_b] and is the victim of
    the clock. *)
Definition child_root : Z := KERNBASE + 16 * PGSIZE.
Definition child_dir1 : Z := KERNBASE + 17 * PGSIZE.
Definition child_dir0 : Z := KERNBASE + 18 * PGSIZE.
Definition forking : kstate :=
  set_mem (st64 (st64 mem0 child_root (Z.lor (PA2PTE child_dir1) PTE_V))
    child_dir1 (Z.lor (PA2PTE child_dir0) PTE_V)) machine.

(** The first byte of the page [va] of an address space, if it is present. *)
Definition first_byte (pagetable va : Z) (s : kstate) : option Z :=
  match walk pagetable va false s with
  | Ok pte _ =>
      let v := ld64 (k_mem s) pte in
      if negb (pte =? 0) && tst v PTE_V then Some (ld8 (k_mem s) (PTE2PA v)) else None
  | _ => None
  end.

(** uvmcopy() reads the physical address of the parent's page, then calls
    kalloc(), which evicts that very page and fills it with junk: the copy the
    child gets has 5 where the parent has 66. *)
Lemma uvmcopy_copies_junk :
  first_byte root 4096 forking = Some 66 ∧
  match uvmcopy1 root child_root 4096 forking with
  | Ok ok s' => ok = true ∧ first_byte child_root 4096 s' = Some 5 ∧ first_byte root 4096 s' = None
  | _ => False
  end.
Proof. by vm_compute. Qed.

(** ** Buffers in pages that are swapped out *)

(** copyin() and copyout() fail for a page of the process that is in the swap
    area: read() and write() return an error although the buffer is valid. *)
Lemma copy_fails_swapped :
  copyin root 8192 1 machine = Ok (-1, []) machine ∧ copyout root 8192 [1] machine = Ok (-1) machine.
Proof. by vm_compute. Qed.

(** ** System calls that panic *)

(** swapread() called by a user process with a negative block number. *)
Definition asking : kstate :=
  set_mem (st64 (st64 mem0 (tframe + 112) 0) (tframe + 120) (2 ^ 64 - 1)) machine.
Lemma swapread_panics :
  sys_swapread asking = Panic "swapread: blkno exceeded range" ∧
  sys_swapwrite asking = Panic "swapwrite: blkno exceeded range".
Proof. by vm_compute. Qed.

(** ** printint() *)

(** A number of seventeen digits does not fit into the sixteen bytes of buf. *)
Lemma of_digits_bound l : Forall (λ c, 48 ≤ c ≤ 57) l → of_digits 10 l < 10 ^ Z.of_nat (length l).
Proof.
  induction 1 as [|c l Hc _ IH]; [done|]. cbn [of_digits length]. rewrite Nat2Z.inj_succ Z.pow_succ_r; lia.
Qed.
Lemma printint_overflows x : 10 ^ 16 ≤ x < 2 ^ 63 → printint x 10 true = None.
Proof.
  intros Hx. rewrite /printint (proj2 (Z.ltb_ge x 0)); [lia|]. cbn [andb]. rewrite app_nil_r u64_id; [lia|].
  destruct (digits_loop_spec 64 x) as (D1 & D2 & D3 & _); [lia|change (10 ^ Z.of_nat 64) with (10 ^ 64); lia|].
  rewrite /digits_rev -D3. clear D3. revert D1 D2. generalize (digits_loop 64 udigit x 10). intros l D1 D2%of_digits_bound.
  rewrite (proj2 (Nat.leb_gt _ _)) //. assert (10 ^ 16 < 10 ^ Z.of_nat (length l)) as H by lia.
  apply Z.pow_lt_mono_r_iff in H; lia.
Qed.

(** ** The swap area *)

(** The first block of a slot of the swap area is a block of the file system of
    FSSIZE blocks, past the first 2000 of them: a large file shares it. *)
Lemma swap_overlaps j : 0 ≤ j < SWAPMAX / BLKS_PER_PG → SWAPBASE ≤ slot_block j 0 < FSSIZE.
Proof. rewrite /slot_block. change BLKS_PER_PG with 4. rewrite /SWAPMAX /SWAPBASE /FSSIZE. intros H. dlia. Qed.
