(* ===== verification/Cache.v ===== *)
(** The buffer cache as the file system uses it.  Bio.v has the code and what
    the swap routines need; here is the general picture: the cache of a device
    shows one contents per block ([V]), whatever is cached or evicted.  The
    running thread holds the buffers [H]; [R] counts the references to a buffer
    besides that (the pins of the log). *)
From S2P Require Import Prelude Riscv Mem Ring State Sched Bio.

Section cache.
Context (dv : Z) (p : nat).

(** The buffer is for block [n] of the device. *)
Definition is_for (x : buf) (n : Z) : Prop := b_dev x = dv ∧ b_blockno x = n.
Definition uncached (s : kstate) (n : Z) : Prop := ∀ b, (b < NBUF)%nat → ¬ is_for (buf_at s b) n.

Record fc_core (H : list nat) (R : nat → Z) (V : Z → list Z) (s : kstate) : Prop := {
  fc_len b : (b < NBUF)%nat → length (b_data (buf_at s b)) = 1024%nat;
  fc_blk n : length (block_at s n) = 1024%nat;
  fc_valid b : (b < NBUF)%nat → b_dev (buf_at s b) = dv → b_valid (buf_at s b) = true;
  fc_uniq b1 b2 n : (b1 < NBUF)%nat → (b2 < NBUF)%nat →
    is_for (buf_at s b1) n → is_for (buf_at s b2) n → b1 = b2;
  fc_ref b : (b < NBUF)%nat → b_refcnt (buf_at s b) = R b + (if decide (b ∈ H) then 1 else 0) ∧ 0 ≤ R b < 2 ^ 31;
  fc_open b : (b < NBUF)%nat → b ∉ H → sl_locked (b_lock (buf_at s b)) = false;
  fc_hit b n : (b < NBUF)%nat → is_for (buf_at s b) n → b_data (buf_at s b) = V n;
  fc_miss n : uncached s n → block_at s n = V n;
  (** A buffer that can be recycled has the contents of its block. *)
  fc_clean b n : (b < NBUF)%nat → b ∉ H → R b = 0 → is_for (buf_at s b) n → b_data (buf_at s b) = block_at s n;
  fc_held b : b ∈ H → (b < NBUF)%nat ∧ b_dev (buf_at s b) = dv ∧
    b_lock (buf_at s b) = Sleeplock true (p_pid (proc_at s p))
}.

Record fc_inv (H : list nat) (R : nat → Z) (V : Z → list Z) (s : kstate) : Prop := {
  fi_ring : ∃ l, bc_ring s l;
  fi_core : fc_core H R V s;
  fi_cur : k_cur s = Some p;
  fi_locks : k_locks s = []
}.

(** A buffer that nobody refers to. *)
Definition room (s : kstate) : Prop := ∃ b, (b < NBUF)%nat ∧ b_refcnt (buf_at s b) = 0.

(** Nothing but the cache and the state of sleeping processes changes. *)
Definition cache_only (s s' : kstate) : Prop :=
  ∃ bs ps, s' = set_procs ps (set_bufs bs s) ∧ ∀ i, p_pid (proc_at s' i) = p_pid (proc_at s i).

Lemma cache_only_refl s : cache_only s s.
Proof. exists (k_bufs s), (k_procs s). split; [by destruct s|done]. Qed.
Lemma cache_only_trans s1 s2 s3 : cache_only s1 s2 → cache_only s2 s3 → cache_only s1 s3.
Proof.
  intros (b1 & p1 & -> & H1) (b2 & p2 & -> & H2). exists b2, p2. split; [done|]. intros i. by rewrite -H1 -H2.
Qed.

(** The running thread takes buffer [b] for block [n] as [x]. *)
Definition got (s : kstate) (n : Z) (V : Z → list Z) (b : nat) (x : buf) : Prop :=
  b_next x = b_next (buf_at s b) ∧ b_prev x = b_prev (buf_at s b) ∧ b_valid x = true ∧ is_for x n ∧
  b_refcnt x = b_refcnt (buf_at s b) + 1 ∧ b_lock x = Sleeplock true (p_pid (proc_at s p)) ∧ b_data x = V n.

Lemma fc_take H R V s b n x :
  fc_core H R V s → (b < NBUF)%nat → b ∉ H → got s n V b x →
  is_for (buf_at s b) n ∨ (uncached s n ∧ R b = 0) →
  fc_core (b :: H) R V (upd_buf b (λ _, x) s).
Proof.
  intros C Hb HbH (_ & _ & X1 & [X2 X3] & X4 & X5 & X6) Hcase. set (s' := upd_buf _ _ _).
  assert (buf_at s' b = x) as Eb by by rewrite buf_at_upd decide_True.
  assert (∀ b', b' ≠ b → buf_at s' b' = buf_at s b') as En by (intros b' Hn; by rewrite buf_at_upd decide_False).
  assert (∀ b', (b' < NBUF)%nat → b' ≠ b → ¬ is_for (buf_at s b') n) as Hno.
  { intros b' Hb' Hn Hf. destruct Hcase as [Hf'|[Hu _]]; [|by apply (Hu b')]. by apply Hn, (fc_uniq _ _ _ _ C b' b n). }
  assert (length (V n) = 1024%nat) as HV.
  { destruct Hcase as [Hf|[Hu _]]; [rewrite -(fc_hit _ _ _ _ C b n) //; by apply (fc_len _ _ _ _ C)|].
    rewrite -(fc_miss _ _ _ _ C n Hu). apply (fc_blk _ _ _ _ C). }
  split.
  - intros b' Hb'. destruct (decide (b' = b)) as [->|]; [by rewrite Eb X6|rewrite En //; by apply (fc_len _ _ _ _ C)].
  - apply (fc_blk _ _ _ _ C).
  - intros b' Hb'. destruct (decide (b' = b)) as [->|]; [by rewrite Eb|rewrite En //; by apply (fc_valid _ _ _ _ C)].
  - intros b1 b2 m H1 H2. destruct (decide (b1 = b)) as [->|N1], (decide (b2 = b)) as [->|N2]; [done|..];
      rewrite ?Eb ?En //; [intros [_ <-] Hf|intros Hf [_ <-]|by apply (fc_uniq _ _ _ _ C)];
      rewrite X3 in Hf; by apply Hno in Hf.
  - intros b' Hb'. destruct (decide (b' = b)) as [->|Hn].
    + rewrite Eb X4. destruct (fc_ref _ _ _ _ C b Hb) as [-> HR]. rewrite (decide_False (P:=b ∈ H)) //.
      rewrite decide_True; [left|]. lia.
    + rewrite En //. destruct (fc_ref _ _ _ _ C b' Hb') as [-> HR]. split; [|done]. f_equal.
      rewrite (decide_ext (b' ∈ H) (b' ∈ b :: H)) //. set_solver.
  - intros b' Hb' Hin. rewrite En; [set_solver|]. apply (fc_open _ _ _ _ C); [done|set_solver].
  - intros b' m Hb'. destruct (decide (b' = b)) as [->|]; [rewrite Eb X6; by intros [_ <-]; rewrite X3|].
    rewrite En //. by apply (fc_hit _ _ _ _ C).
  - intros m Hu. change (block_at s' m) with (block_at s m).
    destruct (decide (m = n)) as [->|Hm]; [destruct (Hu b Hb); by rewrite Eb|].
    destruct (decide (is_for (buf_at s b) m)) as [Hf|Hf].
    { destruct Hcase as [[_ Hf']|[_ HR]]; [destruct Hf; congruence|].
      rewrite -(fc_clean _ _ _ _ C b m) //. by apply (fc_hit _ _ _ _ C). }
    apply (fc_miss _ _ _ _ C). intros b' Hb' Hf'. destruct (decide (b' = b)) as [->|Hn]; [done|].
    apply (Hu b' Hb'). by rewrite En.
  - intros b' m Hb' Hin. rewrite En; [set_solver|]. apply (fc_clean _ _ _ _ C); [done|set_solver].
  - intros b' Hin. destruct (decide (b' = b)) as [->|Hn]; [by rewrite Eb|]. rewrite En //.
    apply (fc_held _ _ _ _ C). set_solver.
Qed.

(** ** bread() *)

(** What bget() returns: the buffer of the block if it is cached, else one that
    nobody refers to; [x] is the buffer before a missing block is read. *)
Lemma bget_general H R V s n :
  fc_inv H R V s → room s ∨ ¬ uncached s n → (∀ b, b ∈ H → ¬ is_for (buf_at s b) n) →
  wp (bget dv n) (λ b s', ∃ x, s' = upd_buf b (λ _, x) s ∧ (b < NBUF)%nat ∧ b ∉ H ∧
    got s n (λ _, b_data x) b (set_b_valid true x) ∧
    ((is_for (buf_at s b) n ∧ x = set_b_lock (b_lock x) (set_b_refcnt (b_refcnt x) (buf_at s b))) ∨
     (uncached s n ∧ R b = 0 ∧ b_valid x = false))) s.
Proof.
  intros [[l [Hr Hp]] C Hcur Hlk] Hroom Hheld.
  assert (∀ b, b ∈ l ↔ (b < NBUF)%nat) as Hlt by (intros; exact (bc_ring_lt s l b (conj Hr Hp))).
  set (s1 := set_locks [bcache_lock] s).
  rewrite /bget. apply wp_bind, wp_acquire; [rewrite Hlk; set_solver|]. rewrite Hlk -/s1.
  apply wp_bind, wp_gets, wp_bind.
  assert (b_next (buf_at s1 HEAD) = Some (default HEAD (head l))) as -> by apply (ring_next _ _ _ _ Hr).
  apply wp_ret, wp_bind. eapply wp_eq.
  { apply (bscan_ring b_next b_prev _ s1 [] l); [exact Hr|].
    rewrite (Permutation_length Hp) length_seq. lia. }
  assert (set_locks [] s1 = s) as Es1 by (rewrite /s1; kstate_eq).
  destruct (List.find _ l) as [b|] eqn:Ef.
  - apply List.find_some in Ef as [Hb [Hd Hn]%andb_true_iff].
    apply list_elem_of_In, Hlt in Hb. apply Z.eqb_eq in Hd, Hn.
    change (buf_at s1 b) with (buf_at s b) in *.
    assert (b ∉ H) as HbH by (intros Hin; by apply (Hheld b Hin)).
    destruct (fc_ref _ _ _ _ C b Hb) as [Eref HR]. rewrite decide_False // Z.add_0_r in Eref.
    apply wp_bind, wp_modify, wp_bind, (wp_release _ []); [reflexivity|apply not_elem_of_nil|].
    apply wp_bind. eapply wp_eq.
    { apply acquiresleep_buf; [done|exact Hcur|]. rewrite upd_buf_locks buf_at_upd decide_True //=.
      by apply (fc_open _ _ _ _ C). }
    apply wp_ret. eexists. split.
    { rewrite upd_buf_locks upd_buf_upd Es1. reflexivity. }
    split; [done|]. split; [done|]. split; [|left; split; [done|]].
    + rewrite /got /=. split_and!; try done. rewrite u32_id; lia.
    + by destruct (buf_at s b).
  - assert (uncached s n) as Hno.
    { intros b Hb [Hd Hn]. apply Hlt, list_elem_of_In in Hb.
      pose proof (List.find_none _ _ Ef _ Hb) as Hf. simpl in Hf.
      change (buf_at s1 b) with (buf_at s b) in Hf. rewrite Hd Hn !Z.eqb_refl in Hf. done. }
    destruct Hroom as [(bf & Hbf & Hbf0)|]; [|done].
    pose proof (ring_reverse _ _ _ _ Hr) as Hrr. apply wp_bind, wp_gets, wp_bind.
    assert (b_prev (buf_at s1 HEAD) = Some (default HEAD (head (reverse l)))) as ->
      by apply (ring_next _ _ _ _ Hrr).
    apply wp_ret, wp_bind. eapply wp_eq.
    { apply (bscan_ring b_prev b_next _ s1 [] (reverse l)); [exact Hrr|].
      rewrite length_reverse (Permutation_length Hp) length_seq. lia. }
    destruct (List.find _ (reverse l)) as [b|] eqn:Ev; last first.
    { exfalso. assert (In bf (reverse l)) as Hin by (apply list_elem_of_In; by rewrite elem_of_reverse Hlt).
      pose proof (List.find_none _ _ Ev _ Hin) as Hf. simpl in Hf.
      change (buf_at s1 bf) with (buf_at s bf) in Hf. by rewrite Hbf0 in Hf. }
    apply List.find_some in Ev as [Hb Href%Z.eqb_eq].
    apply list_elem_of_In in Hb. rewrite elem_of_reverse Hlt in Hb.
    change (buf_at s1 b) with (buf_at s b) in *.
    destruct (fc_ref _ _ _ _ C b Hb) as [Eref HR].
    assert (b ∉ H ∧ R b = 0) as [HbH HR0] by (case_decide; split; [lia..|done|lia]).
    do 4 (apply wp_bind, wp_modify). rewrite !upd_buf_upd.
    apply wp_bind, (wp_release _ []); [reflexivity|apply not_elem_of_nil|].
    apply wp_bind. eapply wp_eq.
    { apply acquiresleep_buf; [done|exact Hcur|]. rewrite upd_buf_locks buf_at_upd decide_True //=.
      by apply (fc_open _ _ _ _ C). }
    apply wp_ret. eexists. split.
    { rewrite upd_buf_locks upd_buf_upd Es1. reflexivity. }
    split; [done|]. split; [done|]. split; [|by right].
    rewrite /got /=. split_and!; try done. by rewrite Href.
Qed.

(** bread() returns a locked buffer with the contents of the block. *)
Lemma bread_general H R V s n :
  fc_inv H R V s → room s ∨ ¬ uncached s n → (∀ b, b ∈ H → ¬ is_for (buf_at s b) n) →
  wp (bread dv n) (λ b s', ∃ x, s' = upd_buf b (λ _, x) s ∧ (b < NBUF)%nat ∧ b ∉ H ∧
    got s n V b x ∧ fc_inv (b :: H) R V s' ∧ (R b = 0 → V n = block_at s n) ∧ (is_for (buf_at s b) n ∨ R b = 0)) s.
Proof.
  intros I Hroom Hheld. pose proof (fi_core _ _ _ _ I) as C.
  apply wp_bind. wp_use (bget_general H R V s n I Hroom Hheld).
  intros b s' (x & -> & Hb & HbH & Hg & Hcase). apply wp_bind, wp_gets. rewrite buf_at_upd decide_True //.
  assert (∀ y, got s n V b y → fc_inv (b :: H) R V (upd_buf b (λ _, y) s)) as Hinv.
  { intros y Hy. destruct I as [[l Hl] _ Hcur Hlk]. split; [|..|done|done].
    - exists l. destruct Hl as [Hr Hp]. split; [|done]. destruct Hy as (Y1 & Y2 & _).
      eapply ring_ext; [..|exact Hr]; intros z _; rewrite /bnx /bpv buf_at_upd; by case_decide; subst.
    - apply (fc_take H R V s b n); try done. destruct Hcase as [[? _]|(? & ? & _)]; [by left|by right]. }
  destruct Hg as (G1 & G2 & G3 & G4 & G5 & G6 & _).
  apply wp_bind, wp_when; intros Hv.
  - assert (uncached s n) as Hu.
    { destruct Hcase as [[[Hd _] Ex]|[? _]]; [|done]. rewrite Ex /= (fc_valid _ _ _ _ C b) // in Hv. }
    apply wp_bind, wp_bind, wp_get. ksimpl. rewrite (fi_locks _ _ _ _ I) bool_decide_eq_true_2 //.
    apply wp_bind. rewrite /myproc. apply wp_bind, wp_gets. ksimpl. rewrite (fi_cur _ _ _ _ I). apply wp_ret.
    apply wp_modify, wp_modify, wp_ret. rewrite !upd_buf_upd buf_at_upd decide_True //.
    destruct G4 as [G4 G4']. cbn [b_blockno set_b_valid] in G4'. rewrite G4'.
    set (y := set_b_valid true (set_b_data _ x)).
    assert (got s n V b y) as Hy.
    { rewrite /got /y /=. split_and!; try done. exact (fc_miss _ _ _ _ C n Hu). }
    exists y. split_and!; [done..|by apply Hinv| |].
    + intros _. by rewrite (fc_miss _ _ _ _ C n Hu).
    + destruct Hcase as [[? _]|(_ & ? & _)]; auto.
  - apply negb_false_iff in Hv. apply wp_ret. exists x.
    assert (got s n V b x) as Hy.
    { destruct Hcase as [[Hf Ex]|(_ & _ & E)]; [|congruence]. rewrite /got. split_and!; try done.
      rewrite Ex /=. by apply (fc_hit _ _ _ _ C). }
    destruct Hcase as [[Hf _]|(_ & _ & E)]; [|congruence].
    split_and!; [done..|by apply Hinv| |by left]. intros HR0.
    rewrite -(fc_clean _ _ _ _ C b n) //. symmetry. by apply (fc_hit _ _ _ _ C).
Qed.

(** ** brelse() *)

Lemma fc_core_ext H R V s s' :
  (∀ b, core (buf_at s' b) = core (buf_at s b)) → k_disk s' = k_disk s →
  (∀ i, p_pid (proc_at s' i) = p_pid (proc_at s i)) → fc_core H R V s → fc_core H R V s'.
Proof.
  intros Hc Hd Hpid C.
  assert (∀ n, block_at s' n = block_at s n) as Hblk by (intros; by rewrite /block_at Hd).
  assert (∀ b, b_valid (buf_at s' b) = b_valid (buf_at s b) ∧ b_dev (buf_at s' b) = b_dev (buf_at s b) ∧
    b_blockno (buf_at s' b) = b_blockno (buf_at s b) ∧ b_lock (buf_at s' b) = b_lock (buf_at s b) ∧
    b_refcnt (buf_at s' b) = b_refcnt (buf_at s b) ∧ b_data (buf_at s' b) = b_data (buf_at s b)) as Hf
    by (intros b; exact (core_fields _ _ (Hc b))).
  assert (∀ b n, is_for (buf_at s' b) n ↔ is_for (buf_at s b) n) as Hi.
  { intros b n. rewrite /is_for. by destruct (Hf b) as (_ & -> & -> & _). }
  assert (∀ n, uncached s' n → uncached s n) as Hu by (intros n Hu b Hb; rewrite -Hi; by apply Hu).
  destruct C as [C1 C2 C3 C4 C5 C6 C7 C8 C9 C10].
  split; [|intros n; by rewrite Hblk|..|intros n Hn; rewrite Hblk; auto| |];
    intros b; destruct (Hf b) as (E1 & E2 & E3 & E4 & E5 & E6); rewrite ?E1 ?E2 ?E4 ?E5 ?E6 ?Hpid; auto.
  - intros b2 n. rewrite !Hi. apply C4.
  - intros n. rewrite Hi. apply C7.
  - intros n. rewrite Hi Hblk. apply C9.
Qed.

(** The buffer without the lock and the reference of the running thread. *)
Definition let_go (r : Z) (x : buf) : buf := set_b_refcnt r (set_b_lock sleeplock0 x).

Lemma fc_give H R V s b n :
  fc_core (b :: H) R V s → b ∉ H → is_for (buf_at s b) n →
  (R b = 0 → b_data (buf_at s b) = block_at s n) → fc_core H R V (upd_buf b (let_go (R b)) s).
Proof.
  intros C HbH Hf Hclean. set (s' := upd_buf _ _ _).
  destruct (fc_held _ _ _ _ C b) as (Hb & _); [left|].
  assert (buf_at s' b = let_go (R b) (buf_at s b)) as Eb by by rewrite buf_at_upd decide_True.
  assert (∀ b', b' ≠ b → buf_at s' b' = buf_at s b') as En by (intros b' Hn; by rewrite buf_at_upd decide_False).
  assert (∀ b', b_data (buf_at s' b') = b_data (buf_at s b') ∧ b_valid (buf_at s' b') = b_valid (buf_at s b') ∧
    b_dev (buf_at s' b') = b_dev (buf_at s b') ∧ b_blockno (buf_at s' b') = b_blockno (buf_at s b')) as Hsame.
  { intros b'. destruct (decide (b' = b)) as [->|]; [by rewrite Eb|by rewrite En]. }
  assert (∀ b' m, is_for (buf_at s' b') m ↔ is_for (buf_at s b') m) as Hi.
  { intros b' m. rewrite /is_for. by destruct (Hsame b') as (_ & _ & -> & ->). }
  destruct C as [C1 C2 C3 C4 C5 C6 C7 C8 C9 C10]. split.
  - intros b'. destruct (Hsame b') as (-> & _). apply C1.
  - exact C2.
  - intros b'. destruct (Hsame b') as (_ & -> & -> & _). apply C3.
  - intros b1 b2 m. rewrite !Hi. apply C4.
  - intros b' Hb'. destruct (C5 b' Hb') as [Er HR]. split; [|done]. destruct (decide (b' = b)) as [->|Hn].
    + rewrite Eb /= decide_False //. lia.
    + rewrite En // Er. f_equal. rewrite (decide_ext (b' ∈ H) (b' ∈ b :: H)) //. set_solver.
  - intros b' Hb' Hin. destruct (decide (b' = b)) as [->|Hn]; [by rewrite Eb|]. rewrite En //.
    apply C6; [done|]. set_solver.
  - intros b' m. rewrite Hi. destruct (Hsame b') as (-> & _). apply C7.
  - intros m Hu. apply C8. intros b' Hb'. rewrite -Hi. by apply Hu.
  - intros b' m Hb' Hin HR. rewrite Hi. destruct (Hsame b') as (-> & _). destruct (decide (b' = b)) as [->|Hn].
    + intros [_ <-]. destruct Hf as [_ ->]. by apply Hclean.
    + apply C9; [done|set_solver|done].
  - intros b' Hin. rewrite En; [by intros ->|]. apply C10. by right.
Qed.

Lemma proc_wake ch s s2 i : proc_at (set_procs (wake_all ch (k_cur s) (k_procs s)) s2) i =
  default proc0 (wake_all ch (k_cur s) (k_procs s) !! i).
Proof. done. Qed.

(** brelse() gives the buffer back; one that nobody refers to any more must
    have the contents of its block. *)
Lemma brelse_general H R V s b n :
  fc_inv (b :: H) R V s → b ∉ H → is_for (buf_at s b) n → (R b = 0 → b_data (buf_at s b) = block_at s n) →
  wp (brelse b) (λ _ s', fc_inv H R V s' ∧ cache_only s s' ∧
    (∀ b', b' ≠ b → core (buf_at s' b') = core (buf_at s b')) ∧ (R b = 0 → room s') ∧
    (∀ b' m, is_for (buf_at s b') m → is_for (buf_at s' b') m)) s.
Proof.
  intros [[l Hl] C Hcur Hlk] HbH Hf Hclean.
  destruct (fc_held _ _ _ _ C b) as (Hb & Hdv & Hk); [left|].
  destruct (fc_ref _ _ _ _ C b Hb) as [Er HR]. rewrite decide_True in Er; [left|].
  pose proof (fc_give H R V s b n C HbH Hf Hclean) as C2.
  assert (bc_ring (upd_buf b (let_go (R b)) s) l) as Hl2 by (by apply bc_ring_upd).
  apply wp_bind. eapply wp_eq; [exact (holdingsleep_buf b p s Hlk Hcur)|].
  rewrite Hk /= Z.eqb_refl. apply wp_bind. eapply wp_eq; [exact (releasesleep_buf b s Hlk)|].
  apply wp_bind, wp_acquire; [ksimpl; rewrite Hlk; apply not_elem_of_nil|]. ksimpl. rewrite Hlk.
  apply wp_bind, wp_modify, wp_bind, wp_gets.
  assert (∀ i, p_pid (default proc0 (wake_all (ch_buf b) (k_cur s) (k_procs s) !! i)) = p_pid (proc_at s i)) as Hpid
    by (intros i; apply wake_all_pid).
  revert Hpid. generalize (wake_all (ch_buf b) (k_cur s) (k_procs s)) as ps. intros ps Hpid.
  rewrite -upd_buf_locks -upd_buf_procs upd_buf_upd.
  assert (upd_buf b (λ x, set_b_refcnt (u32 (b_refcnt (set_b_lock sleeplock0 x) - 1))
            (set_b_lock sleeplock0 x)) s = upd_buf b (let_go (R b)) s) as ->.
  { rewrite /upd_buf /let_go. cbn [b_refcnt set_b_lock]. rewrite Er u32_id; [lia|]. by rewrite Z.add_simpl_r. }
  change (buf_at (set_locks ?x ?y) b) with (buf_at y b). change (buf_at (set_procs ?x ?y) b) with (buf_at y b).
  rewrite buf_at_upd decide_True // /=.
  assert (∀ b', b' ≠ b → core (buf_at (upd_buf b (let_go (R b)) s) b') = core (buf_at s b')) as Hoth.
  { intros b' Hn. by rewrite buf_at_upd decide_False. }
  assert (b_refcnt (buf_at (upd_buf b (let_go (R b)) s) b) = R b) as Href by by rewrite buf_at_upd decide_True.
  assert (∀ b' m, is_for (buf_at s b') m → is_for (buf_at (upd_buf b (let_go (R b)) s) b') m) as Hkeep.
  { intros b' m. rewrite buf_at_upd. case_decide; by subst. }
  remember (upd_buf b (let_go (R b)) s) as s2 eqn:Hs2.
  assert (k_disk s2 = k_disk s ∧ k_cur s2 = Some p) as [Hd2 Hc2] by by rewrite Hs2.
  apply wp_bind, wp_when; intros HR0.
  - wp_use (bmove_spec _ l b); [exact Hl2|done|]. intros [] s' (l' & Hs' & Hl' & Hcore).
    assert (k_locks s' = [bcache_lock]) as Hk' by by rewrite Hs'.
    apply (wp_release _ []); [done|apply not_elem_of_nil|].
    split; [|split; [|split; [|split]]].
    + split; [by exists l'| |by rewrite /= Hs'|done].
      apply (fc_core_ext H R V s2); [exact Hcore|by rewrite /= Hs'| |done].
      intros i. rewrite /= /proc_at Hs' /= Hs2. apply Hpid.
    + exists (k_bufs s'), ps. split; [rewrite Hs' Hs2; destruct s; cbn in Hlk; subst; reflexivity|].
      intros i. rewrite /= /proc_at Hs' /=. apply Hpid.
    + intros b' Hn. etransitivity; [exact (Hcore b')|by apply Hoth].
    + intros _. exists b. split; [done|]. destruct (core_fields _ _ (Hcore b)) as (_ & _ & _ & _ & Hrc & _).
      transitivity (b_refcnt (buf_at s2 b)); [exact Hrc|]. rewrite Href. by apply Z.eqb_eq.
    + intros b' m Hm. specialize (Hkeep b' m Hm). destruct (core_fields _ _ (Hcore b')) as (_ & E1 & E2 & _).
      destruct Hkeep as [K1 K2]. split; [rewrite -K1; exact E1|rewrite -K2; exact E2].
  - apply (wp_release _ []); [done|apply not_elem_of_nil|].
    split; [|split; [|split; [|split]]].
    + split; [by exists l| |done|done]. apply (fc_core_ext H R V s2); [done|done| |done].
      intros i. rewrite /= /proc_at /= Hs2. apply Hpid.
    + exists (k_bufs s2), ps. split; [rewrite Hs2; destruct s; cbn in Hlk; subst; reflexivity|].
      intros i. rewrite /= /proc_at /=. apply Hpid.
    + intros b' Hn. by apply Hoth.
    + intros E. by rewrite E in HR0.
    + exact Hkeep.
Qed.

(** ** Reading a block *)

Lemma room_keeps s s' b :
  (∀ b', b' ≠ b → core (buf_at s' b') = core (buf_at s b')) → b_refcnt (buf_at s b) ≠ 0 → room s → room s'.
Proof.
  intros Hc Hb (bf & Hbf & H0). exists bf. split; [done|]. rewrite -H0.
  apply (core_fields _ _ (Hc bf ltac:(congruence))).
Qed.

(** [cache_only], and the buffers that are referred to keep their blocks. *)
Definition pins_kept (R : nat → Z) (s s' : kstate) : Prop :=
  ∀ b n, (b < NBUF)%nat → 1 ≤ R b → is_for (buf_at s b) n → is_for (buf_at s' b) n.
Definition calm (R : nat → Z) (s s' : kstate) : Prop := cache_only s s' ∧ pins_kept R s s'.
Lemma calm_refl R s : calm R s s.
Proof. split; [apply cache_only_refl|by intros b n]. Qed.
Lemma calm_trans R s1 s2 s3 : calm R s1 s2 → calm R s2 s3 → calm R s1 s3.
Proof. intros [A1 A2] [B1 B2]. split; [by apply (cache_only_trans s1 s2)|]. intros b n Hb HR Hf. by apply B2, A2. Qed.

(** Memory may change, too. *)
Definition quiet (R : nat → Z) (s s' : kstate) : Prop := calm R (set_mem (k_mem s') s) s'.
Lemma calm_quiet R s s' : calm R s s' → quiet R s s'.
Proof.
  intros [(bs & ps & -> & Hp) Hk]. split; [|exact Hk]. exists bs, ps. by destruct s.
Qed.
Lemma quiet_refl R s : quiet R s s.
Proof. apply calm_quiet, calm_refl. Qed.
Lemma quiet_trans R s1 s2 s3 : quiet R s1 s2 → quiet R s2 s3 → quiet R s1 s3.
Proof.
  intros [(b1 & p1 & E1 & H1) K1] [(b2 & p2 & E2 & H2) K2]. split.
  - exists b2, p2. split; [rewrite {1}E2 {1}E1; done|]. intros i. rewrite H2. exact (H1 i).
  - intros b n Hb HR Hf. apply K2; [done..|]. exact (K1 b n Hb HR Hf).
Qed.
Lemma quiet_mem R m s s' : calm R (set_mem m s) s' → quiet R s s'.
Proof. intros [C K]. rewrite /quiet (_ : k_mem s' = m); [by destruct C as (bs & ps & -> & _)|by split]. Qed.
Lemma quiet_fields R s s' : quiet R s s' → k_inodes s' = k_inodes s ∧ k_log s' = k_log s ∧ k_sb s' = k_sb s ∧ k_cur s' = k_cur s.
Proof. by intros [(bs & ps & -> & _) _]. Qed.

(** bread() of a block that is only read: the buffer has the contents of the
    block, and brelse() of it, whatever was stored in memory meanwhile, leaves
    the cache as it was. *)
Definition closes (R : nat → Z) (V : Z → list Z) (b : nat) (s1 : kstate) : Prop :=
  ∀ m (Q : unit → kstate → Prop),
    (∀ s3, fc_inv [] R V s3 → room s3 → calm R (set_mem m s1) s3 → Q tt s3) →
    wp (brelse b) Q (set_mem m s1).

Lemma read_block R V s n (Q : nat → kstate → Prop) :
  fc_inv [] R V s → room s →
  (∀ b s1, calm R s s1 → b_data (buf_at s1 b) = V n → closes R V b s1 → Q b s1) →
  wp (bread dv n) Q s.
Proof.
  intros I Hroom Hk. wp_use (bread_general [] R V s n I (or_introl Hroom)); [by intros b ?%elem_of_nil|].
  intros b s1 (x & Es1 & Hb & _ & Hg & I1 & Hclean & Hcase). destruct Hg as (_ & _ & _ & Hf & Href & _ & Hdata).
  assert (buf_at s1 b = x) as Eb by by rewrite Es1 buf_at_upd decide_True.
  assert (calm R s s1) as Hc1.
  { split; [rewrite Es1; by eexists _, (k_procs s)|]. intros c m Hc HR Hfc. destruct (decide (c = b)) as [->|Hne].
    - rewrite Eb. destruct Hcase as [[_ Hn]|]; [|lia]. destruct Hfc as [_ <-]. by rewrite Hn.
    - by rewrite Es1 buf_at_upd decide_False. }
  apply Hk; [done|by rewrite Eb|]. intros m Q' HQ. set (s2 := set_mem m s1).
  assert (fc_inv [b] R V s2) as I2.
  { destruct I1 as [[l Hl] C1 Hcur Hlk]. split; [by exists l| |done|done]. apply (fc_core_ext [b] R V s1); done. }
  assert (buf_at s2 b = x) as Eb2 by exact Eb.
  assert (block_at s2 n = block_at s n) as Ebl by by rewrite /s2 Es1.
  wp_use (brelse_general [] R V s2 b n I2); [apply not_elem_of_nil|by rewrite Eb2| |].
  { intros HR0. rewrite Eb2 Hdata Ebl. by apply Hclean. }
  intros [] s3 (I3 & Hc3 & Hcore & Hroom3 & Hkeep3). apply HQ; [done| |split; [done|intros c m' _ _; apply Hkeep3]].
  destruct (decide (R b = 0)) as [HR0|HR0]; [by apply Hroom3|].
  pose proof (fc_ref _ _ _ _ (fi_core _ _ _ _ I) b Hb) as [Er HR].
  apply (room_keeps s s3 b); [|rewrite Er; case_match; lia|done]. intros b' Hn. rewrite Hcore //.
  change (buf_at s2 b') with (buf_at s1 b'). by rewrite Es1 buf_at_upd decide_False.
Qed.
End cache.
