(* ===== verification/Fsread.v ===== *)
(** Reading files and directories: what readi() and dirlookup() of kernel/fs.c
    return, in terms of the bytes of the file.  The blocks come from the cache,
    through the view of Cache.v; nothing is said about which of them are cached
    or what is evicted on the way. *)
From S2P Require Import Prelude Riscv Mem State Sched Bytes Bio Walk Swap Log Fs Cache.

(** ** The bytes of a file *)

(** The block of a file block, through the indirect block. *)
Definition faddr (V : Z → list Z) (x : inode) (bn : Z) : Z :=
  if bn <? NDIRECT then addr_at x bn else get32 (V (addr_at x NDIRECT)) (4 * (bn - NDIRECT)).
Definition mapped (V : Z → list Z) (x : inode) (bn : Z) : Prop :=
  0 ≤ bn < MAXFILE ∧ (NDIRECT ≤ bn → addr_at x NDIRECT ≠ 0) ∧ faddr V x bn ≠ 0.
Definition fbyte (V : Z → list Z) (x : inode) (off : Z) : Z :=
  default 0 (V (faddr V x (off / BSIZE)) !! Z.to_nat (off mod BSIZE)).
Definition fbytes (V : Z → list Z) (x : inode) (off n : Z) : list Z := fbyte V x <$> seqZ off n.

(** No holes: every block up to the size is there. *)
Definition whole (V : Z → list Z) (x : inode) : Prop := ∀ bn, 0 ≤ bn → bn * BSIZE < i_size x → mapped V x bn.

Lemma fbytes_length V x off n : 0 ≤ n → length (fbytes V x off n) = Z.to_nat n.
Proof. intros. by rewrite length_fmap length_seqZ. Qed.
Lemma fbytes_app V x off n m : 0 ≤ n → 0 ≤ m → fbytes V x off (n + m) = fbytes V x off n ++ fbytes V x (off + n) m.
Proof. intros. rewrite /fbytes seqZ_app // fmap_app //. Qed.
Lemma fbytes_lookup V x off n i : (i < Z.to_nat n)%nat → fbytes V x off n !! i = Some (fbyte V x (off + Z.of_nat i)).
Proof. intros. rewrite list_lookup_fmap lookup_seqZ_lt //; lia. Qed.

(** A piece within a block. *)
Lemma slice_fbytes V x off m : 0 ≤ off → 0 ≤ m ≤ BSIZE - off mod BSIZE →
  length (V (faddr V x (off / BSIZE))) = 1024%nat →
  slice (V (faddr V x (off / BSIZE))) (Z.to_nat (off mod BSIZE)) (Z.to_nat m) = fbytes V x off m.
Proof.
  intros Ho Hm Hl. change BSIZE with 1024 in *. assert (0 ≤ off mod 1024 < 1024) as Hr by (apply Z.mod_pos_bound; done).
  apply list_eq. intros i. destruct (decide (i < Z.to_nat m)%nat) as [Hi|Hi]; last first.
  { rewrite !lookup_ge_None_2 //; rewrite ?fbytes_length ?slice_length; lia. }
  rewrite fbytes_lookup // slice_lookup //. rewrite /fbyte. change BSIZE with 1024.
  assert ((off + Z.of_nat i) / 1024 = off / 1024 ∧ (off + Z.of_nat i) mod 1024 = off mod 1024 + Z.of_nat i) as [-> ->].
  { pose proof (Z.div_mod off 1024 ltac:(done)).
    split; symmetry; [apply (Z.div_unique_pos _ _ _ (off mod 1024 + Z.of_nat i))|apply (Z.mod_unique_pos _ _ (off / 1024))]; lia. }
  rewrite Z2Nat.inj_add; [lia..|]. rewrite Nat2Z.id.
  destruct (lookup_lt_is_Some_2 (V (faddr V x (off / 1024))) (Z.to_nat (off mod 1024) + i)) as [v Ev]; [lia|].
  by rewrite Ev.
Qed.

Section read.
Context (dv : Z) (p : nat) (R : nat → Z) (V : Z → list Z).
Notation fc := (fc_inv dv p [] R V).

Lemma view_length s n : fc s → length (V n) = 1024%nat.
Proof.
  intros I. pose proof (fi_core _ _ _ _ _ _ I) as C.
  destruct (decide (Exists (λ b, b_dev (buf_at s b) = dv ∧ b_blockno (buf_at s b) = n) (seq 0 NBUF))) as [He|He].
  - apply Exists_exists in He as (b & Hb%elem_of_seq & Hf). rewrite -(fc_hit _ _ _ _ _ _ C b n); [lia|done|].
    apply (fc_len _ _ _ _ _ _ C). lia.
  - rewrite -(fc_miss _ _ _ _ _ _ C n); [|apply (fc_blk _ _ _ _ _ _ C)].
    intros b Hb Hf. apply He, Exists_exists. exists b. split; [apply elem_of_seq; lia|done].
Qed.

Lemma calm_inode s s' ip : calm dv R s s' → inode_at s' ip = inode_at s ip.
Proof. by intros [(bs & ps & -> & _) _]. Qed.
Lemma calm_mem s s' : calm dv R s s' → k_mem s' = k_mem s.
Proof. by intros [(bs & ps & -> & _) _]. Qed.

(** bmap() of a block that is there changes nothing but the cache. *)
Lemma bmap_mapped s ip bn :
  fc s → room s → i_dev (inode_at s ip) = dv → mapped V (inode_at s ip) bn →
  wp (bmap ip bn) (λ a s', a = faddr V (inode_at s ip) bn ∧ fc s' ∧ room s' ∧ calm dv R s s') s.
Proof.
  intros I Hroom Hd (Hbn & Hind & Ha). rewrite /bmap. rewrite /faddr in Ha |- *.
  destruct (Z.ltb_spec bn NDIRECT) as [Hlt|Hge].
  - rewrite /bmap_slot. apply wp_bind, wp_gets. destruct (Z.eqb_spec (addr_at (inode_at s ip) bn) 0); [done|].
    apply wp_ret. split_and!; [done..|apply calm_refl].
  - specialize (Hind Hge). destruct (Z.ltb_spec (bn - NDIRECT) NINDIRECT) as [_|Hbad]; [|rewrite /MAXFILE in Hbn; lia].
    rewrite /bmap_slot. apply wp_bind, wp_bind, wp_gets.
    destruct (Z.eqb_spec (addr_at (inode_at s ip) NDIRECT) 0) as [|_]; [done|]. apply wp_ret.
    destruct (Z.eqb_spec (addr_at (inode_at s ip) NDIRECT) 0) as [|_]; [done|].
    apply wp_bind, wp_gets. rewrite Hd. apply wp_bind, (read_block dv p R V s); [done..|].
    intros b s1 Hc Eb Hclose. apply wp_bind, wp_gets, wp_bind. rewrite Eb.
    destruct (Z.eqb_spec (get32 (V (addr_at (inode_at s ip) NDIRECT)) (4 * (bn - NDIRECT))) 0) as [|_]; [done|].
    apply wp_ret, wp_bind. pose proof (Hclose (k_mem s1)) as Hcl.
    rewrite (_ : set_mem (k_mem s1) s1 = s1) in Hcl; [by destruct s1|]. apply Hcl.
    intros s3 I3 Hroom3 Hc3. apply wp_ret. split_and!; [done..|by apply (calm_trans dv R s s1)].
Qed.

(** ** readi() *)

(** What copying [bytes] to offset [tot] of the destination does to memory. *)
Definition sink_does (sink : Z → list Z → K Z) (F : Z → list Z → gmap Z Z → gmap Z Z) (lim : Z) : Prop :=
  (∀ tot bytes s, k_cur s = Some p → sink tot bytes s = Ok 0 (set_mem (F tot bytes (k_mem s)) s)) ∧
  (∀ tot m, F tot [] m = m) ∧
  (∀ tot b1 b2 m, 0 ≤ tot → tot + Z.of_nat (length b1) ≤ lim →
     F (tot + Z.of_nat (length b1)) b2 (F tot b1 m) = F tot (b1 ++ b2) m).

Lemma readi_loop_spec sink F lim ip x fuel : sink_does sink F lim →
  ∀ s off n tot acc,
  fc s → room s → inode_at s ip = x → i_dev x = dv → 0 ≤ off → 0 ≤ tot ≤ n → n ≤ lim →
  (∀ bn, 0 ≤ bn → bn * BSIZE < off + (n - tot) → mapped V x bn) →
  (0 < fuel)%nat → n = tot ∨ n - tot + off mod BSIZE ≤ BSIZE * (Z.of_nat fuel - 1) →
  wp (readi_loop fuel sink ip off n tot acc) (λ r s', r = (n, acc ++ fbytes V x off (n - tot)) ∧
    fc s' ∧ room s' ∧ inode_at s' ip = x ∧ k_mem s' = F tot (fbytes V x off (n - tot)) (k_mem s) ∧
    quiet dv R s s') s.
Proof.
  intros (HF & HF0 & HFapp). induction fuel as [|fuel IH]; intros s off n tot acc I Hroom Hx Hd Ho Ht Hn Hm Hpos Hfuel; [lia|].
  cbn [readi_loop]. destruct (Z.leb_spec n tot) as [Hle|Hlt].
  { apply wp_ret. assert (n = tot) as -> by lia. rewrite Z.sub_diag /fbytes /= app_nil_r. rewrite HF0. split_and!; [done..|apply quiet_refl]. }
  destruct Hfuel as [?|Hfuel]; [lia|]. pose proof (Z.mod_pos_bound off BSIZE ltac:(done)) as Hr. pose proof (Z.div_mod off BSIZE ltac:(done)) as Hdm.
  assert (mapped V x (off / BSIZE)) as Hmap.
  { apply Hm; [apply Z.div_pos; done|]. rewrite /BSIZE in Hr Hdm |- *. lia. }
  apply wp_bind. wp_use (bmap_mapped s ip (off / BSIZE) I Hroom); [by rewrite Hx|by rewrite Hx|].
  intros a s1 (Ea & I1 & Hroom1 & Hc1). rewrite Hx in Ea.
  destruct (Z.eqb_spec a 0) as [E0|_]; [destruct Hmap as (_ & _ & Hne); congruence|].
  apply wp_bind, wp_gets. rewrite (calm_inode s s1 ip Hc1) Hx Hd.
  apply wp_bind, (read_block dv p R V s1); [done..|]. intros b s2 Hc2 Eb Hclose.
  apply wp_bind, wp_gets. rewrite Eb Ea. set (m := Z.min (n - tot) (BSIZE - off mod BSIZE)).
  assert (0 < m ≤ n - tot ∧ m ≤ BSIZE - off mod BSIZE) as [Hm1 Hm2] by lia.
  rewrite slice_fbytes; [done|lia|by apply (view_length s)|]. apply wp_bind.
  pose proof (calm_trans _ _ _ _ _ Hc1 Hc2) as Hc12. pose proof (calm_mem _ _ Hc12) as Em.
  assert (inode_at s2 ip = x ∧ k_cur s2 = Some p) as (Ex2 & Ecur).
  { destruct Hc12 as [(bs & ps & -> & _) _]. by rewrite -(fi_cur _ _ _ _ _ _ I). }
  eapply wp_eq; [by apply HF|]. change (0 =? -1) with false. cbn iota. apply wp_bind, Hclose.
  intros s3 I3 Hroom3 Hc3. rewrite Em in Hc3.
  assert (inode_at s3 ip = x) as Ex3 by by rewrite (calm_inode _ _ ip Hc3).
  assert (quiet dv R s s3) as Q3.
  { apply (quiet_trans dv R s s2); [by apply calm_quiet|by apply (quiet_mem dv R _ s2 s3 Hc3)]. }
  pose proof (calm_mem _ _ Hc3) as Em3. cbn [k_mem set_mem] in Em3.
  wp_use (IH s3 (off + m) n (tot + m) (acc ++ fbytes V x off m) I3 Hroom3 Ex3); [done|lia|lia|lia| | | |].
  - intros bn Hbn Hlim. apply Hm; [done|]. rewrite /BSIZE in Hlim |- *. lia.
  - rewrite /BSIZE in Hfuel Hr. lia.
  - destruct (decide (m = n - tot)) as [->|Hne]; [left; lia|right].
    assert (m = BSIZE - off mod BSIZE) as Em' by lia. rewrite Em'.
    rewrite (_ : (off + (BSIZE - off mod BSIZE)) mod BSIZE = 0).
    { rewrite {1}Hdm (_ : BSIZE * (off / BSIZE) + off mod BSIZE + (BSIZE - off mod BSIZE) = 0 + (off / BSIZE + 1) * BSIZE); [rewrite /BSIZE; lia|].
      by rewrite Z_mod_plus_full. }
    rewrite /BSIZE in Hfuel |- *. lia.
  - intros r s4 (-> & I4 & Hroom4 & Ex4 & Em4 & Q4).
    assert (fbytes V x off (n - tot) = fbytes V x off m ++ fbytes V x (off + m) (n - (tot + m))) as Eapp.
    { rewrite -fbytes_app; [lia..|]. f_equal. lia. }
    split_and!; [by rewrite Eapp app_assoc|done..| |by apply (quiet_trans dv R s s3)].
    rewrite Em4 Em3 Eapp -HFapp; [lia|rewrite fbytes_length; lia|]. rewrite fbytes_length; [lia|].
    by rewrite Z2Nat.id; [lia|].
Qed.

(** The bytes a read of [n] bytes at [off] gets. *)
Definition readable (x : inode) (off n : Z) : Z :=
  if (i_size x <? off) || (2 ^ 32 <=? off + n) then 0 else Z.min n (i_size x - off).

Lemma readi_gen_spec sink F lim ip s off n :
  sink_does sink F lim → fc s → room s → i_dev (inode_at s ip) = dv → whole V (inode_at s ip) →
  0 ≤ i_size (inode_at s ip) < 2 ^ 32 → 0 ≤ off < 2 ^ 32 → 0 ≤ n < 2 ^ 32 → n ≤ lim →
  wp (readi_gen sink ip off n) (λ r s', ∃ got, got = readable (inode_at s ip) off n ∧
    r = (got, fbytes V (inode_at s ip) off got) ∧
    fc s' ∧ room s' ∧ k_mem s' = F 0 (fbytes V (inode_at s ip) off got) (k_mem s) ∧ quiet dv R s s') s.
Proof.
  intros HF I Hroom Hd Hw Hsz Ho Hn Hlim. set (x := inode_at s ip) in *.
  rewrite /readi_gen /readable. apply wp_bind, wp_gets. fold x.
  assert ((u32 (off + n) <? off) = (2 ^ 32 <=? off + n)) as ->.
  { rewrite /u32. destruct (Z.leb_spec (2 ^ 32) (off + n)) as [Hov|Hno].
    - rewrite (_ : (off + n) mod 2 ^ 32 = off + n - 2 ^ 32); [|apply Z.ltb_lt; lia].
      symmetry. apply (Z.mod_unique_pos _ _ 1); lia.
    - rewrite Z.mod_small; [lia|]. apply Z.ltb_ge. lia. }
  destruct (_ || _) eqn:E.
  { apply wp_ret. eexists. split; [done|]. split_and!; [done..| |apply quiet_refl]. destruct HF as (_ & HF0 & _). by rewrite HF0. }
  apply orb_false_iff in E as [E1%Z.ltb_ge E2%Z.leb_gt]. rewrite u32_id; [lia|].
  set (n' := if i_size x <? off + n then i_size x - off else n).
  assert (n' = Z.min n (i_size x - off)) as En' by (rewrite /n'; destruct (Z.ltb_spec (i_size x) (off + n)); lia).
  assert (0 ≤ n' / BSIZE) as Hq by (apply Z.div_pos; [lia|done]).
  wp_use (readi_loop_spec sink F lim ip x (Z.to_nat (n' / BSIZE + 3)) HF s off n' 0 []); [done..|lia|lia|lia| |lia|right|].
  - intros bn Hbn Hlt. apply Hw; [done|]. lia.
  - pose proof (Z.mod_pos_bound off BSIZE ltac:(done)). pose proof (Z.div_mod n' BSIZE ltac:(done)).
    pose proof (Z.mod_pos_bound n' BSIZE ltac:(done)).
    rewrite Z2Nat.id; [lia|]. rewrite /BSIZE in H H0 H1 Hq |- *. lia.
  - intros r s' (-> & I' & Hroom' & _ & Em & Ei). exists n'. rewrite app_nil_l Z.sub_0_r in Em |- *. by split_and!.
Qed.
End read.

(** ** Destinations *)

Lemma kernel_sink p dst lim : 0 ≤ dst → dst + lim < 2 ^ 64 →
  sink_does p (λ tot bytes, either_copyout false (u64 (dst + tot)) bytes) (λ tot bytes m, wr_bytes m (u64 (dst + tot)) bytes) lim.
Proof.
  intros Hd Hl. split_and!.
  - intros tot bytes s Hc. by rewrite /either_copyout /bind /myproc /bind /gets Hc.
  - done.
  - intros tot b1 b2 m Ht Hlim. rewrite !u64_id; [lia..|]. rewrite -wr_bytes_app. f_equal. lia.
Qed.
Lemma local_sink p lim : sink_does p (λ _ _, ret 0) (λ _ _ m, m) lim.
Proof. split_and!; [|done..]. intros tot bytes s _. by destruct s. Qed.

Lemma readable_range x off n : 0 ≤ n → 0 ≤ readable x off n ≤ n.
Proof.
  intros Hn. rewrite /readable. destruct (_ || _) eqn:E; [lia|]. apply orb_false_iff in E as [E%Z.ltb_ge _]. lia.
Qed.

(** ** Directories *)

(** The first entry in use with the name, as dirlookup() compares names. *)
Definition entry (V : Z → list Z) (x : inode) (off : Z) : list Z := fbytes V x off DIRENT.
Definition is_entry (V : Z → list Z) (x : inode) (name : list Z) (off : Z) : bool :=
  negb (de_inum (entry V x off) =? 0) && (namecmp name (de_name (entry V x off)) =? 0).
Definition dir_find (V : Z → list Z) (x : inode) (name : list Z) : option Z :=
  List.find (is_entry V x name) (dir_offsets (i_size x)).

(** A directory: a whole file of entries. *)
Record dir_ok (V : Z → list Z) (x : inode) : Prop := {
  do_type : i_type x = T_DIR;
  do_whole : whole V x;
  do_size : 0 ≤ i_size x < 2 ^ 32;
  do_ents : (DIRENT | i_size x)
}.

Lemma dir_offsets_in x V off : dir_ok V x → off ∈ dir_offsets (i_size x) → 0 ≤ off ∧ off + DIRENT ≤ i_size x.
Proof.
  intros [_ _ Hs [k Hk]] Hin. rewrite /dir_offsets in Hin. apply list_elem_of_fmap in Hin as (i & -> & Hi%elem_of_seqZ).
  rewrite Hk /DIRENT in Hi |- *. assert ((k * 16 + 16 - 1) / 16 = k) as E.
  { symmetry. apply (Z.div_unique_pos _ _ _ 15); lia. }
  rewrite E in Hi. lia.
Qed.

Section dir.
Context (dv : Z) (p : nat) (R : nat → Z) (V : Z → list Z).
Notation fc := (fc_inv dv p [] R V).

Lemma readi_entry s dp off :
  fc s → room s → i_dev (inode_at s dp) = dv → dir_ok V (inode_at s dp) → off ∈ dir_offsets (i_size (inode_at s dp)) →
  wp (readi_local dp off DIRENT) (λ r s', r = (DIRENT, entry V (inode_at s dp) off) ∧ fc s' ∧ room s' ∧
    k_mem s' = k_mem s ∧ quiet dv R s s') s.
Proof.
  intros I Hroom Hd Hok Hin. destruct (dir_offsets_in _ V off Hok Hin) as [Ho Hlim]. destruct Hok as [_ Hw Hs _].
  rewrite /DIRENT in Hlim. wp_use (readi_gen_spec dv p R V _ _ DIRENT dp s off DIRENT (local_sink p DIRENT)); [done..|lia|done|lia|].
  intros r s' (got & Eg & -> & I' & Hroom' & Em & Ei).
  assert (readable (inode_at s dp) off DIRENT = DIRENT) as E.
  { rewrite /readable /DIRENT. destruct (Z.ltb_spec (i_size (inode_at s dp)) off); [lia|].
    destruct (Z.leb_spec (2 ^ 32) (off + 16)); [lia|]. cbn [orb]. lia. }
  rewrite E in Eg. rewrite Eg. by split_and!.
Qed.

Lemma inodes_at s s' i : k_inodes s' = k_inodes s → inode_at s' i = inode_at s i.
Proof. by rewrite /inode_at => ->. Qed.

(** iget() has an entry for the inode. *)
Definition iget_room (s : kstate) (inum : Z) : Prop :=
  (∃ i, (i < NINODE)%nat ∧ i_ref (inode_at s i) = 0) ∨
  (∃ i, (i < NINODE)%nat ∧ live s i ∧ i_dev (inode_at s i) = dv ∧ i_inum (inode_at s i) = inum).

(** What dirlookup() returns for the entry at [off], if there is one. *)
Definition looked_up (s : kstate) (x : inode) (o : option Z) (r : option (nat * Z)) (s' : kstate) : Prop :=
  match o with
  | None => r = None ∧ quiet dv R s s'
  | Some off => ∃ ip, r = Some (ip, off) ∧ (ip < NINODE)%nat ∧ itable_ok s' ∧
      i_dev (inode_at s' ip) = dv ∧ i_inum (inode_at s' ip) = de_inum (entry V x off) ∧
      i_ref (inode_at s' ip) = i_ref (inode_at s ip) + 1 ∧ (∀ j, j ≠ ip → inode_at s' j = inode_at s j)
  end.

Lemma dirlookup_loop_spec dp x name offs s :
  fc s → room s → inode_at s dp = x → i_dev x = dv → dir_ok V x → itable_ok s →
  (∀ off, off ∈ offs → off ∈ dir_offsets (i_size x)) →
  (∀ off, List.find (is_entry V x name) offs = Some off → iget_room s (de_inum (entry V x off))) →
  wp (dirlookup_loop offs dp name) (λ r s', looked_up s x (List.find (is_entry V x name) offs) r s' ∧
    fc s' ∧ room s' ∧ k_mem s' = k_mem s) s.
Proof.
  revert s; induction offs as [|off offs IH]; intros s I Hroom Hx Hd Hok Ht Hin Hfind; cbn [dirlookup_loop List.find].
  { apply wp_ret. split_and!; [split; [done|apply quiet_refl]|done..]. }
  cbn [List.find] in Hfind. pose proof (Hin off ltac:(left)) as Hoff. apply wp_bind.
  wp_use (readi_entry s dp off I Hroom); [by rewrite Hx|by rewrite Hx|by rewrite Hx|].
  intros r s1 (-> & I1 & Hroom1 & Em & Q1). destruct (quiet_fields _ _ _ _ Q1) as (Ei & _). cbn [fst snd]. rewrite Z.eqb_refl Hx. cbn [negb].
  assert (∀ i, inode_at s1 i = inode_at s i) as Eat by (intros; by apply inodes_at).
  assert (itable_ok s1) as Ht1.
  { destruct Ht as [T1 T2]. split; [intros i; rewrite Eat; apply T1|]. intros i j. rewrite /live !Eat. apply T2. }
  assert (∀ inum, iget_room s inum → iget_room s1 inum) as Hrm.
  { rewrite /iget_room /live. intros inum H. by setoid_rewrite Eat. }
  assert (is_entry V x name off = false → wp (dirlookup_loop offs dp name) (λ r s', looked_up s x (List.find (is_entry V x name) offs) r s' ∧
    fc s' ∧ room s' ∧ k_mem s' = k_mem s) s1) as Hrest.
  { intros Hno. rewrite Hno in Hfind. wp_use (IH s1 I1 Hroom1); [by rewrite Eat|done|done|done| |by eauto|].
    - intros off' Hin'. apply Hin. by right.
    - intros r s' (Hl & I' & Hr' & Em'). split_and!; [|done|done|congruence]. revert Hl. rewrite /looked_up.
      destruct (List.find _ _); [|intros [-> E]; split; [done|by apply (quiet_trans dv R s s1)]].
      intros (ip & -> & ? & ? & ? & ? & Hr & Hj). exists ip. rewrite Eat in Hr. setoid_rewrite Eat in Hj. by split_and!. }
  revert Hrest Hfind. rewrite /is_entry. destruct (Z.eqb_spec (de_inum (entry V x off)) 0) as [E0|E0]; [intros Hrest _; by apply Hrest|].
  destruct (Z.eqb_spec (namecmp name (de_name (entry V x off))) 0) as [En|En]; [|intros Hrest _; by apply Hrest].
  cbn [negb andb]. intros _ Hfind. pose proof (Hfind off eq_refl) as Hroomi. apply wp_bind, wp_gets. rewrite Eat Hx Hd. apply wp_bind.
  wp_use (iget_table dv (de_inum (entry V x off)) s1 Ht1).
  { rewrite (fi_locks _ _ _ _ _ _ I1). apply not_elem_of_nil. }
  { exact (Hrm _ Hroomi). }
  intros ip s2 (Hip & Ht2 & _ & Hd2 & Hi2 & Hr2 & _ & Hj & Es2). apply wp_ret. rewrite Eat in Hr2. setoid_rewrite Eat in Hj.
  split_and!; [by exists ip| | |rewrite Es2; exact Em].
  - rewrite Es2. destruct I1 as [[l Hl] C Hcur Hlk]. split; [by exists l| |done|done]. by apply (fc_core_ext dv p [] R V s1).
  - by rewrite Es2.
Qed.
End dir.

(** ** The theorems *)

(** C37: readi() into kernel memory copies exactly the bytes of the file: of the
    [n] bytes asked for at [off] it gets those before the end of the file (none
    if [off] is past it or [off + n] overflows), puts them at [dst], and returns
    their number.  Nothing else changes: the cache shows every block as before. *)
Theorem readi_reads dv p R V s ip dst off n :
  fc_inv dv p [] R V s → room s → i_dev (inode_at s ip) = dv → whole V (inode_at s ip) →
  0 ≤ i_size (inode_at s ip) < 2 ^ 32 → 0 ≤ off < 2 ^ 32 → 0 ≤ n < 2 ^ 32 → 0 ≤ dst → dst + n < 2 ^ 64 →
  wp (readi ip false dst off n) (λ r s', r = readable (inode_at s ip) off n ∧
    k_mem s' = wr_bytes (k_mem s) dst (fbytes V (inode_at s ip) off r) ∧
    fc_inv dv p [] R V s' ∧ room s' ∧ quiet dv R s s') s.
Proof.
  intros I Hroom Hd Hw Hs Ho Hn Hdst Hlim. rewrite /readi. apply wp_bind.
  wp_use (readi_gen_spec dv p R V _ _ n ip s off n (kernel_sink p dst n Hdst Hlim)); [done..|lia|].
  intros r s' (got & Eg & -> & I' & Hroom' & Em & Ei). apply wp_ret. cbn [fst].
  rewrite Z.add_0_r u64_id in Em; [lia|]. by rewrite Eg in Em |- *.
Qed.

(** C38: dirlookup() finds the entry of a name: if the directory has an entry in
    use with the name, it returns the offset of the first one and an entry of
    the inode table for its inode, with one more reference and no duplicate; if
    it has none, it returns 0 and nothing changes. *)
Theorem dirlookup_finds dv p R V s dp name :
  fc_inv dv p [] R V s → room s → i_dev (inode_at s dp) = dv → dir_ok V (inode_at s dp) → itable_ok s →
  (∀ off, dir_find V (inode_at s dp) name = Some off → iget_room dv s (de_inum (entry V (inode_at s dp) off))) →
  wp (dirlookup dp name) (λ r s',
    looked_up dv R V s (inode_at s dp) (dir_find V (inode_at s dp) name) r s' ∧
    fc_inv dv p [] R V s' ∧ room s' ∧ k_mem s' = k_mem s) s.
Proof.
  intros I Hroom Hd Hok Ht Hi. rewrite /dirlookup. apply wp_bind, wp_gets. rewrite (do_type _ _ Hok). cbn [negb Z.eqb T_DIR].
  apply (dirlookup_loop_spec dv p R V dp (inode_at s dp)); auto.
Qed.

(** ** A small directory *)

(** The cache after binit() shows the blocks of the disk. *)
Lemma boot_view p s :
  k_bufs s = boot_bufs → (∀ n, length (block_at s n) = 1024%nat) → k_cur s = Some p → k_locks s = [] →
  fc_inv ROOTDEV p [] (λ _, 0) (block_at s) s ∧ room s.
Proof.
  intros Hb Hd Hc Hl. destruct (boot_bc s Hb Hd) as [[Hring _] Hroom].
  assert (∀ b, (b < NBUF)%nat → let x := buf_at s b in
    b_valid x = false ∧ b_dev x = 0 ∧ b_blockno x = 0 ∧ b_lock x = sleeplock0 ∧ b_refcnt x = 0 ∧ b_data x = zero_block) as Hf.
  { intros b Hlt. pose proof (boot_buf_core b (Nat.lt_le_incl _ _ Hlt)) as E. rewrite /buf_at Hb.
    revert E. generalize (default buf0 (boot_bufs !! b)). intros x E. exact (core_fields x buf0 E). }
  split; [|done]. split; [done| |done|done]. split.
  - intros b Hlt. by destruct (Hf b Hlt) as (_ & _ & _ & _ & _ & ->).
  - done.
  - intros b Hlt. destruct (Hf b Hlt) as (_ & -> & _). done.
  - intros b1 b2 n H1 _ [E _]. destruct (Hf b1 H1) as (_ & E' & _). by rewrite E' in E.
  - intros b Hlt. destruct (Hf b Hlt) as (_ & _ & _ & _ & E & _). split; [|lia]. rewrite E.
    destruct (decide (b ∈ [])) as [Hx%elem_of_nil|_]; [destruct Hx|reflexivity].
  - intros b Hlt _. by destruct (Hf b Hlt) as (_ & _ & _ & -> & _).
  - intros b n Hlt [E _]. destruct (Hf b Hlt) as (_ & E' & _). by rewrite E' in E.
  - done.
  - intros b n Hlt _ _ [E _]. destruct (Hf b Hlt) as (_ & E' & _). by rewrite E' in E.
  - intros b Hx. destruct (not_elem_of_nil b Hx).
Qed.

(** Inode 1 is a directory with the entries "." and "ab". *)
Definition dir_block : list Z := mk_dirent 1 [46] ++ mk_dirent 5 [97; 98] ++ replicate 992 0.
Definition dir_inode : inode := Inode 1 1 1 sleeplock0 true T_DIR 0 0 1 32 {[ 0 := 46 ]}.
Definition with_dir : kstate :=
  set_bufs boot_bufs (set_disk {[ 46 := dir_block ]} (set_inodes {[ 0%nat := dir_inode ]}
    (set_cur (Some 0%nat) kstate0))).

Lemma with_dir_view : fc_inv ROOTDEV 0 [] (λ _, 0) (block_at with_dir) with_dir ∧ room with_dir.
Proof.
  apply boot_view; [reflexivity| |reflexivity|reflexivity]. intros n. rewrite /block_at.
  change (k_disk with_dir) with ({[ 46 := dir_block ]} : gmap Z (list Z)). rewrite lookup_singleton. by case_decide.
Qed.
Lemma with_dir_inode : inode_at with_dir 0 = dir_inode.
Proof. reflexivity. Qed.
Lemma with_dir_whole : whole (block_at with_dir) (inode_at with_dir 0).
Proof.
  rewrite with_dir_inode. intros bn H0 H1. cbn [i_size dir_inode] in H1. rewrite /BSIZE in H1.
  assert (bn = 0) as -> by lia. split_and!; [done|rewrite /MAXFILE; done|done|done].
Qed.

Lemma one_inode_table s x : k_inodes s = {[ 0%nat := x ]} → 0 ≤ i_ref x → itable_ok s.
Proof.
  intros E Hx. assert (∀ i, inode_at s i = if decide (i = 0%nat) then x else inode0) as Hat.
  { intros i. rewrite /inode_at E. destruct i; [by rewrite lookup_singleton_eq|by rewrite lookup_singleton_ne]. }
  split; [intros i _; rewrite Hat; by case_decide|]. intros i j _ _. rewrite /live !Hat. by repeat case_decide; subst.
Qed.

Lemma readi_reads_witness :
  wp (readi 0 false 4096 16 100) (λ r s', r = readable (inode_at with_dir 0) 16 100 ∧
    k_mem s' = wr_bytes (k_mem with_dir) 4096 (fbytes (block_at with_dir) (inode_at with_dir 0) 16 r) ∧
    fc_inv ROOTDEV 0 [] (λ _, 0) (block_at with_dir) s' ∧ room s' ∧ quiet ROOTDEV (λ _, 0) with_dir s') with_dir.
Proof.
  apply (readi_reads ROOTDEV 0 (λ _, 0) (block_at with_dir) with_dir 0 4096 16 100); try (by vm_compute);
    [apply with_dir_view|apply with_dir_view|apply with_dir_whole].
Defined.

Lemma dirlookup_finds_witness :
  dir_find (block_at with_dir) (inode_at with_dir 0) [97; 98] = Some 16 ∧
  wp (dirlookup 0 [97; 98]) (λ r s',
    looked_up ROOTDEV (λ _, 0) (block_at with_dir) with_dir (inode_at with_dir 0)
      (dir_find (block_at with_dir) (inode_at with_dir 0) [97; 98]) r s' ∧
    fc_inv ROOTDEV 0 [] (λ _, 0) (block_at with_dir) s' ∧ room s' ∧ k_mem s' = k_mem with_dir) with_dir.
Proof.
  split; [by vm_compute|].
  apply (dirlookup_finds ROOTDEV 0 (λ _, 0) (block_at with_dir) with_dir 0 [97; 98]);
    [apply with_dir_view|apply with_dir_view|done| | |].
  - split; [done|apply with_dir_whole|done|by exists 2].
  - by apply (one_inode_table with_dir dir_inode).
  - intros off _. left. exists 1%nat. split; [unfold NINODE; lia|reflexivity].
Defined.
