(* ===== verification/Fswrite.v ===== *)
(** Transactions over the buffer cache: what bread(), log_write(), brelse() and
    balloc() of kernel/bio.c, kernel/log.c and kernel/fs.c do between begin_op()
    and end_op(), in terms of the blocks the cache shows (Cache.v), with the room
    they need in the log and among the buffers. *)
From S2P Require Import Prelude Riscv Mem State Sched Bytes Bio Walk Swap Log Fs Cache Fsread.

(** ** Contents of blocks *)

Definition vset (V : Z → list Z) (n : Z) (d : list Z) : Z → list Z := λ m, if decide (m = n) then d else V m.
Lemma vset_eq V n d : vset V n d n = d.
Proof. by rewrite /vset decide_True. Qed.
Lemma vset_ne V n d m : m ≠ n → vset V n d m = V m.
Proof. intros. by rewrite /vset decide_False. Qed.

(** One more reference. *)
Definition pin (b : nat) (R : nat → Z) : nat → Z := λ c, if decide (c = b) then R c + 1 else R c.

(** Buffers that can be recycled. *)
Definition frees (H : list nat) (R : nat → Z) : Z :=
  Z.of_nat (length (filter (λ b, R b = 0 ∧ b ∉ H) (seq 0 NBUF))).

Lemma filter_drop_one {A} `{EqDecision A} (P Q : A → Prop) `{∀ x, Decision (P x), ∀ x, Decision (Q x)} (l : list A) b :
  NoDup l → (∀ x, x ∈ l → x ≠ b → P x → Q x) → (length (filter P l) ≤ length (filter Q l) + 1)%nat.
Proof.
  intros Hnd HPQ. rewrite Nat.add_comm. change (length (filter P l) ≤ length (b :: filter Q l))%nat.
  apply submseteq_length, NoDup_submseteq; [by apply NoDup_filter|].
  intros x [Hx Hin]%list_elem_of_filter. destruct (decide (x = b)) as [->|]; [left|right].
  apply list_elem_of_filter. auto.
Qed.
Lemma frees_take H R b : frees H R ≤ frees (b :: H) R + 1.
Proof.
  rewrite /frees. pose proof (filter_drop_one (λ x, R x = 0 ∧ x ∉ H) (λ x, R x = 0 ∧ x ∉ b :: H) (seq 0 NBUF) b
    (NoDup_seq 0 NBUF)) as E. specialize (E ltac:(set_solver)). lia.
Qed.
Lemma frees_pin H R b : frees H R ≤ frees H (pin b R) + 1.
Proof.
  rewrite /frees. pose proof (filter_drop_one (λ x, R x = 0 ∧ x ∉ H) (λ x, pin b R x = 0 ∧ x ∉ H) (seq 0 NBUF) b
    (NoDup_seq 0 NBUF)) as E.
  assert (∀ x, x ∈ seq 0 NBUF → x ≠ b → R x = 0 ∧ x ∉ H → pin b R x = 0 ∧ x ∉ H) as HPQ.
  { intros x _ Hx [H1 H2]. split; [|done]. rewrite /pin decide_False //. }
  specialize (E HPQ). lia.
Qed.

(** ** Transactions *)

Section tx.
Context (dv : Z) (p : nat).

(** The blocks in the log are in buffers that are pinned. *)
Definition pinned (R : nat → Z) (s : kstate) : Prop :=
  ∀ i, 0 ≤ i < lg_n (k_log s) →
    ∃ b, (b < NBUF)%nat ∧ is_for dv (buf_at s b) (lh_block (k_log s) i) ∧ 1 ≤ R b.

Record tx (H : list nat) (R : nat → Z) (V : Z → list Z) (s : kstate) : Prop := {
  tx_fc : fc_inv dv p H R V s;
  tx_pins : pinned R s;
  tx_out : 1 ≤ lg_outstanding (k_log s);
  tx_n : 0 ≤ lg_n (k_log s) ≤ LOGSIZE;
  tx_small b : (b < NBUF)%nat → R b ≤ 2 ^ 30 + lg_n (k_log s)
}.

(** [k] more blocks fit into the log, and [j] buffers are left after they are
    pinned. *)
Definition budget (k j : Z) (H : list nat) (R : nat → Z) (s : kstate) : Prop :=
  lg_n (k_log s) + k ≤ LOGSIZE ∧ lg_n (k_log s) + k ≤ lg_size (k_log s) - 1 ∧ k + j ≤ frees H R.

(** At most [k] blocks were added to the log. *)
Definition spent (k : Z) (R : nat → Z) (s : kstate) (R' : nat → Z) (s' : kstate) : Prop :=
  lg_n (k_log s') ≤ lg_n (k_log s) + k ∧ lg_size (k_log s') = lg_size (k_log s) ∧
  ∀ H, frees H R ≤ frees H R' + k.

Lemma spent_trans k1 k2 R1 s1 R2 s2 R3 s3 :
  spent k1 R1 s1 R2 s2 → spent k2 R2 s2 R3 s3 → spent (k1 + k2) R1 s1 R3 s3.
Proof.
  intros (A1 & A2 & A3) (B1 & B2 & B3). split_and!; [lia|congruence|].
  intros H. specialize (A3 H). specialize (B3 H). lia.
Qed.
Lemma spent_mono k k' R s R' s' : k ≤ k' → spent k R s R' s' → spent k' R s R' s'.
Proof. intros Hk (A1 & A2 & A3). split_and!; [lia|done|]. intros H. specialize (A3 H). lia. Qed.
Lemma budget_spent k j c H R s R' s' : budget k j H R s → spent c R s R' s' → budget (k - c) j H R' s'.
Proof. intros (B1 & B2 & B3) (A1 & A2 & A3). specialize (A3 H). rewrite /budget A2. split_and!; lia. Qed.
Lemma budget_mono k k' j j' H R s : k' ≤ k → k' + j' ≤ k + j → budget k j H R s → budget k' j' H R s.
Proof. intros Hk Hj (B1 & B2 & B3). split_and!; lia. Qed.
Lemma budget_take k j H R s b : budget k (j + 1) H R s → budget k j (b :: H) R s.
Proof. intros (B1 & B2 & B3). pose proof (frees_take H R b). split_and!; lia. Qed.

(** The block is in the log. *)
Definition in_log (s : kstate) (n : Z) : Prop := ∃ i, 0 ≤ i < lg_n (k_log s) ∧ lh_block (k_log s) i = n.

(** Only the cache, the log, the state of sleeping processes and the inode [io]
    change. *)
Definition fs_only (io : option nat) (s s' : kstate) : Prop :=
  ∃ bs ps l im, s' = set_inodes im (set_log l (set_procs ps (set_bufs bs s))) ∧
    (∀ i, p_pid (proc_at s' i) = p_pid (proc_at s i)) ∧ ∀ j, io ≠ Some j → inode_at s' j = inode_at s j.
Lemma fs_only_trans io s1 s2 s3 : fs_only io s1 s2 → fs_only io s2 s3 → fs_only io s1 s3.
Proof.
  intros (b1 & p1 & l1 & i1 & -> & H1 & J1) (b2 & p2 & l2 & i2 & -> & H2 & J2). exists b2, p2, l2, i2. split; [done|].
  split; [intros i; by rewrite H2 H1|]. intros j Hj. by rewrite J2 // J1.
Qed.
Lemma fs_only_weaken ip s s' : fs_only None s s' → fs_only (Some ip) s s'.
Proof. intros (b1 & p1 & l1 & i1 & -> & H1 & J1). exists b1, p1, l1, i1. split_and!; [done..|]. intros j _. by apply J1. Qed.
Lemma cache_fs_only s s' : cache_only s s' → fs_only None s s'.
Proof. intros (bs & ps & -> & Hp). exists bs, ps, (k_log s), (k_inodes s). split_and!; [by destruct s|done|done]. Qed.
Lemma fs_only_fields io s s' : fs_only io s s' → k_mem s' = k_mem s ∧ k_sb s' = k_sb s ∧ k_disk s' = k_disk s.
Proof. by intros (bs & ps & l & im & -> & _). Qed.
Lemma fs_only_inode s s' i : fs_only None s s' → inode_at s' i = inode_at s i.
Proof. intros (bs & ps & l & im & -> & _ & Hi). by apply Hi. Qed.

(** The buffers of [H] keep their blocks. *)
Definition keeps_held (H : list nat) (s s' : kstate) : Prop :=
  ∀ b n, b ∈ H → is_for dv (buf_at s b) n → is_for dv (buf_at s' b) n.

(** A piece of a transaction that adds at most [k] blocks to the log. *)
Record did (io : option nat) (k : Z) (H : list nat) (R : nat → Z) (s : kstate) (R' : nat → Z) (s' : kstate) : Prop := {
  did_spent : spent k R s R' s';
  did_log n : in_log s n → in_log s' n;
  did_held : keeps_held H s s';
  did_frame : fs_only io s s'
}.
Lemma did_trans io k1 k2 H R1 s1 R2 s2 R3 s3 :
  did io k1 H R1 s1 R2 s2 → did io k2 H R2 s2 R3 s3 → did io (k1 + k2) H R1 s1 R3 s3.
Proof.
  intros [A1 A2 A3 A4] [B1 B2 B3 B4]. split; [exact (spent_trans _ _ _ _ _ _ _ _ A1 B1)|auto| |exact (fs_only_trans _ _ _ _ A4 B4)].
  intros b n Hb Hf. by apply B3, A3.
Qed.
Lemma did_mono io k k' H R s R' s' : k ≤ k' → did io k H R s R' s' → did io k' H R s R' s'.
Proof. intros Hk [A1 A2 A3 A4]. split; [exact (spent_mono _ _ _ _ _ _ Hk A1)|auto..]. Qed.
Lemma did_sub io k H b R s R' s' : did io k (b :: H) R s R' s' → did io k H R s R' s'.
Proof. intros [A1 A2 A3 A4]. split; [done..| |done]. intros c n Hc. apply A3. by right. Qed.
Lemma did_weaken ip k H R s R' s' : did None k H R s R' s' → did (Some ip) k H R s R' s'.
Proof. intros [A1 A2 A3 A4]. split; [done..|by apply fs_only_weaken]. Qed.

Lemma frees_room H R V s : fc_inv dv p H R V s → 0 < frees H R → room s.
Proof.
  intros I Hf. rewrite /frees in Hf.
  destruct (filter (λ b, R b = 0 ∧ b ∉ H) (seq 0 NBUF)) as [|b l] eqn:E; [simpl in Hf; lia|].
  assert (b ∈ filter (λ b, R b = 0 ∧ b ∉ H) (seq 0 NBUF)) as Hin by (rewrite E; left).
  apply list_elem_of_filter in Hin as [[HR HH] Hb%elem_of_seq]. exists b. split; [lia|].
  destruct (fc_ref _ _ _ _ _ _ (fi_core _ _ _ _ _ _ I) b) as [-> _]; [lia|]. rewrite decide_False //. lia.
Qed.

(** ** Changing a buffer *)

(** bp->data = d in a buffer the thread holds. *)
Lemma fc_store H R V s b n d :
  fc_inv dv p (b :: H) R V s → is_for dv (buf_at s b) n → length d = 1024%nat →
  fc_inv dv p (b :: H) R (vset V n d) (upd_buf b (set_b_data d) s).
Proof.
  intros [[l Hl] C Hcur Hlk] Hf Hd. set (s' := upd_buf _ _ _).
  destruct (fc_held _ _ _ _ _ _ C b) as (Hb & _); [left|].
  assert (buf_at s' b = set_b_data d (buf_at s b)) as Eb by by rewrite buf_at_upd decide_True.
  assert (∀ b', b' ≠ b → buf_at s' b' = buf_at s b') as En by (intros b' Hn; by rewrite buf_at_upd decide_False).
  assert (∀ b', b_valid (buf_at s' b') = b_valid (buf_at s b') ∧ b_dev (buf_at s' b') = b_dev (buf_at s b') ∧
    b_blockno (buf_at s' b') = b_blockno (buf_at s b') ∧ b_lock (buf_at s' b') = b_lock (buf_at s b') ∧
    b_refcnt (buf_at s' b') = b_refcnt (buf_at s b')) as Hsame.
  { intros b'. destruct (decide (b' = b)) as [->|]; [by rewrite Eb|by rewrite En]. }
  assert (∀ b' m, is_for dv (buf_at s' b') m ↔ is_for dv (buf_at s b') m) as Hi.
  { intros b' m. rewrite /is_for. by destruct (Hsame b') as (_ & -> & -> & _). }
  destruct C as [C1 C2 C3 C4 C5 C6 C7 C8 C9 C10]. split; [exists l; by apply bc_ring_upd| |done|done]. split.
  - intros b' Hb'. destruct (decide (b' = b)) as [->|]; [by rewrite Eb|rewrite En //; auto].
  - exact C2.
  - intros b'. destruct (Hsame b') as (-> & -> & _). apply C3.
  - intros b1 b2 m. rewrite !Hi. apply C4.
  - intros b' Hb'. destruct (Hsame b') as (_ & _ & _ & _ & ->). by apply C5.
  - intros b' Hb' Hin. destruct (Hsame b') as (_ & _ & _ & -> & _). by apply C6.
  - intros b' m Hb'. rewrite Hi. destruct (decide (b' = b)) as [->|Hn].
    + rewrite Eb. intros Hm. destruct Hf as [_ <-], Hm as [_ <-]. by rewrite vset_eq.
    + rewrite En //. intros Hm. rewrite vset_ne; [|by apply C7]. intros ->. by apply Hn, (C4 b' b n).
  - intros m Hu. assert (m ≠ n) as Hm by (intros ->; apply (Hu b Hb); by rewrite Hi).
    rewrite vset_ne //. apply C8. intros b' Hb'. rewrite -Hi. by apply Hu.
  - intros b' m Hb' Hin. rewrite Hi En; [set_solver|]. by apply C9.
  - intros b' Hin. destruct (Hsame b') as (_ & -> & _ & -> & _). by apply C10.
Qed.

(** b->refcnt++ *)
Definition add_ref (x : buf) : buf := set_b_refcnt (u32 (b_refcnt x + 1)) x.
Lemma fc_pin H R V s b :
  fc_inv dv p H R V s → (b < NBUF)%nat → R b + 2 < 2 ^ 31 → fc_inv dv p H (pin b R) V (upd_buf b add_ref s).
Proof.
  intros [[l Hl] C Hcur Hlk] Hb HR. set (s' := upd_buf _ _ _).
  assert (buf_at s' b = add_ref (buf_at s b)) as Eb by by rewrite buf_at_upd decide_True.
  assert (∀ b', b' ≠ b → buf_at s' b' = buf_at s b') as En by (intros b' Hn; by rewrite buf_at_upd decide_False).
  assert (∀ b', b_valid (buf_at s' b') = b_valid (buf_at s b') ∧ b_dev (buf_at s' b') = b_dev (buf_at s b') ∧
    b_blockno (buf_at s' b') = b_blockno (buf_at s b') ∧ b_lock (buf_at s' b') = b_lock (buf_at s b') ∧
    b_data (buf_at s' b') = b_data (buf_at s b')) as Hsame.
  { intros b'. destruct (decide (b' = b)) as [->|]; [by rewrite Eb|by rewrite En]. }
  assert (∀ b' m, is_for dv (buf_at s' b') m ↔ is_for dv (buf_at s b') m) as Hi.
  { intros b' m. rewrite /is_for. by destruct (Hsame b') as (_ & -> & -> & _). }
  destruct C as [C1 C2 C3 C4 C5 C6 C7 C8 C9 C10]. split; [exists l; by apply bc_ring_upd| |done|done]. split.
  - intros b'. destruct (Hsame b') as (_ & _ & _ & _ & ->). apply C1.
  - exact C2.
  - intros b'. destruct (Hsame b') as (-> & -> & _). apply C3.
  - intros b1 b2 m. rewrite !Hi. apply C4.
  - intros b' Hb'. destruct (C5 b' Hb') as [Er HRb]. rewrite /pin. destruct (decide (b' = b)) as [->|E].
    + rewrite Eb /add_ref /= Er. case_decide; rewrite u32_id; lia.
    + rewrite En //.
  - intros b' Hb' Hin. destruct (Hsame b') as (_ & _ & _ & -> & _). by apply C6.
  - intros b' m. rewrite Hi. destruct (Hsame b') as (_ & _ & _ & _ & ->). apply C7.
  - intros m Hu. apply C8. intros b' Hb'. rewrite -Hi. by apply Hu.
  - intros b' m Hb' Hin. rewrite Hi /pin. destruct (Hsame b') as (_ & _ & _ & _ & ->). case_decide as E.
    + subst. destruct (C5 b Hb) as [_ ?]. lia.
    + by apply C9.
  - intros b' Hin. destruct (Hsame b') as (_ & -> & _ & -> & _). by apply C10.
Qed.

Lemma fc_log H R V s l : fc_inv dv p H R V s → fc_inv dv p H R V (set_log l s).
Proof. intros [[ls Hl] C Hcur Hlk]. split; [by exists ls| |done|done]. by apply (fc_core_ext dv p H R V s). Qed.

(** bpin() while the log is locked. *)
Lemma bpin_eq b s : k_locks s = [log_lock] → bpin b s = Ok tt (upd_buf b add_ref s).
Proof.
  intros Hl. rewrite /bpin {1}/bind acquire_eq; [rewrite Hl; set_solver|]. rewrite /bind /modify Hl.
  rewrite (release_eq bcache_lock [log_lock]); [reflexivity|set_solver|]. rewrite /add_ref. kstate_eq.
Qed.

(** log_write() of a buffer the thread holds: the block is in the log and the
    buffer is pinned. *)
Lemma log_write_tx H R V s b n :
  tx (b :: H) R V s → is_for dv (buf_at s b) n →
  lg_n (k_log s) + 1 ≤ LOGSIZE → lg_n (k_log s) + 1 ≤ lg_size (k_log s) - 1 →
  wp (log_write b) (λ _ s', ∃ R' k, tx (b :: H) R' V s' ∧ 1 ≤ R' b ∧ 0 ≤ k ≤ 1 ∧ (in_log s n → k = 0) ∧
    did None k (b :: H) R s R' s' ∧ in_log s' n) s.
Proof.
  intros [I Hpins Hout Hn Hsm] Hf Hroom1 Hroom2. set (l := k_log s) in *.
  pose proof (fi_locks _ _ _ _ _ _ I) as Hlk. destruct (fc_held _ _ _ _ _ _ (fi_core _ _ _ _ _ _ I) b) as (Hb & _); [left|].
  rewrite /log_write /get_log /mod_log. cbn [io_acquire io_release io_log io_set_log io_blockno io_bpin kernel_env].
  apply wp_bind, wp_acquire; [rewrite Hlk; apply not_elem_of_nil|]. rewrite Hlk. apply wp_bind, wp_gets.
  change (k_log (set_locks [log_lock] s)) with l.
  rewrite (proj2 (Z.leb_gt LOGSIZE (lg_n l))); [lia|]. rewrite (proj2 (Z.leb_gt (lg_size l - 1) (lg_n l))); [lia|].
  rewrite (proj2 (Z.ltb_ge (lg_outstanding l) 1)); [lia|]. cbn [orb].
  apply wp_bind, wp_gets, wp_bind, wp_modify. change (buf_at (set_locks [log_lock] s) b) with (buf_at s b).
  destruct Hf as [Hdev Hbn]. rewrite Hbn. change (k_log (set_locks [log_lock] s)) with l.
  pose proof (log_index_spec l n (Z.to_nat (lg_n l)) 0) as (R1 & R2 & R3).
  set (i := log_index _ 0 l n) in *. clearbody i.
  assert (0 + Z.of_nat (Z.to_nat (lg_n l)) = lg_n l) as En by lia. rewrite En in R1, R2, R3.
  set (l1 := set_lg_block (<[i := n]> (lg_block l)) l).
  apply wp_bind, wp_when; intros Hi.
  - apply Z.eqb_eq in Hi. apply wp_bind. eapply wp_eq; [by apply bpin_eq|]. apply wp_modify.
    set (l2 := set_lg_n (lg_n l + 1) l1).
    assert (∀ j, lh_block l2 j = if decide (j = lg_n l) then n else lh_block l j) as Hlb.
    { intros j. rewrite /lh_block /l2 /l1 /= Hi. case_decide; subst; [by rewrite lookup_insert_eq|].
      rewrite lookup_insert_ne; [congruence|done]. }
    eapply (wp_release log_lock []); [done|apply not_elem_of_nil|].
    set (s' := set_locks [] _).
    assert (s' = set_log l2 (upd_buf b add_ref s)) as Es'.
    { rewrite /s' /l2 /l1 /l. destruct s; cbn in Hlk; subst. reflexivity. }
    clearbody s'. subst s'. exists (pin b R), 1.
    assert (∀ c m, is_for dv (buf_at s c) m → is_for dv (buf_at (upd_buf b add_ref s) c) m) as Hkeep.
    { intros c m. rewrite buf_at_upd. case_decide; by subst. }
    destruct (fc_ref _ _ _ _ _ _ (fi_core _ _ _ _ _ _ I) b Hb) as [_ HRb].
    split_and!.
    + split.
      * apply fc_log, fc_pin; [done|done|]. specialize (Hsm b Hb). rewrite /LOGSIZE /MAXOPBLOCKS in Hn. lia.
      * intros j Hj. change (0 ≤ j < lg_n l + 1) in Hj. rewrite Hlb. case_decide as E.
        -- exists b. split; [done|]. split; [by apply Hkeep|]. rewrite /pin decide_True //. lia.
        -- destruct (Hpins j ltac:(fold l; lia)) as (c & Hc & Hfc & HRc). exists c. split; [done|]. split; [by apply Hkeep|].
           rewrite /pin. case_decide; lia.
      * done.
      * change (0 ≤ lg_n l + 1 ≤ LOGSIZE). lia.
      * intros c Hc. specialize (Hsm c Hc). change (lg_n (k_log (set_log l2 (upd_buf b add_ref s)))) with (lg_n l + 1).
        rewrite /pin. case_decide; lia.
    + rewrite /pin decide_True //. lia.
    + done.
    + done.
    + intros (j & Hj & E). destruct (R3 Hi j Hj E).
    + split.
      * split_and!; [change (lg_n l + 1 ≤ lg_n l + 1); lia|done|intros H'; apply frees_pin].
      * intros m (j & Hj & E). fold l in Hj, E. exists j. split; [change (0 ≤ j < lg_n l + 1); lia|].
        change (lh_block l2 j = m). rewrite Hlb decide_False //. lia.
      * intros c m _. apply Hkeep.
      * eexists _, (k_procs s), l2, (k_inodes s). split_and!; [|done|done]. by destruct s.
    + exists (lg_n l). split; [change (0 ≤ lg_n l < lg_n l + 1); lia|]. change (lh_block l2 (lg_n l) = n). by rewrite Hlb decide_True.
  - apply Z.eqb_neq in Hi.
    assert (∀ j, lh_block l1 j = lh_block l j) as Hlb.
    { intros j. rewrite /lh_block /l1 /=. destruct (decide (j = i)) as [->|Hne].
      - rewrite lookup_insert_eq /=. symmetry. apply R2. lia.
      - rewrite lookup_insert_ne; [congruence|done]. }
    eapply (wp_release log_lock []); [done|apply not_elem_of_nil|].
    set (s' := set_locks [] _).
    assert (s' = set_log l1 s) as Es'.
    { rewrite /s' /l1 /l. destruct s; cbn in Hlk; subst. reflexivity. }
    assert (in_log s n) as Hin by (exists i; fold l; split; [lia|apply R2; lia]).
    assert (∀ m, in_log s m → in_log (set_log l1 s) m) as Hmono.
    { intros m (j & Hj & E). exists j. split; [exact Hj|]. change (lh_block l1 j = m). by rewrite Hlb. }
    clearbody s'. subst s'. exists R, 0. split_and!; [|..|done|done|done| |by apply Hmono].
    + split; [by apply fc_log| |done|done|done]. intros j Hj. rewrite Hlb. exact (Hpins j Hj).
    + destruct (Hpins i ltac:(fold l; lia)) as (c & Hc & Hfc & HRc). fold l in Hfc. rewrite R2 in Hfc; [lia|].
      by rewrite (fc_uniq _ _ _ _ _ _ (fi_core _ _ _ _ _ _ I) b c n Hb Hc (conj Hdev Hbn) Hfc).
    + split; [|done|by intros c m|].
      * split_and!; [change (lg_n l ≤ lg_n l + 0); lia|done|intros H'; lia].
      * exists (k_bufs s), (k_procs s), l1, (k_inodes s). split_and!; [by destruct s|done|done].
Qed.
(** ** Reading and writing a block *)

Lemma bread_tx H R V s n :
  tx H R V s → 1 ≤ frees H R → (∀ b, b ∈ H → ¬ is_for dv (buf_at s b) n) →
  wp (bread dv n) (λ b s', tx (b :: H) R V s' ∧ b ∉ H ∧ is_for dv (buf_at s' b) n ∧ b_data (buf_at s' b) = V n ∧
    (R b = 0 → V n = block_at s' n) ∧ did None 0 H R s R s' ∧ k_log s' = k_log s) s.
Proof.
  intros [I Hpins Hout Hn Hsm] Hfree Hheld.
  wp_use (bread_general dv p H R V s n I); [left; apply (frees_room H R V s I); lia|done|].
  intros b s' (x & Es & Hb & HbH & Hg & I' & Hclean & Hcase). destruct Hg as (_ & _ & _ & Hf & _ & _ & Hdata).
  assert (buf_at s' b = x) as Eb by by rewrite Es buf_at_upd decide_True.
  assert (∀ c, c ≠ b → buf_at s' c = buf_at s c) as Ec by (intros c Hc; by rewrite Es buf_at_upd decide_False).
  assert (k_log s' = k_log s ∧ block_at s' n = block_at s n) as [El Ebl] by by rewrite Es.
  rewrite Ebl Eb. split_and!; [|done..| |done].
  - split; [done| |by rewrite El..]. intros i. rewrite El. intros Hi. destruct (Hpins i Hi) as (c & Hc & Hfc & HR).
    exists c. split; [done|]. split; [|done]. destruct (decide (c = b)) as [->|Hne]; [|by rewrite Ec].
    rewrite Eb. destruct Hcase as [[Hd1 Hd2]|]; [|lia]. destruct Hfc as [_ <-]. by rewrite Hd2.
  - split; [|by rewrite /in_log El| |].
    + split_and!; [rewrite El; lia|by rewrite El|intros; lia].
    + intros c m Hc. rewrite Ec //. by intros ->.
    + apply cache_fs_only. rewrite Es. by eexists _, (k_procs s).
Qed.

Lemma brelse_tx H R V s b n :
  tx (b :: H) R V s → b ∉ H → is_for dv (buf_at s b) n → (R b = 0 → V n = block_at s n) →
  wp (brelse b) (λ _ s', tx H R V s' ∧ did None 0 H R s R s' ∧ k_log s' = k_log s) s.
Proof.
  intros [I Hpins Hout Hn Hsm] HbH Hf Hclean.
  destruct (fc_held _ _ _ _ _ _ (fi_core _ _ _ _ _ _ I) b) as (Hb & _); [left|].
  wp_use (brelse_general dv p H R V s b n I HbH Hf).
  { intros HR. rewrite (fc_hit _ _ _ _ _ _ (fi_core _ _ _ _ _ _ I) b n Hb Hf). by apply Hclean. }
  intros [] s' (I' & Hc & _ & _ & Hkeep).
  assert (k_log s' = k_log s) as El by by destruct Hc as (bs & ps & -> & _).
  split_and!; [| |done].
  - split; [done| |by rewrite El..]. intros i. rewrite El. intros Hi. destruct (Hpins i Hi) as (c & Hcb & Hfc & HR).
    exists c. split; [done|]. split; [by apply Hkeep|done].
  - split; [|by rewrite /in_log El|intros c m _; apply Hkeep|by apply cache_fs_only].
    split_and!; [rewrite El; lia|by rewrite El|intros; lia].
Qed.

(** mod_data(), log_write(): the block has new contents. *)
Lemma store_tx H R V s b n f :
  tx (b :: H) R V s → is_for dv (buf_at s b) n → b_data (buf_at s b) = V n → length (f (V n)) = 1024%nat →
  budget 1 0 (b :: H) R s →
  wp (mod_data b f;; log_write b) (λ _ s', ∃ R' k, tx (b :: H) R' (vset V n (f (V n))) s' ∧
    is_for dv (buf_at s' b) n ∧ 1 ≤ R' b ∧ 0 ≤ k ≤ 1 ∧ (in_log s n → k = 0) ∧ did None k (b :: H) R s R' s' ∧ in_log s' n) s.
Proof.
  intros [I Hpins Hout Hn Hsm] Hf Hdata Hlen (B1 & B2 & B3). apply wp_bind, wp_modify.
  set (s1 := upd_buf b _ s).
  assert (s1 = upd_buf b (set_b_data (f (V n))) s) as Es by by rewrite /s1 /upd_buf Hdata.
  assert (∀ c m, is_for dv (buf_at s c) m → is_for dv (buf_at s1 c) m) as Hkeep.
  { intros c m. rewrite Es buf_at_upd. case_decide; by subst. }
  assert (k_log s1 = k_log s) as El by done. clearbody s1.
  wp_use (log_write_tx H R (vset V n (f (V n))) s1 b n); [|by apply Hkeep|rewrite El; lia|rewrite El; lia|].
  - split; [rewrite Es; by apply fc_store| |by rewrite El..]. intros i. rewrite El. intros Hi.
    destruct (Hpins i Hi) as (c & Hc & Hfc & HR). exists c. split; [done|]. split; [by apply Hkeep|done].
  - intros [] s' (R' & k & T' & HR & Hk & Hk0 & D & Hin). exists R', k.
    assert (did None k (b :: H) R s R' s') as D'.
    { destruct D as [(D1 & D2 & D3) Dl Dh Df]. split.
      - rewrite El in D1, D2. by split_and!.
      - intros m Hm. apply Dl. by rewrite /in_log El.
      - intros c m Hc Hm. apply Dh; [done|]. by apply Hkeep.
      - apply (fs_only_trans _ s s1); [|done]. rewrite Es. exists (k_bufs (upd_buf b (set_b_data (f (V n))) s)), (k_procs s), (k_log s), (k_inodes s).
        split_and!; [by destruct s|done|done]. }
    assert (is_for dv (buf_at s' b) n) as Hf' by (apply (did_held _ _ _ _ _ _ _ D' b n); [left|done]).
    split_and!; [done|done|done|lia|lia| |done|done].
    intros Hs. apply Hk0. by rewrite /in_log El.
Qed.

Lemma wp_seq {A} (m1 m2 : K unit) (m3 : K A) Q s : wp (m1;; m2) (λ _ s', wp m3 Q s') s → wp (m1;; m2;; m3) Q s.
Proof.
  intros ([] & s2 & E & HQ). revert E. rewrite /bind. destruct (m1 s) as [[] s1| | |] eqn:E1; try done. intros E2.
  apply wp_bind. eapply wp_eq; [exact E1|]. apply wp_bind. by eapply wp_eq; [exact E2|].
Qed.

(** bread(), change, log_write(), brelse() *)
Lemma update_tx H R V s n f :
  tx H R V s → budget 1 1 H R s → (∀ b, b ∈ H → ¬ is_for dv (buf_at s b) n) → length (f (V n)) = 1024%nat →
  wp (bp ← bread dv n; mod_data bp f;; log_write bp;; brelse bp) (λ _ s', ∃ R' k, tx H R' (vset V n (f (V n))) s' ∧
    0 ≤ k ≤ 1 ∧ (in_log s n → k = 0) ∧ did None k H R s R' s' ∧ in_log s' n) s.
Proof.
  intros T B Hheld Hlen. apply wp_bind. wp_use (bread_tx H R V s n T); [destruct B; lia|done|].
  intros b s1 (T1 & HbH & Hf & Hdata & _ & D1 & El).
  assert (budget 1 0 (b :: H) R s1) as B1.
  { apply budget_take. destruct B as (B1 & B2 & B3). rewrite /budget El. split_and!; lia. }
  pose proof (store_tx H R V s1 b n f T1 Hf Hdata Hlen B1) as Hs.
  apply wp_seq. wp_use Hs. intros [] s2 (R' & k & T2 & Hf2 & HR & Hk & Hk0 & D2 & Hin).
  wp_use (brelse_tx H R' (vset V n (f (V n))) s2 b n T2 HbH Hf2); [lia|].
  intros [] s3 (T3 & D3 & El3). exists R', k. split_and!; [done|lia|lia| | |].
  - intros Hi. apply Hk0. by rewrite /in_log El.
  - apply (did_mono _ (0 + k + 0)); [lia|]. eapply did_trans; [|exact D3]. eapply did_trans; [exact D1|].
    by apply (did_sub _ _ _ b).
  - by apply (did_log _ _ _ _ _ _ _ D3).
Qed.

(** ** balloc() *)

Lemma held_back io k H R V s R' s' b q :
  tx H R V s → did io k H R s R' s' → b ∈ H → is_for dv (buf_at s' b) q → is_for dv (buf_at s b) q.
Proof.
  intros T D Hb [_ Hq]. destruct (fc_held _ _ _ _ _ _ (fi_core _ _ _ _ _ _ (tx_fc _ _ _ _ T)) b Hb) as (_ & Hd & _).
  pose proof (did_held _ _ _ _ _ _ _ D b (b_blockno (buf_at s b)) Hb (conj Hd eq_refl)) as [_ E]. split; [done|congruence].
Qed.

(** The bit of a block in the bitmap. *)
Definition bused (V : Z → list Z) (sb : superblock) (m : Z) : bool := bit_used (V (BBLOCK m sb)) (m mod BPB).
(** The first block after the bitmap. *)
Definition dstart (sb : superblock) : Z := sb_bmapstart sb + (sb_size sb + BPB - 1) / BPB.
(** Marked in use and cleared. *)
Definition alloc (V : Z → list Z) (sb : superblock) (a : Z) : Z → list Z :=
  vset (vset V (BBLOCK a sb) (bit_set (V (BBLOCK a sb)) (a mod BPB))) a zero_block.

(** The blocks up to the end of the bitmap are in use. *)
Record disk_ok (V : Z → list Z) (sb : superblock) : Prop := {
  dk_start : 0 < sb_bmapstart sb < dstart sb;
  dk_size : dstart sb ≤ sb_size sb;
  dk_max : sb_size sb < 2 ^ 32;
  dk_meta m : 0 ≤ m < dstart sb → bused V sb m = true;
  dk_len m : length (V m) = 1024%nat
}.

Lemma bblock_range sb m : 0 < sb_bmapstart sb → 0 ≤ m < sb_size sb → sb_bmapstart sb ≤ BBLOCK m sb < dstart sb.
Proof.
  intros Hs Hm. rewrite /BBLOCK /dstart. change BPB with 8192.
  assert (0 ≤ m / 8192) by (apply Z.div_pos; lia).
  assert (m / 8192 < (sb_size sb + 8192 - 1) / 8192); [|lia].
  apply Z.div_lt_upper_bound; [lia|]. pose proof (Z.div_mod (sb_size sb + 8192 - 1) 8192 ltac:(done)).
  pose proof (Z.mod_pos_bound (sb_size sb + 8192 - 1) 8192 ltac:(done)). lia.
Qed.

(** Only the bit of the block changes in the bitmap. *)
Lemma alloc_bused V sb a m : disk_ok V sb → bused V sb a = false → 0 ≤ a < sb_size sb → 0 ≤ m < sb_size sb →
  bused (alloc V sb a) sb m = (m =? a) || bused V sb m.
Proof.
  intros [D1 D2 D0 D3 D4] Ha Hra Hrm. rewrite /bused /alloc.
  assert (a ≠ BBLOCK m sb).
  { intros E. rewrite D3 in Ha; [|done]. pose proof (bblock_range sb m (proj1 D1) Hrm). lia. }
  rewrite vset_ne; [congruence|]. destruct (decide (BBLOCK m sb = BBLOCK a sb)) as [E|E].
  - rewrite E vset_eq bit_set_spec.
    + rewrite D4. change BPB with 8192. pose proof (Z.mod_pos_bound a 8192 ltac:(done)). lia.
    + apply Z.mod_pos_bound. done.
    + f_equal. rewrite /BBLOCK in E. destruct (Z.eqb_spec m a) as [->|Hne]; [apply Z.eqb_refl|].
      apply Z.eqb_neq. intros E'. apply Hne. rewrite (Z.div_mod m BPB) // (Z.div_mod a BPB) //. rewrite E'. f_equal. f_equal. lia.
  - rewrite vset_ne //. destruct (Z.eqb_spec m a) as [->|]; done.
Qed.
Lemma length_alloc V sb a m : (∀ m, length (V m) = 1024%nat) → length (alloc V sb a m) = 1024%nat.
Proof.
  intros Hl. rewrite /alloc /vset. case_decide; [done|]. case_decide; [|done].
  rewrite /bit_set /set_byte length_insert. apply Hl.
Qed.
Lemma alloc_ok V sb a : disk_ok V sb → bused V sb a = false → 0 ≤ a < sb_size sb → disk_ok (alloc V sb a) sb.
Proof.
  intros D Ha Hr. pose proof D as [D1 D2 D0 D3 D4]. split; [done..| |intros; by apply length_alloc].
  intros m Hm. rewrite alloc_bused //; [lia|]. rewrite D3 // orb_true_r //.
Qed.
Lemma alloc_fresh V sb a : disk_ok V sb → bused V sb a = false → 0 ≤ a < sb_size sb → dstart sb ≤ a.
Proof. intros D Ha Hr. destruct (decide (dstart sb ≤ a)); [done|]. rewrite (dk_meta _ _ D a) in Ha; [lia|done]. Qed.
Lemma alloc_keeps V sb a m : m ≠ a → m ≠ BBLOCK a sb → alloc V sb a m = V m.
Proof. intros. rewrite /alloc !vset_ne //. Qed.

Section balloc.
Context (sb : superblock).

(** What the thread holds are data blocks in use. *)
Definition held_ok (H : list nat) (V : Z → list Z) (s : kstate) : Prop :=
  ∀ b m, b ∈ H → is_for dv (buf_at s b) m → dstart sb ≤ m < sb_size sb ∧ bused V sb m = true.

Lemma balloc_loop_spec H R V k : ∀ i s,
  tx H R V s → k_sb s = sb → disk_ok V sb → budget 2 1 H R s → held_ok H V s → 0 ≤ i →
  (i + Z.of_nat k = (sb_size sb + BPB - 1) / BPB) →
  (∃ m, i * BPB ≤ m < sb_size sb ∧ bused V sb m = false) →
  wp (balloc_loop ((λ i, i * BPB) <$> seqZ i (Z.of_nat k)) dv) (λ a s', ∃ R', dstart sb ≤ a < sb_size sb ∧ bused V sb a = false ∧
    tx H R' (alloc V sb a) s' ∧ did None 2 H R s R' s' ∧ in_log s' a) s.
Proof.
  induction k as [|k IH]; intros i s T Esb D B Hh Hi Hend (m & Hm & Hmf).
  { exfalso. change BPB with 8192 in *. pose proof (Z.div_mod (sb_size sb + 8192 - 1) 8192 ltac:(done)).
    pose proof (Z.mod_pos_bound (sb_size sb + 8192 - 1) 8192 ltac:(done)). lia. }
  rewrite seqZ_cons; [lia|]. cbn [fmap list_fmap balloc_loop]. rewrite (_ : Z.pred (Z.of_nat (S k)) = Z.of_nat k); [lia|].
  assert (BBLOCK (i * BPB) sb = i + sb_bmapstart sb) as Ebb by (rewrite /BBLOCK Z.div_mul //).
  assert (dstart sb = sb_bmapstart sb + (i + Z.of_nat (S k))) as Eds by (rewrite /dstart Hend //).
  assert (∀ b, b ∈ H → ¬ is_for dv (buf_at s b) (BBLOCK (i * BPB) sb)) as Hno.
  { intros b Hb Hf. destruct (Hh b _ Hb Hf). lia. }
  apply wp_bind, wp_gets. rewrite Esb. apply wp_bind. wp_use (bread_tx H R V s (BBLOCK (i * BPB) sb) T); [destruct B; lia|done|].
  intros b s1 (T1 & HbH & Hf & Hdata & Hclean & D1 & El). apply wp_bind, wp_gets. rewrite Hdata.
  pose proof (balloc_scan_spec (Z.to_nat BPB) (i * BPB) 0 (sb_size sb) (V (BBLOCK (i * BPB) sb))) as Hscan.
  rewrite Z2Nat.id in Hscan; [done|]. rewrite Z.add_0_l in Hscan.
  destruct (balloc_scan _ _ _ _ _) as [bi|].
  - destruct Hscan as (Hbi & Hlt & Hfree & _). set (a := i * BPB + bi).
    assert (a / BPB = i ∧ a mod BPB = bi) as [Eq Er].
    { split; symmetry; [apply (Z.div_unique_pos _ _ _ bi)|apply (Z.mod_unique_pos _ _ i)]; rewrite /a; lia. }
    assert (BBLOCK a sb = BBLOCK (i * BPB) sb) as Eb by (rewrite /BBLOCK Eq Z.div_mul //).
    assert (bused V sb a = false) as Ha by (rewrite /bused Eb Er //).
    assert (0 ≤ a < sb_size sb) as Har by (rewrite /a; change BPB with 8192 in *; lia).
    pose proof (alloc_fresh V sb a D Ha Har) as Hfresh. rewrite -Eb in Hf, Hdata, Hclean, Hno.
    set (V1 := vset V (BBLOCK a sb) (bit_set (V (BBLOCK a sb)) bi)).
    assert (budget 2 0 (b :: H) R s1) as B1.
    { apply budget_take. destruct B as (B1 & B2 & B3). rewrite /budget El. split_and!; lia. }
    pose proof (store_tx H R V s1 b (BBLOCK a sb) (λ d, bit_set d bi) T1 Hf Hdata) as Hs. cbv beta in Hs.
    apply wp_seq. wp_use Hs.
    { rewrite /bit_set /set_byte length_insert. apply D. }
    { by apply (budget_mono 2 1 0 0). }
    intros [] s2 (R' & c & T2 & Hf2 & HR & Hc & _ & D2 & _). fold V1 in T2.
    apply wp_bind. wp_use (brelse_tx H R' V1 s2 b (BBLOCK a sb) T2 HbH Hf2); [lia|].
    intros [] s3 (T3 & D3 & El3).
    assert (did None (0 + c + 0) H R s R' s3) as D03.
    { eapply did_trans; [|exact D3]. eapply did_trans; [exact D1|]. by apply (did_sub _ _ _ b). }
    apply wp_bind. change (i * BPB + bi) with a.
    wp_use (update_tx H R' V1 s3 a (λ _, zero_block) T3).
    + apply (budget_mono (2 - (0 + c + 0)) 1 1 1); [lia..|]. exact (budget_spent _ _ _ _ _ _ _ _ B (did_spent _ _ _ _ _ _ _ D03)).
    + intros b' Hb' Hf'. pose proof (bblock_range sb a (proj1 (dk_start _ _ D)) Har).
      destruct (Hh b' a Hb' (held_back _ _ _ _ _ _ _ _ _ _ T D03 Hb' Hf')) as [_ Hu]. congruence.
    + done.
    + intros [] s4 (R'' & c' & T4 & Hc' & _ & D4 & Hin). apply wp_ret. exists R''. split_and!; [lia|lia|done| | |done].
      * rewrite /alloc Er. exact T4.
      * apply (did_mono _ (0 + c + 0 + c')); [lia|]. exact (did_trans _ _ _ _ _ _ _ _ _ _ D03 D4).
  - assert ((i + 1) * BPB ≤ m) as Hnext.
    { destruct (decide ((i + 1) * BPB ≤ m)) as [|Hlt]; [done|]. exfalso.
      assert (m / BPB = i ∧ m mod BPB = m - i * BPB) as [Eq Er].
      { change BPB with 8192 in *. split; symmetry; [apply (Z.div_unique_pos _ _ _ (m - i * 8192))|apply (Z.mod_unique_pos _ _ i)]; lia. }
      rewrite /bused Er in Hmf. rewrite (_ : BBLOCK m sb = BBLOCK (i * BPB) sb) in Hmf; [by rewrite /BBLOCK Eq Z.div_mul|].
      rewrite Hscan in Hmf; [change BPB with 8192 in *; lia..|done]. }
    apply wp_bind. wp_use (brelse_tx H R V s1 b (BBLOCK (i * BPB) sb) T1 HbH Hf); [done|].
    intros [] s2 (T2 & D2 & El2).
    assert (did None (0 + 0) H R s R s2) as D02 by (exact (did_trans _ _ _ _ _ _ _ _ _ _ D1 D2)).
    wp_use (IH (i + 1) s2 T2).
    + by destruct (fs_only_fields _ _ _ (did_frame _ _ _ _ _ _ _ D02)) as (_ & -> & _).
    + done.
    + exact (budget_spent _ _ _ _ _ _ _ _ B (did_spent _ _ _ _ _ _ _ D02)).
    + intros b' q Hb' Hq. apply (Hh b' q Hb'). exact (held_back _ _ _ _ _ _ _ _ _ _ T D02 Hb' Hq).
    + lia.
    + lia.
    + exists m. split; [lia|done].
    + intros a s3 (R' & A1 & A2 & A3 & A4 & A5). exists R'. split_and!; [lia|lia|done|done| |done].
      apply (did_mono _ (0 + 0 + 2)); [lia|]. exact (did_trans _ _ _ _ _ _ _ _ _ _ D02 A4).
Qed.

Lemma balloc_tx H R V s :
  tx H R V s → k_sb s = sb → disk_ok V sb → budget 2 1 H R s → held_ok H V s →
  (∃ m, 0 ≤ m < sb_size sb ∧ bused V sb m = false) →
  wp (balloc dv) (λ a s', ∃ R', dstart sb ≤ a < sb_size sb ∧ bused V sb a = false ∧
    tx H R' (alloc V sb a) s' ∧ did None 2 H R s R' s' ∧ in_log s' a) s.
Proof.
  intros T Esb D B Hh (m & Hm & Hmf). rewrite /balloc. apply wp_bind, wp_gets. rewrite Esb.
  assert (0 ≤ (sb_size sb + BPB - 1) / BPB) by (apply Z.div_pos; [change BPB with 8192; lia|done]).
  rewrite -(Z2Nat.id ((sb_size sb + BPB - 1) / BPB)) //. apply balloc_loop_spec; [done..|lia|]. exists m. split; [lia|done].
Qed.
End balloc.
End tx.
