(* ===== verification/Writei.v ===== *)
(** Writing files: bmap() with allocation and writei() of kernel/fs.c inside a
    transaction, in terms of the bytes of the file.  The blocks of a file are its
    slots: the direct addresses, the indirect block and the addresses in it. *)
From S2P Require Import Prelude Riscv Mem State Sched Bytes Bio Walk Swap Log Fs File Cache Fsread Fswrite.

(** ** The blocks of a file *)

Definition NSLOT : Z := NDIRECT + 1 + NINDIRECT.
Definition slot (V : Z → list Z) (x : inode) (i : Z) : Z :=
  if i <=? NDIRECT then addr_at x i else
  if addr_at x NDIRECT =? 0 then 0 else get32 (V (addr_at x NDIRECT)) (4 * (i - NDIRECT - 1)).
(** The slot of block [bn] of the file. *)
Definition fslot (bn : Z) : Z := if bn <? NDIRECT then bn else bn + 1.
Definition fblk (V : Z → list Z) (x : inode) (bn : Z) : Z := slot V x (fslot bn).

Record file_ok (sb : superblock) (V : Z → list Z) (x : inode) : Prop := {
  fo_slot i : 0 ≤ i < NSLOT → slot V x i ≠ 0 → dstart sb ≤ slot V x i < sb_size sb ∧ bused V sb (slot V x i) = true;
  fo_inj i j : 0 ≤ i < NSLOT → 0 ≤ j < NSLOT → slot V x i ≠ 0 → slot V x i = slot V x j → i = j
}.

Lemma fslot_range bn : 0 ≤ bn < MAXFILE → 0 ≤ fslot bn < NSLOT ∧ fslot bn ≠ NDIRECT.
Proof. rewrite /fslot /MAXFILE /NSLOT. intros. destruct (Z.ltb_spec bn NDIRECT); change NDIRECT with 12 in *; lia. Qed.
Lemma fslot_inj a b : fslot a = fslot b → a = b.
Proof. rewrite /fslot. destruct (Z.ltb_spec a NDIRECT), (Z.ltb_spec b NDIRECT); lia. Qed.
Lemma slot_ind V x : slot V x NDIRECT = addr_at x NDIRECT.
Proof. by rewrite /slot Z.leb_refl. Qed.
Lemma slot_ext V V' x i : (addr_at x NDIRECT ≠ 0 → V' (addr_at x NDIRECT) = V (addr_at x NDIRECT)) → slot V' x i = slot V x i.
Proof. intros H. rewrite /slot. case_match; [done|]. destruct (Z.eqb_spec (addr_at x NDIRECT) 0); [done|]. by rewrite H. Qed.
Lemma fblk_faddr V x bn : (NDIRECT ≤ bn → addr_at x NDIRECT ≠ 0) → fblk V x bn = faddr V x bn.
Proof.
  intros H. rewrite /fblk /fslot /slot /faddr. destruct (Z.ltb_spec bn NDIRECT) as [Hl|Hg].
  - rewrite (proj2 (Z.leb_le bn NDIRECT)); [lia|done].
  - rewrite (proj2 (Z.leb_gt (bn + 1) NDIRECT)); [lia|]. rewrite (proj2 (Z.eqb_neq _ _) (H Hg)). do 2 f_equal. lia.
Qed.
Lemma fblk_mapped V x bn : 0 ≤ bn < MAXFILE → fblk V x bn ≠ 0 ↔ mapped V x bn.
Proof.
  intros Hbn. split.
  - intros Hne. assert (NDIRECT ≤ bn → addr_at x NDIRECT ≠ 0) as Hi.
    { intros Hg E. apply Hne. rewrite /fblk /fslot /slot (proj2 (Z.ltb_ge _ _) Hg) (proj2 (Z.leb_gt (bn + 1) NDIRECT)); [lia|]. by rewrite E. }
    split; [done|]. split; [done|]. by rewrite -fblk_faddr.
  - intros (_ & Hi & Hne). by rewrite fblk_faddr.
Qed.

(** [x] in [V] became [x'] in [V'] by writes to the file: it kept its blocks,
    got blocks that were free, and no block of anything else changed. *)
Record grown (sb : superblock) (V : Z → list Z) (x : inode) (V' : Z → list Z) (x' : inode) : Prop := {
  gw_same : x' = set_i_addrs (i_addrs x') x;
  gw_slot i : 0 ≤ i < NSLOT → slot V x i ≠ 0 → slot V' x' i = slot V x i;
  gw_new i : 0 ≤ i < NSLOT → slot V' x' i ≠ 0 → slot V x i = 0 → bused V sb (slot V' x' i) = false;
  gw_used m : 0 ≤ m < sb_size sb → bused V sb m = true → bused V' sb m = true;
  gw_only m : 0 ≤ m < sb_size sb → bused V' sb m = true →
    bused V sb m = true ∨ ∃ i, 0 ≤ i < NSLOT ∧ slot V x i = 0 ∧ slot V' x' i = m;
  gw_keep m : dstart sb ≤ m < sb_size sb → bused V sb m = true → (∀ i, 0 ≤ i < NSLOT → slot V x i ≠ m) → V' m = V m;
  gw_meta m : 0 ≤ m < sb_bmapstart sb → V' m = V m
}.

Lemma grown_refl sb V x : grown sb V x V x.
Proof. split; auto; [by destruct x|]. by intros i _ H1 H2; rewrite H2 in H1. Qed.
Lemma grown_trans sb V1 x1 V2 x2 V3 x3 :
  disk_ok V1 sb → file_ok sb V2 x2 → file_ok sb V3 x3 → grown sb V1 x1 V2 x2 → grown sb V2 x2 V3 x3 → grown sb V1 x1 V3 x3.
Proof.
  intros Dk F2 F3 [A1 A2 A3 A4 A5 A6 A7] [B1 B2 B3 B4 B5 B6 B7].
  assert (∀ m, 0 ≤ m < sb_size sb → bused V2 sb m = false → bused V1 sb m = false) as Hback.
  { intros m Hm H2. destruct (bused V1 sb m) eqn:E; [|done]. rewrite A4 // in H2. }
  pose proof (dk_start _ _ Dk) as Hd1. pose proof (dk_size _ _ Dk) as Hd2.
  split.
  - rewrite B1 {1}A1. by destruct x1.
  - intros i Hi Hne. rewrite B2 ?A2 //.
  - intros i Hi Hne H1. destruct (decide (slot V2 x2 i = 0)) as [E|E].
    + destruct (fo_slot _ _ _ F3 i Hi Hne). apply Hback; [lia|by apply B3].
    + rewrite B2 // in Hne |- *. by apply A3.
  - auto.
  - intros m Hm H3. destruct (bused V1 sb m) eqn:E1; [by left|right].
    assert (m ≠ 0) as Hm0 by (intros ->; rewrite (dk_meta _ _ Dk) in E1; [lia|done]).
    destruct (B5 m Hm H3) as [H2|(i & Hi & E2 & E3)].
    + destruct (A5 m Hm H2) as [|(i & Hi & E4 & E5)]; [congruence|]. exists i. split_and!; [lia|lia|done|].
      rewrite B2; congruence.
    + exists i. split_and!; [lia|lia| |done]. destruct (decide (slot V1 x1 i = 0)) as [|Hne]; [done|].
      rewrite A2 // in E2.
  - intros m Hm Hu Hno. rewrite B6; [done|apply A4; [lia|done]| |by apply A6].
    intros i Hi E. destruct (decide (slot V1 x1 i = 0)) as [E1|E1].
    + rewrite -E A3 // in Hu. rewrite E. lia.
    + apply (Hno i Hi). by rewrite -(A2 i Hi E1).
  - intros m Hm. by rewrite B7 // A7.
Qed.

(** ** One more block *)

Lemma grow_one sb V x V1 x1 i a :
  disk_ok V sb → file_ok sb V x → 0 ≤ i < NSLOT → slot V x i = 0 → bused V sb a = false → dstart sb ≤ a < sb_size sb →
  x1 = set_i_addrs (i_addrs x1) x →
  (∀ j, 0 ≤ j < NSLOT → slot V1 x1 j = if decide (j = i) then a else slot V x j) →
  (∀ m, 0 ≤ m < sb_size sb → bused V1 sb m = (m =? a) || bused V sb m) →
  (∀ m, m ≠ a → ¬ sb_bmapstart sb ≤ m < dstart sb → m ≠ slot V x NDIRECT ∨ m = 0 → V1 m = V m) →
  file_ok sb V1 x1 ∧ grown sb V x V1 x1.
Proof.
  intros D [F1 F2] Hi H0 Ha Har Hx Hslot Hused Hkeep. pose proof (dk_start _ _ D) as Hst.
  split; split.
  - intros j Hj. rewrite Hslot //. case_decide as E.
    + intros _. split; [done|]. rewrite Hused; [lia|]. by rewrite Z.eqb_refl.
    + intros Hne. destruct (F1 j Hj Hne) as [? Hu]. split; [done|]. rewrite Hused; [lia|]. by rewrite Hu orb_true_r.
  - intros j k Hj Hk. rewrite !Hslot //. destruct (decide (j = i)) as [->|Nj], (decide (k = i)) as [->|Nk]; [done|..].
    + intros _ E. exfalso. destruct (F1 k Hk) as [_ Hu]; [lia|]. congruence.
    + intros Hne E. exfalso. destruct (F1 j Hj Hne) as [_ Hu]. congruence.
    + by apply F2.
  - done.
  - intros j Hj Hne. rewrite Hslot // decide_False //. congruence.
  - intros j Hj. rewrite Hslot //. case_decide; [done|congruence].
  - intros m Hm Hu. by rewrite Hused // Hu orb_true_r.
  - intros m Hm. rewrite Hused //. intros [E%Z.eqb_eq|E]%orb_true_iff; [right|by left]. subst m.
    exists i. split_and!; [lia|lia|done|]. by rewrite Hslot // decide_True.
  - intros m Hm Hu Hno. apply Hkeep; [congruence|lia|]. left. intros E. apply (Hno NDIRECT); [done|by rewrite E].
  - intros m Hm. apply Hkeep; [lia|lia|]. destruct (decide (slot V x NDIRECT = 0)) as [->|Hne]; [lia|].
    destruct (F1 NDIRECT ltac:(done) Hne). lia.
Qed.

Lemma add_direct sb V x i a :
  disk_ok V sb → file_ok sb V x → 0 ≤ i ≤ NDIRECT → addr_at x i = 0 → bused V sb a = false → dstart sb ≤ a < sb_size sb →
  let V1 := alloc V sb a in let x1 := set_i_addrs (<[i := a]> (i_addrs x)) x in
  file_ok sb V1 x1 ∧ grown sb V x V1 x1 ∧ (∀ j, 0 ≤ j < NSLOT → slot V1 x1 j = if decide (j = i) then a else slot V x j) ∧
  (∀ m, dstart sb ≤ m < sb_size sb → bused V sb m = true → V1 m = V m).
Proof.
  intros D F Hi H0 Ha Har V1 x1. pose proof (dk_start _ _ D) as Hst.
  assert (sb_bmapstart sb ≤ BBLOCK a sb < dstart sb) as Hbb by (apply bblock_range; lia).
  assert (∀ m, m ≠ a → ¬ sb_bmapstart sb ≤ m < dstart sb → V1 m = V m) as Hk.
  { intros m H1 H2. apply alloc_keeps; [done|lia]. }
  assert (∀ j, addr_at x1 j = if decide (j = i) then a else addr_at x j) as Hat.
  { intros j. rewrite /addr_at /x1. cbn [i_addrs set_i_addrs]. case_decide; subst; [by rewrite lookup_insert_eq|].
    by rewrite lookup_insert_ne; [congruence|]. }
  assert (∀ j, 0 ≤ j < NSLOT → slot V1 x1 j = if decide (j = i) then a else slot V x j) as Hslot.
  { intros j Hj. rewrite /slot !Hat. destruct (Z.leb_spec j NDIRECT); [done|]. rewrite (decide_False (P:=j = i)); [lia|].
    destruct (decide (NDIRECT = i)) as [<-|Hne].
    - rewrite H0. cbn [Z.eqb]. destruct (a =? 0); [done|]. rewrite /V1 /alloc vset_eq.
      rewrite /NSLOT in Hj. change NDIRECT with 12 in *. change NINDIRECT with 256 in *.
      rewrite /get32 /get_le /zero_block /slice drop_replicate take_replicate. by rewrite (_ : (4 `min` _)%nat = 4%nat); [lia|].
    - destruct (Z.eqb_spec (addr_at x NDIRECT) 0) as [|Hind]; [done|]. rewrite Hk //.
      + intros E. destruct (fo_slot _ _ _ F NDIRECT) as [_ Hu]; [done|by rewrite slot_ind|]. rewrite slot_ind E in Hu. congruence.
      + destruct (fo_slot _ _ _ F NDIRECT) as [Hr _]; [done|by rewrite slot_ind|]. rewrite slot_ind in Hr. lia. }
  assert (NDIRECT < NSLOT) by done.
  destruct (grow_one sb V x V1 x1 i a) as [F1 G1]; [done|done|lia| |done|done|done|done|..].
  { rewrite /slot (proj2 (Z.leb_le i NDIRECT)) //. lia. }
  { intros m Hm. apply alloc_bused; [done|done|lia|done]. }
  { intros m H1 H2 _. by apply Hk. }
  split_and!; [done..|]. intros m Hm Hu. apply Hk; [congruence|lia].
Qed.

Lemma add_indirect sb V x i a :
  disk_ok V sb → file_ok sb V x → NDIRECT < i < NSLOT → addr_at x NDIRECT ≠ 0 → slot V x i = 0 →
  bused V sb a = false → dstart sb ≤ a < sb_size sb →
  let W := alloc V sb a in let ind := addr_at x NDIRECT in
  let V1 := vset W ind (put32 (W ind) (4 * (i - NDIRECT - 1)) a) in
  W ind = V ind ∧ disk_ok V1 sb ∧ file_ok sb V1 x ∧ grown sb V x V1 x ∧
  (∀ m, 0 ≤ m < sb_size sb → bused V1 sb m = (m =? a) || bused V sb m) ∧ slot V1 x i = a ∧
  (∀ m, dstart sb ≤ m < sb_size sb → bused V sb m = true → m ≠ ind → V1 m = V m).
Proof.
  intros D F Hi Hind H0 Ha Har W ind V1. pose proof (dk_start _ _ D) as Hst.
  assert (sb_bmapstart sb ≤ BBLOCK a sb < dstart sb) as Hbb by (apply bblock_range; lia).
  assert (disk_ok W sb) as DW by (apply alloc_ok; [done|done|lia]).
  destruct (fo_slot _ _ _ F NDIRECT) as [Hr Hu]; [done|by rewrite slot_ind|]. rewrite slot_ind in Hr, Hu. fold ind in Hr, Hu.
  assert (∀ m, m ≠ a → ¬ sb_bmapstart sb ≤ m < dstart sb → W m = V m) as Hk.
  { intros m H1 H2. apply alloc_keeps; [done|lia]. }
  assert (W ind = V ind) as EW by (apply Hk; [congruence|lia]).
  rewrite /NSLOT in Hi. change NDIRECT with 12 in Hi. change NINDIRECT with 256 in Hi.
  assert (length (W ind) = 1024%nat) as HlW by apply DW.
  assert (∀ m, bused V1 sb m = bused W sb m ∨ ¬ 0 ≤ m < sb_size sb) as Hbu.
  { intros m. destruct (decide (0 ≤ m < sb_size sb)) as [Hm|]; [left|by right]. rewrite /bused /V1 vset_ne //.
    pose proof (bblock_range sb m (proj1 Hst) Hm). lia. }
  assert (∀ m, 0 ≤ m < sb_size sb → bused V1 sb m = (m =? a) || bused V sb m) as Hused.
  { intros m Hm. destruct (Hbu m) as [->|]; [|done]. apply alloc_bused; [done|done|lia|done]. }
  assert (∀ j, 0 ≤ j < NSLOT → slot V1 x j = if decide (j = i) then a else slot V x j) as Hslot.
  { intros j Hj. rewrite /slot. fold ind. change NDIRECT with 12. destruct (Z.leb_spec j 12); [rewrite decide_False //; lia|].
    rewrite (proj2 (Z.eqb_neq ind 0)) // /V1 vset_eq. change NDIRECT with 12. rewrite /NSLOT in Hj. change NDIRECT with 12 in Hj. change NINDIRECT with 256 in Hj.
    pose proof (dk_max _ _ D). case_decide as E.
    - subst j. apply (get_put_eq 4); [lia|lia|]. change (256 ^ Z.of_nat 4) with (2 ^ 32). lia.
    - rewrite -EW. apply (get_put_ne 4 4); lia. }
  assert (disk_ok V1 sb) as D1.
  { split; [apply D..| |].
    - intros m Hm. pose proof (dk_size _ _ D). rewrite Hused; [lia|]. rewrite (dk_meta _ _ D m Hm) orb_true_r //.
    - intros m. rewrite /V1 /vset. case_decide; [|apply DW]. rewrite /put32 length_put; change NDIRECT with 12; lia. }
  destruct (grow_one sb V x V1 x i a) as [F1 G1];
    [done|done|rewrite /NSLOT; change NDIRECT with 12; change NINDIRECT with 256; lia|done|done|done|by destruct x|done|done|..].
  { intros m H1 H2 H3. rewrite slot_ind in H3. fold ind in H3. rewrite /V1 vset_ne; [intros E; destruct H3 as [H3|H3]; [done|lia]|]. by apply Hk. }
  split_and!; [done..| |].
  - rewrite Hslot; [rewrite /NSLOT; change NDIRECT with 12; change NINDIRECT with 256; lia|]. by rewrite decide_True.
  - intros m Hm Hum Hne. rewrite /V1 vset_ne //. apply Hk; [congruence|lia].
Qed.

(** ** bmap() *)

(** The free blocks. *)
Definition nfree (V : Z → list Z) (sb : superblock) : Z :=
  Z.of_nat (length (filter (λ m, bused V sb m = false) (seqZ 0 (sb_size sb)))).
Lemma nfree_some V sb : 1 ≤ nfree V sb → ∃ m, 0 ≤ m < sb_size sb ∧ bused V sb m = false.
Proof.
  rewrite /nfree. destruct (filter _ _) as [|m l] eqn:E; [cbn; lia|]. intros _.
  assert (m ∈ filter (λ m, bused V sb m = false) (seqZ 0 (sb_size sb))) as [Hu Hm%elem_of_seqZ]%list_elem_of_filter
    by (rewrite E; left). exists m. split; [lia|done].
Qed.
Lemma nfree_drop V V1 sb a :
  (∀ m, 0 ≤ m < sb_size sb → m ≠ a → bused V sb m = false → bused V1 sb m = false) → nfree V sb ≤ nfree V1 sb + 1.
Proof.
  intros H. rewrite /nfree.
  pose proof (filter_drop_one (λ m, bused V sb m = false) (λ m, bused V1 sb m = false) (seqZ 0 (sb_size sb)) a) as E.
  cut ((length (filter (λ m, bused V sb m = false) (seqZ 0 (sb_size sb))) ≤
    length (filter (λ m, bused V1 sb m = false) (seqZ 0 (sb_size sb))) + 1)%nat); [lia|].
  apply E; [apply NoDup_seqZ|]. intros m Hm%elem_of_seqZ. apply H. lia.
Qed.

#[export] Instance in_log_dec s n : Decision (in_log s n).
Proof.
  refine (cast_if (decide (Exists (λ i, lh_block (k_log s) i = n) (seqZ 0 (lg_n (k_log s)))))).
  - abstract (rewrite Exists_exists in e; destruct e as (i & Hi%elem_of_seqZ & E); exists i; split; [lia|done]).
  - abstract (intros (i & Hi & E); apply n0, Exists_exists; exists i; split; [apply elem_of_seqZ; lia|done]).
Defined.

(** What the indirect block still costs: the bitmap and the block itself. *)
Definition icost (s : kstate) (x : inode) : Z :=
  if decide (addr_at x NDIRECT = 0) then 2 else if decide (in_log s (addr_at x NDIRECT)) then 0 else 1.
Definition noind (x : inode) : Z := if decide (addr_at x NDIRECT = 0) then 1 else 0.
Definition b2 (a : Z) : Z := if decide (a = 0) then 2 else 0.
Definition b1 (a : Z) : Z := if decide (a = 0) then 1 else 0.

Lemma icost_mono s s' x x' :
  addr_at x' NDIRECT = addr_at x NDIRECT → (∀ n, in_log s n → in_log s' n) → icost s' x' ≤ icost s x.
Proof.
  intros E H. rewrite /icost E. destruct (decide (addr_at x NDIRECT = 0)); [lia|].
  destruct (decide (in_log s _)) as [Hi|]; [rewrite decide_True; [by apply H|lia]|]. case_decide; lia.
Qed.
Lemma icost_log s s' x : k_log s' = k_log s → icost s' x = icost s x.
Proof. intros E. apply Z.le_antisymm; apply icost_mono; try done; intros n; by rewrite /in_log E. Qed.
Lemma icost_range s x : 0 ≤ icost s x ≤ 2.
Proof. rewrite /icost. repeat case_decide; lia. Qed.

Section bmap.
Context (dv : Z) (p : nat) (sb : superblock) (ip : nat).

Lemma tx_inode H R V s f : tx dv p H R V s → tx dv p H R V (upd_inode ip f s).
Proof.
  intros [[[l Hl] C Hcur Hlk] Hp Ho Hn Hs]. split; [|done..]. split; [by exists l| |done|done].
  by apply (fc_core_ext dv p H R V s).
Qed.
Lemma did_inode k H R s R' s' f : did dv None k H R s R' s' → did dv (Some ip) k H R s R' (upd_inode ip f s').
Proof.
  intros [D1 D2 D3 D4]. split; [done..|]. destruct D4 as (bs & ps & l & im & -> & Hp & Hi).
  eexists bs, ps, l, _. split; [reflexivity|]. split; [done|]. intros j Hj. rewrite inode_at_upd decide_False; [congruence|].
  by apply Hi.
Qed.

(** The thread works on the file of inode [ip] in a transaction. *)
Record working (H : list nat) (R : nat → Z) (V : Z → list Z) (x : inode) (s : kstate) : Prop := {
  wk_tx : tx dv p H R V s;
  wk_sb : k_sb s = sb;
  wk_disk : disk_ok V sb;
  wk_file : file_ok sb V x;
  wk_inode : inode_at s ip = x;
  wk_dev : i_dev x = dv
}.

(** if((addr = ip->addrs[i]) == 0) ip->addrs[i] = addr = balloc(ip->dev) *)
Lemma bmap_slot_tx R V x s i :
  working [] R V x s → 0 ≤ i ≤ NDIRECT → budget (b2 (addr_at x i)) 1 [] R s → b1 (addr_at x i) ≤ nfree V sb →
  wp (bmap_slot ip i) (λ a s', ∃ R' V' x', working [] R' V' x' s' ∧ grown sb V x V' x' ∧
    a = addr_at x' i ∧ a ≠ 0 ∧ (∀ j, 0 ≤ j < NSLOT → j ≠ i → slot V' x' j = slot V x j) ∧ (addr_at x i = 0 → in_log s' a) ∧
    did dv (Some ip) (b2 (addr_at x i)) [] R s R' s' ∧ nfree V sb ≤ nfree V' sb + b1 (addr_at x i) ∧
    (∀ m, dstart sb ≤ m < sb_size sb → bused V sb m = true → V' m = V m)) s.
Proof.
  intros [T Esb D F Ex Ed] Hi B Hfree. rewrite /bmap_slot. apply wp_bind, wp_gets. rewrite Ex Ed.
  destruct (Z.eqb_spec (addr_at x i) 0) as [E|E]; cbn [negb].
  - rewrite E in B, Hfree |- *. change (b2 0) with 2 in *. change (b1 0) with 1 in *.
    apply wp_bind. wp_use (balloc_tx dv p sb [] R V s T Esb D B); [intros b m Hb; destruct (not_elem_of_nil b Hb)|by apply nfree_some|].
    intros a s1 (R1 & Har & Ha & T1 & D1 & Hin). destruct (add_direct sb V x i a D F Hi E Ha Har) as (F1 & G1 & Hs & Hk).
    rewrite (proj2 (Z.eqb_neq a 0)); [pose proof (dk_start _ _ D); lia|].
    apply wp_bind, wp_modify, wp_ret. set (x1 := set_i_addrs (<[i := a]> (i_addrs x)) x) in *.
    assert (∀ j, addr_at x1 j = if decide (j = i) then a else addr_at x j) as Hat.
    { intros j. rewrite /addr_at /x1. cbn [i_addrs set_i_addrs]. case_decide; subst; [by rewrite lookup_insert_eq|].
      by rewrite lookup_insert_ne; [congruence|]. }
    exists R1, (alloc V sb a), x1.
    assert (inode_at s1 ip = x) as Ex1 by by rewrite (fs_only_inode _ _ ip (did_frame _ _ _ _ _ _ _ _ D1)).
    split_and!; [|done| | | |done|by apply did_inode| |done].
    + split; [by apply tx_inode| |apply alloc_ok; [done|done|pose proof (dk_start _ _ D); lia]|done| |done].
      * destruct (fs_only_fields _ _ _ (did_frame _ _ _ _ _ _ _ _ D1)) as (_ & E1 & _). rewrite -Esb. exact E1.
      * by rewrite inode_at_upd decide_True // Ex1.
    + by rewrite Hat decide_True.
    + pose proof (dk_start _ _ D). lia.
    + intros j Hj Hne. by rewrite Hs // decide_False.
    + apply (nfree_drop _ _ _ a). intros m Hm Hne Hu. rewrite alloc_bused //; [pose proof (dk_start _ _ D); lia|].
      rewrite Hu orb_false_r. by apply Z.eqb_neq.
  - rewrite /b2 /b1 !decide_False //. apply wp_ret. exists R, V, x.
    split_and!; [by split|apply grown_refl|done|done|done|done| |lia|done].
    split; [|done..|].
    + split_and!; [lia|done|intros; lia].
    + exists (k_bufs s), (k_procs s), (k_log s), (k_inodes s). split_and!; [by destruct s|done|done].
Qed.

Lemma working_to H R V x s H' R' V' s' :
  working H R V x s → tx dv p H' R' V' s' → disk_ok V' sb → file_ok sb V' x → fs_only None s s' → working H' R' V' x s'.
Proof.
  intros [T Esb D F Ex Ed] T' D' F' Hf. split; [done| |done|done| |done].
  - destruct (fs_only_fields _ _ _ Hf) as (_ & -> & _). done.
  - by rewrite (fs_only_inode _ _ ip Hf).
Qed.


(** A new address in the indirect block, which is in buffer [b]. *)
Lemma entry_tx R V x s b i :
  working [b] R V x s → is_for dv (buf_at s b) (addr_at x NDIRECT) → addr_at x NDIRECT ≠ 0 →
  NDIRECT < i < NSLOT → slot V x i = 0 → budget (icost s x + 3) 1 [b] R s → 1 ≤ nfree V sb →
  wp (addr ← balloc dv;
      when (negb (addr =? 0)) (mod_data b (λ d, put32 d (4 * (i - NDIRECT - 1)) addr);; log_write b);;
      ret addr)
    (λ a s', ∃ R' V' k, working [b] R' V' x s' ∧ grown sb V x V' x ∧ a = slot V' x i ∧ a ≠ 0 ∧ in_log s' a ∧
       is_for dv (buf_at s' b) (addr_at x NDIRECT) ∧ 1 ≤ R' b ∧ did dv None k [b] R s R' s' ∧
       k + icost s' x ≤ icost s x + 2 ∧ nfree V sb ≤ nfree V' sb + 1 ∧
       (∀ m, dstart sb ≤ m < sb_size sb → bused V sb m = true → m ≠ addr_at x NDIRECT → V' m = V m)) s.
Proof.
  intros W Hf Hind Hi H0 B Hfree. set (ind := addr_at x NDIRECT) in *. pose proof W as [T Esb Dk F Ex Ed].
  pose proof (icost_range s x) as Hic. pose proof (dk_start _ _ Dk) as Hst.
  apply wp_bind. wp_use (balloc_tx dv p sb [b] R V s T Esb Dk).
  { apply (budget_mono (icost s x + 3) _ 1 1); [lia|lia|done]. }
  { intros c m ->%list_elem_of_singleton [_ <-]. destruct Hf as [_ ->].
    pose proof (fo_slot _ _ _ F NDIRECT ltac:(done)) as Hs. rewrite slot_ind in Hs. by apply Hs. }
  { by apply nfree_some. }
  intros a s1 (R1 & Har & Ha & T1 & D1 & Hin). rewrite (proj2 (Z.eqb_neq a 0)); [lia|]. cbn [negb when].
  destruct (add_indirect sb V x i a Dk F Hi Hind H0 Ha Har) as (EW & Dk1 & F1 & G1 & Hu1 & Hs1 & Hk1).
  fold ind in EW, Dk1, F1, G1, Hu1, Hs1, Hk1. set (W1 := alloc V sb a) in *.
  assert (is_for dv (buf_at s1 b) ind) as Hf1 by (apply (did_held _ _ _ _ _ _ _ _ D1); [left|done]).
  pose proof (tx_fc _ _ _ _ _ _ T1) as I1. pose proof (fi_core _ _ _ _ _ _ I1) as C1.
  destruct (fc_held _ _ _ _ _ _ C1 b) as (Hb & _); [left|].
  pose proof (budget_spent _ _ _ _ _ _ _ _ B (did_spent _ _ _ _ _ _ _ _ D1)) as B1.
  apply wp_bind. wp_use (store_tx dv p [] R1 W1 s1 b ind (λ d, put32 d (4 * (i - NDIRECT - 1)) a) T1 Hf1).
  { by apply (fc_hit _ _ _ _ _ _ C1). }
  { rewrite /put32 length_put; rewrite ?EW ?(dk_len _ _ Dk) //; rewrite /NSLOT in Hi; change NDIRECT with 12 in *; change NINDIRECT with 256 in *; lia. }
  { by apply (budget_mono (icost s x + 3 - 2) _ 1 0); [lia|lia|]. }
  intros [] s2 (R2 & k & T2 & Hf2 & HR & Hk & Hk0 & D2 & Hin2). apply wp_ret.
  set (V2 := vset W1 ind _) in *.
  assert (did dv None (2 + k) [b] R s R2 s2) as D02 by exact (did_trans _ _ _ _ _ _ _ _ _ _ _ D1 D2).
  exists R2, V2, (2 + k). split_and!; [|done|done|lia| |done|done|done| | |done].
  - apply (working_to [b] R V x s); [done..|exact (did_frame _ _ _ _ _ _ _ _ D02)].
  - by apply (did_log _ _ _ _ _ _ _ _ D2).
  - rewrite /icost. fold ind. rewrite !(decide_False (P:=ind = 0)) // (decide_True (P:=in_log s2 ind)) //.
    destruct (decide (in_log s ind)) as [Hl|]; [|lia]. rewrite Hk0; [by apply (did_log _ _ _ _ _ _ _ _ D1)|]. lia.
  - apply (nfree_drop _ _ _ a). intros m Hm Hne Hu. rewrite Hu1 // Hu orb_false_r. by apply Z.eqb_neq.
Qed.

Lemma bmap_tx R V x s bn :
  working [] R V x s → 0 ≤ bn < MAXFILE → budget (icost s x + b2 (fblk V x bn) + 1) 2 [] R s →
  noind x + b1 (fblk V x bn) ≤ nfree V sb →
  wp (bmap ip bn) (λ a s', ∃ R' V' x' k, working [] R' V' x' s' ∧ grown sb V x V' x' ∧ a = fblk V' x' bn ∧ a ≠ 0 ∧
    (fblk V x bn = 0 → in_log s' a) ∧ did dv (Some ip) k [] R s R' s' ∧ k + icost s' x' ≤ icost s x + b2 (fblk V x bn) ∧
    nfree V sb + noind x' ≤ nfree V' sb + noind x + b1 (fblk V x bn) ∧
    (∀ n, 0 ≤ n < MAXFILE → fblk V x n ≠ 0 → V' (fblk V x n) = V (fblk V x n))) s.
Proof.
  intros W Hbn B Hfree. pose proof (icost_range s x) as Hic. rewrite /bmap.
  assert (∀ y, 0 ≤ b2 y ≤ 2 ∧ 0 ≤ b1 y ≤ 1) as Hb by (intros y; rewrite /b2 /b1; case_decide; lia).
  assert (∀ n, 0 ≤ n < MAXFILE → fblk V x n ≠ 0 → dstart sb ≤ fblk V x n < sb_size sb ∧ bused V sb (fblk V x n) = true) as Hown.
  { intros n Hn Hne. apply (fo_slot _ _ _ (wk_file _ _ _ _ _ W)); [by apply fslot_range|done]. }
  destruct (Z.ltb_spec bn NDIRECT) as [Hlt|Hge].
  - assert (∀ V x, fblk V x bn = addr_at x bn) as Ef.
    { intros V0 x0. rewrite /fblk /fslot /slot (proj2 (Z.ltb_lt _ _) Hlt) (proj2 (Z.leb_le bn NDIRECT)) //. lia. }
    rewrite Ef in B, Hfree |- *. wp_use (bmap_slot_tx R V x s bn W); [lia| | |].
    + specialize (Hb (addr_at x bn)). apply (budget_mono (icost s x + b2 (addr_at x bn) + 1) _ 2 1); [lia|lia|done].
    + rewrite /noind in Hfree. case_decide; lia.
    + intros a s1 (R1 & V1 & x1 & W1 & G1 & Ea & Hne & Hs & Hin & D1 & Hn & Hk).
      assert (addr_at x1 NDIRECT = addr_at x NDIRECT) as Eind.
      { pose proof (Hs NDIRECT ltac:(done) ltac:(lia)) as E. by rewrite !slot_ind in E. }
      exists R1, V1, x1, (b2 (addr_at x bn)). rewrite Ef /noind Eind. split_and!; [done..| |lia|].
      * pose proof (icost_mono s s1 x x1 Eind (did_log _ _ _ _ _ _ _ _ D1)). lia.
      * intros n Hn' Hne'. by apply Hk; apply Hown.
  - set (i := bn + 1). assert (∀ V x, fblk V x bn = slot V x i) as Ef.
    { intros V0 x0. rewrite /fblk /fslot (proj2 (Z.ltb_ge _ _) Hge) //. }
    assert (NDIRECT < i < NSLOT) as Hi by (rewrite /i /NSLOT; rewrite /MAXFILE in Hbn; lia).
    assert (0 ≤ NDIRECT) as Hnd by done.
    rewrite (proj2 (Z.ltb_lt (bn - NDIRECT) NINDIRECT)); [rewrite /MAXFILE in Hbn; lia|].
    apply wp_bind. wp_use (bmap_slot_tx R V x s NDIRECT W); [done| | |].
    { apply (budget_mono (icost s x + b2 (fblk V x bn) + 1) _ 2 1); [| |done];
        specialize (Hb (fblk V x bn)); rewrite /icost /b2 in Hb |- *; repeat case_decide; lia. }
    { specialize (Hb (fblk V x bn)). rewrite /noind /b1 in Hfree |- *. repeat case_decide; lia. }
    intros ind s1 (R1 & V1 & x1 & W1 & G1 & Ea & Hne & Hs & Hin & D1 & Hn & Hk).
    assert (fblk V1 x1 bn = fblk V x bn) as Ef1 by (rewrite !Ef; apply Hs; lia).
    assert (b2 (addr_at x NDIRECT) + icost s1 x1 ≤ icost s x) as Hcost.
    { destruct (decide (addr_at x NDIRECT = 0)) as [E0|E0].
      - rewrite /icost E0 -Ea. rewrite (decide_False (P:=ind = 0)) // (decide_True (P:=in_log s1 ind)); [by apply Hin|]. done.
      - assert (addr_at x1 NDIRECT = addr_at x NDIRECT) as Eind.
        { pose proof (gw_slot _ _ _ _ _ G1 NDIRECT ltac:(done)) as E. rewrite !slot_ind in E. by apply E. }
        pose proof (icost_mono s s1 x x1 Eind (did_log _ _ _ _ _ _ _ _ D1)). rewrite /b2 decide_False //. }
    assert (noind x1 = 0 ∧ noind x = b1 (addr_at x NDIRECT)) as [Hni1 Hni] by (rewrite /noind -Ea decide_False //).
    assert (budget (icost s1 x1 + b2 (fblk V x bn) + 1) 2 [] R1 s1) as B1.
    { apply (budget_mono (icost s x + b2 (fblk V x bn) + 1 - b2 (addr_at x NDIRECT)) _ 2 2); [lia..|].
      exact (budget_spent _ _ _ _ _ _ _ _ B (did_spent _ _ _ _ _ _ _ _ D1)). }
    rewrite (proj2 (Z.eqb_neq ind 0) Hne). apply wp_bind, wp_gets.
    pose proof W1 as [T1 Esb1 Dk1 F1 Ex1 Ed1]. rewrite Ex1 Ed1.
    pose proof (icost_range s1 x1) as Hic1. pose proof (Hb (fblk V x bn)) as Hbf.
    apply wp_bind. wp_use (bread_tx dv p [] R1 V1 s1 ind T1); [destruct B1; lia|intros b Hx; destruct (not_elem_of_nil b Hx)|].
    intros b s2 (T2 & HbH & Hf2 & Hdata & Hclean & D2 & El2). apply wp_bind, wp_gets. rewrite Hdata.
    assert (get32 (V1 ind) (4 * (bn - NDIRECT)) = fblk V1 x1 bn) as ->.
    { rewrite Ef /slot (proj2 (Z.leb_gt i NDIRECT)); [lia|]. rewrite -Ea (proj2 (Z.eqb_neq ind 0) Hne). do 2 f_equal. rewrite /i. lia. }
    assert (∀ n, 0 ≤ n < MAXFILE → fblk V x n ≠ 0 → V1 (fblk V x n) = V (fblk V x n)) as Hdat1.
    { intros n Hn' Hne'. by apply Hk; apply Hown. }
    rewrite Ef1. destruct (Z.eqb_spec (fblk V x bn) 0) as [E0|E0]; cbn [negb].
    + assert (working [b] R1 V1 x1 s2) as W2 by exact (working_to [] R1 V1 x1 s1 [b] R1 V1 s2 W1 T2 Dk1 F1 (did_frame _ _ _ _ _ _ _ _ D2)).
      rewrite E0 in B1, Hfree |- *. change (b2 0) with 2 in *. change (b1 0) with 1 in *.
      assert (icost s2 x1 = icost s1 x1) as Eic by (by apply icost_log).
      apply wp_bind. replace (4 * (bn - NDIRECT)) with (4 * (i - NDIRECT - 1)) by (rewrite /i; lia).
      wp_use (entry_tx R1 V1 x1 s2 b i W2); [by rewrite -Ea|by rewrite -Ea|done|by rewrite -Ef Ef1| |lia|].
      { rewrite Eic. apply budget_take, (budget_mono (icost s1 x1 + 2 + 1 - 0) _ 2 2); [lia..|].
        exact (budget_spent _ _ _ _ _ _ _ _ B1 (did_spent _ _ _ _ _ _ _ _ D2)). }
      rewrite -Ea. intros a s3 (R3 & V3 & k & W3 & G3 & Ea3 & Hne3 & Hin3 & Hf3 & HR3 & D3 & Hk3 & Hn3 & Hd3).
      apply wp_bind. wp_use (brelse_tx dv p [] R3 V3 s3 b ind (wk_tx _ _ _ _ _ W3) HbH Hf3); [lia|].
      intros [] s4 (T4 & D4 & El4). apply wp_ret.
      pose proof (did_trans _ _ _ _ _ _ _ _ _ _ _ (did_trans _ _ _ _ _ _ _ _ _ _ _ D2 (did_sub _ _ _ _ _ _ _ _ _ D3)) D4) as D24.
      pose proof W3 as [_ _ Dk3 F3 _ _].
      assert (icost s4 x1 = icost s3 x1) as Eic4 by (by apply icost_log).
      exists R3, V3, x1, (b2 (addr_at x NDIRECT) + (0 + k + 0)). split_and!.
      * exact (working_to [] R1 V1 x1 s1 [] R3 V3 s4 W1 T4 Dk3 F3 (did_frame _ _ _ _ _ _ _ _ D24)).
      * exact (grown_trans sb V x V1 x1 V3 x1 (wk_disk _ _ _ _ _ W) F1 F3 G1 G3).
      * by rewrite Ef.
      * done.
      * intros _. by apply (did_log _ _ _ _ _ _ _ _ D4).
      * eapply did_trans; [exact D1|]. by apply did_weaken.
      * lia.
      * lia.
      * intros n Hn' Hne'. destruct (Hown n Hn' Hne') as [Hr Hu]. pose proof (dk_start _ _ Dk1). rewrite Hd3; [done|by apply (gw_used _ _ _ _ _ G1); [lia|]| |by apply Hdat1].
        intros E. assert (fslot n = NDIRECT) as Ebad; [|by destruct (fslot_range n Hn') as [_ ?]].
        apply (fo_inj _ _ _ F1); [by apply fslot_range|done| |].
        -- rewrite (gw_slot _ _ _ _ _ G1) //. by apply fslot_range.
        -- rewrite slot_ind -Ea -E. apply (gw_slot _ _ _ _ _ G1); [by apply fslot_range|done].
    + apply wp_bind, wp_ret, wp_bind. wp_use (brelse_tx dv p [] R1 V1 s2 b ind T2 HbH Hf2); [done|].
      intros [] s3 (T3 & D3 & El3). apply wp_ret.
      pose proof (did_trans _ _ _ _ _ _ _ _ _ _ _ D2 D3) as D23.
      exists R1, V1, x1, (b2 (addr_at x NDIRECT) + (0 + 0)).
      rewrite Ef1. split_and!; [|done|done|done|done| | | |done].
      * by apply (working_to [] R1 V1 x1 s1); [|..|exact (did_frame _ _ _ _ _ _ _ _ D23)].
      * eapply did_trans; [exact D1|]. by apply did_weaken.
      * pose proof (icost_mono s1 s3 x1 x1 eq_refl (did_log _ _ _ _ _ _ _ _ D23)). lia.
      * lia.
Qed.
End bmap.

(** ** writei() *)

Definition fb (V : Z → list Z) (x : inode) (o : Z) : Z := default 0 (V (fblk V x (o / BSIZE)) !! Z.to_nat (o mod BSIZE)).
(** The file has [bytes] at [off] and is as before elsewhere. *)
Definition written (V : Z → list Z) (x : inode) (V' : Z → list Z) (x' : inode) (off : Z) (bytes : list Z) : Prop :=
  ∀ o, 0 ≤ o < MAXFILE * BSIZE →
    if decide (off ≤ o < off + Z.of_nat (length bytes))
    then fblk V' x' (o / BSIZE) ≠ 0 ∧ Some (fb V' x' o) = bytes !! Z.to_nat (o - off)
    else fblk V x (o / BSIZE) ≠ 0 → fb V' x' o = fb V x o.

Lemma off_bn o : 0 ≤ o < MAXFILE * BSIZE → 0 ≤ o / BSIZE < MAXFILE.
Proof. intros. change BSIZE with 1024 in *. dlia. Qed.

Lemma written_nil V x off : written V x V x off [].
Proof. intros o Ho. rewrite decide_False //. cbn. lia. Qed.
Lemma written_app sb V x V1 x1 V2 x2 off l1 l2 :
  grown sb V x V1 x1 → grown sb V1 x1 V2 x2 →
  written V x V1 x1 off l1 → written V1 x1 V2 x2 (off + Z.of_nat (length l1)) l2 → written V x V2 x2 off (l1 ++ l2).
Proof.
  intros G1 G2 W1 W2 o Ho. specialize (W1 o Ho). specialize (W2 o Ho). rewrite length_app Nat2Z.inj_add.
  destruct (fslot_range _ (off_bn o Ho)) as [Hfs _].
  destruct (decide (off ≤ o < off + Z.of_nat (length l1))) as [E1|E1].
  - rewrite decide_True; [lia|]. rewrite decide_False in W2; [lia|]. destruct W1 as [N1 W1].
    split; [rewrite /fblk (gw_slot _ _ _ _ _ G2) //|]. rewrite (W2 N1) W1. rewrite lookup_app_l //. lia.
  - destruct (decide (off + Z.of_nat (length l1) ≤ o < off + Z.of_nat (length l1) + Z.of_nat (length l2))) as [E2|E2].
    + rewrite decide_True; [lia|]. destruct W2 as [N2 W2]. split; [done|]. rewrite W2 lookup_app_r; [lia|]. f_equal. lia.
    + rewrite decide_False; [lia|]. intros Hne. rewrite W2; [rewrite /fblk (gw_slot _ _ _ _ _ G1) //|]. by apply W1.
Qed.

(** New contents for a block of the file. *)
Lemma set_block sb V x bn d :
  disk_ok V sb → file_ok sb V x → 0 ≤ bn < MAXFILE → fblk V x bn ≠ 0 → length d = 1024%nat →
  let V1 := vset V (fblk V x bn) d in
  disk_ok V1 sb ∧ file_ok sb V1 x ∧ grown sb V x V1 x ∧ (∀ i, slot V1 x i = slot V x i) ∧
  (∀ m, 0 ≤ m < sb_size sb → bused V1 sb m = bused V sb m) ∧
  (∀ n, 0 ≤ n < MAXFILE → fblk V x n ≠ 0 → V1 (fblk V1 x n) = if decide (n = bn) then d else V (fblk V x n)).
Proof.
  intros D F Hbn Hne Hd V1. set (a := fblk V x bn) in *. pose proof (dk_start _ _ D) as Hst.
  destruct (fslot_range bn Hbn) as [Hfs Hfi].
  destruct (fo_slot _ _ _ F (fslot bn) Hfs Hne) as [Hr Hu]. change (slot V x (fslot bn)) with a in Hr, Hu.
  assert (∀ i, slot V1 x i = slot V x i) as Hs.
  { intros i. apply slot_ext. intros Hind. apply vset_ne. intros E. apply Hfi. symmetry.
    apply (fo_inj _ _ _ F); [done|done|by rewrite slot_ind|]. by rewrite slot_ind. }
  assert (∀ m, 0 ≤ m < sb_size sb → bused V1 sb m = bused V sb m) as Hbu.
  { intros m Hm. rewrite /bused /V1 vset_ne //. pose proof (bblock_range sb m (proj1 Hst) Hm). lia. }
  split_and!; [..|done|done|].
  - split; [apply D..| |].
    + intros m Hm. pose proof (dk_size _ _ D). rewrite Hbu; [lia|]. by apply D.
    + intros m. rewrite /V1 /vset. case_decide; [done|apply D].
  - split.
    + intros i Hi. rewrite Hs. intros Hn. destruct (fo_slot _ _ _ F i Hi Hn). split; [done|]. rewrite Hbu //. lia.
    + intros i j. rewrite !Hs. apply F.
  - split.
    + by destruct x.
    + intros i _ _. apply Hs.
    + intros i _. rewrite Hs. done.
    + intros m Hm. by rewrite Hbu.
    + intros m Hm. rewrite Hbu //. by left.
    + intros m Hm Hum Hno. rewrite /V1 vset_ne //. intros ->. by apply (Hno (fslot bn)).
    + intros m Hm. rewrite /V1 vset_ne //. lia.
  - intros n Hn Hnn. rewrite /fblk Hs /V1 /vset. destruct (decide (n = bn)) as [->|Hnb]; [by rewrite decide_True|].
    rewrite decide_False //. intros E. apply Hnb, fslot_inj, (fo_inj _ _ _ F); [by apply fslot_range|done|done|done].
Qed.

(** The piece of a block that writei() stores. *)
Lemma written_block sb V x off l :
  disk_ok V sb → file_ok sb V x → 0 ≤ off < MAXFILE * BSIZE → fblk V x (off / BSIZE) ≠ 0 →
  Z.of_nat (length l) ≤ BSIZE - off mod BSIZE →
  let a := fblk V x (off / BSIZE) in
  written V x (vset V a (splice (V a) (Z.to_nat (off mod BSIZE)) l)) x off l.
Proof.
  intros D F Ho Hne Hl a. pose proof (off_bn off Ho) as Hbn. set (d := splice _ _ _).
  pose proof (Z.mod_pos_bound off BSIZE ltac:(done)) as Hmod.
  assert (length (V a) = 1024%nat) as HV by apply D.
  assert ((Z.to_nat (off mod BSIZE) + length l ≤ length (V a))%nat) as Hfit by (rewrite HV; change BSIZE with 1024 in *; lia).
  assert (length d = 1024%nat) as Hd by (rewrite /d length_splice //).
  destruct (set_block sb V x (off / BSIZE) d D F Hbn Hne Hd) as (_ & _ & _ & Hs & _ & Hc). fold a in Hs, Hc.
  intros o Hoo. pose proof (off_bn o Hoo) as Hbo. change BSIZE with 1024 in *. case_decide as E.
  - assert (o / 1024 = off / 1024 ∧ o mod 1024 = off mod 1024 + (o - off)) as [E1 E2] by dlia.
    rewrite /fb /fblk. change BSIZE with 1024. rewrite E1 E2 Hs. split; [done|]. pose proof (Hc (off / 1024) Hbn Hne) as Hcc.
    rewrite decide_True // /fblk Hs in Hcc. rewrite Hcc Z2Nat.inj_add; [lia..|]. rewrite splice_lookup_in //; [lia|].
    destruct (lookup_lt_is_Some_2 l (Z.to_nat (o - off))) as [v Ev]; [lia|]. by rewrite Ev.
  - intros Hno. rewrite /fb. change BSIZE with 1024. rewrite (Hc _ Hbo Hno). case_decide as E1; [|done]. rewrite E1.
    change (fblk V x (off / 1024)) with a. rewrite splice_lookup_ne //. dlia.
Qed.

(** The blocks that [r] bytes at [off] touch, and what they cost in the log
    besides the indirect block: two for a block that is allocated, one for a
    block that is there. *)
Definition nblk (off r : Z) : Z := if r <=? 0 then 0 else (off mod BSIZE + r + BSIZE - 1) / BSIZE.
Definition wcost (V : Z → list Z) (x : inode) (off r : Z) : Z :=
  if r <=? 0 then 0 else 2 * nblk off r - (if decide (fblk V x (off / BSIZE) = 0) then 0 else 1).

Lemma nblk_step off r : 0 ≤ off → 0 < r →
  let m := Z.min r (BSIZE - off mod BSIZE) in nblk off r = 1 + nblk (off + m) (r - m) ∧ 0 ≤ nblk (off + m) (r - m).
Proof.
  intros Ho Hr m. rewrite /nblk. rewrite (proj2 (Z.leb_gt r 0)) //. change BSIZE with 1024 in *.
  pose proof (Z.mod_pos_bound off 1024 ltac:(done)) as Hmod.
  destruct (Z.leb_spec (r - m) 0) as [Hle|Hgt].
  - split; [|lia]. symmetry. apply (Z.div_unique_pos _ _ _ (off mod 1024 + r - 1)); lia.
  - assert (m = 1024 - off mod 1024) as Em by lia.
    assert ((off + m) mod 1024 = 0) as -> by (rewrite Em; dlia). split; [|apply Z.div_pos; lia].
    rewrite (_ : off mod 1024 + r + 1024 - 1 = 1 * 1024 + (0 + (r - m) + 1024 - 1)); [lia|]. rewrite Z.div_add_l //.
Qed.

Lemma nfree_ext V V1 sb : (∀ m, 0 ≤ m < sb_size sb → bused V sb m = false → bused V1 sb m = false) → nfree V sb ≤ nfree V1 sb.
Proof.
  intros H. rewrite /nfree. apply inj_le, submseteq_length, NoDup_submseteq; [apply NoDup_filter, NoDup_seqZ|].
  intros m [Hu Hm]%list_elem_of_filter. apply list_elem_of_filter. split; [|done]. apply elem_of_seqZ in Hm. apply H; [lia|done].
Qed.
Lemma slice_app {A} (l : list A) i n m : take n (drop i l) ++ take m (drop (i + n) l) = take (n + m) (drop i l).
Proof. rewrite -drop_drop take_take_drop //. Qed.

Section writei.
Context (dv : Z) (p : nat) (sb : superblock) (ip : nat).
Notation working := (working dv p sb ip).
(** [source] has the bytes [B] while the memory is [mem]. *)
Context (source : Z → Z → K (Z * list Z)) (mem : gmap Z Z) (B : list Z).
Definition source_has : Prop := ∀ tot m s, k_cur s = Some p → k_mem s = mem → 0 ≤ tot → 0 ≤ m → tot + m ≤ Z.of_nat (length B) →
  source tot m s = Ok (0, slice B (Z.to_nat tot) (Z.to_nat m)) s.

(** One round of the loop after bmap(). *)
Lemma piece_tx {A} R V x s off tot m (m1 m2 : K A) (Q : A → kstate → Prop) :
  source_has → working [] R V x s → k_mem s = mem → 0 ≤ off < MAXFILE * BSIZE → fblk V x (off / BSIZE) ≠ 0 →
  0 ≤ tot → 0 ≤ m ≤ BSIZE - off mod BSIZE → tot + m ≤ Z.of_nat (length B) → budget 1 1 [] R s →
  let a := fblk V x (off / BSIZE) in
  let l := slice B (Z.to_nat tot) (Z.to_nat m) in
  let V' := vset V a (splice (V a) (Z.to_nat (off mod BSIZE)) l) in
  (∀ s' R' k, working [] R' V' x s' → did dv None k [] R s R' s' → k ≤ 1 → (in_log s a → k ≤ 0) → wp m2 Q s') →
  wp (x ← get_inode ip;
      bp ← bread (i_dev x) a;
      rb ← source tot m;
      mod_data bp (λ d, splice d (Z.to_nat (off mod BSIZE)) rb.2);;
      if rb.1 =? -1 then brelse bp;; m1 else log_write bp;; brelse bp;; m2) Q s.
Proof.
  intros Hsrc W Hmem Ho Hne Ht Hm Htm Bd a l V' HQ. pose proof W as [T Esb D F Ex Ed].
  apply wp_bind, wp_gets. rewrite Ex Ed. apply wp_bind.
  wp_use (bread_tx dv p [] R V s a T); [destruct Bd; lia|intros b Hx; destruct (not_elem_of_nil b Hx)|].
  intros b s1 (T1 & HbH & Hf & Hdata & _ & D1 & El). apply wp_bind.
  eapply wp_eq; [apply Hsrc; [exact (fi_cur _ _ _ _ _ _ (tx_fc _ _ _ _ _ _ T1))| |lia|lia|lia]|].
  { destruct (fs_only_fields _ _ _ (did_frame _ _ _ _ _ _ _ _ D1)) as (-> & _). done. }
  fold l. cbn [fst snd]. change (0 =? -1) with false. cbn iota.
  pose proof (Z.mod_pos_bound off BSIZE ltac:(done)) as Hmod.
  assert (length l = Z.to_nat m) as Hl by (rewrite /l slice_length //; lia).
  assert (length (splice (V a) (Z.to_nat (off mod BSIZE)) l) = 1024%nat) as Hlen.
  { rewrite length_splice ?(dk_len _ _ D) // Hl. change BSIZE with 1024 in *. lia. }
  apply wp_seq. wp_use (store_tx dv p [] R V s1 b a _ T1 Hf Hdata Hlen).
  { apply budget_take, (budget_mono (1 - 0) _ 1 1); [lia..|]. exact (budget_spent _ _ _ _ _ _ _ _ Bd (did_spent _ _ _ _ _ _ _ _ D1)). }
  intros [] s2 (R2 & k & T2 & Hf2 & HR & Hk & Hk0 & D2 & Hin). fold V' in T2.
  apply wp_bind. wp_use (brelse_tx dv p [] R2 V' s2 b a T2 HbH Hf2); [lia|]. intros [] s3 (T3 & D3 & El3).
  pose proof (did_trans _ _ _ _ _ _ _ _ _ _ _ (did_trans _ _ _ _ _ _ _ _ _ _ _ D1 (did_sub _ _ _ _ _ _ _ _ _ D2)) D3) as D13.
  destruct (set_block sb V x (off / BSIZE) _ D F (off_bn off Ho) Hne Hlen) as (Dk' & F' & _).
  apply (HQ s3 R2 (0 + k + 0)); [|done|lia|].
  - exact (working_to dv p sb ip [] R V x s [] R2 V' s3 W T3 Dk' F' (did_frame _ _ _ _ _ _ _ _ D13)).
  - intros Hs. assert (k = 0); [|lia]. apply Hk0. by rewrite /in_log El.
Qed.

Lemma writei_loop_tx n fuel : source_has → n = Z.of_nat (length B) → ∀ R V x s off tot,
  working [] R V x s → k_mem s = mem → 0 ≤ off → 0 ≤ tot ≤ n → off + (n - tot) ≤ MAXFILE * BSIZE →
  budget (icost s x + wcost V x off (n - tot) + 1) 2 [] R s → noind x + nblk off (n - tot) ≤ nfree V sb →
  nblk off (n - tot) < Z.of_nat fuel →
  wp (writei_loop fuel source ip off n tot) (λ r s', r = (n, off + (n - tot)) ∧ ∃ R' V' x',
    working [] R' V' x' s' ∧ grown sb V x V' x' ∧ written V x V' x' off (slice B (Z.to_nat tot) (Z.to_nat (n - tot))) ∧
    fs_only (Some ip) s s' ∧ budget 1 2 [] R' s') s.
Proof.
  intros Hsrc Hn. induction fuel as [|fuel IH]; intros R V x s off tot W Hmem Ho Ht Hmax Bd Hfree Hfuel.
  { rewrite /nblk in Hfuel. destruct (Z.leb_spec (n - tot) 0); [lia|]. exfalso.
    pose proof (nblk_step off (n - tot) Ho ltac:(lia)) as [E1 E2]. rewrite /nblk in E1, E2.
    rewrite (proj2 (Z.leb_gt (n - tot) 0)) in E1; lia. }
  cbn [writei_loop]. destruct (Z.leb_spec n tot) as [Hle|Hlt].
  { apply wp_ret. assert (n = tot) as -> by lia. rewrite Z.sub_diag Z.add_0_r. split; [done|]. exists R, V, x.
    split_and!; [done|apply grown_refl|apply written_nil| |].
    - exists (k_bufs s), (k_procs s), (k_log s), (k_inodes s). split_and!; [by destruct s|done|done].
    - pose proof (icost_range s x). apply (budget_mono (icost s x + wcost V x off (tot - tot) + 1) _ 2 2); [|..|done];
        rewrite /wcost Z.sub_diag; cbn; lia. }
  set (r := n - tot) in *. set (m := Z.min r (BSIZE - off mod BSIZE)). pose proof (nblk_step off r Ho ltac:(lia)) as [Enb Hnb].
  fold m in Enb, Hnb. pose proof (Z.mod_pos_bound off BSIZE ltac:(done)) as Hmod.
  assert (0 < m ≤ r ∧ m ≤ BSIZE - off mod BSIZE) as [Hm1 Hm2] by lia.
  assert (0 ≤ off < MAXFILE * BSIZE) as Hoff by lia. pose proof (off_bn off Hoff) as Hbn. set (bn := off / BSIZE) in *.
  assert (wcost V x off r = 2 * nblk off r - (if decide (fblk V x bn = 0) then 0 else 1)) as Ec by (rewrite /wcost (proj2 (Z.leb_gt r 0)) //; lia).
  pose proof (icost_range s x) as Hic.
  assert (b2 (fblk V x bn) ≤ wcost V x off r ∧ b1 (fblk V x bn) ≤ 1) as [Hc2 Hc1] by (rewrite Ec Enb /b2 /b1; case_decide; lia).
  apply wp_bind. wp_use (bmap_tx dv p sb ip R V x s bn W Hbn); [by apply (budget_mono (icost s x + wcost V x off r + 1) _ 2 2); [lia..|]|lia|].
  intros a s1 (R1 & V1 & x1 & k1 & W1 & G1 & Ea & Hne & Hin & D1 & Hk1 & Hn1 & Hd1).
  rewrite (proj2 (Z.eqb_neq a 0) Hne) Ea. rewrite Ea in Hne, Hin.
  pose proof (budget_spent _ _ _ _ _ _ _ _ Bd (did_spent _ _ _ _ _ _ _ _ D1)) as Bd1.
  pose proof (icost_range s1 x1) as Hic1.
  destruct (fs_only_fields _ _ _ (did_frame _ _ _ _ _ _ _ _ D1)) as (Em1 & _).
  apply (piece_tx R1 V1 x1 s1 off tot m); [done|done|congruence|done|done|lia|lia|lia| |].
  { apply (budget_mono (icost s x + wcost V x off r + 1 - k1) _ 2 1); [lia..|done]. }
  fold bn. intros s2 R2 k2 W2 D2 Hk2 Hk2'. set (l := slice B (Z.to_nat tot) (Z.to_nat m)) in *.
  set (V2 := vset V1 _ _) in *. assert (length l = Z.to_nat m) as Hl by (rewrite /l slice_length //; lia).
  pose proof W1 as [_ _ Dk1 F1 _ _]. pose proof W2 as [_ _ Dk2 F2 _ _].
  assert (Z.of_nat (length l) ≤ BSIZE - off mod BSIZE) as Hl2 by lia.
  pose proof (written_block sb V1 x1 off l Dk1 F1 Hoff Hne Hl2) as Hw. fold bn in Hw. cbv zeta in Hw. fold V2 in Hw.
  destruct (set_block sb V1 x1 bn (splice (V1 (fblk V1 x1 bn)) (Z.to_nat (off mod BSIZE)) l) Dk1 F1 Hbn Hne) as (_ & _ & G2 & _ & Hu2 & _).
  { rewrite length_splice (dk_len _ _ Dk1) // Hl. change BSIZE with 1024 in *. lia. }
  fold V2 in G2, Hu2.
  assert (written V x V1 x1 off []) as Hw0.
  { intros o Hoo. rewrite decide_False; [cbn; lia|]. intros Hno. destruct (fslot_range _ (off_bn o Hoo)) as [Hfs _].
    rewrite /fb. assert (fblk V1 x1 (o / BSIZE) = fblk V x (o / BSIZE)) as -> by exact (gw_slot _ _ _ _ _ G1 _ Hfs Hno).
    rewrite Hd1 //. by apply off_bn. }
  assert (written V x V2 x1 off l) as Hw2.
  { apply (written_app sb V x V1 x1 V2 x1 off [] l); [done|done|done|]. cbn [length]. by rewrite Z.add_0_r. }
  assert (grown sb V x V2 x1) as G02 by exact (grown_trans sb V x V1 x1 V2 x1 (wk_disk _ _ _ _ _ _ _ _ _ W) F1 F2 G1 G2).
  pose proof (icost_mono s1 s2 x1 x1 eq_refl (did_log _ _ _ _ _ _ _ _ D2)) as Hic2.
  pose proof (did_trans _ _ _ _ _ _ _ _ _ _ _ D1 (did_weaken _ _ _ _ _ _ _ _ D2)) as D02.
  destruct (fs_only_fields _ _ _ (did_frame _ _ _ _ _ _ _ _ D02)) as (Em2 & _).
  pose proof (budget_spent _ _ _ _ _ _ _ _ Bd (did_spent _ _ _ _ _ _ _ _ D02)) as Bd2.
  assert (wcost V2 x1 (off + m) (r - m) ≤ 2 * nblk (off + m) (r - m)) as Hwc by (rewrite /wcost /nblk; repeat case_match; lia).
  assert (k1 + k2 + icost s2 x1 ≤ icost s x + (2 - (if decide (fblk V x bn = 0) then 0 else 1))) as Hkk.
  { rewrite /b2 in Hk1. destruct (decide (fblk V x bn = 0)) as [E0|E0]; [|lia]. specialize (Hk2' (Hin E0)). lia. }
  assert (nfree V1 sb ≤ nfree V2 sb) as Hnf by (apply nfree_ext; intros; by rewrite Hu2).
  wp_use (IH R2 V2 x1 s2 (off + m) (tot + m) W2); [congruence|lia|lia|lia| | |rewrite (_ : n - (tot + m) = r - m); lia|].
  - rewrite (_ : n - (tot + m) = r - m); [lia|].
    apply (budget_mono (icost s x + wcost V x off r + 1 - (k1 + k2)) _ 2 2); [lia..|done].
  - rewrite (_ : n - (tot + m) = r - m); lia.
  - intros res s3 (-> & R3 & V3 & x3 & W3 & G3 & Hw3 & Hf3 & B3). split; [f_equal; lia|]. exists R3, V3, x3.
    split_and!; [done| | | |done].
    + exact (grown_trans sb V x V2 x1 V3 x3 (wk_disk _ _ _ _ _ _ _ _ _ W) F2 (wk_file _ _ _ _ _ _ _ _ _ W3) G02 G3).
    + rewrite (_ : slice B (Z.to_nat tot) (Z.to_nat r) = l ++ slice B (Z.to_nat (tot + m)) (Z.to_nat (n - (tot + m)))).
      { rewrite (_ : Z.to_nat r = (Z.to_nat m + Z.to_nat (n - (tot + m)))%nat); [lia|].
        rewrite (_ : Z.to_nat (tot + m) = (Z.to_nat tot + Z.to_nat m)%nat); [lia|]. symmetry. apply slice_app. }
      apply (written_app sb V x V2 x1 V3 x3); [done|done|done|]. rewrite Hl Z2Nat.id; [lia|done].
    + exact (fs_only_trans _ _ _ _ (did_frame _ _ _ _ _ _ _ _ D02) Hf3).
Qed.
End writei.

(** ** iupdate() *)

(** dinode_write() changes only the inode's 64 bytes. *)
Lemma put_le_frame n d off v i : 0 ≤ off → off + Z.of_nat n ≤ Z.of_nat (length d) → 0 ≤ i → ¬ off ≤ i < off + Z.of_nat n →
  put_le n d off v !! Z.to_nat i = d !! Z.to_nat i ∧ length (put_le n d off v) = length d.
Proof.
  intros Ho Hl Hi Hn. split; [|by apply length_put]. apply splice_lookup_ne; rewrite length_le_bytes; lia.
Qed.
Lemma dinode_write_frame x o d i : 0 ≤ o → o + 64 ≤ Z.of_nat (length d) → 0 ≤ i → ¬ o ≤ i < o + 64 →
  dinode_write x o d !! Z.to_nat i = d !! Z.to_nat i.
Proof.
  intros Ho Hl Hi Hn.
  assert (∀ k d, (k ≤ 13)%nat → o + 64 ≤ Z.of_nat (length d) →
    let d' := foldl (λ d i, put32 d (o + 12 + 4 * i) (addr_at x i)) d (seqZ 0 (Z.of_nat k)) in
    d' !! Z.to_nat i = d !! Z.to_nat i ∧ length d' = length d) as Hf.
  { intros k d0 Hk Hl0. induction k as [|k IH]; [done|]. destruct IH as [I1 I2]; [lia|]. cbv zeta.
    rewrite seqZ_S foldl_app. cbn [foldl]. set (e := foldl _ d0 _) in *. rewrite Z.add_0_l.
    destruct (put_le_frame 4 e (o + 12 + 4 * Z.of_nat k) (addr_at x (Z.of_nat k)) i) as [P1 P2]; [lia..|].
    rewrite /put32 P1 P2. done. }
  destruct (put_le_frame 2 d o (i_type x) i) as [P1 L1]; [lia..|]. set (d1 := put_le 2 d o _) in *.
  destruct (put_le_frame 2 d1 (o + 2) (i_major x) i) as [P2 L2]; [lia..|]. set (d2 := put_le 2 d1 _ _) in *.
  destruct (put_le_frame 2 d2 (o + 4) (i_minor x) i) as [P3 L3]; [lia..|]. set (d3 := put_le 2 d2 _ _) in *.
  destruct (put_le_frame 2 d3 (o + 6) (i_nlink x) i) as [P4 L4]; [lia..|]. set (d4 := put_le 2 d3 _ _) in *.
  destruct (put_le_frame 4 d4 (o + 8) (i_size x) i) as [P5 L5]; [lia..|]. set (d5 := put_le 4 d4 _ _) in *.
  destruct (Hf 13%nat d5) as [E _]; [lia|lia|]. etransitivity; [exact E|]. congruence.
Qed.

Lemma dioff_range inum : 0 ≤ dioff inum ∧ dioff inum + 64 ≤ 1024.
Proof. rewrite /dioff. change IPB with 16. dlia. Qed.

(** The inode on the disk is the inode in memory. *)
Definition on_disk (V : Z → list Z) (sb : superblock) (x : inode) : Prop :=
  ∀ y, let z := dinode_read (V (IBLOCK (i_inum x) sb)) (dioff (i_inum x)) y in
  i_type z = i_type x ∧ i_major z = i_major x ∧ i_minor z = i_minor x ∧ i_nlink z = i_nlink x ∧
  i_size z = i_size x ∧ ∀ i, 0 ≤ i ≤ NDIRECT → addr_at z i = addr_at x i.

(** The block of the inode is before the bitmap. *)
Definition inode_home (sb : superblock) (x : inode) : Prop := 0 ≤ IBLOCK (i_inum x) sb < sb_bmapstart sb.

Section iupdate.
Context (dv : Z) (p : nat) (sb : superblock) (ip : nat).
Notation working := (working dv p sb ip).

Lemma iupdate_tx R V x s :
  working [] R V x s → inode_ok x → inode_home sb x → budget 1 1 [] R s →
  wp (iupdate ip) (λ _ s', ∃ R' V', working [] R' V' x s' ∧ on_disk V' sb x ∧ fs_only None s s' ∧ 1 ≤ frees [] R' ∧
    (∀ m, m ≠ IBLOCK (i_inum x) sb → V' m = V m) ∧
    (∀ i, 0 ≤ i → ¬ dioff (i_inum x) ≤ i < dioff (i_inum x) + 64 →
       V' (IBLOCK (i_inum x) sb) !! Z.to_nat i = V (IBLOCK (i_inum x) sb) !! Z.to_nat i)) s.
Proof.
  intros W Hok Hh Bd. pose proof W as [T Esb D F Ex Ed]. set (ib := IBLOCK (i_inum x) sb) in *. set (o := dioff (i_inum x)).
  destruct (dioff_range (i_inum x)) as [Ho1 Ho2]. fold o in Ho1, Ho2. rewrite /inode_home -/ib in Hh.
  pose proof (dk_len _ _ D ib) as Hlen. pose proof (dk_start _ _ D) as Hst.
  assert (o + 64 ≤ Z.of_nat (length (V ib))) as Hfit by lia.
  pose proof (dinode_roundtrip x inode0 o (V ib) Hok Ho1 Hfit) as (_ & _ & _ & _ & _ & _ & Hl').
  rewrite /iupdate. apply wp_bind, wp_gets, wp_bind, wp_gets. rewrite Ex Esb Ed. fold ib. fold o.
  wp_use (update_tx dv p [] R V s ib (dinode_write x o) T Bd); [intros b Hx; destruct (not_elem_of_nil b Hx)|by rewrite Hl'|].
  intros [] s' (R' & k & T' & Hk & _ & D' & _). set (V' := vset V ib _) in *. exists R', V'.
  assert (∀ m, 0 ≤ m < sb_size sb → bused V' sb m = bused V sb m) as Hbu.
  { intros m Hm. rewrite /bused /V' vset_ne //. pose proof (bblock_range sb m (proj1 Hst) Hm). lia. }
  assert (∀ i, slot V' x i = slot V x i) as Hs.
  { intros i. apply slot_ext. intros Hind. apply vset_ne. pose proof (fo_slot _ _ _ F NDIRECT ltac:(done)) as Hr.
    rewrite slot_ind in Hr. destruct (Hr Hind). lia. }
  assert (1 ≤ frees [] R') as Hfr.
  { destruct Bd as (_ & _ & Hb), (did_spent _ _ _ _ _ _ _ _ D') as (_ & _ & Hs'). specialize (Hs' []). lia. }
  split_and!; [| |exact (did_frame _ _ _ _ _ _ _ _ D')|done|intros m Hm; by apply vset_ne|].
  - apply (working_to dv p sb ip [] R V x s); [done|done|..|exact (did_frame _ _ _ _ _ _ _ _ D')].
    + split; [apply D..| |].
      * intros m Hm. pose proof (dk_size _ _ D). rewrite Hbu; [lia|]. by apply D.
      * intros m. rewrite /V' /vset. case_decide; [by rewrite Hl'|apply D].
    + split.
      * intros i Hi. rewrite Hs. intros Hn. destruct (fo_slot _ _ _ F i Hi Hn). split; [done|]. rewrite Hbu //. lia.
      * intros i j. rewrite !Hs. apply F.
  - intros y. cbv zeta. fold ib. fold o. rewrite /V' vset_eq.
    by destruct (dinode_roundtrip x y o (V ib) Hok Ho1 Hfit) as (E1 & E2 & E3 & E4 & E5 & E6 & _).
  - intros i Hi Hn. rewrite /V' vset_eq. by apply dinode_write_frame.
Qed.
End iupdate.

(** ** What a write does *)

(** The bytes [bytes] were written to [x] at [off]: the file has them there and is
    as before elsewhere, its inode is on the disk, the bitmap has its blocks, and
    no other block and no other inode changed. *)
Record file_written (sb : superblock) (V : Z → list Z) (x : inode) (V' : Z → list Z) (x' : inode) (off : Z) (bytes : list Z) : Prop := {
  fw_size : i_size x' = Z.max (i_size x) (off + Z.of_nat (length bytes));
  fw_same : x' = set_i_size (i_size x') (set_i_addrs (i_addrs x') x);
  fw_whole : whole V' x';
  fw_bytes o : 0 ≤ o < i_size x' → fbyte V' x' o =
    if decide (off ≤ o < off + Z.of_nat (length bytes)) then default 0 (bytes !! Z.to_nat (o - off)) else fbyte V x o;
  fw_disk : on_disk V' sb x';
  fw_bitmap m : 0 ≤ m < sb_size sb → bused V' sb m = true ↔ bused V sb m = true ∨ ∃ i, 0 ≤ i < NSLOT ∧ slot V' x' i = m;
  fw_blocks m : dstart sb ≤ m < sb_size sb → bused V sb m = true → (∀ i, 0 ≤ i < NSLOT → slot V x i ≠ m) → V' m = V m;
  fw_meta m : 0 ≤ m < sb_bmapstart sb → m ≠ IBLOCK (i_inum x) sb → V' m = V m;
  fw_inodes i : 0 ≤ i → ¬ dioff (i_inum x) ≤ i < dioff (i_inum x) + 64 →
    V' (IBLOCK (i_inum x) sb) !! Z.to_nat i = V (IBLOCK (i_inum x) sb) !! Z.to_nat i
}.

Lemma fb_fbyte V x o : 0 ≤ o < MAXFILE * BSIZE → fblk V x (o / BSIZE) ≠ 0 → fb V x o = fbyte V x o.
Proof.
  intros Ho Hne. apply fblk_mapped in Hne as (_ & Hi & _); [|by apply off_bn]. rewrite /fb /fbyte fblk_faddr //.
Qed.

Lemma file_written_intro sb V x V1 x1 V2 off bytes :
  disk_ok V sb → disk_ok V1 sb → file_ok sb V1 x1 → grown sb V x V1 x1 → written V x V1 x1 off bytes → whole V x →
  0 ≤ off ≤ i_size x → off + Z.of_nat (length bytes) ≤ MAXFILE * BSIZE → 0 ≤ IBLOCK (i_inum x) sb < sb_bmapstart sb →
  let x2 := set_i_size (Z.max (i_size x) (off + Z.of_nat (length bytes))) x1 in
  on_disk V2 sb x2 → (∀ m, m ≠ IBLOCK (i_inum x) sb → V2 m = V1 m) →
  (∀ i, 0 ≤ i → ¬ dioff (i_inum x) ≤ i < dioff (i_inum x) + 64 →
       V2 (IBLOCK (i_inum x) sb) !! Z.to_nat i = V1 (IBLOCK (i_inum x) sb) !! Z.to_nat i) →
  file_written sb V x V2 x2 off bytes.
Proof.
  intros Dk Dk1 F1 G Hw Hwh Ho Hmax Hib x2 Hdisk Hsame Hino. set (n := Z.of_nat (length bytes)) in *.
  set (sz := Z.max (i_size x) (off + n)) in *. pose proof (dk_start _ _ Dk) as Hst.
  assert (∀ bn, 0 ≤ bn → bn * BSIZE < i_size x → 0 ≤ bn < MAXFILE ∧ fblk V x bn ≠ 0) as Hold.
  { intros bn Hbn Hlt. destruct (Hwh bn Hbn Hlt) as (Hr & Hm). split; [done|]. apply fblk_mapped; [done|by split]. }
  assert (∀ i, 0 ≤ i < NSLOT → slot V2 x2 i = slot V1 x1 i) as Hslot.
  { intros i Hi. transitivity (slot V2 x1 i); [done|]. apply slot_ext. intros Hind. apply Hsame.
    pose proof (fo_slot _ _ _ F1 NDIRECT ltac:(done)) as Hr. rewrite slot_ind in Hr. destruct (Hr Hind). lia. }
  assert (∀ bn, 0 ≤ bn < MAXFILE → fblk V2 x2 bn = fblk V1 x1 bn) as Hfb by (intros bn Hbn; apply Hslot; by apply fslot_range).
  assert (∀ bn, 0 ≤ bn → bn * BSIZE < sz → 0 ≤ bn < MAXFILE ∧ fblk V1 x1 bn ≠ 0) as Hnew.
  { intros bn Hbn Hlt. destruct (decide (bn * BSIZE < i_size x)) as [Hs|Hs].
    - destruct (Hold bn Hbn Hs) as [Hr Hne]. split; [done|]. rewrite /fblk (gw_slot _ _ _ _ _ G); [by apply fslot_range|done|done].
    - change BSIZE with 1024 in *. assert (off ≤ bn * 1024 < off + n) as Hin by lia.
      specialize (Hw (bn * BSIZE)). change BSIZE with 1024 in Hw. rewrite decide_True // Z.div_mul // in Hw.
      destruct Hw as [Hw _]; [lia|]. split; [lia|done]. }
  assert (∀ m, 0 ≤ m < sb_size sb → bused V2 sb m = bused V1 sb m) as Hbu.
  { intros m Hm. rewrite /bused Hsame //. pose proof (bblock_range sb m (proj1 Hst) Hm). lia. }
  split.
  - done.
  - rewrite /x2 {1}(gw_same _ _ _ _ _ G). by destruct x.
  - intros bn Hbn Hlt. destruct (Hnew bn Hbn Hlt) as [Hr Hne]. apply fblk_mapped; [done|]. by rewrite Hfb.
  - intros o Hoo. change (i_size x2) with sz in Hoo.
    assert (o / BSIZE * BSIZE < sz ∧ 0 ≤ o / BSIZE) as [Hq Hq0] by (change BSIZE with 1024; dlia).
    destruct (Hnew _ Hq0 Hq) as [Hr Hne]. assert (0 ≤ o < MAXFILE * BSIZE) as Hor by (change BSIZE with 1024 in *; dlia).
    rewrite -fb_fbyte; [done|by rewrite Hfb|]. specialize (Hw o Hor).
    assert (fb V2 x2 o = fb V1 x1 o) as ->.
    { rewrite /fb Hfb // Hsame //. destruct (fo_slot _ _ _ F1 (fslot (o / BSIZE))) as [? _]; [by apply fslot_range|done|].
      change (slot V1 x1 (fslot (o / BSIZE))) with (fblk V1 x1 (o / BSIZE)) in *. lia. }
    fold n in Hw |- *. destruct (decide (off ≤ o < off + n)) as [E|E]; [destruct Hw as [_ <-]; done|].
    destruct (Hold (o / BSIZE)) as [_ Hno]; [lia|change BSIZE with 1024; dlia|]. rewrite Hw //. by apply fb_fbyte.
  - done.
  - intros m Hm. rewrite Hbu //. split.
    + intros Hu. destruct (gw_only _ _ _ _ _ G m Hm Hu) as [|(i & Hi & _ & E)]; [by left|right]. exists i. by rewrite Hslot.
    + intros [Hu|(i & Hi & E)]; [by apply (gw_used _ _ _ _ _ G)|]. rewrite Hslot // in E.
      destruct (decide (m = 0)) as [->|Hm0]; [apply (dk_meta _ _ Dk1); lia|]. rewrite -E. apply (fo_slot _ _ _ F1); [done|lia].
  - intros m Hm Hu Hno. rewrite Hsame; [lia|]. by apply (gw_keep _ _ _ _ _ G).
  - intros m Hm Hne. rewrite Hsame //. by apply (gw_meta _ _ _ _ _ G).
  - intros i Hi Hn. rewrite Hino //. by rewrite (gw_meta _ _ _ _ _ G).
Qed.

(** The state in which a thread may write [n] bytes at [off] of the file of [ip]:
    it is in a transaction with room for [k] blocks, and there are free blocks. *)
Record may_write (dv : Z) (p : nat) (R : nat → Z) (V : Z → list Z) (ip : nat) (off n k : Z) (s : kstate) : Prop := {
  mw_work : working dv p (k_sb s) ip [] R V (inode_at s ip) s;
  mw_inode : inode_ok (inode_at s ip);
  mw_home : inode_home (k_sb s) (inode_at s ip);
  mw_whole : whole V (inode_at s ip);
  mw_off : 0 ≤ off ≤ i_size (inode_at s ip);
  mw_max : 0 ≤ n ∧ off + n ≤ MAXFILE * BSIZE;
  mw_room : budget k 2 [] R s;
  mw_free : nblk off n + 1 ≤ nfree V (k_sb s)
}.

(** The file was written and the transaction goes on. *)
Definition did_write (dv : Z) (p : nat) (V : Z → list Z) (ip : nat) (off : Z) (bytes : list Z) (s s' : kstate) : Prop :=
  ∃ R' V' x', working dv p (k_sb s) ip [] R' V' x' s' ∧
    file_written (k_sb s) V (inode_at s ip) V' x' off bytes ∧ fs_only (Some ip) s s' ∧ room s'.

Lemma grown_inode_ok sb V x V1 x1 v : inode_ok x → disk_ok V1 sb → file_ok sb V1 x1 → grown sb V x V1 x1 → 0 ≤ v < 2 ^ 32 →
  inode_ok (set_i_size v x1).
Proof.
  intros [O1 O2 O3 O4 _ _] D F G Hv. pose proof (gw_same _ _ _ _ _ G) as E.
  split; [rewrite E; by destruct x..|exact Hv|]. intros i Hi. change (0 ≤ addr_at x1 i < 2 ^ 32).
  pose proof (dk_max _ _ D). pose proof (dk_start _ _ D). destruct (decide (addr_at x1 i = 0)) as [->|Hne]; [lia|].
  assert (slot V1 x1 i = addr_at x1 i) as Es by (rewrite /slot (proj2 (Z.leb_le i NDIRECT)) //; lia).
  destruct (fo_slot _ _ _ F i); [change NSLOT with 269; change NDIRECT with 12 in Hi; lia|by rewrite Es|]. rewrite Es in H1. lia.
Qed.

Lemma nblk_fuel off n : 0 ≤ off → 0 ≤ n → nblk off n < Z.of_nat (Z.to_nat (n / BSIZE + 3)).
Proof.
  intros Ho Hn. rewrite /nblk. change BSIZE with 1024. assert (0 ≤ n / 1024) by (apply Z.div_pos; lia).
  rewrite Z2Nat.id; [lia|]. case_match; [lia|]. dlia.
Qed.

Lemma writei_gen_tx dv p R V ip source B off k s :
  source_has p source (k_mem s) B → may_write dv p R V ip off (Z.of_nat (length B)) k s →
  icost s (inode_at s ip) + wcost V (inode_at s ip) off (Z.of_nat (length B)) + 1 ≤ k →
  wp (writei_gen source ip off (Z.of_nat (length B))) (λ r s', r = Z.of_nat (length B) ∧ did_write dv p V ip off B s s') s.
Proof.
  intros Hsrc [W Hok Hh Hwh Ho [Hn Hmax] Bd Hfr] Hk. set (x := inode_at s ip) in *. set (n := Z.of_nat (length B)) in *. set (sb := k_sb s) in *.
  rewrite /writei_gen. apply wp_bind, wp_gets. fold x.
  assert (MAXFILE * BSIZE = 274432) as EM by reflexivity. rewrite EM in Hmax |- *.
  rewrite u32_id; [lia|]. rewrite (proj2 (Z.ltb_ge (i_size x) off)) ?(proj2 (Z.ltb_ge (off + n) off)) ?(proj2 (Z.ltb_ge 274432 (off + n))); [lia..|].
  cbn [orb]. apply wp_bind. wp_use (writei_loop_tx dv p sb ip source (k_mem s) B n (Z.to_nat (n / BSIZE + 3)) Hsrc eq_refl R V x s off 0 W).
  { done. } { lia. } { lia. } { rewrite EM. lia. }
  { rewrite Z.sub_0_r. apply (budget_mono k _ 2 2); [lia..|done]. }
  { rewrite Z.sub_0_r /noind. case_decide; lia. }
  { rewrite Z.sub_0_r. apply nblk_fuel; lia. }
  intros r s1 (-> & R1 & V1 & x1 & W1 & G1 & Hw & Hf1 & B1). rewrite Z.sub_0_r. rewrite Z.sub_0_r in Hw.
  rewrite (_ : slice B (Z.to_nat 0) (Z.to_nat n) = B) in Hw; [by rewrite /slice drop_0 take_ge //; rewrite /n Nat2Z.id|].
  pose proof W1 as [T1 Esb1 Dk1 F1 Ex1 Ed1]. pose proof W as [_ _ Dk _ _ _].
  apply wp_bind, wp_gets. rewrite Ex1.
  assert (i_size x1 = i_size x) as Esz by (by rewrite (gw_same _ _ _ _ _ G1)).
  assert (i_inum x1 = i_inum x) as Einum by (by rewrite (gw_same _ _ _ _ _ G1)).
  set (sz := Z.max (i_size x) (off + n)). set (x2 := set_i_size sz x1).
  set (s2 := if i_size x1 <? off + n then upd_inode ip (set_i_size (off + n)) s1 else s1).
  assert (working dv p sb ip [] R1 V1 x2 s2 ∧ budget 1 1 [] R1 s2 ∧ fs_only (Some ip) s1 s2) as (W2 & B2 & Hf2).
  { assert (budget 1 1 [] R1 s1) as B1' by (apply (budget_mono 1 _ 2 1); [lia..|done]).
    rewrite /s2 /x2 /sz -Esz. destruct (Z.ltb_spec (i_size x1) (off + n)) as [Hlt|Hge].
    - rewrite Z.max_r; [lia|]. split_and!; [|done|].
      + split; [by apply tx_inode|done|done|by split; apply F1| |done]. by rewrite inode_at_upd decide_True // Ex1.
      + exists (k_bufs s1), (k_procs s1), (k_log s1), (k_inodes (upd_inode ip (set_i_size (off + n)) s1)).
        split_and!; [by destruct s1|done|]. intros j Hj. rewrite inode_at_upd decide_False //. congruence.
    - rewrite Z.max_l; [lia|]. rewrite (_ : set_i_size (i_size x1) x1 = x1); [by destruct x1|]. split_and!; [done|done|].
      exists (k_bufs s1), (k_procs s1), (k_log s1), (k_inodes s1). split_and!; [by destruct s1|done|done]. }
  apply wp_bind. apply (wp_mono _ (λ _ s', s' = s2)).
  { rewrite /s2. apply wp_when; intros ->; [by apply wp_modify|done]. }
  intros [] ? ->. clearbody s2.
  assert (inode_ok x2) as Hok2.
  { apply (grown_inode_ok sb V x V1 x1); [done..|]. destruct Hok as [_ _ _ _ Hs _]. rewrite /sz. lia. }
  apply wp_bind. wp_use (iupdate_tx dv p sb ip R1 V1 x2 s2 W2 Hok2); [by rewrite /inode_home /x2 /= Einum|done|].
  intros [] s3 (R3 & V3 & W3 & Hd3 & Hf3 & Hfr3 & Hs3 & Hi3). apply wp_ret. split; [done|]. exists R3, V3, x2.
  change (i_inum x2) with (i_inum x1) in Hs3, Hi3. rewrite Einum in Hs3, Hi3. split_and!; [done| | |apply (frees_room dv p [] R3 V3 s3 (tx_fc _ _ _ _ _ _ (wk_tx _ _ _ _ _ _ _ _ _ W3))); lia].
  - apply (file_written_intro sb V x V1 x1 V3 off B); done.
  - exact (fs_only_trans _ _ _ _ (fs_only_trans _ _ _ _ Hf1 Hf2) (fs_only_weaken ip _ _ Hf3)).
Qed.

(** ** Sources *)

Lemma kernel_source p mem src n : 0 ≤ n → 0 ≤ src → src + n < 2 ^ 64 →
  source_has p (λ tot m, either_copyin false (u64 (src + tot)) m) mem (rd_bytes mem src (Z.to_nat n)).
Proof.
  intros Hn Hs Hl tot m s Hc Hm H1 H2 H3. rewrite length_rd_bytes in H3. rewrite u64_id; [lia|].
  rewrite /either_copyin /bind /myproc /bind /gets Hc /= Hm. f_equal. f_equal. apply list_eq. intros i.
  destruct (decide (i < Z.to_nat m)%nat) as [Hi|Hi].
  - rewrite slice_lookup // !rd_bytes_lookup //; [lia|]. do 2 f_equal. lia.
  - rewrite !lookup_ge_None_2 //; rewrite ?length_rd_bytes ?slice_length ?length_rd_bytes; lia.
Qed.
Lemma local_source p mem B :
  source_has p (λ tot m, ret (0, slice B (Z.to_nat tot) (Z.to_nat m))) mem B.
Proof. done. Qed.

(** What filewrite() passes to writei() in one transaction costs at most
    MAXOPBLOCKS blocks. *)
Lemma chunk_cost V x s off n : whole V x → 0 ≤ off ≤ i_size x → n ≤ write_max →
  icost s x + wcost V x off n + 1 ≤ MAXOPBLOCKS.
Proof.
  intros Hw Ho Hn. pose proof (icost_range s x). change write_max with 3072 in Hn. change MAXOPBLOCKS with 10.
  rewrite /wcost /nblk. change BSIZE with 1024. destruct (Z.leb_spec n 0); [lia|].
  destruct (decide (off mod 1024 = 0)) as [E|E]; [rewrite E; case_decide; dlia|].
  rewrite decide_False; [|dlia]. apply fblk_mapped.
  - destruct (Hw (off / 1024)) as [? _]; [|change BSIZE with 1024|done]; dlia.
  - apply Hw; [|change BSIZE with 1024]; dlia.
Qed.

(** ** The theorems *)

(** C34: writei() from kernel memory writes all its bytes if the transaction has
    room for them: the file has them at [off] and is as before elsewhere, without
    holes, the size and the addresses are on the disk, blocks it needed were free
    and are marked in use, and no block of another file, no other inode and
    nothing else in the kernel changes.  Two blocks of the log are enough for
    every block that is allocated, one for every block that is there, two for the
    indirect block and one for the inode. *)
Theorem writei_writes dv p R V ip src off n k s :
  may_write dv p R V ip off n k s → 0 ≤ src → src + n < 2 ^ 64 →
  icost s (inode_at s ip) + wcost V (inode_at s ip) off n + 1 ≤ k →
  wp (writei ip false src off n) (λ r s', r = n ∧ did_write dv p V ip off (rd_bytes (k_mem s) src (Z.to_nat n)) s s') s.
Proof.
  intros Hm Hs Hl Hk. pose proof (mw_max _ _ _ _ _ _ _ _ _ Hm) as [Hn _].
  pose proof (writei_gen_tx dv p R V ip _ _ off k s (kernel_source p (k_mem s) src n Hn Hs Hl)) as H.
  rewrite length_rd_bytes Z2Nat.id // in H. exact (H Hm Hk).
Qed.

(** C35: the reservation of begin_op() is enough for what filewrite() writes in one
    transaction: a write of at most ((MAXOPBLOCKS-1-1-2)/2)*BSIZE bytes, at any
    offset of the file and with any number of its blocks missing, uses at most
    MAXOPBLOCKS blocks of the log (log_write() never says that the transaction is
    too big), and what is read back from there are the bytes that were written. *)
Theorem chunk_fits dv p R V ip src dst off n s :
  may_write dv p R V ip off n MAXOPBLOCKS s → n ≤ write_max →
  0 ≤ src → src + n < 2 ^ 64 → 0 ≤ dst → dst + n < 2 ^ 64 →
  wp (w ← writei ip false src off n; r ← readi ip false dst off n; ret (w, r))
    (λ wr s', wr = (n, n) ∧ rd_bytes (k_mem s') dst (Z.to_nat n) = rd_bytes (k_mem s) src (Z.to_nat n)) s.
Proof.
  intros Hm Hmax Hs Hl Hd Hdl. pose proof (mw_max _ _ _ _ _ _ _ _ _ Hm) as [Hn Hn2]. pose proof (mw_off _ _ _ _ _ _ _ _ _ Hm) as Ho.
  set (B := rd_bytes (k_mem s) src (Z.to_nat n)).
  assert (Z.of_nat (length B) = n) as HB by (rewrite length_rd_bytes; lia).
  apply wp_bind. pose proof (writei_gen_tx dv p R V ip _ B off MAXOPBLOCKS s (kernel_source p (k_mem s) src n Hn Hs Hl)) as H.
  rewrite HB in H. wp_use H; [done|by apply chunk_cost; [apply Hm|..]|].
  intros r s1 (-> & R1 & V1 & x1 & W1 & [Z1 Z2 Z3 Z4 Z5 _ _ _ _] & Hf & Hroom). rewrite HB in Z1, Z4.
  assert (MAXFILE * BSIZE = 274432) as EM by reflexivity.
  assert (0 ≤ i_size x1 < 2 ^ 32) as Hsz by (pose proof (io_size _ (mw_inode _ _ _ _ _ _ _ _ _ Hm)); lia).
  pose proof W1 as [T1 _ _ _ Ex1 Ed1]. rewrite /readi. apply wp_bind, wp_bind.
  wp_use (readi_gen_spec dv p R1 V1 _ _ n ip s1 off n (kernel_sink p dst n Hd Hdl) (tx_fc _ _ _ _ _ _ T1) Hroom);
    [by rewrite Ex1|by rewrite Ex1|by rewrite Ex1|lia|lia|lia|].
  intros r s2 (got & Eg & -> & _ & _ & Em & _). apply wp_ret, wp_ret. cbn [fst].
  assert (got = n) as ->.
  { rewrite Eg Ex1 /readable. rewrite (proj2 (Z.ltb_ge (i_size x1) off)) ?(proj2 (Z.leb_gt (2 ^ 32) (off + n))); [lia..|]. cbn [orb]. lia. }
  split; [done|]. rewrite Em Z.add_0_r u64_id; [lia|]. rewrite Ex1.
  assert (fbytes V1 x1 off n = B) as ->.
  { apply list_eq. intros i. destruct (decide (i < Z.to_nat n)%nat) as [Hi|Hi].
    - rewrite fbytes_lookup // Z4; [lia|]. rewrite decide_True; [lia|]. rewrite (_ : Z.to_nat (off + Z.of_nat i - off) = i); [lia|].
      destruct (lookup_lt_is_Some_2 B i) as [v ->]; [lia|done].
    - rewrite !lookup_ge_None_2 //; [rewrite fbytes_length; lia|lia]. }
  rewrite -{1}HB Nat2Z.id. apply rd_wr_bytes. apply rd_bytes_bytes.
Qed.

(** ** A small file system *)

(** 200 blocks with the bitmap in block 45; a thread in a transaction has the
    directory of block 46 in the inode table. *)
Definition small_sb : superblock := Superblock FSMAGIC 200 154 200 30 2 32 45.
Definition small_bitmap : list Z := replicate 5 255 ++ [127] ++ replicate 1018 0.
Definition small_fs : kstate :=
  set_sb small_sb (set_log (Log 2 30 1 false ROOTDEV 0 ∅)
    (set_disk (<[45 := small_bitmap]> {[ 46 := dir_block ]}) with_dir)).

Lemma small_view : fc_inv ROOTDEV 0 [] (λ _, 0) (block_at small_fs) small_fs ∧ room small_fs.
Proof.
  apply boot_view; [reflexivity| |reflexivity|reflexivity]. intros n. rewrite /block_at.
  change (k_disk small_fs) with (<[45 := small_bitmap]> {[ 46 := dir_block ]} : gmap Z (list Z)).
  destruct (decide (n = 45)) as [->|]; [by rewrite lookup_insert_eq|]. rewrite lookup_insert_ne; [congruence|].
  rewrite lookup_singleton. by case_decide.
Qed.
Lemma small_inode : inode_at small_fs 0 = dir_inode.
Proof. reflexivity. Qed.
Lemma small_slot i : 0 ≤ i < NSLOT → slot (block_at small_fs) dir_inode i = if decide (i = 0) then 46 else 0.
Proof.
  intros Hi. assert (∀ j, addr_at dir_inode j = if decide (j = 0) then 46 else 0) as Ha.
  { intros j. rewrite /addr_at. cbn [i_addrs dir_inode]. rewrite lookup_singleton. case_decide; subst; [done|].
    rewrite decide_False //. congruence. }
  rewrite /slot !Ha. change NDIRECT with 12. destruct (Z.leb_spec i 12); [done|]. destruct (decide (12 = 0)) as [?|_]; [lia|].
  cbn [Z.eqb]. rewrite decide_False //. change NDIRECT with 12 in *. lia.
Qed.
Lemma small_meta : ∀ m, 0 ≤ m < 47 → bused (block_at small_fs) small_sb m = true.
Proof.
  intros m Hm. assert (forallb (bused (block_at small_fs) small_sb) (seqZ 0 47) = true) as H by (vm_compute; reflexivity).
  rewrite forallb_forall in H. apply H, list_elem_of_In, elem_of_seqZ. lia.
Qed.
Lemma small_work : working ROOTDEV 0 small_sb 0 [] (λ _, 0) (block_at small_fs) dir_inode small_fs.
Proof.
  destruct small_view as [I _]. split; [|done|..|done|done].
  - split; [exact I|..].
    + intros i Hi. change (0 ≤ i < 0) in Hi. lia.
    + done.
    + done.
    + intros b _. done.
  - split; [done|done|done| |].
    + intros m Hm. apply small_meta. change (dstart small_sb) with 46 in Hm. lia.
    + intros m. by apply (view_length ROOTDEV 0 (λ _, 0) (block_at small_fs) small_fs).
  - split.
    + intros i Hi. rewrite small_slot //. case_decide; [|done]. intros _. split; [done|]. by apply small_meta.
    + intros i j Hi Hj. rewrite !small_slot //. repeat case_decide; congruence.
Qed.
Lemma small_whole : whole (block_at small_fs) dir_inode.
Proof.
  intros bn H0 H1. cbn [i_size dir_inode] in H1. rewrite /BSIZE in H1.
  assert (bn = 0) as -> by lia. split_and!; [done|rewrite /MAXFILE; done|done|done].
Qed.
Lemma small_may_write off n k : 0 ≤ off ≤ 32 → 0 ≤ n ≤ 3072 → 0 ≤ k ≤ 28 →
  may_write ROOTDEV 0 (λ _, 0) (block_at small_fs) 0 off n k small_fs.
Proof.
  intros Ho Hn Hk. split; [exact small_work| | |exact small_whole|exact Ho| | |].
  - split; [by vm_compute..|]. intros i _. rewrite /addr_at. cbn [i_addrs dir_inode]. rewrite small_inode lookup_singleton. by case_decide.
  - done.
  - rewrite (_ : MAXFILE * BSIZE = 274432); [done|lia].
  - split_and!; [change (0 + k ≤ 30); lia|change (0 + k ≤ 30 - 1); lia|]. change (k + 2 ≤ 30). lia.
  - assert (nfree (block_at small_fs) small_sb = 153) as E by by vm_compute. change (k_sb small_fs) with small_sb. rewrite E.
    rewrite /nblk. change BSIZE with 1024. destruct (n <=? 0); [lia|]. dlia.
Qed.

Lemma writei_writes_witness :
  wp (writei 0 false 4096 20 2000) (λ r s', r = 2000 ∧
    did_write ROOTDEV 0 (block_at small_fs) 0 20 (rd_bytes (k_mem small_fs) 4096 (Z.to_nat 2000)) small_fs s') small_fs.
Proof.
  apply (writei_writes ROOTDEV 0 (λ _, 0) (block_at small_fs) 0 4096 20 2000 6 small_fs); [|done|done|by vm_compute].
  apply small_may_write; lia.
Defined.

Lemma chunk_fits_witness :
  wp (w ← writei 0 false 4096 32 3000; r ← readi 0 false 8192 32 3000; ret (w, r))
    (λ wr s', wr = (3000, 3000) ∧ rd_bytes (k_mem s') 8192 (Z.to_nat 3000) = rd_bytes (k_mem small_fs) 4096 (Z.to_nat 3000)) small_fs.
Proof.
  apply (chunk_fits ROOTDEV 0 (λ _, 0) (block_at small_fs) 0 4096 8192 32 3000 small_fs); [|by vm_compute|done..].
  apply small_may_write; unfold MAXOPBLOCKS; lia.
Defined.
