(* ===== verification/Dirlink.v ===== *)
(** Adding names to directories: dirlink() of kernel/fs.c composed from the
    reading of Fsread.v and the writing of Writei.v. *)
From S2P Require Import Prelude Riscv Mem State Sched Bytes Bio Walk Swap Log Fs File Cache Fsread Fswrite Writei.

(** ** Reading inside a transaction *)

Section quiet.
Context (dv : Z) (p : nat) (ip : nat) (R : nat → Z) (V : Z → list Z).

Lemma tx_quiet s s' : tx dv p [] R V s → fc_inv dv p [] R V s' → quiet dv R s s' → tx dv p [] R V s'.
Proof.
  intros [_ Hp Ho Hn Hs] I' Q. destruct (quiet_fields _ _ _ _ Q) as (_ & El & _ & _).
  split; [done| |by rewrite El..]. intros i. rewrite El. intros Hi. destruct (Hp i Hi) as (b & Hb & Hf & HR).
  exists b. split_and!; [done| |done]. destruct Q as [_ K]. by apply K.
Qed.
Lemma working_quiet sb x s s' :
  working dv p sb ip [] R V x s → fc_inv dv p [] R V s' → quiet dv R s s' → working dv p sb ip [] R V x s'.
Proof.
  intros [T Esb D F Ex Ed] I' Q. destruct (quiet_fields _ _ _ _ Q) as (Ei & _ & Es & _).
  split; [by apply (tx_quiet s)|congruence|done|done|by rewrite /inode_at Ei|done].
Qed.
Lemma may_write_quiet off n k s s' :
  may_write dv p R V ip off n k s → fc_inv dv p [] R V s' → quiet dv R s s' → may_write dv p R V ip off n k s'.
Proof.
  intros [W Hok Hh Hw Ho Hm Bd Hf] I' Q. destruct (quiet_fields _ _ _ _ Q) as (Ei & El & Es & _).
  assert (inode_at s' ip = inode_at s ip) as Ex by by rewrite /inode_at Ei.
  split; rewrite ?Ex ?Es //; [by apply (working_quiet _ _ s)|by rewrite /budget El].
Qed.
Lemma quiet_fs_only io s s' : quiet dv R s s' → k_mem s' = k_mem s → fs_only io s s'.
Proof.
  intros [(bs & ps & E & Hp) _] Em. exists bs, ps, (k_log s), (k_inodes s). rewrite Em in E.
  split_and!; [rewrite E; by destruct s|intros i; rewrite Hp; by destruct s|]. intros j _. rewrite E. by destruct s.
Qed.
End quiet.

(** ** dirlink() *)

Lemma find_ext {A} (P P' : A → bool) l : (∀ x, x ∈ l → P x = P' x) → List.find P l = List.find P' l.
Proof.
  induction l as [|x l IH]; intros H; cbn; [done|]. rewrite H; [left|]. rewrite IH //. intros y Hy. apply H. by right.
Qed.
Lemma find_app_r {A} (P : A → bool) l x : List.find P (l ++ [x]) =
  match List.find P l with Some y => Some y | None => if P x then Some x else None end.
Proof. induction l as [|y l IH]; cbn; [done|]. destruct (P y); [done|apply IH]. Qed.
Lemma find_only {A} `{EqDecision A} (P : A → bool) l x :
  x ∈ l → P x = true → (∀ y, y ∈ l → y ≠ x → P y = false) → List.find P l = Some x.
Proof.
  intros Hin Hx Ho. induction l as [|y l IH]; [by apply elem_of_nil in Hin|]. cbn. destruct (decide (y = x)) as [->|Hne]; [by rewrite Hx|].
  rewrite Ho; [left|done|]. apply IH; [|intros z Hz; apply Ho; by right]. apply elem_of_cons in Hin as [->|]; done.
Qed.

(** The end of the directory, in entries. *)
Lemma dir_offsets_mul k : 0 ≤ k → dir_offsets (k * DIRENT) = (λ i, i * DIRENT) <$> seqZ 0 k.
Proof.
  intros Hk. rewrite /dir_offsets /DIRENT. do 2 f_equal. symmetry. apply (Z.div_unique_pos _ _ _ 15); lia.
Qed.
Lemma dir_offsets_grow size : 0 ≤ size → (DIRENT | size) → dir_offsets (size + DIRENT) = dir_offsets size ++ [size].
Proof.
  intros Hs [k ->]. assert (0 ≤ k) as Hk by (rewrite /DIRENT in Hs; lia).
  rewrite (_ : k * DIRENT + DIRENT = (k + 1) * DIRENT); [lia|]. rewrite !dir_offsets_mul; [lia..|].
  rewrite seqZ_app; [lia|lia|]. rewrite fmap_app. f_equal.
Qed.
Lemma dir_offsets_end size : 0 ≤ size → (DIRENT | size) → DIRENT * Z.of_nat (length (dir_offsets size)) = size.
Proof.
  intros Hs [k ->]. assert (0 ≤ k) as Hk by (rewrite /DIRENT in Hs; lia).
  rewrite dir_offsets_mul // length_fmap length_seqZ /DIRENT. lia.
Qed.
Lemma dir_offsets_div size off : off ∈ dir_offsets size → (DIRENT | off).
Proof. intros (i & -> & _)%list_elem_of_fmap. by exists i. Qed.

Section loop.
Context (dv : Z) (p : nat) (R : nat → Z) (V : Z → list Z).
Notation fc := (fc_inv dv p [] R V).

Lemma dirlink_loop_spec dp x offs fin s :
  fc s → room s → inode_at s dp = x → i_dev x = dv → dir_ok V x → (∀ off, off ∈ offs → off ∈ dir_offsets (i_size x)) →
  wp (dirlink_loop offs dp fin) (λ r s', r = default fin (List.find (λ off, de_inum (entry V x off) =? 0) offs) ∧
    fc s' ∧ room s' ∧ quiet dv R s s' ∧ k_mem s' = k_mem s) s.
Proof.
  revert s. induction offs as [|off offs IH]; intros s I Hroom Hx Hd Hok Hin; cbn [dirlink_loop List.find].
  { apply wp_ret. split_and!; [done..|apply quiet_refl|done]. }
  apply wp_bind. wp_use (readi_entry dv p R V s dp off I Hroom); [by rewrite Hx|by rewrite Hx|rewrite Hx; apply Hin; left|].
  intros r s1 (-> & I1 & Hroom1 & Em & Q1). cbn [fst snd]. rewrite Z.eqb_refl Hx. cbn [negb].
  destruct (de_inum (entry V x off) =? 0); [by apply wp_ret|].
  assert (inode_at s1 dp = x) as Hx1 by (destruct (quiet_fields _ _ _ _ Q1) as (Ei & _); by rewrite (inodes_at s s1 dp Ei)).
  wp_use (IH s1 I1 Hroom1 Hx1 Hd Hok); [intros o Ho; apply Hin; by right|].
  intros r s2 (-> & I2 & Hroom2 & Q2 & Em2). split_and!; [done..|by apply (quiet_trans dv R s s1)|congruence].
Qed.
End loop.

(** The offset of the new entry. *)
Definition free_entry (V : Z → list Z) (x : inode) : Z :=
  default (i_size x) (List.find (λ off, de_inum (entry V x off) =? 0) (dir_offsets (i_size x))).

(** [x] got the entry of [name]; the other names are as before. *)
Record linked (V : Z → list Z) (x : inode) (V' : Z → list Z) (x' : inode) (name : list Z) (inum off : Z) : Prop := {
  lk_dir : dir_ok V' x';
  lk_entry : entry V' x' off = mk_dirent inum name;
  lk_find : dir_find V' x' name = Some off;
  lk_other nm : name_ok nm → nm ≠ name → dir_find V' x' nm = dir_find V x nm;
  lk_keep o : o ∈ dir_offsets (i_size x) → o ≠ off → entry V' x' o = entry V x o
}.

Lemma free_entry_spec V x : dir_ok V x →
  (DIRENT | free_entry V x) ∧ 0 ≤ free_entry V x ≤ i_size x ∧
  ((free_entry V x ∈ dir_offsets (i_size x) ∧ de_inum (entry V x (free_entry V x)) = 0) ∨ free_entry V x = i_size x).
Proof.
  intros Hok. rewrite /free_entry. destruct (List.find _ _) as [off|] eqn:E; cbn [default from_option id].
  - apply List.find_some in E as [Hin%list_elem_of_In Hz%Z.eqb_eq]. destruct (dir_offsets_in _ V off Hok Hin).
    split_and!; [by apply (dir_offsets_div (i_size x))|done|unfold DIRENT in *; lia|by left].
  - destruct Hok as [_ _ Hs Hd]. split_and!; [done|lia|lia|by right].
Qed.

Lemma entry_eq V V' x x' off : (∀ o, off ≤ o < off + DIRENT → fbyte V' x' o = fbyte V x o) → entry V' x' off = entry V x off.
Proof.
  intros H. apply list_eq. intros i. rewrite /entry. destruct (decide (i < Z.to_nat DIRENT)%nat) as [Hi|Hi].
  - rewrite !fbytes_lookup //. f_equal. apply H. rewrite /DIRENT in Hi |- *. lia.
  - rewrite !lookup_ge_None_2 //; rewrite fbytes_length //; lia.
Qed.

Lemma written_linked sb V x V' x' name inum :
  dir_ok V x → name_ok name → 0 < inum < 65536 → dir_find V x name = None → i_size x + DIRENT < 2 ^ 32 →
  file_written sb V x V' x' (free_entry V x) (mk_dirent inum name) → linked V x V' x' name inum (free_entry V x).
Proof.
  intros Hok Hn Hi Hnone Hmax [Z1 Z2 Z3 Z4 _ _ _ _ _]. destruct (free_entry_spec V x Hok) as ([q Hq] & Hr & Hcase).
  set (off := free_entry V x) in *. rewrite dirent_length in Z1, Z4. change (Z.of_nat 16) with DIRENT in Z1, Z4.
  pose proof Hok as [Ht _ Hs [k Hk]].
  assert (off ∈ dir_offsets (i_size x) ∧ i_size x' = i_size x ∨ off = i_size x ∧ i_size x' = i_size x + DIRENT) as Hcase'.
  { destruct Hcase as [[Hin _]|E]; [left|right]; (split; [done|]); rewrite Z1; [|rewrite /DIRENT; lia].
    destruct (dir_offsets_in _ V off Hok Hin). unfold DIRENT in *. lia. }
  assert (dir_ok V' x') as Hok'.
  { split; [by rewrite Z2|done|unfold DIRENT in *; lia|]. destruct Hcase' as [[_ ->]|[_ ->]]; [by exists k|].
    exists (k + 1). rewrite Hk. lia. }
  assert (off + DIRENT ≤ i_size x') as Hoff' by (unfold DIRENT in *; lia).
  assert (entry V' x' off = mk_dirent inum name) as Hnew.
  { apply list_eq. intros i. rewrite /entry. destruct (decide (i < 16)%nat) as [Hlt|Hge].
    - rewrite fbytes_lookup // Z4; [unfold DIRENT in *; lia|]. rewrite decide_True; [rewrite /DIRENT; lia|].
      rewrite (_ : Z.to_nat (off + Z.of_nat i - off) = i); [lia|].
      destruct (lookup_lt_is_Some_2 (mk_dirent inum name) i) as [v ->]; [by rewrite dirent_length|done].
    - rewrite !lookup_ge_None_2 //; [rewrite fbytes_length // /DIRENT; lia|rewrite dirent_length; lia]. }
  assert (∀ o, o ∈ dir_offsets (i_size x) → o ≠ off → entry V' x' o = entry V x o) as Hold.
  { intros o Ho Hne. destruct (dir_offsets_in _ V o Hok Ho) as [Ho1 Ho2]. destruct (dir_offsets_div _ _ Ho) as [j Hj].
    apply entry_eq. intros y Hy. rewrite Z4; [unfold DIRENT in *; lia|]. rewrite decide_False //. unfold DIRENT in *. nia. }
  assert (∀ o nm, o ∈ dir_offsets (i_size x) → o ≠ off → is_entry V' x' nm o = is_entry V x nm o) as Hise.
  { intros o nm Ho Hne. by rewrite /is_entry Hold. }
  assert (∀ nm, name_ok nm → is_entry V' x' nm off = true ↔ nm = name) as Hat.
  { intros nm Hnm. rewrite /is_entry Hnew dirent_inum; [lia|]. rewrite (proj2 (Z.eqb_neq inum 0)); [lia|]. cbn [negb andb].
    rewrite Z.eqb_eq. by apply dirent_name. }
  assert (∀ nm, name_ok nm → off ∈ dir_offsets (i_size x) → is_entry V x nm off = false) as Hfree.
  { intros nm _ Hin. destruct Hcase as [[_ E]|E]; [by rewrite /is_entry E|]. destruct (dir_offsets_in _ V off Hok Hin). unfold DIRENT in *. lia. }
  assert (dir_offsets (i_size x') = dir_offsets (i_size x) ∨ off = i_size x ∧ dir_offsets (i_size x') = dir_offsets (i_size x) ++ [off]) as Hoffs.
  { destruct Hcase' as [[_ ->]|[E ->]]; [by left|right]. split; [done|]. rewrite E. apply dir_offsets_grow; [lia|by exists k]. }
  assert (off ∈ dir_offsets (i_size x')) as Hin'.
  { destruct Hcase' as [[Hin E]|[E E']]; [by rewrite E|]. rewrite E' -E dir_offsets_grow; [lia|by exists q|]. apply elem_of_app. right. left. }
  assert (off ∉ dir_offsets (i_size x) ∨ i_size x' = i_size x) as Hfresh.
  { destruct Hcase' as [[_ ?]|[E _]]; [by right|left]. intros Hin. destruct (dir_offsets_in _ V off Hok Hin). unfold DIRENT in *. lia. }
  split; [done|done| | |done].
  - apply find_only; [done|by apply Hat|]. intros o Ho Hne.
    assert (o ∈ dir_offsets (i_size x)) as Ho'.
    { destruct Hoffs as [E|[_ E]]; rewrite E in Ho; [done|]. apply elem_of_app in Ho as [|Ho]; [done|]. by apply list_elem_of_singleton in Ho. }
    rewrite Hise //. rewrite /dir_find in Hnone. apply (List.find_none _ _ Hnone). by apply list_elem_of_In.
  - intros nm Hnm Hne. rewrite /dir_find. assert (is_entry V' x' nm off = false) as Hoffno.
    { destruct (is_entry V' x' nm off) eqn:E; [|done]. by apply Hat in E. }
    assert (List.find (is_entry V' x' nm) (dir_offsets (i_size x)) = List.find (is_entry V x nm) (dir_offsets (i_size x))) as E.
    { apply find_ext. intros o Ho. destruct (decide (o = off)) as [->|]; [by rewrite Hoffno (Hfree nm Hnm Ho)|by apply Hise]. }
    destruct Hoffs as [->|[_ ->]]; [done|]. rewrite find_app_r E Hoffno. by destruct (List.find (is_entry V x nm) _).
Qed.

(** ** The theorem *)

(** C36: dirlink() of a new name adds it to the directory: it returns 0, the first
    free entry (or one more at the end) has the name and the inode number, so that
    dirlookup() finds it from then on, every other name is found where it was, the
    directory is well formed and on the disk, and no other file changes. *)
Theorem dirlink_links dv p R V s dp name inum :
  may_write dv p R V dp (i_size (inode_at s dp)) DIRENT MAXOPBLOCKS s → dir_ok V (inode_at s dp) → itable_ok s →
  name_ok name → 0 < inum < 65536 → dir_find V (inode_at s dp) name = None →
  wp (dirlink dp name inum) (λ r s', r = 0 ∧ ∃ R' V' x' off, working dv p (k_sb s) dp [] R' V' x' s' ∧
    linked V (inode_at s dp) V' x' name inum off ∧
    file_written (k_sb s) V (inode_at s dp) V' x' off (mk_dirent inum name) ∧ fs_only (Some dp) s s') s.
Proof.
  intros Hm Hok Ht Hn Hi Hnone. set (x := inode_at s dp) in *. pose proof (mw_work _ _ _ _ _ _ _ _ _ Hm) as W.
  fold x in W. pose proof W as [T Esb Dk F Ex Ed]. destruct Hok as [O1 O2 O3 O4]. pose proof (Build_dir_ok V x O1 O2 O3 O4) as Hok.
  pose proof (tx_fc _ _ _ _ _ _ T) as I.
  assert (room s) as Hroom by (apply (frees_room dv p [] R V s I); destruct (mw_room _ _ _ _ _ _ _ _ _ Hm) as (_ & _ & Hf); unfold MAXOPBLOCKS in Hf; lia).
  destruct (mw_max _ _ _ _ _ _ _ _ _ Hm) as [_ Hmax]. fold x in Hmax. rewrite (_ : MAXFILE * BSIZE = 274432) // in Hmax. unfold DIRENT in Hmax.
  rewrite /dirlink. apply wp_bind. rewrite /dirlookup. apply wp_bind, wp_gets. fold x. rewrite O1. cbn [negb Z.eqb T_DIR].
  wp_use (dirlookup_loop_spec dv p R V dp x name (dir_offsets (i_size x)) s I Hroom eq_refl Ed Hok Ht); [done| |].
  { intros off E. rewrite /dir_find in Hnone. congruence. }
  intros r s1 (Hl & I1 & Hroom1 & Em1). rewrite /dir_find in Hnone. rewrite Hnone in Hl. destruct Hl as [-> Q1].
  assert (inode_at s1 dp = x) as Ex1 by (destruct (quiet_fields _ _ _ _ Q1) as (Ei & _); by rewrite (inodes_at s s1 dp Ei)).
  apply wp_bind, wp_gets. rewrite Ex1. rewrite dir_offsets_end; [lia|done|]. apply wp_bind.
  wp_use (dirlink_loop_spec dv p R V dp x (dir_offsets (i_size x)) (i_size x) s1 I1 Hroom1 Ex1 Ed Hok); [done|].
  intros off s2 (Eoff & I2 & Hroom2 & Q2 & Em2). fold (free_entry V x) in Eoff. rewrite Eoff. clear off Eoff.
  pose proof (quiet_trans _ _ _ _ _ Q1 Q2) as Q. destruct (free_entry_spec V x Hok) as ([q Hq] & Hr & _).
  set (off := free_entry V x) in *.
  assert (∀ o, (DIRENT | o) → nblk o DIRENT = 1) as Hnb.
  { intros o [j ->]. rewrite /nblk. change BSIZE with 1024. unfold DIRENT. cbn [Z.leb]. change (16 <=? 0) with false. cbn iota. dlia. }
  assert (may_write dv p R V dp off DIRENT MAXOPBLOCKS s) as Hm'.
  { destruct Hm as [M1 M2 M3 M4 M5 M6 M7 M8]. fold x in M5, M6, M8. split; [done..| | |done|].
    - fold x. lia.
    - rewrite (_ : MAXFILE * BSIZE = 274432) //. unfold DIRENT. lia.
    - rewrite Hnb; [by exists q|]. by rewrite Hnb in M8. }
  pose proof (may_write_quiet _ _ _ _ _ _ _ _ _ _ Hm' I2 Q) as Hm2.
  destruct (quiet_fields _ _ _ _ Q) as (Ei & _ & Es & _). pose proof (inodes_at s s2 dp Ei) as Ex2. fold x in Ex2.
  pose proof (writei_gen_tx dv p R V dp _ (mk_dirent inum name) off MAXOPBLOCKS s2 (local_source p (k_mem s2) (mk_dirent inum name))) as H.
  rewrite dirent_length in H. change (Z.of_nat 16) with DIRENT in H. rewrite Ex2 in H.
  apply wp_bind. rewrite /writei_local dirent_length. change (Z.of_nat 16) with DIRENT. wp_use H; [done|by apply chunk_cost|].
  intros r s3 (-> & R' & V' & x' & W' & Hw & Hf & _). rewrite Z.eqb_refl. apply wp_ret. split; [done|].
  rewrite Es in W', Hw. rewrite Ex2 in Hw. exists R', V', x', off. split_and!; [done| |done|].
  - apply (written_linked (k_sb s)); [done..|unfold DIRENT; lia|done].
  - apply (fs_only_trans _ s s2); [|done]. apply (quiet_fs_only dv R); [done|congruence].
Qed.

(** "cd" in the directory of the small file system. *)
Lemma dirlink_links_witness :
  dir_find (block_at small_fs) dir_inode [99; 100] = None ∧
  wp (dirlink 0 [99; 100] 7) (λ r s', r = 0 ∧ ∃ R' V' x' off, working ROOTDEV 0 small_sb 0 [] R' V' x' s' ∧
    linked (block_at small_fs) dir_inode V' x' [99; 100] 7 off ∧
    file_written small_sb (block_at small_fs) dir_inode V' x' off (mk_dirent 7 [99; 100]) ∧ fs_only (Some 0%nat) small_fs s') small_fs.
Proof.
  split; [by vm_compute|].
  apply (dirlink_links ROOTDEV 0 (λ _, 0) (block_at small_fs) small_fs 0 [99; 100] 7); [| | | |done|by vm_compute].
  - apply small_may_write; [done|unfold DIRENT; lia|unfold MAXOPBLOCKS; lia].
  - split; [done|exact small_whole|done|by exists 2].
  - by apply (one_inode_table small_fs dir_inode).
  - split; [repeat constructor; lia|cbn; unfold DIRSIZ; lia].
Defined.
