(* ===== verification/Uprog.v ===== *)
(** User programs: user/cat.c, wc.c, grep.c, echo.c, kill.c, ln.c, mkdir.c, rm.c,
    ls.c, init.c and zombie.c, stat() of user/ulib.c, and fprintf() of
    user/printf.c.

    A program is an interaction tree of the system calls it makes; init never
    ends.  What the kernel answers is left open. *)
From ITree Require Import ITree.
From S2P Require Import Prelude Riscv Printf Text.

(** ** System calls *)

(** struct stat *)
Record ustat := UStat { st_dev : Z; st_ino : Z; st_type : Z; st_nlink : Z; st_size : Z }.

(** Results are those of the C stubs: negative for an error.  [Read] also says
    what is in the buffer, [Fstat] what is in the structure,
    [Pipe] what is in the array. *)
Inductive sysE : Type → Type :=
| Exit (status : Z) : sysE Empty_set
| Fork : sysE Z
| Wait : sysE Z
| Exec (path : list Z) (argv : list (list Z)) : sysE Z
| Open (path : list Z) (flags : Z) : sysE Z
| Read (fd n : Z) : sysE (Z * list Z)
| Write (fd : Z) (bs : list Z) : sysE Z
| Close (fd : Z) : sysE Z
| Dup (fd : Z) : sysE Z
| Fstat (fd : Z) : sysE (Z * ustat)
| Mknod (path : list Z) (major minor : Z) : sysE Z
| Kill (pid : Z) : sysE Z
| Link (old new : list Z) : sysE Z
| Mkdir (path : list Z) : sysE Z
| Unlink (path : list Z) : sysE Z
| Sleep (n : Z) : sysE Z
| Pipe : sysE (Z * (Z * Z))
| Chdir (path : list Z) : sysE Z.

Definition prog := itree sysE.
Declare Scope prog_scope.
Notation "'do' x ⇐ m ; k" := (ITree.bind m (λ x, k)) (at level 200, x name, m at level 100, k at level 200) : prog_scope.
Notation "m >> k" := (ITree.bind m (λ _, k)) (at level 99, right associativity) : prog_scope.
#[local] Open Scope prog_scope.

Definition call {A} (e : sysE A) : prog A := ITree.trigger e.
Definition done_ : prog unit := Ret tt.
Definition exit {A} (status : Z) : prog A := do v ⇐ call (Exit status); match v : Empty_set with end.

(** putc() for every character *)
Fixpoint put_chars (fd : Z) (bs : list Z) : prog unit :=
  match bs with
  | [] => Ret tt
  | c :: bs' => call (Write fd [c]) >> put_chars fd bs'
  end.
Definition fprintf (fd : Z) (fmt : list Z) (args : list varg) : prog unit := put_chars fd (vprintf fmt args).
Definition s_arg (s : list Z) : varg := VStr (Some s).

(** for(i = 1; i < argc; i++), where break ends it *)
Fixpoint for_args (l : list (list Z)) (body : list Z → prog bool) : prog unit :=
  match l with
  | [] => Ret tt
  | a :: l' => do go ⇐ body a; if go : bool then for_args l' body else Ret tt
  end.

Definition O_RDONLY : Z := 0.
Definition O_RDWR : Z := 2.
Definition NLs (s : string) : list Z := str s ++ [10].

(** ** cat *)

(** The body of its loop: again, or n. *)
Definition cat_step (fd : Z) (_ : unit) : prog (unit + Z) :=
  do r ⇐ call (Read fd 512);
  if 0 <? r.1 then
    do w ⇐ call (Write 1 (take (Z.to_nat r.1) r.2));
    if negb (w =? r.1) then fprintf 2 (NLs "cat: write error") [] >> exit 1
    else Ret (inl tt)
  else Ret (inr r.1).
Definition cat (fd : Z) : prog unit :=
  do n ⇐ ITree.iter (cat_step fd) tt;
  if n <? 0 then fprintf 2 (NLs "cat: read error") [] >> exit 1 else Ret tt.
Definition cat_main (argv : list (list Z)) : prog Empty_set :=
  if (length argv <=? 1)%nat then cat 0 >> exit 0 else
  for_args (drop 1 argv) (λ a,
    do fd ⇐ call (Open a O_RDONLY);
    if fd <? 0 then fprintf 2 (NLs "cat: cannot open %s") [s_arg a] >> exit 1 else
    cat fd >> call (Close fd) >> Ret true) >>
  exit 0.

(** ** wc *)

(** The body of the loop of wc(): again, or n and the counts. *)
Definition wc_read (fd : Z) (s : counts) : prog (counts + Z * counts) :=
  do r ⇐ call (Read fd 512);
  if 0 <? r.1 then Ret (inl (foldl wc_step s (take (Z.to_nat r.1) r.2))) else Ret (inr (r.1, s)).
Definition wc_fd (fd : Z) (name : list Z) : prog unit :=
  do r ⇐ ITree.iter (wc_read fd) (Counts 0 0 0 false);
  if r.1 <? 0 then fprintf 1 (NLs "wc: read error") [] >> exit 1 else
  fprintf 1 (NLs "%d %d %d %s") [VNum (wc_l r.2); VNum (wc_w r.2); VNum (wc_c r.2); s_arg name].
Definition wc_main (argv : list (list Z)) : prog Empty_set :=
  if (length argv <=? 1)%nat then wc_fd 0 [] >> exit 0 else
  for_args (drop 1 argv) (λ a,
    do fd ⇐ call (Open a O_RDONLY);
    if fd <? 0 then fprintf 1 (NLs "wc: cannot open %s") [s_arg a] >> exit 1 else
    wc_fd fd a >> call (Close fd) >> Ret true) >>
  exit 0.

(** ** grep *)

(** while((q = strchr(p, '\n')) != 0): the lines of the buffer that match are
    written; the result is what is left at p. *)
Fixpoint grep_write (fuel : nat) (pattern p : list Z) : prog (list Z) :=
  match fuel with
  | O => Ret p
  | S f =>
      match find_newline p with
      | None => Ret p
      | Some (line, p') =>
          (if match_re pattern line then call (Write 1 (line ++ [NEWLINE])) else Ret 0) >> grep_write f pattern p'
      end
  end.
(** The body of the loop of grep(); [buf] are the m bytes kept in buf. *)
Definition grep_read (pattern : list Z) (fd : Z) (buf : list Z) : prog (list Z + unit) :=
  do r ⇐ call (Read fd (Z.of_nat (GREP_BUF - length buf - 1)));
  if 0 <? r.1 then
    let buf := buf ++ take (Z.to_nat r.1) r.2 in
    do rest ⇐ grep_write (S (length buf)) pattern buf;
    Ret (inl rest)
  else Ret (inr tt).
Definition grep_fd (pattern : list Z) (fd : Z) : prog unit := ITree.iter (grep_read pattern fd) [].
Definition grep_main (argv : list (list Z)) : prog Empty_set :=
  if (length argv <=? 1)%nat then fprintf 2 (NLs "usage: grep pattern [file ...]") [] >> exit 1 else
  let pattern := default [] (argv !! 1%nat) in
  if (length argv <=? 2)%nat then grep_fd pattern 0 >> exit 0 else
  for_args (drop 2 argv) (λ a,
    do fd ⇐ call (Open a O_RDONLY);
    if fd <? 0 then fprintf 1 (NLs "grep: cannot open %s") [s_arg a] >> exit 1 else
    grep_fd pattern fd >> call (Close fd) >> Ret true) >>
  exit 0.

(** ** echo *)

Fixpoint echo_loop (l : list (list Z)) : prog unit :=
  match l with
  | [] => Ret tt
  | a :: l' => call (Write 1 a) >> call (Write 1 [if bool_decide (l' = []) then 10 else 32]) >> echo_loop l'
  end.
Definition echo_main (argv : list (list Z)) : prog Empty_set := echo_loop (drop 1 argv) >> exit 0.

(** ** kill, ln, mkdir, rm *)

Definition kill_main (argv : list (list Z)) : prog Empty_set :=
  if (length argv <? 2)%nat then fprintf 2 (NLs "usage: kill pid...") [] >> exit 1 else
  for_args (drop 1 argv) (λ a, call (Kill (atoi a)) >> Ret true) >> exit 0.

Definition arg (argv : list (list Z)) (i : nat) : list Z := default [] (argv !! i).
Definition ln_main (argv : list (list Z)) : prog Empty_set :=
  if negb (length argv =? 3)%nat then fprintf 2 (NLs "Usage: ln old new") [] >> exit 1 else
  do r ⇐ call (Link (arg argv 1) (arg argv 2));
  (if r <? 0 then fprintf 2 (NLs "link %s %s: failed") [s_arg (arg argv 1); s_arg (arg argv 2)] else Ret tt) >> exit 0.

Definition mkdir_main (argv : list (list Z)) : prog Empty_set :=
  if (length argv <? 2)%nat then fprintf 2 (NLs "Usage: mkdir files...") [] >> exit 1 else
  for_args (drop 1 argv) (λ a,
    do r ⇐ call (Mkdir a);
    if r <? 0 then fprintf 2 (NLs "mkdir: %s failed to create") [s_arg a] >> Ret false else Ret true) >> exit 0.

Definition rm_main (argv : list (list Z)) : prog Empty_set :=
  if (length argv <? 2)%nat then fprintf 2 (NLs "Usage: rm files...") [] >> exit 1 else
  for_args (drop 1 argv) (λ a,
    do r ⇐ call (Unlink a);
    if r <? 0 then fprintf 2 (NLs "rm: %s failed to delete") [s_arg a] >> Ret false else Ret true) >> exit 0.

Definition zombie_main : prog Empty_set :=
  do pid ⇐ call Fork;
  (if 0 <? pid then call (Sleep 5) else Ret 0) >> exit 0.

(** ** ls *)

Definition SLASH : Z := 47.
Definition DIRSIZ : nat := 14.
(** The loop of fmtname(): [i] is p - path; the result is the index after the
    last slash. *)
Fixpoint after_slash (path : list Z) (i : nat) : nat :=
  if bool_decide (path !! i = Some SLASH) then S i else
  match i with O => O | S i' => after_slash path i' end.
Definition fmtname (path : list Z) : list Z :=
  let p := drop (after_slash path (length path)) path in
  if (DIRSIZ <=? length p)%nat then p else p ++ replicate (DIRSIZ - length p) 32.

Definition stat (path : list Z) : prog (Z * ustat) :=
  do fd ⇐ call (Open path O_RDONLY);
  if fd <? 0 then Ret (-1, UStat 0 0 0 0 0) else
  do r ⇐ call (Fstat fd);
  call (Close fd) >> Ret r.

Definition print_stat (path : list Z) (st : ustat) : prog unit :=
  fprintf 1 (NLs "%s %d %d %d") [s_arg (fmtname path); VNum (st_type st); VNum (st_ino st); VNum (s32 (st_size st))].

(** The bytes of a directory entry: de.inum, and de.name as a C string. *)
Definition de_inum (de : list Z) : Z := default 0 (de !! 0%nat) + 256 * default 0 (de !! 1%nat).
Fixpoint upto_nul (s : list Z) : list Z :=
  match s with [] => [] | c :: s' => if c =? 0 then [] else c :: upto_nul s' end.
Definition de_name (de : list Z) : list Z := upto_nul (take DIRSIZ (drop 2 de)).

Definition ls_dir (fd : Z) (path : list Z) : prog unit :=
  ITree.iter (λ _ : unit,
    do r ⇐ call (Read fd 16);
    if negb (r.1 =? 16) then Ret (inr tt) else
    if de_inum r.2 =? 0 then Ret (inl tt) else
    let buf := path ++ [SLASH] ++ de_name r.2 in
    do st ⇐ stat buf;
    (if st.1 <? 0 then fprintf 1 (NLs "ls: cannot stat %s") [s_arg buf] else print_stat buf st.2) >> Ret (inl tt)) tt.
Definition T_DIR : Z := 1.
Definition T_FILE : Z := 2.
Definition T_DEVICE : Z := 3.
Definition ls (path : list Z) : prog unit :=
  do fd ⇐ call (Open path O_RDONLY);
  if fd <? 0 then fprintf 2 (NLs "ls: cannot open %s") [s_arg path] else
  do r ⇐ call (Fstat fd);
  if r.1 <? 0 then fprintf 2 (NLs "ls: cannot stat %s") [s_arg path] >> call (Close fd) >> Ret tt else
  (if (st_type r.2 =? T_DEVICE) || (st_type r.2 =? T_FILE) then print_stat path r.2
   else if st_type r.2 =? T_DIR then
     if (512 <? length path + 1 + DIRSIZ + 1)%nat then fprintf 1 (NLs "ls: path too long") []
     else ls_dir fd path
   else Ret tt) >> call (Close fd) >> Ret tt.
Definition ls_main (argv : list (list Z)) : prog Empty_set :=
  if (length argv <? 2)%nat then ls (str ".") >> exit 0 else
  for_args (drop 1 argv) (λ a, ls a >> Ret true) >> exit 0.

(** ** init *)

Definition CONSOLE : Z := 1.
(** Waiting for the shell [pid]. *)
Definition init_wait (pid : Z) : prog unit :=
  ITree.iter (λ _ : unit,
    do wpid ⇐ call Wait;
    if wpid =? pid then Ret (inr tt)
    else if wpid <? 0 then fprintf 1 (NLs "init: wait returned an error") [] >> exit 1
    else Ret (inl tt)) tt.
Definition init_loop : prog Empty_set :=
  ITree.iter (λ _ : unit,
    fprintf 1 (NLs "init: starting sh") [] >>
    do pid ⇐ call Fork;
    if pid <? 0 then fprintf 1 (NLs "init: fork failed") [] >> exit 1 else
    if pid =? 0 then
      call (Exec (str "sh") [str "sh"]) >> fprintf 1 (NLs "init: exec sh failed") [] >> exit 1 else
    init_wait pid >> Ret (inl tt)) tt.
Definition init_main : prog Empty_set :=
  do fd ⇐ call (Open (str "console") O_RDWR);
  (if fd <? 0 then call (Mknod (str "console") CONSOLE 0) >> call (Open (str "console") O_RDWR) else Ret 0) >>
  call (Dup 0) >> call (Dup 0) >> init_loop.
