(* ===== verification/Uspec.v ===== *)
(** What the user programs of Uprog.v do, given what the kernel promises. *)
From ITree Require Import ITree.
From S2P Require Import Prelude Riscv Printf Text Uprog.
#[local] Open Scope prog_scope.

(** ** What the kernel promises a program

    A descriptor that is open for reading stands for the bytes still to come
    from it.  A read may return fewer bytes than were asked for. *)

Record sys := Sys {
  files : gmap (list Z) (list Z);   (* what can be opened *)
  fds : gmap Z (list Z);            (* open for reading: the bytes to come *)
  out : list Z; err : list Z        (* written to descriptors 1 and 2 *)
}.

Definition with_fds (s : sys) (f : gmap Z (list Z)) : sys := Sys (files s) f (out s) (err s).
Definition put (fd : Z) (bs : list Z) (s : sys) : sys :=
  if fd =? 1 then Sys (files s) (fds s) (out s ++ bs) (err s)
  else if fd =? 2 then Sys (files s) (fds s) (out s) (err s ++ bs) else s.

(** The answers and the state after a call; calls not listed have none. *)
Definition kernel (s : sys) {A} (e : sysE A) : A → sys → Prop :=
  match e in sysE A return A → sys → Prop with
  | Open p _ => λ fd s',
      match files s !! p with
      | Some bs => 0 <= fd ∧ fds s !! fd = None ∧ s' = with_fds s (<[fd:=bs]> (fds s))
      | None => fd = -1 ∧ s' = s
      end
  | Read fd n => λ r s',
      match fds s !! fd with
      | Some rest =>
          0 <= r.1 <= n ∧ r.1 <= Z.of_nat (length rest) ∧ (r.1 = 0 ↔ rest = [] ∨ n = 0)
          ∧ take (Z.to_nat r.1) r.2 = take (Z.to_nat r.1) rest
          ∧ s' = with_fds s (<[fd:=drop (Z.to_nat r.1) rest]> (fds s))
      | None => r.1 = -1 ∧ s' = s
      end
  | Write fd bs => λ r s', r = (if (fd =? 1) || (fd =? 2) then Z.of_nat (length bs) else -1) ∧ s' = put fd bs s
  | Close fd => λ r s', r = (if bool_decide (fds s !! fd = None) then -1 else 0) ∧ s' = with_fds s (delete fd (fds s))
  | _ => λ _ _, False
  end.

Variant ending R := Returned (r : R) (s : sys) | Exited (status : Z) (s : sys).
#[global] Arguments Returned {R}.
#[global] Arguments Exited {R}.

(** Whatever the kernel answers, the program ends, in an ending that
    satisfies [Q]. *)
Inductive ends {R} (Q : ending R → Prop) (t : prog R) (s : sys) : Prop :=
| ends_ret r : observe t = RetF r → Q (Returned r s) → ends Q t s
| ends_tau u : observe t = TauF u → ends Q u s → ends Q t s
| ends_exit st k : observe t = VisF (Exit st) k → Q (Exited st s) → ends Q t s
| ends_vis A (e : sysE A) k :
    observe t = VisF e k → (∃ a s', kernel s e a s') →
    (∀ a s', kernel s e a s' → ends Q (k a) s') → ends Q t s.

Definition and_then {A B} (k : A → prog B) (Q : ending B → Prop) : ending A → Prop := λ o,
  match o with Returned a s => ends Q (k a) s | Exited st s => Q (Exited st s) end.

Lemma observe_bind {A B} (t : prog A) (k : A → prog B) :
  observe (ITree.bind t k) =
  match observe t with
  | RetF r => observe (k r)
  | TauF u => TauF (ITree.bind u k)
  | VisF e h => VisF e (λ x, ITree.bind (h x) k)
  end.
Proof.
  change (observe (ITree.bind t k)) with
    (observe (match observe t with
              | RetF r => k r | TauF u => Tau (ITree.bind u k) | VisF e h => Vis e (λ x, ITree.bind (h x) k) end)).
  by destruct (observe t).
Qed.

Lemma ends_observe {R} (Q : ending R → Prop) t u s : observe t = observe u → ends Q t s → ends Q u s.
Proof.
  intros E [r E' H | t' E' H | st k E' H | A e k E' P H]; rewrite E in E'.
  - eapply ends_ret; eauto. - eapply ends_tau; eauto. - eapply ends_exit; eauto. - eapply ends_vis; eauto.
Qed.

Lemma ends_mono {R} (Q Q' : ending R → Prop) t s : (∀ o, Q o → Q' o) → ends Q t s → ends Q' t s.
Proof.
  intros Hi. induction 1 as [t s r E HQ | t s u E _ IH | t s st k' E HQ | t s X e k' E Hp _ IH].
  - eapply ends_ret; eauto. - eapply ends_tau; eauto. - eapply ends_exit; eauto. - eapply ends_vis; eauto.
Qed.

Lemma ends_bind {A B} (t : prog A) (k : A → prog B) Q s : ends (and_then k Q) t s → ends Q (ITree.bind t k) s.
Proof.
  induction 1 as [t s r E HQ | t s u E _ IH | t s st k' E HQ | t s X e k' E Hp _ IH].
  - eapply ends_observe; [|exact HQ]. by rewrite observe_bind E.
  - eapply ends_tau; [|exact IH]. by rewrite observe_bind E.
  - eapply ends_exit; [|exact HQ]. by rewrite observe_bind E.
  - eapply ends_vis; [|exact Hp|exact IH]. by rewrite observe_bind E.
Qed.

Lemma ends_Ret {R} (Q : ending R → Prop) r s : Q (Returned r s) → ends Q (Ret r) s.
Proof. eapply ends_ret; eauto. Qed.

Lemma ends_call {A R} (e : sysE A) (k : A → prog R) Q s :
  (∃ a s', kernel s e a s') → (∀ a s', kernel s e a s' → ends Q (k a) s') →
  ends Q (ITree.bind (call e) k) s.
Proof.
  intros P H. apply ends_bind. eapply ends_vis; [reflexivity|exact P|].
  intros a s' K. apply ends_Ret. cbn. by apply H.
Qed.

Lemma ends_finish {R} (Q : ending R → Prop) st s : Q (Exited st s) → ends Q (exit st) s.
Proof. intros H. eapply ends_exit; [by rewrite /exit observe_bind|exact H]. Qed.

Lemma ends_iter {I R} (step : I → prog (I + R)) i Q s :
  ends (and_then (λ lr, match lr with inl j => ITree.iter step j | inr r => Ret r end) Q) (step i) s →
  ends Q (ITree.iter step i) s.
Proof.
  intros H. eapply (ends_observe Q (ITree.bind (step i) (λ lr, match lr with inl j => Tau (ITree.iter step j) | inr r => Ret r end))); [reflexivity|].
  apply ends_bind. revert H. generalize (step i). intros t H.
  induction H as [t s r E HQ | t s u E _ IH | t s st k' E HQ | t s X e k' E Hp _ IH].
  - eapply ends_ret; [exact E|]. cbn in *. destruct r; [|done]. eapply ends_tau; eauto.
  - eapply ends_tau; eauto. - eapply ends_exit; eauto. - eapply ends_vis; eauto.
Qed.

(** *** Output *)

Lemma put_nil fd s : put fd [] s = s.
Proof. destruct s. unfold put. cbn. repeat case_match; by rewrite ?app_nil_r. Qed.
Lemma put_put fd a b s : put fd b (put fd a s) = put fd (a ++ b) s.
Proof. unfold put. repeat case_match; cbn; by rewrite ?assoc_L. Qed.

Lemma ends_write {R} fd bs (k : Z → prog R) Q s :
  ends Q (k (if (fd =? 1) || (fd =? 2) then Z.of_nat (length bs) else -1)) (put fd bs s) →
  ends Q (ITree.bind (call (Write fd bs)) k) s.
Proof. intros H. apply ends_call; [cbn; eauto|]. by intros a s' [-> ->]. Qed.

Lemma ends_put_chars fd bs Q s : Q (Returned tt (put fd bs s)) → ends Q (put_chars fd bs) s.
Proof.
  revert s. induction bs as [|c bs IH]; intros s H; cbn [put_chars].
  - apply ends_Ret. by rewrite put_nil in H.
  - apply ends_write, IH. by rewrite put_put.
Qed.
Lemma ends_fprintf {R} fd fmt args (k : unit → prog R) Q s :
  ends Q (k tt) (put fd (vprintf fmt args) s) → ends Q (ITree.bind (fprintf fd fmt args) k) s.
Proof. intros H. by apply ends_bind, ends_put_chars. Qed.

(** *** Input *)

Lemma ends_open {R} p fl (k : Z → prog R) Q s :
  match files s !! p with
  | Some bs => ∀ fd, 0 <= fd → fds s !! fd = None → ends Q (k fd) (with_fds s (<[fd:=bs]> (fds s)))
  | None => ends Q (k (-1)) s
  end → ends Q (ITree.bind (call (Open p fl)) k) s.
Proof.
  intros H. apply ends_call; unfold kernel; destruct (files s !! p) as [bs|].
  - set (X := set_map (D:=gset nat) Z.to_nat (dom (fds s))).
    exists (Z.of_nat (fresh X)). eexists. split_and!; [lia| |done].
    apply not_elem_of_dom. intros Hin. apply (is_fresh X), elem_of_map. exists (Z.of_nat (fresh X)). split; [lia|done].
  - eauto.
  - intros fd s' (H0 & H1 & ->). by apply H.
  - by intros a s' [-> ->].
Qed.

Lemma ends_read {R} fd n rest (k : Z * list Z → prog R) Q s :
  fds s !! fd = Some rest → 0 <= n →
  (∀ r b, 0 <= r <= n → r <= Z.of_nat (length rest) → (r = 0 ↔ rest = [] ∨ n = 0) →
    take (Z.to_nat r) b = take (Z.to_nat r) rest →
    ends Q (k (r, b)) (with_fds s (<[fd:=drop (Z.to_nat r) rest]> (fds s)))) →
  ends Q (ITree.bind (call (Read fd n)) k) s.
Proof.
  intros E Hn H. apply ends_call; unfold kernel; rewrite E.
  - exists (Z.min n (Z.of_nat (length rest)), rest). eexists. cbn [fst snd]. split_and!; try done; try lia.
    rewrite -length_zero_iff_nil. lia.
  - intros [r b] s' (A1 & A2 & A3 & A4 & ->). by apply H.
Qed.

Lemma ends_close {R} fd (k : Z → prog R) Q s :
  (∀ r, ends Q (k r) (with_fds s (delete fd (fds s)))) → ends Q (ITree.bind (call (Close fd)) k) s.
Proof. intros H. apply ends_call; [cbn; eauto|]. by intros a s' [-> ->]. Qed.

(** ** Loops that read a file to its end *)

Definition with_rest (s : sys) (fd : Z) (rest bs : list Z) : sys :=
  Sys (files s) (<[fd:=rest]> (fds s)) (out s ++ bs) (err s).

Lemma with_rest_read s fd rest bs n :
  with_fds (with_rest s fd rest bs) (<[fd:=drop n rest]> (fds (with_rest s fd rest bs))) = with_rest s fd (drop n rest) bs.
Proof. unfold with_rest, with_fds. cbn. by rewrite insert_insert_eq. Qed.
Lemma with_rest_put s fd rest bs l : put 1 l (with_rest s fd rest bs) = with_rest s fd rest (bs ++ l).
Proof. unfold put, with_rest. cbn. by rewrite assoc_L. Qed.
Lemma with_rest_start s fd rest : fds s !! fd = Some rest → s = with_rest s fd rest [].
Proof. intros E. rewrite /with_rest insert_id; [done|]. rewrite app_nil_r. by destruct s. Qed.
Lemma with_rest_open s fd rest : with_fds s (<[fd:=rest]> (fds s)) = with_rest s fd rest [].
Proof. by rewrite /with_rest app_nil_r. Qed.
Lemma with_rest_close s fd rest bs :
  fds s !! fd = None →
  with_fds (with_rest s fd rest bs) (delete fd (fds (with_rest s fd rest bs))) = put 1 bs s.
Proof. intros E. unfold with_fds, with_rest, put. cbn. by rewrite delete_insert_id. Qed.

(** A read that is at the end of the file, or gives some of the bytes. *)
Lemma ends_read_rest {R} fd n rest bs s0 (k : Z * list Z → prog R) Q :
  0 < n →
  (rest = [] → ∀ b, ends Q (k (0, b)) (with_rest s0 fd [] bs)) →
  (∀ r b, 0 < r <= n → r <= Z.of_nat (length rest) → take (Z.to_nat r) b = take (Z.to_nat r) rest →
    ends Q (k (r, b)) (with_rest s0 fd (drop (Z.to_nat r) rest) bs)) →
  ends Q (ITree.bind (call (Read fd n)) k) (with_rest s0 fd rest bs).
Proof.
  intros Hn He Hr. apply (ends_read fd n rest); [by rewrite /with_rest lookup_insert_eq|lia|].
  intros r b A1 A2 A3 A4. rewrite with_rest_read. destruct (decide (r = 0)) as [->|Hr0]; [|by apply Hr; [lia|..]].
  destruct (proj1 A3 eq_refl) as [->|]; [by apply He|lia].
Qed.

(** A loop whose rounds take bytes of the file ends; [Inv] holds of what it
    keeps, the bytes to come and the bytes written. *)
Lemma ends_read_loop {I R} (step : I → prog (I + R)) fd s0 (Inv : I → list Z → list Z → Prop) (Q : ending R → Prop) :
  (∀ i rest bs, Inv i rest bs →
    ends (λ o, match o with
               | Returned (inl j) s => ∃ rest' bs', s = with_rest s0 fd rest' bs' ∧ (length rest' < length rest)%nat ∧ Inv j rest' bs'
               | Returned (inr r) s => Q (Returned r s)
               | Exited st s => Q (Exited st s)
               end) (step i) (with_rest s0 fd rest bs)) →
  ∀ i rest bs, Inv i rest bs → ends Q (ITree.iter step i) (with_rest s0 fd rest bs).
Proof.
  intros Hstep i rest. remember (length rest) as n eqn:En. revert i rest En.
  induction n as [n IH] using lt_wf_ind. intros i rest -> bs Hinv. apply ends_iter.
  eapply ends_mono; [|by apply Hstep]. intros [[j|r] s|st s]; cbn [and_then].
  - intros (rest' & bs' & -> & Hlt & Hinv'). by apply (IH (length rest')).
  - apply ends_Ret.
  - done.
Qed.

(** ** Programs that work on the files of their arguments *)

Section each_file.
Context (work : Z → list Z → prog unit) (g : list Z → list Z → list Z) (efd : Z) (msg : string).
(** [work] on an open file writes what [g] gives for the name and the bytes. *)
Context (good : list Z → Prop).
Context (work_ends : ∀ R fd a rest s (k : unit → prog R) Q, good rest →
  ends Q (k tt) (with_rest s fd [] (g a rest)) → ends Q (ITree.bind (work fd a) k) (with_rest s fd rest [])).

Definition each_file (args : list (list Z)) : prog Empty_set :=
  for_args args (λ a,
    do fd ⇐ call (Open a O_RDONLY);
    if fd <? 0 then fprintf efd (NLs msg) [s_arg a] >> exit 1 else
    work fd a >> call (Close fd) >> Ret true) >>
  exit 0.

(** What is written, up to the first file that cannot be opened. *)
Fixpoint files_out (f : gmap (list Z) (list Z)) (args : list (list Z)) : list Z * option (list Z) :=
  match args with
  | [] => ([], None)
  | a :: args' =>
      match f !! a with
      | None => ([], Some a)
      | Some bs => let r := files_out f args' in (g a bs ++ r.1, r.2)
      end
  end.
Definition files_result (s : sys) (args : list (list Z)) : ending Empty_set :=
  let r := files_out (files s) args in
  match r.2 with
  | None => Exited 0 (put 1 r.1 s)
  | Some a => Exited 1 (put efd (vprintf (NLs msg) [s_arg a]) (put 1 r.1 s))
  end.

Lemma files_result_cons a bs args s :
  files s !! a = Some bs → files_result s (a :: args) = files_result (put 1 (g a bs) s) args.
Proof using Type. intros E. rewrite /files_result. cbn [files_out]. rewrite E put_put. reflexivity. Qed.

Lemma each_file_ends args s :
  map_Forall (λ _, good) (files s) → ends (λ o, o = files_result s args) (each_file args) s.
Proof using work_ends.
  intros Hg. apply ends_bind. revert s Hg. induction args as [|a args IH]; intros s Hg.
  { apply ends_Ret. cbn [and_then]. apply ends_finish. by rewrite /files_result /= put_nil. }
  cbn [for_args]. apply ends_bind, ends_open. destruct (files s !! a) as [bs|] eqn:Ea.
  - intros fd H0 Hf. rewrite (proj2 (Z.ltb_ge fd 0)); [done|]. rewrite with_rest_open.
    apply work_ends; [by apply (Hg a)|]. apply ends_close. intros r. apply ends_Ret. cbn [and_then].
    rewrite with_rest_close; [done|]. rewrite (files_result_cons a bs); [done|]. by apply IH.
  - apply ends_fprintf, ends_finish. cbn [and_then]. by rewrite /files_result /= Ea /= put_nil.
Qed.
End each_file.

(** ** cat *)

Lemma cat_ends {R} fd rest s (k : unit → prog R) Q :
  ends Q (k tt) (with_rest s fd [] rest) → ends Q (ITree.bind (cat fd) k) (with_rest s fd rest []).
Proof.
  intros H. apply ends_bind, ends_bind. apply (ends_read_loop _ fd s (λ _ rest' bs, bs ++ rest' = rest)); [|done].
  intros u rest' bs E. subst rest. apply ends_read_rest; [lia| |].
  - intros -> b. apply ends_Ret. cbn [and_then]. apply ends_Ret. by rewrite app_nil_r in H.
  - intros r b A1 A2 A3. cbn [fst snd]. rewrite (proj2 (Z.ltb_lt 0 r)); [lia|]. rewrite A3. apply ends_write.
    cbn [orb Z.eqb Pos.eqb]. rewrite length_take_le; [lia|]. rewrite Z2Nat.id; [lia|]. rewrite Z.eqb_refl.
    apply ends_Ret. rewrite with_rest_put. eexists _, _. split_and!; [done| |by rewrite -assoc_L take_drop].
    rewrite length_drop. lia.
Qed.

Lemma cat_bad {R} s fd (k : unit → prog R) :
  fds s !! fd = None →
  ends (λ o, o = Exited 1 (put 2 (NLs "cat: read error") s)) (ITree.bind (cat fd) k) s.
Proof.
  intros E. apply ends_bind, ends_bind, ends_iter. apply ends_call; unfold kernel; rewrite E.
  { exists (-1, []). eauto. }
  intros [r b] s' [H ->]. cbn [fst] in H. subst r. cbn [fst snd Z.ltb Z.compare]. apply ends_Ret. cbn [and_then].
  apply ends_Ret. cbn [and_then Z.ltb Z.compare]. apply ends_fprintf, ends_finish. cbn [and_then]. reflexivity.
Qed.

(** Without arguments, what is left of standard input. *)
Definition cat_result (s : sys) (args : list (list Z)) : ending Empty_set :=
  match args with
  | [] =>
      match fds s !! 0 with
      | Some rest => Exited 0 (with_rest s 0 [] rest)
      | None => Exited 1 (put 2 (NLs "cat: read error") s)
      end
  | _ => files_result (λ _ bs, bs) 2 "cat: cannot open %s" s args
  end.

(** C31: However the kernel divides its reads, cat ends; it has written the bytes
    of its files in order, or what was left of standard input, to its output and
    exits with status 0; at the first file that cannot be opened it writes a
    message instead, and exits with status 1.  The descriptors are closed. *)
Theorem cat_copies name args s : ends (λ o, o = cat_result s args) (cat_main (name :: args)) s.
Proof.
  destruct args as [|a args]; unfold cat_result.
  - unfold cat_main. cbn [length Nat.leb]. destruct (fds s !! 0) as [rest|] eqn:E; [|by apply cat_bad].
    rewrite {2}(with_rest_start s 0 rest E). by apply cat_ends, ends_finish.
  - apply (each_file_ends (λ fd _, cat fd) _ _ _ (λ _, True)); [|done]. intros. by apply cat_ends.
Qed.

(** ** wc *)

Definition wc_line (name bs : list Z) : list Z :=
  let c := foldl wc_step (Counts 0 0 0 false) bs in
  vprintf (NLs "%d %d %d %s") [VNum (wc_l c); VNum (wc_w c); VNum (wc_c c); s_arg name].

Lemma wc_ends {R} fd name rest s (k : unit → prog R) Q :
  ends Q (k tt) (with_rest s fd [] (wc_line name rest)) → ends Q (ITree.bind (wc_fd fd name) k) (with_rest s fd rest []).
Proof.
  intros H. apply ends_bind, ends_bind. set (c := foldl wc_step (Counts 0 0 0 false) rest).
  apply (ends_read_loop _ fd s (λ c' rest' bs, bs = [] ∧ foldl wc_step c' rest' = c)); [|done].
  intros c' rest' bs [-> Hc]. apply ends_read_rest; [lia| |].
  - intros -> b. apply ends_Ret. cbn [and_then fst snd Z.ltb Z.compare]. cbn in Hc. subst c'.
    apply ends_put_chars. by rewrite with_rest_put.
  - intros r b A1 A2 A3. cbn [fst snd]. rewrite (proj2 (Z.ltb_lt 0 r)); [lia|]. rewrite A3.
    apply ends_Ret. eexists _, _. split_and!; [done| |done|].
    + rewrite length_drop. lia.
    + by rewrite -foldl_app take_drop.
Qed.

(** wc of an open file prints how many newlines, words and bytes it has. *)
Lemma wc_line_counts name bs :
  Z.of_nat (length bs) < 2 ^ 31 →
  wc_line name bs = vprintf (NLs "%d %d %d %s")
    [VNum (newlines bs); VNum (words false bs); VNum (Z.of_nat (length bs)); s_arg name].
Proof.
  intros Hlen. destruct (wc_step_spec bs (Counts 0 0 0 false) 0) as (H1 & H2 & H3); cbn [wc_l wc_w wc_c wc_inword] in *; [lia..|].
  unfold wc_line. by rewrite H1 H2 H3.
Qed.

Lemma wc_files name a args s :
  ends (λ o, o = files_result wc_line 1 "wc: cannot open %s" s (a :: args)) (wc_main (name :: a :: args)) s.
Proof. apply (each_file_ends wc_fd _ _ _ (λ _, True)); [|done]. intros. by apply wc_ends. Qed.

(** ** grep *)

Definition grep_out (pattern bs : list Z) : list Z := selected pattern (complete_lines [] bs).
(** A file whose lines fit the buffer and that holds no NUL. *)
Definition grep_good (bs : list Z) : Prop := 0 ∉ bs ∧ lines_fit 1022 bs.

Lemma grep_write_ends fuel pattern p fd rest bs s Q :
  0 ∉ p → (length p < fuel)%nat →
  Q (Returned (last_part [] p) (with_rest s fd rest (bs ++ selected pattern (complete_lines [] p)))) →
  ends Q (grep_write fuel pattern p) (with_rest s fd rest bs).
Proof.
  revert p bs. induction fuel as [|f IH]; intros p bs H0 Hf HQ; [lia|]. cbn [grep_write].
  pose proof (find_newline_spec p H0) as Hn. destruct (find_newline p) as [[l p']|].
  - destruct Hn as [-> Hl]. destruct (lines_prefix l (NEWLINE :: p') Hl) as [E1 E2]. rewrite E1 E2 in HQ.
    cbn [complete_lines last_part] in HQ. rewrite Z.eqb_refl in HQ.
    assert (0 ∉ p' ∧ (length p' < f)%nat) as [H0' Hf'].
    { rewrite length_app in Hf. cbn in Hf. split; [|lia]. intros Hin. apply H0, elem_of_app. right. by apply elem_of_cons; right. }
    unfold selected in HQ. cbn [fmap list_fmap concat] in HQ. apply ends_bind.
    destruct (match_re pattern l).
    + eapply ends_vis; [reflexivity|cbn; eauto|]. intros r s' [_ ->]. apply ends_Ret. cbn [and_then].
      rewrite with_rest_put. apply IH; [done..|]. by rewrite -assoc_L.
    + apply ends_Ret. cbn [and_then]. by apply IH.
  - destruct (lines_prefix p [] Hn) as [E1 E2]. rewrite app_nil_r in E1, E2. rewrite E1 E2 in HQ.
    apply ends_Ret. cbn in HQ. by rewrite app_nil_r in HQ.
Qed.

(** What holds between two reads: the rest of the file continues the line
    that is in the buffer. *)
Definition grep_inv (pattern total buf rest bs : list Z) : Prop :=
  NEWLINE ∉ buf ∧ grep_good (buf ++ rest) ∧ bs ++ selected pattern (complete_lines buf rest) = total.

Lemma grep_inv_read pattern total buf rest bs n :
  grep_inv pattern total buf rest bs →
  grep_inv pattern total (last_part [] (buf ++ take n rest)) (drop n rest)
    (bs ++ selected pattern (complete_lines [] (buf ++ take n rest))).
Proof.
  intros (Hb & [H0 [Hf1 Hf2]] & Ht).
  destruct (lines_prefix buf rest Hb) as [El Ep]. rewrite El in Hf1. rewrite Ep in Hf2.
  destruct (lines_prefix buf (take n rest) Hb) as [-> ->].
  pose proof (last_part_no_newline buf (take n rest) Hb) as Hb'.
  destruct (lines_prefix _ (drop n rest) Hb') as [E1 E2].
  rewrite -(take_drop n rest) complete_lines_app in Hf1. rewrite -(take_drop n rest) last_part_app in Hf2.
  split; [done|]. split; [split; [|split]|].
  - intros Hin. apply H0. rewrite -(take_drop n rest) assoc_L. apply elem_of_app.
    by apply elem_of_app in Hin as [Hin%last_part_elem|Hin]; [left|right].
  - rewrite E1. by apply Forall_app in Hf1 as [_ ?].
  - by rewrite E2.
  - by rewrite -assoc_L -selected_app -complete_lines_app take_drop.
Qed.

Lemma grep_inv_room pattern total buf rest bs : grep_inv pattern total buf rest bs → (length buf <= 1022)%nat.
Proof.
  intros (Hb & [_ [Hf1 Hf2]] & _). destruct (lines_prefix buf rest Hb) as [El Ep]. rewrite El in Hf1. rewrite Ep in Hf2.
  exact (last_part_longer _ _ _ Hf1 Hf2).
Qed.

Lemma grep_ends {R} fd pattern rest s (k : unit → prog R) Q :
  grep_good rest → ends Q (k tt) (with_rest s fd [] (grep_out pattern rest)) →
  ends Q (ITree.bind (grep_fd pattern fd) k) (with_rest s fd rest []).
Proof.
  intros Hg H. apply ends_bind.
  apply (ends_read_loop _ fd s (grep_inv pattern (grep_out pattern rest))); [|split; [set_solver|done]].
  intros buf rest' bs Hinv. pose proof (grep_inv_room _ _ _ _ _ Hinv) as Hroom.
  apply ends_read_rest; [unfold GREP_BUF; lia| |].
  - intros -> b. apply ends_Ret. cbn [and_then]. destruct Hinv as (_ & _ & E). cbn in E. rewrite app_nil_r in E. by rewrite E.
  - intros r b A1 A2 A3. cbn [fst snd]. rewrite (proj2 (Z.ltb_lt 0 r)); [lia|]. rewrite A3.
    pose proof (grep_inv_read _ _ _ _ _ (Z.to_nat r) Hinv) as Hinv'. apply ends_bind, grep_write_ends.
    + destruct Hinv as (_ & [H0 _] & _). intros Hin. apply H0. rewrite -(take_drop (Z.to_nat r) rest') assoc_L.
      apply elem_of_app. by left.
    + lia.
    + cbn [and_then]. apply ends_Ret. eexists _, _. split_and!; [done| |exact Hinv']. rewrite length_drop. lia.
Qed.

Definition grep_result (s : sys) (args : list (list Z)) : ending Empty_set :=
  match args with
  | [] => Exited 1 (put 2 (NLs "usage: grep pattern [file ...]") s)
  | [pattern] =>
      match fds s !! 0 with
      | Some rest => Exited 0 (with_rest s 0 [] (grep_out pattern rest))
      | None => Exited 0 s
      end
  | pattern :: names => files_result (λ _, grep_out pattern) 1 "grep: cannot open %s" s names
  end.


Definition grep_sys : sys := Sys {[ str "f" := str "abbc" ++ [NEWLINE] ++ str "abd" ++ [NEWLINE] ++ str "ac" ]} ∅ [] [].
(** *** A line that does not fit

    Once the buffer holds 1023 bytes without a newline, read() is asked for no
    bytes and grep takes its answer for the end of the file. *)

Lemma find_newline_none p : NEWLINE ∉ p → find_newline p = None.
Proof.
  induction p as [|c p IH]; [done|]. intros [Hc Hp]%not_elem_of_cons. cbn [find_newline].
  destruct (c =? 0); [done|]. rewrite (proj2 (Z.eqb_neq c NEWLINE)); [congruence|]. by rewrite IH.
Qed.

(** However many lines follow, they are not looked at and nothing is written. *)
Lemma grep_long_line {R} fd pattern rest s (k : unit → prog R) Q :
  NEWLINE ∉ take 1023 rest → (1023 <= length rest)%nat →
  ends Q (k tt) (with_rest s fd (drop 1023 rest) []) →
  ends Q (ITree.bind (grep_fd pattern fd) k) (with_rest s fd rest []).
Proof.
  intros Hn Hlen H. apply ends_bind.
  apply (ends_read_loop _ fd s (λ buf rest' bs, bs = [] ∧ (length buf <= 1023)%nat ∧ buf ++ rest' = rest));
    [|by split_and!; [done|cbn; lia|]].
  intros buf rest' bs (-> & Hb & <-). set (n := Z.of_nat (GREP_BUF - length buf - 1)).
  assert (Z.of_nat (length buf) + n = 1023) as Hsum by (unfold n, GREP_BUF; lia).
  apply (ends_read fd n rest'); [by rewrite /with_rest lookup_insert_eq|lia|].
  intros r b A1 A2 A3 A4. rewrite with_rest_read. cbn [fst snd]. destruct (Z.ltb_spec 0 r) as [Hr|Hr].
  - rewrite A4. assert (buf ++ take (Z.to_nat r) rest' = take (length buf + Z.to_nat r) (buf ++ rest')) as E.
    { rewrite take_app. replace (length buf + Z.to_nat r - length buf)%nat with (Z.to_nat r) by lia. by rewrite (take_ge buf); [lia|]. }
    apply ends_bind. cbn [grep_write]. rewrite find_newline_none.
    + intros Hin. apply Hn. rewrite E in Hin. apply elem_of_take in Hin as (i & Hi & Hlt). apply elem_of_take. exists i. split; [done|lia].
    + apply ends_Ret. cbn [and_then]. apply ends_Ret. eexists _, _. split_and!; [done| |done| |].
      * rewrite length_drop. lia.
      * rewrite length_app length_take. lia.
      * by rewrite -assoc_L take_drop.
  - assert (r = 0) as -> by lia. apply ends_Ret. cbn [and_then]. change (Z.to_nat 0) with 0%nat. rewrite drop_0.
    assert (length buf = 1023%nat) as Hfull.
    { destruct (proj1 A3 eq_refl) as [->|]; [|lia]. rewrite app_nil_r in Hlen. lia. }
    by rewrite -{1}Hfull drop_app_length in H.
Qed.

(** ** echo *)

(** The words, a space between them and a newline at the end. *)
Fixpoint echo_line (l : list (list Z)) : list Z :=
  match l with
  | [] => []
  | [a] => a ++ [10]
  | a :: l' => a ++ 32 :: echo_line l'
  end.

Lemma echo_ends name args s : ends (λ o, o = Exited 0 (put 1 (echo_line args) s)) (echo_main (name :: args)) s.
Proof.
  unfold echo_main. change (drop 1 (name :: args)) with args. apply ends_bind. revert s.
  induction args as [|a args IH]; intros s; cbn [echo_loop].
  { apply ends_Ret. apply ends_finish. by rewrite put_nil. }
  apply ends_write, ends_write. rewrite put_put. eapply ends_mono; [|apply IH].
  intros [|st s']; cbn [and_then].
  - rewrite put_put. intros H. eapply ends_mono; [|exact H]. intros o ->. f_equal. f_equal. by destruct args; cbn; rewrite -?assoc_L ?app_nil_r.
  - rewrite put_put. intros ->. f_equal. f_equal. by destruct args; cbn; rewrite -?assoc_L ?app_nil_r.
Qed.

(** ** fmtname *)

Lemma after_slash_spec path i :
  (after_slash path i <= S i)%nat
  ∧ (∀ j, (after_slash path i <= j <= i)%nat → path !! j ≠ Some SLASH)
  ∧ (after_slash path i = 0%nat ∨ path !! pred (after_slash path i) = Some SLASH).
Proof.
  induction i as [|i IH]; cbn; case_bool_decide as E.
  - split_and!; [lia | intros j ?; lia | by right].
  - split_and!; [lia | intros j ?; by replace j with 0%nat by lia | by left].
  - split_and!; [lia | intros j ?; lia | by right].
  - destruct IH as (H1 & H2 & H3). split_and!; [lia | | done].
    intros j Hj. destruct (decide (j = S i)) as [->|]; [done|]. apply H2. lia.
Qed.

(** fmtname() is the part of the path after its last slash, blank-padded. *)
Lemma fmtname_spec path :
  ∃ dir base, path = dir ++ base ∧ SLASH ∉ base ∧ (dir = [] ∨ last dir = Some SLASH)
    ∧ fmtname path = base ++ replicate (DIRSIZ - length base) 32.
Proof.
  destruct (after_slash_spec path (length path)) as (H1 & H2 & H3).
  unfold fmtname. set (i := after_slash path (length path)) in *.
  assert (i <= length path)%nat as Hi.
  { destruct H3 as [->|H3]; [lia|]. apply lookup_lt_Some in H3. lia. }
  exists (take i path), (drop i path). split_and!.
  - by rewrite take_drop.
  - intros [j Hj]%list_elem_of_lookup. rewrite lookup_drop in Hj. apply (H2 (i + j)%nat); [|done].
    apply lookup_lt_Some in Hj. lia.
  - destruct H3 as [->|H3]; [by left|]. destruct (decide (i = 0%nat)) as [->|]; [by left|]. right.
    rewrite last_lookup length_take Nat.min_l; [lia|]. rewrite lookup_take_lt; [lia|done].
  - case_match eqn:E; [|done]. apply Nat.leb_le in E.
    replace (DIRSIZ - length (drop i path))%nat with 0%nat by lia. by rewrite app_nil_r.
Qed.

(** ** Programs that follow a protocol

    A protocol says which calls a program may make in a state, and the state
    after the answer. *)

Record protocol := Protocol {
  pstate : Type;
  may : pstate → ∀ A, sysE A → bool;
  next : pstate → ∀ A, sysE A → A → pstate
}.
#[global] Arguments may {_} _ {_} _.
#[global] Arguments next {_} _ {_} _ _.

(** The first [n] steps of a program, whatever is answered: it makes the calls
    it may, and when it returns with [m] steps to go, [Q] holds. *)
Fixpoint keeps {M : protocol} {R} (n : nat) (Q : nat → R → pstate M → Prop) (st : pstate M) (t : prog R) : Prop :=
  match n with
  | O => True
  | S n' =>
      match observe t with
      | RetF r => Q n r st
      | TauF u => keeps n' Q st u
      | VisF e k => may st e = true ∧ ∀ a, keeps n' Q (next st e a) (k a)
      end
  end.

Lemma keeps_observe {M R} n (Q : nat → R → pstate M → Prop) st t u :
  observe t = observe u → keeps n Q st u → keeps n Q st t.
Proof. intros E. destruct n; cbn; [done|]. by rewrite E. Qed.

Lemma keeps_Ret {M R} n (Q : nat → R → pstate M → Prop) st r : Q n r st → keeps n Q st (Ret r).
Proof. by destruct n. Qed.

Lemma keeps_call {M R A} n (Q : nat → R → pstate M → Prop) st (e : sysE A) (k : A → prog R) :
  may st e = true → (∀ m a, (m < n)%nat → keeps m Q (next st e a) (k a)) →
  keeps n Q st (ITree.bind (call e) k).
Proof.
  intros Hm H. destruct n as [|n]; cbn [keeps]; [done|]. rewrite observe_bind. cbn. split; [done|].
  intros a. eapply keeps_observe; [by rewrite observe_bind|]. apply H. lia.
Qed.

Lemma keeps_bind {M R A} n (Q : nat → R → pstate M → Prop) st (t : prog A) (k : A → prog R) :
  keeps n (λ m a st', keeps m Q st' (k a)) st t → keeps n Q st (ITree.bind t k).
Proof.
  revert st t. induction n as [|n IH]; intros st t; cbn [keeps]; [done|].
  rewrite observe_bind. destruct (observe t) as [r|u|X e h].
  - cbn [keeps]. done.
  - apply IH.
  - intros [Hm H]. split; [done|]. intros a. apply IH, H.
Qed.

Lemma keeps_iter {M R I} n (Q : nat → R → pstate M → Prop) st (step : I → prog (I + R)) i :
  keeps n (λ m lr st', match lr with
                       | inl j => ∀ m', (m' < m)%nat → keeps m' Q st' (ITree.iter step j)
                       | inr r => Q m r st'
                       end) st (step i) →
  keeps n Q st (ITree.iter step i).
Proof.
  intros H. apply (keeps_observe _ _ _ _ (ITree.bind (step i) (λ lr, match lr with inl j => Tau (ITree.iter step j) | inr r => Ret r end)));
    [reflexivity|].
  apply keeps_bind. revert st H. generalize (step i). clear i.
  induction n as [|n IH]; intros t st; cbn [keeps]; [done|].
  destruct (observe t) as [[j|r]|u|X e h].
  - intros H. cbn. apply H. lia.
  - intros H. exact H.
  - apply IH.
  - intros [Hm H]. split; [done|]. intros a. apply IH, H.
Qed.

(** Output goes on for as long as a character may be written. *)
Lemma keeps_chars {M} n (Q : nat → unit → pstate M → Prop) st fd bs :
  (∀ c, may st (Write fd [c]) = true ∧ ∀ r, next st (Write fd [c]) r = st) →
  (∀ m, (m <= n)%nat → Q m tt st) → keeps n Q st (put_chars fd bs).
Proof.
  intros Hw. revert n. induction bs as [|c bs IH]; intros n H; cbn [put_chars].
  - apply keeps_Ret. by apply H.
  - apply keeps_call; [apply Hw|]. intros m a Hm. rewrite (proj2 (Hw c)). apply IH. intros m' Hm'. apply H. lia.
Qed.
Lemma keeps_printf {M R} n (Q : nat → R → pstate M → Prop) st fd fmt args (k : unit → prog R) :
  (∀ c, may st (Write fd [c]) = true ∧ ∀ r, next st (Write fd [c]) r = st) →
  (∀ m, (m <= n)%nat → keeps m Q st (k tt)) → keeps n Q st (ITree.bind (fprintf fd fmt args) k).
Proof. intros Hw H. by apply keeps_bind, keeps_chars. Qed.

(** ** init

    What init has to keep track of, and the calls it may make in each case:
    it forks when there is no shell, waits when there is one, and exits only
    when fork or wait failed, or as the child whose exec failed. *)

Variant init_state := NoShell | ForkFailed | Child | ExecFailed | Shell (pid : Z) | WaitFailed.

Definition init_may (st : init_state) {A} (e : sysE A) : bool :=
  match e, st with
  | Fork, NoShell => true
  | Wait, Shell _ => true
  | Exec p argv, Child => bool_decide (p = str "sh" ∧ argv = [str "sh"])
  | Exit status, (ForkFailed | ExecFailed | WaitFailed) => status =? 1
  | Write fd _, _ => fd =? 1
  | (Open _ _ | Mknod _ _ _ | Dup _), NoShell => true
  | _, _ => false
  end.
Definition init_next (st : init_state) {A} (e : sysE A) : A → init_state :=
  match e in sysE A return A → init_state with
  | Fork => λ pid, if pid <? 0 then ForkFailed else if pid =? 0 then Child else Shell pid
  | Wait => λ wpid, match st with
                    | Shell pid => if wpid =? pid then NoShell else if wpid <? 0 then WaitFailed else st
                    | _ => st
                    end
  | Exec _ _ => λ _, ExecFailed
  | _ => λ _, st
  end.

Definition init_protocol : protocol := Protocol init_state (λ st A e, init_may st e) (λ st A e, init_next st e).

Lemma keeps_fail {R} n (Q : nat → R → pstate init_protocol → Prop) st fmt :
  st = ForkFailed ∨ st = ExecFailed ∨ st = WaitFailed → keeps n Q st (fprintf 1 fmt [] >> exit 1).
Proof.
  intros Hst. apply keeps_printf; [done|]. intros m _. apply keeps_call; [by destruct Hst as [->|[->| ->]]|]. by intros ? [].
Qed.

Lemma init_wait_keeps n pid (Q : nat → unit → pstate init_protocol → Prop) :
  0 < pid → (∀ m, (m < n)%nat → Q m tt NoShell) → keeps n Q (Shell pid : pstate init_protocol) (init_wait pid).
Proof.
  intros Hp. induction n as [n IH] using lt_wf_ind. intros H.
  unfold init_wait. apply keeps_iter, keeps_call; [done|]. intros m wpid Hm. cbn [next init_protocol init_next].
  destruct (wpid =? pid) eqn:E; [by apply keeps_Ret, H|].
  destruct (wpid <? 0); [apply keeps_fail; auto|].
  apply keeps_Ret. intros m' Hm'. apply IH; [lia|]. intros. apply H. lia.
Qed.

Lemma init_loop_keeps n : keeps n (λ _ _ _, False) (NoShell : pstate init_protocol) init_loop.
Proof.
  induction n as [n IH] using lt_wf_ind. unfold init_loop. apply keeps_iter, keeps_printf; [done|]. intros m Hm.
  apply keeps_call; [done|]. intros m1 pid Hm1. cbn [next init_protocol init_next].
  destruct (Z.ltb_spec pid 0); [apply keeps_fail; auto|].
  destruct (Z.eqb_spec pid 0).
  - apply keeps_call; [by apply bool_decide_eq_true|]. intros. apply keeps_fail; auto.
  - apply keeps_bind, init_wait_keeps; [lia|]. intros m2 Hm2. apply keeps_Ret. intros m3 Hm3. apply IH. lia.
Qed.

(** C29: Whatever the kernel answers, for any number of steps: init forks a shell
    only when there is none, waits only while there is one, and takes it for gone
    only when wait returned its number; it execs sh in the child, and it exits,
    with status 1, only when fork or wait failed, or as the child whose exec did. *)
Theorem init_one_shell n : keeps n (λ _ _ _, False) (NoShell : pstate init_protocol) init_main.
Proof.
  unfold init_main. apply keeps_call; [done|]. intros m fd _. cbn [next init_protocol init_next].
  apply keeps_bind. assert (∀ m, keeps m (λ _ _ _, False) (NoShell : pstate init_protocol) (call (Dup 0) >> call (Dup 0) >> init_loop)) as Hrest.
  { intros m'. do 2 (apply keeps_call; [done|]; intros ? ? _). apply init_loop_keeps. }
  destruct (fd <? 0); [|by apply keeps_Ret].
  apply keeps_call; [done|]. intros [|m1] r _; [done|]. cbn [keeps call ITree.trigger observe _observe]. split; [done|]. intros a. apply keeps_Ret, Hrest.
Qed.
