(* ===== verification/Ush.v ===== *)
(** The shell as a program of system calls: runcmd(), getcmd() and main() of
    user/sh.c with their error paths, and gets() of user/ulib.c.

    Sh.v has the parser, and says which programs a command starts when fork()
    succeeds; here the program that makes the calls is shown to start them. *)
From ITree Require Import ITree.
From S2P Require Import Prelude Riscv Printf Uprog Uspec Sh.
#[local] Open Scope prog_scope.

(** ** Definitions *)

Definition panic {A} (s : list Z) : prog A := fprintf 2 (NLs "%s") [s_arg s] >> exit 1.
Definition fork1 : prog Z :=
  do pid ⇐ call Fork;
  if pid =? -1 then panic (str "fork") else Ret pid.

Fixpoint runcmd (c : cmd (list Z)) : prog Empty_set :=
  match c with
  | Sh.Exec [] => exit 1
  | Sh.Exec ((a :: _) as argv) =>
      call (Uprog.Exec a argv) >> fprintf 2 (NLs "exec %s failed") [s_arg a] >> exit 0
  | Redir c file mode fd =>
      call (Close fd) >>
      do r ⇐ call (Open file mode);
      if r <? 0 then fprintf 2 (NLs "open %s failed") [s_arg file] >> exit 1 else runcmd c
  | List l r =>
      do pid ⇐ fork1;
      if pid =? 0 then runcmd l else call Wait >> runcmd r
  | Sh.Pipe l r =>
      do p ⇐ call Uprog.Pipe;
      if p.1 <? 0 then panic (str "pipe") else
      do pid ⇐ fork1;
      if pid =? 0 then
        call (Close 1) >> call (Dup p.2.2) >> call (Close p.2.1) >> call (Close p.2.2) >> runcmd l else
      do pid ⇐ fork1;
      if pid =? 0 then
        call (Close 0) >> call (Dup p.2.1) >> call (Close p.2.1) >> call (Close p.2.2) >> runcmd r else
      call (Close p.2.1) >> call (Close p.2.2) >> call Wait >> call Wait >> exit 0
  | Back c =>
      do pid ⇐ fork1;
      if pid =? 0 then runcmd c else exit 0
  end.

(** gets(): at most [k] more characters; [line] was read. *)
Fixpoint gets (k : nat) (line : list Z) : prog (list Z) :=
  match k with
  | O => Ret line
  | S k' =>
      do r ⇐ call (Read 0 1);
      if r.1 <? 1 then Ret line else
      let c := default 0 (head r.2) in
      if (c =? 10) || (c =? 13) then Ret (line ++ [c]) else gets k' (line ++ [c])
  end.
Definition LINE : nat := 100.
(** The bytes gets() stored, or [None] at the end of the input. *)
Definition getcmd : prog (option (list Z)) :=
  call (Write 2 (str "$ ")) >>
  do line ⇐ gets (LINE - 1) [];
  Ret (if default 0 (head line) =? 0 then None else Some line).

(** runcmd(parsecmd(buf)).  Sh.parse_total shows that the parser returns or
    panics. *)
Definition run_line (buf : list Z) : prog Empty_set :=
  match parseline (parse_fuel buf) buf with
  | Ok c s =>
      let s := skip_ws s in
      if bool_decide (s ≠ []) then fprintf 2 (NLs "leftovers: %s") [s_arg s] >> panic (str "syntax")
      else runcmd (run_view (nulterminate c buf) c)
  | Panic msg => panic (str msg)
  | _ => ITree.spin
  end.

(** while((fd = open("console", O_RDWR)) >= 0) *)
Definition open_console : prog unit :=
  ITree.iter (λ _ : unit,
    do fd ⇐ call (Open (str "console") O_RDWR);
    if 0 <=? fd then
      if 3 <=? fd then call (Close fd) >> Ret (inr tt) else Ret (inl tt)
    else Ret (inr tt)) tt.

Definition is_cd (buf : list Z) : bool := bool_decide (take 3 buf = str "cd ").
(** buf+3 after the last character of buf is cut off. *)
Definition cd_path (buf : list Z) : list Z := drop 3 (take (length buf - 1) buf).
(** A round of the loop of main() on a line; the string in buf ends at its
    first NUL. *)
Definition sh_line (line : list Z) : prog unit :=
  let buf := upto_nul line in
  if is_cd buf then
    do r ⇐ call (Chdir (cd_path buf));
    if r <? 0 then fprintf 2 (NLs "cannot cd %s") [s_arg (cd_path buf)] else Ret tt
  else
    do pid ⇐ fork1;
    if pid =? 0 then do v ⇐ run_line buf; match v : Empty_set with end else call Wait >> Ret tt.
Definition sh_main : prog Empty_set :=
  open_console >>
  ITree.iter (λ _ : unit,
    do cmd ⇐ getcmd;
    match cmd with
    | None => exit 0
    | Some line => sh_line line >> Ret (inl tt)
    end) tt.

(** ** The programs a command starts

    Descriptors after a call that succeeds as in Sh.v: open() as [open_ok] says,
    close(), dup() and pipe() on the table of the process.  wait() and write()
    may answer anything. *)

Section starts.
Context (open_ok : list Z → Z → bool).

Definition effect (t : fdtable) (n : nat) {A} (e : sysE A) : A → fdtable → nat → Prop :=
  match e in sysE A return A → fdtable → nat → Prop with
  | Wait | Write _ _ => λ _ t' n', t' = t ∧ n' = n
  | Close fd => λ _ t' n', t' = close_fd t fd ∧ n' = n
  | Dup fd => λ _ t' n', t' = dup_fd t fd ∧ n' = n
  | Open p mode => λ fd t' n', n' = n ∧
      match lowest t with
      | Some k => if open_ok p mode then fd = k ∧ t' = <[k := File p mode]> t else fd = -1 ∧ t' = t
      | None => fd = -1 ∧ t' = t
      end
  | Uprog.Pipe => λ p t' n',
      match lowest t with
      | Some p0 =>
          match lowest (<[p0 := PipeRead n]> t) with
          | Some p1 => p = (0, (p0, p1)) ∧ t' = <[p1 := PipeWrite n]> (<[p0 := PipeRead n]> t) ∧ n' = S n
          | None => p.1 = -1 ∧ t' = t ∧ n' = n
          end
      | None => p.1 = -1 ∧ t' = t ∧ n' = n
      end
  | _ => λ _ _ _, False
  end.

(** The process with descriptors [t] and its children end or exec the programs
    [ps]; [n] and [m] number the pipes before and after.  fork() gives a copy of
    the descriptors to the child. *)
Inductive starts : prog Empty_set → fdtable → nat → list program → nat → Prop :=
| starts_exit p t n st k : observe p = VisF (Exit st) k → starts p t n [] n
| starts_exec p t n path argv k : observe p = VisF (Uprog.Exec path argv) k → starts p t n [(argv, t)] n
| starts_fork p t n k ps n1 qs n2 :
    observe p = VisF Fork k → starts (k 0) t n ps n1 → (∀ pid, 0 < pid → starts (k pid) t n1 qs n2) →
    starts p t n (ps ++ qs) n2
| starts_call p t n A (e : sysE A) k ps m :
    observe p = VisF e k → (∃ a t' n', effect t n e a t' n') →
    (∀ a t' n', effect t n e a t' n' → starts (k a) t' n' ps m) → starts p t n ps m.

Lemma starts_observe p q t n ps m : observe p = observe q → starts q t n ps m → starts p t n ps m.
Proof using Type.
  intros E H. destruct H as [q t n st k Eq|q t n path argv k Eq|q t n k ps n1 qs n2 Eq H1 H2|q t n A e k ps m Eq Hp H];
    rewrite -E in Eq.
  - exact (starts_exit _ _ _ _ _ Eq).
  - exact (starts_exec _ _ _ _ _ _ Eq).
  - exact (starts_fork _ _ _ _ _ _ _ _ Eq H1 H2).
  - exact (starts_call _ _ _ _ _ _ _ _ Eq Hp H).
Qed.

Lemma starts_bind_call {A} (e : sysE A) (k : A → prog Empty_set) t n ps m :
  (∃ a t' n', effect t n e a t' n') → (∀ a t' n', effect t n e a t' n' → starts (k a) t' n' ps m) →
  starts (ITree.bind (call e) k) t n ps m.
Proof using Type.
  intros Hp H. eapply starts_call; [by rewrite observe_bind|done|]. intros a t' n' He.
  eapply starts_observe; [by rewrite observe_bind|]. by apply H.
Qed.

Lemma starts_finish st t n : starts (exit st) t n [] n.
Proof using Type. eapply starts_exit. by rewrite /exit observe_bind. Qed.

Lemma starts_fork1 k t n ps n1 qs n2 :
  starts (k 0) t n ps n1 → (∀ pid, 0 < pid → starts (k pid) t n1 qs n2) →
  starts (ITree.bind fork1 k) t n (ps ++ qs) n2.
Proof using Type.
  intros H1 H2. eapply (starts_fork _ _ _ _ _ n1).
  - rewrite observe_bind. unfold fork1. rewrite observe_bind. reflexivity.
  - eapply starts_observe; [|exact H1]. rewrite observe_bind observe_bind. reflexivity.
  - intros pid Hp. eapply starts_observe; [|exact (H2 pid Hp)]. rewrite observe_bind observe_bind. cbn.
    rewrite (proj2 (Z.eqb_neq pid (-1))); [lia|]. reflexivity.
Qed.

Lemma starts_printf fd fmt args k t n ps m :
  starts (k tt) t n ps m → starts (ITree.bind (fprintf fd fmt args) k) t n ps m.
Proof using Type.
  unfold fprintf. generalize (vprintf fmt args). intros bs H. induction bs as [|c bs IH]; cbn [put_chars].
  - eapply starts_observe; [|exact H]. by rewrite observe_bind.
  - eapply starts_call; [by rewrite observe_bind observe_bind|by exists 0, t, n|].
    intros a t' n' [-> ->]. eapply starts_observe; [|exact IH]. rewrite observe_bind observe_bind observe_bind. reflexivity.
Qed.

Lemma starts_panic msg t n : starts (panic msg) t n [] n.
Proof using Type. apply starts_printf, starts_finish. Qed.

(** The calls that answer anything, and those whose answer is not looked at. *)
Lemma starts_close fd k t n ps m :
  (∀ r, starts (k r) (close_fd t fd) n ps m) → starts (ITree.bind (call (Close fd)) k) t n ps m.
Proof using Type. intros H. apply starts_bind_call; [by exists 0, (close_fd t fd), n|]. by intros a t' n' [-> ->]. Qed.
Lemma starts_dup fd k t n ps m :
  (∀ r, starts (k r) (dup_fd t fd) n ps m) → starts (ITree.bind (call (Dup fd)) k) t n ps m.
Proof using Type. intros H. apply starts_bind_call; [by exists 0, (dup_fd t fd), n|]. by intros a t' n' [-> ->]. Qed.
Lemma starts_wait k t n ps m : (∀ r, starts (k r) t n ps m) → starts (ITree.bind (call Wait) k) t n ps m.
Proof using Type. intros H. apply starts_bind_call; [by exists 0, t, n|]. by intros a t' n' [-> ->]. Qed.

Lemma lowest_range t k : lowest t = Some k → 0 <= k.
Proof using Type.
  unfold lowest. intros H. apply head_Some_elem_of in H. apply list_elem_of_filter in H as [_ H].
  apply elem_of_seqZ in H. lia.
Qed.

Lemma starts_open w mode k t n ps m :
  match lowest t with
  | Some fd => if open_ok w mode then starts (k fd) (<[fd := File w mode]> t) n ps m else starts (k (-1)) t n ps m
  | None => starts (k (-1)) t n ps m
  end → starts (ITree.bind (call (Open w mode)) k) t n ps m.
Proof using Type.
  intros H. apply starts_bind_call; unfold effect; destruct (lowest t) as [fd|]; try destruct (open_ok w mode);
    (eexists _, _, n; by eauto) || (intros a t' n' [-> [-> ->]]; exact H).
Qed.
Lemma starts_pipe k t n ps m :
  match lowest t with
  | Some p0 =>
      match lowest (<[p0 := PipeRead n]> t) with
      | Some p1 => starts (k (0, (p0, p1))) (<[p1 := PipeWrite n]> (<[p0 := PipeRead n]> t)) (S n) ps m
      | None => ∀ p, starts (k (-1, p)) t n ps m
      end
  | None => ∀ p, starts (k (-1, p)) t n ps m
  end → starts (ITree.bind (call Uprog.Pipe) k) t n ps m.
Proof using Type.
  intros H. apply starts_bind_call; unfold effect; destruct (lowest t) as [p0|];
    try destruct (lowest (<[p0 := PipeRead n]> t)) as [p1|];
    (eexists _, _, _; by eauto) || (by exists (-1, (0, 0)), t, n) || intros [r p] t' n' (E & -> & ->).
  - injection E as -> ->. exact H.
  - cbn in E. subst r. apply H.
  - cbn in E. subst r. apply H.
Qed.
(** The parent goes on as from any other number than 0. *)
Lemma starts_fork0 (child : prog Empty_set) parent t n ps n1 qs n2 :
  starts child t n ps n1 → starts parent t n1 qs n2 →
  starts (do pid ⇐ fork1; if pid =? 0 then child else parent) t n (ps ++ qs) n2.
Proof using Type.
  intros H1 H2. apply starts_fork1 with n1; [exact H1|]. intros pid Hp. by rewrite (proj2 (Z.eqb_neq pid 0)); [lia|].
Qed.

(** The program of runcmd() starts the programs that Sh.v lists. *)
Lemma runcmd_starts c t n : starts (runcmd c) t n (Sh.runcmd open_ok c t n).1 (Sh.runcmd open_ok c t n).2.
Proof using Type.
  revert t n. induction c as [args|c IH w mode fd|l IHl r IHr|l IHl r IHr|c IH]; intros t n.
  - destruct args as [|a args]; cbn [runcmd Sh.runcmd fst snd].
    + rewrite bool_decide_true; [done|]. apply starts_finish.
    + rewrite bool_decide_false; [done|]. eapply starts_exec. by rewrite observe_bind.
  - cbn [runcmd Sh.runcmd]. apply starts_close. intros _. apply starts_open.
    destruct (lowest _) as [k|] eqn:El; [|apply starts_printf, starts_finish].
    destruct (open_ok w mode); [|apply starts_printf, starts_finish].
    rewrite (proj2 (Z.ltb_ge k 0)); [exact (lowest_range _ _ El)|]. apply IH.
  - cbn [runcmd Sh.runcmd]. apply starts_pipe. destruct (lowest t) as [p0|]; [|intros p; apply starts_panic].
    destruct (lowest _) as [p1|]; [|intros p; apply starts_panic].
    cbn [fst snd Z.ltb Z.compare]. set (t2 := <[p1:=PipeWrite n]> (<[p0:=PipeRead n]> t)).
    specialize (IHl (close_fd (close_fd (dup_fd (close_fd t2 1) p1) p0) p1) (S n)).
    destruct (Sh.runcmd open_ok l _ _) as [ps k].
    specialize (IHr (close_fd (close_fd (dup_fd (close_fd t2 0) p0) p0) p1) k).
    destruct (Sh.runcmd open_ok r _ _) as [qs k']. cbn [fst snd] in *. apply starts_fork0 with k.
    { apply starts_close. intros _. apply starts_dup. intros _. do 2 (apply starts_close; intros _). exact IHl. }
    rewrite -(app_nil_r qs). apply starts_fork0 with k'.
    { apply starts_close. intros _. apply starts_dup. intros _. do 2 (apply starts_close; intros _). exact IHr. }
    do 2 (apply starts_close; intros _). do 2 (apply starts_wait; intros _). apply starts_finish.
  - cbn [runcmd Sh.runcmd]. specialize (IHl t n). destruct (Sh.runcmd open_ok l _ _) as [ps k].
    specialize (IHr t k). destruct (Sh.runcmd open_ok r _ _) as [qs k']. cbn [fst snd] in *.
    apply starts_fork0 with k; [exact IHl|]. apply starts_wait. intros _. exact IHr.
  - cbn [runcmd Sh.runcmd]. rewrite -(app_nil_r (Sh.runcmd open_ok c t n).1).
    apply starts_fork0 with (Sh.runcmd open_ok c t n).2; [apply IH|apply starts_finish].
Qed.
End starts.

(** C27: The child that the shell forks for a line starts what the line says: for
    every command the language can express, parsing its text and running it makes
    calls that start exactly the programs of the command, each with its
    redirections and pipes as descriptors 0, 1 and 2 and with no other
    descriptor open. *)
Theorem sh_starts open_ok c t n : cmd_wf c → standard t →
  ∃ ps m, starts open_ok (run_line (print 3 c)) t n ps m ∧ (ps, m) = Sh.runcmd open_ok c t n
    ∧ Forall (λ p : program, standard p.2) ps.
Proof.
  intros Hwf Hs. destruct (parseline_print c Hwf) as (u & Hu & Hv).
  exists (Sh.runcmd open_ok c t n).1, (Sh.runcmd open_ok c t n).2. split_and!.
  - unfold run_line. rewrite Hu Hv. cbn [skip_ws]. rewrite bool_decide_false; [tauto|]. apply runcmd_starts.
  - by destruct (Sh.runcmd open_ok c t n).
  - by apply no_leaked_descriptors.
Qed.

Lemma sh_starts_witness :
  ∃ ps m, starts (λ _ _, true) (run_line (print 3 ex_cmd)) std_fds 0 ps m
    ∧ (ps, m) = Sh.runcmd (λ _ _, true) ex_cmd std_fds 0 ∧ Forall (λ p : program, standard p.2) ps.
Proof. apply (sh_starts (λ _ _, true) ex_cmd std_fds 0); [exact ex_cmd_wf|exact std_fds_standard]. Defined.

(** ** The loop of the shell

    The shell prompts, reads a line, and either changes its own directory or
    forks a child and waits for it. *)

Variant sh_state :=
| Start                                 (* opening the console *)
| Idle                                  (* between two commands *)
| Reading (line : list Z) (fin : bool)  (* since the prompt; whether the line ended *)
| Forked                                (* a child runs *)
| Failed                                (* fork failed *)
| Kid.                                  (* the child *)

Definition at_end (line : list Z) : bool := default 0 (head line) =? 0.
Definition complete (line : list Z) (fin : bool) : bool := fin || (length line =? LINE - 1)%nat.

Definition sh_may (st : sh_state) {A} (e : sysE A) : bool :=
  match st, e with
  | Start, (Open _ _ | Close _) => true
  | (Start | Idle | Failed), Write fd _ => fd =? 2
  | Reading line fin, Read fd n => (fd =? 0) && (n =? 1) && negb (complete line fin)
  | Reading line fin, Fork => complete line fin && negb (at_end line) && negb (is_cd (upto_nul line))
  | Reading line fin, Chdir p =>
      complete line fin && negb (at_end line) && is_cd (upto_nul line) && bool_decide (p = cd_path (upto_nul line))
  | Reading line fin, Exit status => complete line fin && at_end line && (status =? 0)
  | Forked, Wait => true
  | Failed, Exit status => status =? 1
  | Kid, _ => true
  | _, _ => false
  end.
Definition sh_next (st : sh_state) {A} (e : sysE A) : A → sh_state :=
  match st with
  | Kid => λ _, Kid
  | _ =>
    match e in sysE A return A → sh_state with
    | Write _ bs => λ _, match st with
                         | Start | Idle => if bool_decide (bs = str "$ ") then Reading [] false else st
                         | _ => st
                         end
    | Read _ _ => λ r, match st with
                       | Reading line fin =>
                           if r.1 <? 1 then Reading line true else
                           let c := default 0 (head r.2) in Reading (line ++ [c]) ((c =? 10) || (c =? 13))
                       | _ => st
                       end
    | Fork => λ pid, if pid =? -1 then Failed else if pid =? 0 then Kid else Forked
    | Wait | Chdir _ => λ _, Idle
    | _ => λ _, st
    end
  end.
Definition sh_protocol : protocol := Protocol sh_state (λ st A e, sh_may st e) (λ st A e, sh_next st e).

Lemma kid_keeps {R} n (Q : nat → R → pstate sh_protocol → Prop) (t : prog R) :
  (∀ m r, Q m r Kid) → keeps n Q (Kid : pstate sh_protocol) t.
Proof.
  intros HQ. revert t. induction n as [|n IH]; intros t; cbn [keeps]; [done|].
  destruct (observe t) as [r|u|X e k]; [apply HQ|apply IH|]. split; [done|]. intros a. apply IH.
Qed.

Lemma gets_keeps k line n (Q : nat → list Z → pstate sh_protocol → Prop) :
  (length line + k = LINE - 1)%nat →
  (∀ m line' fin, (m <= n)%nat → complete line' fin = true → Q m line' (Reading line' fin)) →
  keeps n Q (Reading line false : pstate sh_protocol) (gets k line).
Proof.
  intros Hk HQ. revert line n Hk HQ. induction k as [|k IH]; intros line n Hk HQ; cbn [gets].
  - apply keeps_Ret, HQ; [lia|]. unfold complete. cbn [orb]. apply Nat.eqb_eq. lia.
  - apply keeps_call.
    + cbn -[LINE]. unfold complete. cbn [orb]. by rewrite (proj2 (Nat.eqb_neq _ _)); [lia|].
    + intros m [r b] Hm. cbn [next sh_protocol sh_next fst snd]. destruct (r <? 1); [by apply keeps_Ret, HQ; [lia|]|].
      destruct ((default 0 (head b) =? 10) || (default 0 (head b) =? 13)); [by apply keeps_Ret, HQ; [lia|]|].
      apply IH; [rewrite length_app; cbn [length]; lia|]. intros m' line' fin Hm'. apply HQ. lia.
Qed.

Lemma sh_writes st c : st = Idle ∨ st = Failed →
  may (p:=sh_protocol) st (Write 2 [c]) = true ∧ ∀ r, next (p:=sh_protocol) st (Write 2 [c]) r = st.
Proof. intros [-> | ->]; [|done]. split; [done|]. intros r. cbn. by rewrite bool_decide_false. Qed.

Lemma sh_line_keeps line fin n (Q : nat → unit → pstate sh_protocol → Prop) :
  complete line fin = true → at_end line = false → (∀ m, (m < n)%nat → Q m tt Idle) →
  keeps n Q (Reading line fin : pstate sh_protocol) (sh_line line).
Proof.
  intros Hc He HQ. unfold sh_line. destruct (is_cd (upto_nul line)) eqn:Ecd.
  - apply keeps_call.
    { cbn -[is_cd cd_path]. by rewrite Hc He Ecd bool_decide_true. }
    intros m r Hm. cbn [next sh_protocol sh_next]. destruct (r <? 0); [|by apply keeps_Ret, HQ].
    apply keeps_chars; [intros c; apply sh_writes; by left|]. intros m' Hm'. apply HQ. lia.
  - unfold fork1. apply keeps_bind, keeps_call.
    { cbn -[is_cd]. by rewrite Hc He Ecd. }
    intros m pid Hm. cbn [next sh_protocol sh_next]. destruct (Z.eqb_spec pid (-1)).
    { apply keeps_printf; [intros c; apply sh_writes; by right|]. intros m' _. apply keeps_call; [done|]. by intros ? []. }
    apply keeps_Ret. destruct (Z.eqb_spec pid 0).
    + apply keeps_bind, kid_keeps. by intros ? [].
    + apply keeps_call; [done|]. intros m' r Hm'. apply keeps_Ret, HQ. lia.
Qed.

Lemma sh_loop_keeps n st : st = Start ∨ st = Idle →
  keeps (R:=Empty_set) n (λ _ _ _, False) (st : pstate sh_protocol)
    (ITree.iter (λ _ : unit, do cmd ⇐ getcmd; match cmd with None => exit 0 | Some line => sh_line line >> Ret (inl tt) end) tt).
Proof.
  revert st. induction n as [n IH] using lt_wf_ind. intros st Hst. apply keeps_iter, keeps_bind.
  unfold getcmd. apply keeps_call; [by destruct Hst as [-> | ->]|]. intros m r Hm.
  assert (next (p:=sh_protocol) st (Write 2 (str "$ ")) r = Reading [] false) as ->.
  { destruct Hst as [-> | ->]; cbn [next sh_protocol sh_next]; by rewrite bool_decide_true. }
  apply keeps_bind, gets_keeps; [done|]. intros m1 line fin Hm1 Hc. apply keeps_Ret. fold (at_end line).
  destruct (at_end line) eqn:He.
  - apply keeps_call; [|by intros ? []]. cbn [may sh_protocol sh_may]. by rewrite Hc He.
  - apply keeps_bind, sh_line_keeps; [done..|]. intros m2 Hm2. apply keeps_Ret. intros m3 Hm3. apply IH; [lia|by right].
Qed.

(** C28: Whatever the kernel answers, for any number of steps: after its prompt the
    shell reads a line of at most 99 bytes, a byte at a time; it changes its own
    directory when the line begins with cd, exits when the input ended, and
    otherwise forks one child and waits before the next prompt.  It exits with
    status 1 only when fork failed. *)
Theorem sh_serves n : keeps n (λ _ _ _, False) (Start : pstate sh_protocol) sh_main.
Proof.
  unfold sh_main. apply keeps_bind. unfold open_console. induction n as [n IH] using lt_wf_ind.
  apply keeps_iter, keeps_call; [done|]. intros m fd Hm. cbn [next sh_protocol sh_next].
  destruct (0 <=? fd); [destruct (3 <=? fd)|].
  - apply keeps_call; [done|]. intros m1 r Hm1. apply keeps_Ret, sh_loop_keeps. by left.
  - apply keeps_Ret. intros m1 Hm1. apply IH. lia.
  - apply keeps_Ret, sh_loop_keeps. by left.
Qed.
